(** * Simstim: permission lifecycle, audit chain, policies and callbacks

    A shallow embedding of the Python sources under [src/simstim] and the
    properties of their specification.  Python [str] values are modelled
    by [string] over the code points 0..255, [bytes] by [list ascii],
    [int] by [Z], dictionaries by [gmap] or by association lists where
    the insertion order is observable. *)

From Stdlib Require Import ZArith Ascii String List Lia Bool.
From Stdlib Require Import DecimalString QArith Qcanon Lqa.
From stdpp Require Import base option list numbers gmap strings.

Local Open Scope Z_scope.
Set Warnings "-register-all".


(** ** Python built-ins used throughout *)

Module Py.

Abbreviation bytes := (list ascii).

(** Outcome of a call that can raise: [Raised e] or [Returned v]. *)
Inductive exn : Set :=
  | IndexError | ValueError | TypeError | AttributeError | OverflowError.

Inductive result (A : Type) : Type :=
  | Raised (e : exn)
  | Returned (v : A).
Arguments Raised {A} e.
Arguments Returned {A} v.

Definition value_or {A} (d : A) (r : result A) : A :=
  match r with
  | Returned v => v
  | Raised _ => d
  end.

Definition byte_val (c : ascii) : Z := Z.of_N (N_of_ascii c).
Definition byte_of (z : Z) : ascii := ascii_of_N (Z.to_N (z mod 256)).

Definition chars (s : string) : list ascii := list_ascii_of_string s.
Definition str_of (l : list ascii) : string := string_of_list_ascii l.

(** [str.isspace] on the modelled code points. *)
Definition isspace (c : ascii) : bool :=
  let n := byte_val c in
  ((9 <=? n) && (n <=? 13)) || ((28 <=? n) && (n <=? 32))
  || (n =? 133) || (n =? 160).

Fixpoint lstrip (l : list ascii) : list ascii :=
  match l with
  | c :: r => if isspace c then lstrip r else l
  | [] => []
  end.

(** [s.strip()] *)
Definition strip (l : list ascii) : list ascii :=
  rev (lstrip (rev (lstrip l))).

(** [c in s] for a one-character [c]. *)
Definition contains (c : ascii) (l : list ascii) : bool :=
  existsb (Ascii.eqb c) l.

(** [s.index(c)]: position of the first occurrence; the callers check
    [c in s] first, so the [ValueError] branch is never taken by them. *)
Fixpoint index (c : ascii) (l : list ascii) : option nat :=
  match l with
  | [] => None
  | x :: r => if Ascii.eqb c x then Some O else S <$> index c r
  end.

(** [s[i:j]] for in-range, non-negative bounds. *)
Definition slice (i j : nat) (l : list ascii) : list ascii :=
  take (j - i)%nat (drop i l).

(** [s.split(sep)] for a one-character separator: never empty. *)
Fixpoint split (sep : ascii) (l : list ascii) : list (list ascii) :=
  match l with
  | [] => [[]]
  | c :: r =>
      if Ascii.eqb c sep then [] :: split sep r
      else match split sep r with
           | w :: ws => (c :: w) :: ws
           | [] => [[c]]
           end
  end.

(** Splits off the text after the last [sep], when there is one. *)
Fixpoint rcut (sep : ascii) (l : list ascii)
  : option (list ascii * list ascii) :=
  match l with
  | [] => None
  | c :: r =>
      match rcut sep r with
      | Some (a, b) => Some (c :: a, b)
      | None => if Ascii.eqb c sep then Some ([], r) else None
      end
  end.

(** [s.rsplit(sep, 2)] *)
Definition rsplit2 (sep : ascii) (l : list ascii) : list (list ascii) :=
  match rcut sep l with
  | None => [l]
  | Some (a, z) =>
      match rcut sep a with
      | None => [a; z]
      | Some (x, y) => [x; y; z]
      end
  end.

(** [str.lower] on the modelled code points: A-Z and the Latin-1
    capitals other than the multiplication sign. *)
Definition lower_char (c : ascii) : ascii :=
  let n := byte_val c in
  if ((65 <=? n) && (n <=? 90))
     || ((192 <=? n) && (n <=? 222) && negb (n =? 215))
  then byte_of (n + 32) else c.

Definition lower (l : list ascii) : list ascii := map lower_char l.

(** Lower-case hexadecimal digit of a value below 16. *)
Definition hexdigit (n : Z) : ascii :=
  if n <? 10 then byte_of (48 + n) else byte_of (87 + n).

(** [b.hex()] *)
Definition hex (b : bytes) : list ascii :=
  flat_map (fun c => [hexdigit (byte_val c / 16); hexdigit (byte_val c mod 16)]) b.

Definition hexval (c : ascii) : option Z :=
  let n := byte_val c in
  if (48 <=? n) && (n <=? 57) then Some (n - 48)
  else if (97 <=? n) && (n <=? 102) then Some (n - 87)
  else if (65 <=? n) && (n <=? 70) then Some (n - 55)
  else None.

(** ASCII white space, skipped by [bytes.fromhex] between bytes. *)
Definition is_ascii_space (c : ascii) : bool :=
  let n := byte_val c in ((9 <=? n) && (n <=? 13)) || (n =? 32).

(** [bytes.fromhex(s)]; [None] stands for its [ValueError]. *)
Fixpoint fromhex (l : list ascii) : option bytes :=
  match l with
  | [] => Some []
  | c :: r =>
      if is_ascii_space c then fromhex r
      else match r with
           | d :: r' =>
               match hexval c, hexval d with
               | Some hi, Some lo => (byte_of (16 * hi + lo) ::.) <$> fromhex r'
               | _, _ => None
               end
           | [] => None
           end
  end.

(** [s.encode()] (UTF-8) on the modelled code points. *)
Definition utf8 (l : list ascii) : bytes :=
  flat_map (fun c =>
    let n := byte_val c in
    if n <? 128 then [c]
    else [byte_of (192 + n / 64); byte_of (128 + n mod 64)]) l.

Definition is_ascii (l : list ascii) : bool :=
  forallb (fun c => byte_val c <? 128) l.

End Py.

(** ** SHA-256 and HMAC, as [hashlib.sha256] and [hmac.new] compute them
    (FIPS 180-4, RFC 2104) *)

Module Sha256.

Definition w32 (x : Z) : Z := x mod 4294967296.
Definition add32 (x y : Z) : Z := w32 (x + y).
Definition rotr (n x : Z) : Z :=
  Z.lor (Z.shiftr x n) (w32 (Z.shiftl x (32 - n))).
Definition not32 (x : Z) : Z := 4294967295 - x.

Definition ch (x y z : Z) : Z := Z.lxor (Z.land x y) (Z.land (not32 x) z).
Definition maj (x y z : Z) : Z :=
  Z.lxor (Z.lxor (Z.land x y) (Z.land x z)) (Z.land y z).
Definition bsig0 (x : Z) : Z := Z.lxor (Z.lxor (rotr 2 x) (rotr 13 x)) (rotr 22 x).
Definition bsig1 (x : Z) : Z := Z.lxor (Z.lxor (rotr 6 x) (rotr 11 x)) (rotr 25 x).
Definition ssig0 (x : Z) : Z := Z.lxor (Z.lxor (rotr 7 x) (rotr 18 x)) (Z.shiftr x 3).
Definition ssig1 (x : Z) : Z := Z.lxor (Z.lxor (rotr 17 x) (rotr 19 x)) (Z.shiftr x 10).

Definition primes : list Z :=
  [2; 3; 5; 7; 11; 13; 17; 19; 23; 29; 31; 37; 41; 43; 47; 53; 59; 61; 67;
   71; 73; 79; 83; 89; 97; 101; 103; 107; 109; 113; 127; 131; 137; 139; 149;
   151; 157; 163; 167; 173; 179; 181; 191; 193; 197; 199; 211; 223; 227; 229;
   233; 239; 241; 251; 257; 263; 269; 271; 277; 281; 283; 293; 307; 311].

(** Integer cube root below [2 ^ bits], one bit at a time. *)
Fixpoint cube_root (bits : nat) (n r : Z) : Z :=
  match bits with
  | O => r
  | S k =>
      let c := r + 2 ^ Z.of_nat k in
      cube_root k n (if c * c * c <=? n then c else r)
  end.

(** The constants of the standard: the first 32 bits of the fractional
    parts of the cube roots, and of the square roots, of the primes. *)
Definition round_constants : list Z :=
  map (fun p => w32 (cube_root 36 (p * 2 ^ 96) 0)) primes.

Definition initial_hash : list Z :=
  map (fun p => w32 (Z.sqrt (p * 2 ^ 64))) (take 8 primes).

(** Big-endian bytes of a value, [n] of them. *)
Fixpoint be_bytes (n : nat) (x : Z) : Py.bytes :=
  match n with
  | O => []
  | S k => Py.byte_of (Z.shiftr x (8 * Z.of_nat k)) :: be_bytes k x
  end.

Definition be_value (b : Py.bytes) : Z :=
  fold_left (fun acc c => 256 * acc + Py.byte_val c) b 0.

(** Message padded to a multiple of 64 bytes. *)
Definition pad (msg : Py.bytes) : Py.bytes :=
  let len := Z.of_nat (length msg) in
  let zeros := Z.to_nat ((55 - len) mod 64) in
  msg ++ Py.byte_of 128 :: repeat (Py.byte_of 0) zeros ++ be_bytes 8 (8 * len).

Fixpoint chunks (fuel size : nat) (l : Py.bytes) : list Py.bytes :=
  match fuel with
  | O => []
  | S f => match l with
           | [] => []
           | _ => take size l :: chunks f size (drop size l)
           end
  end.

(** Message schedule, most recent word first. *)
Fixpoint extend (n : nat) (rw : list Z) : list Z :=
  match n with
  | O => rw
  | S k =>
      match rw with
      | w2 :: _ =>
          let nth i := List.nth i rw 0 in
          extend k (add32 (add32 (ssig1 (nth 1%nat)) (nth 6%nat))
                          (add32 (ssig0 (nth 14%nat)) (nth 15%nat)) :: rw)
      | [] => rw
      end
  end.

Definition schedule (block : Py.bytes) : list Z :=
  rev (extend 48 (rev (map be_value (chunks 16 4 block)))).

Definition round (st : list Z) (kw : Z * Z) : list Z :=
  match st with
  | [a; b; c; d; e; f; g; h] =>
      let t1 := add32 (add32 (add32 h (bsig1 e)) (add32 (ch e f g) (fst kw))) (snd kw) in
      let t2 := add32 (bsig0 a) (maj a b c) in
      [add32 t1 t2; a; b; c; add32 d t1; e; f; g]
  | _ => st
  end.

Definition compress (h : list Z) (block : Py.bytes) : list Z :=
  let st := fold_left round (combine round_constants (schedule block)) h in
  map (fun p => add32 (fst p) (snd p)) (combine h st).

Definition digest (msg : Py.bytes) : Py.bytes :=
  let p := pad msg in
  flat_map (be_bytes 4) (fold_left compress (chunks (length p) 64 p) initial_hash).

(** [hmac.new(key, msg, hashlib.sha256).digest()] *)
Definition hmac (key msg : Py.bytes) : Py.bytes :=
  let k0 := if (64 <? Z.of_nat (length key)) then digest key else key in
  let k := k0 ++ repeat (Py.byte_of 0) (64 - length k0) in
  let mask m := map (fun c => Py.byte_of (Z.lxor (Py.byte_val c) m)) k in
  digest (mask 0x5c ++ digest (mask 0x36 ++ msg)).

Definition hmac_hexdigest (key msg : Py.bytes) : string :=
  Py.str_of (Py.hex (hmac key msg)).

End Sha256.

(** ** [base64], [int] and [str] conversions of the standard library *)

Module Base64.

Definition alphabet : list ascii :=
  Py.chars "ABCDEFGHIJKLMNOPQRSTUVWXYZabcdefghijklmnopqrstuvwxyz0123456789-_".

Definition b64char (v : Z) : ascii := List.nth (Z.to_nat v) alphabet "="%char.

(** Value of a character after the URL-safe translation ([-] and [_]
    become [+] and [/], which stay accepted themselves). *)
Definition b64val (c : ascii) : option Z :=
  let n := Py.byte_val c in
  if (65 <=? n) && (n <=? 90) then Some (n - 65)
  else if (97 <=? n) && (n <=? 122) then Some (n - 71)
  else if (48 <=? n) && (n <=? 57) then Some (n + 4)
  else if (n =? 43) || (n =? 45) then Some 62
  else if (n =? 47) || (n =? 95) then Some 63
  else None.

(** [base64.urlsafe_b64encode(b).decode()] *)
Fixpoint urlsafe_b64encode (b : Py.bytes) : list ascii :=
  match b with
  | x :: y :: z :: r =>
      let '(x, y, z) := (Py.byte_val x, Py.byte_val y, Py.byte_val z) in
      b64char (x / 4) :: b64char (x mod 4 * 16 + y / 16)
      :: b64char (y mod 16 * 4 + z / 64) :: b64char (z mod 64)
      :: urlsafe_b64encode r
  | [x; y] =>
      let '(x, y) := (Py.byte_val x, Py.byte_val y) in
      [b64char (x / 4); b64char (x mod 4 * 16 + y / 16);
       b64char (y mod 16 * 4); "="%char]
  | [x] =>
      let x := Py.byte_val x in
      [b64char (x / 4); b64char (x mod 4 * 16); "="%char; "="%char]
  | [] => []
  end.

(** [binascii.a2b_base64] in its default, lenient mode: characters
    outside the alphabet are skipped, a complete pad sequence ends the
    input, a dangling group is an error ([None]). *)
Fixpoint a2b_base64 (l : list ascii) (quad left pads : Z) : option Py.bytes :=
  match l with
  | [] => if quad =? 0 then Some [] else None
  | c :: r =>
      if Ascii.eqb c "="%char then
        if 2 <=? quad then
          if 4 <=? quad + (pads + 1) then Some []
          else a2b_base64 r quad left (pads + 1)
        else a2b_base64 r quad left pads
      else
        match b64val c with
        | None => a2b_base64 r quad left pads
        | Some v =>
            if quad =? 0 then a2b_base64 r 1 v 0
            else if quad =? 1 then
              (Py.byte_of (left * 4 + v / 16) ::.) <$> a2b_base64 r 2 (v mod 16) 0
            else if quad =? 2 then
              (Py.byte_of (left * 16 + v / 4) ::.) <$> a2b_base64 r 3 (v mod 4) 0
            else
              (Py.byte_of (left * 64 + v) ::.) <$> a2b_base64 r 0 0 0
        end
  end.

(** [base64.urlsafe_b64decode(s)] for a [str] argument; [None] stands for
    the exception it raises (non-ASCII text or bad padding). *)
Definition urlsafe_b64decode (s : list ascii) : option Py.bytes :=
  if Py.is_ascii s then a2b_base64 s 0 0 0 else None.

End Base64.

Module PyInt.

Definition digit_char (d : Z) : ascii := Py.byte_of (48 + d).

Fixpoint digits (fuel : nat) (n : Z) (acc : list ascii) : list ascii :=
  match fuel with
  | O => acc
  | S f =>
      let acc' := digit_char (n mod 10) :: acc in
      if n <? 10 then acc' else digits f (n / 10) acc'
  end.

(** [str(n)] *)
Definition str (n : Z) : list ascii :=
  if n <? 0 then "-"%char :: digits (S (Z.to_nat (Z.log2 (- n)))) (- n) []
  else digits (S (Z.to_nat (Z.log2 n))) n [].

Definition digit_val (c : ascii) : option Z :=
  let n := Py.byte_val c in
  if (48 <=? n) && (n <=? 57) then Some (n - 48) else None.

(** Digits with single underscores between them, as [int()] accepts;
    [prev] tells whether the previous character was a digit. *)
Fixpoint parse_digits (l : list ascii) (prev : bool) (acc : Z) : option Z :=
  match l with
  | [] => if prev then Some acc else None
  | c :: r =>
      match digit_val c with
      | Some d => parse_digits r true (10 * acc + d)
      | None =>
          if Ascii.eqb c "_"%char && prev then parse_digits r false acc
          else None
      end
  end.

(** The characters that [int()] skips around a number: the white space
    of the ASCII range as C has it, and the code points above it that
    [str.isspace] accepts.  The separators 0x1C to 0x1F, white space
    for [str.isspace], are not among them. *)
Definition is_blank (c : ascii) : bool :=
  let n := Py.byte_val c in
  ((9 <=? n) && (n <=? 13)) || (n =? 32) || (n =? 133) || (n =? 160).

Fixpoint lskip (l : list ascii) : list ascii :=
  match l with
  | c :: r => if is_blank c then lskip r else l
  | [] => []
  end.

Definition skip_blanks (l : list ascii) : list ascii :=
  rev (lskip (rev (lskip l))).

(** [int(s)] in base ten; [None] stands for its [ValueError]. *)
Definition parse (s : list ascii) : option Z :=
  match skip_blanks s with
  | c :: r =>
      if Ascii.eqb c "-"%char then Z.opp <$> parse_digits r false 0
      else if Ascii.eqb c "+"%char then parse_digits r false 0
      else parse_digits (c :: r) false 0
  | [] => None
  end.

End PyInt.

(** ** [security/crypto.py] *)

Module Crypto.

Definition CALLBACK_MAX_AGE_SECONDS : Z := 300.

Record SignedCallbackData := {
  payload : string;
  timestamp : Z;
  signature : string;
}.

Definition bar : ascii := "|"%char.

(** [s.rstrip("=")] *)
Definition rstrip_eq (l : list ascii) : list ascii :=
  rev ((fix go (l : list ascii) :=
          match l with
          | c :: r => if Ascii.eqb c "="%char then go r else l
          | [] => []
          end) (rev l)).

(** [CallbackSigner.sign]; [now] is the value of [int(time.time())]. *)
Definition sign (key : Py.bytes) (now : Z) (payload : string) : string :=
  let timestamp := now in
  let message := Py.chars payload ++ bar :: PyInt.str timestamp in
  let signature := Sha256.hmac key (Py.utf8 message) in
  let sig_b64 := rstrip_eq (Base64.urlsafe_b64encode (take 16 signature)) in
  Py.str_of (Py.chars payload ++ bar :: PyInt.str timestamp ++ bar :: sig_b64).

(** [CallbackSigner.verify]; [None] is the invalid result. *)
Definition verify (key : Py.bytes) (now : Z) (signed_data : string) (max_age : Z)
  : option SignedCallbackData :=
  match Py.rsplit2 bar (Py.chars signed_data) with
  | [payload; timestamp_str; signature] =>
      match PyInt.parse timestamp_str with
      | None => None
      | Some timestamp =>
          if max_age <? now - timestamp then None
          else if now + 60 <? timestamp then None
          else
            let message := payload ++ bar :: timestamp_str in
            let expected := Sha256.hmac key (Py.utf8 message) in
            let len := Z.of_nat (length signature) in
            let sig_padded :=
              if negb (len mod 4 =? 0)
              then signature ++ repeat "="%char (Z.to_nat (4 - len mod 4))
              else signature in
            match Base64.urlsafe_b64decode sig_padded with
            | None => None
            | Some received =>
                if bool_decide (take 16 expected = received)
                then Some {| payload := Py.str_of payload;
                             timestamp := timestamp;
                             signature := Py.str_of signature |}
                else None
            end
      end
  | _ => None
  end.

End Crypto.

(** ** [json.dumps] of the standard library, on JSON-native values

    Objects are keyed by text, as [json.loads] returns them; Python
    dictionaries with keys of other types and floating-point numbers
    are not modelled.  On these values [json.loads] undoes
    [json.dumps], so a line of a store is held as the value it decodes
    to. *)

Module Json.

Inductive value : Type :=
  | Null
  | Bool (b : bool)
  | Int (z : Z)
  | Str (s : string)
  | Arr (items : list value)
  | Obj (members : list (string * value)).

Definition dquote : ascii := Py.byte_of 34.
Definition backslash : ascii := Py.byte_of 92.

Definition hex4 (n : Z) : list ascii :=
  [Py.hexdigit (n / 4096 mod 16); Py.hexdigit (n / 256 mod 16);
   Py.hexdigit (n / 16 mod 16); Py.hexdigit (n mod 16)].

(** Escaping with [ensure_ascii=True]. *)
Definition escape_char (c : ascii) : list ascii :=
  let n := Py.byte_val c in
  if n =? 34 then [backslash; dquote]
  else if n =? 92 then [backslash; backslash]
  else if n =? 10 then [backslash; "n"%char]
  else if n =? 13 then [backslash; "r"%char]
  else if n =? 9 then [backslash; "t"%char]
  else if n =? 8 then [backslash; "b"%char]
  else if n =? 12 then [backslash; "f"%char]
  else if (32 <=? n) && (n <=? 126) then [c]
  else backslash :: "u"%char :: hex4 n.

Definition quote (s : string) : list ascii :=
  dquote :: flat_map escape_char (Py.chars s) ++ [dquote].

Fixpoint join (sep : list ascii) (parts : list (list ascii)) : list ascii :=
  match parts with
  | [] => []
  | [p] => p
  | p :: r => p ++ sep ++ join sep r
  end.

(** Stable insertion by key, as [sorted(dct.items())] orders a
    dictionary (whose keys are distinct). *)
Fixpoint insert_by_key {A} (x : string * A) (l : list (string * A))
  : list (string * A) :=
  match l with
  | [] => [x]
  | y :: r =>
      if String.ltb (fst x) (fst y) then x :: l else y :: insert_by_key x r
  end.

Definition sort_by_key {A} (l : list (string * A)) : list (string * A) :=
  fold_right insert_by_key [] (rev l).

(** [json.dumps(v, separators=(item_sep, key_sep), sort_keys=sort)] *)
Fixpoint dumps (item_sep key_sep : list ascii) (sort : bool) (v : value)
  : list ascii :=
  match v with
  | Null => Py.chars "null"
  | Bool true => Py.chars "true"
  | Bool false => Py.chars "false"
  | Int z => PyInt.str z
  | Str s => quote s
  | Arr items =>
      "["%char :: join item_sep (map (dumps item_sep key_sep sort) items)
      ++ ["]"%char]
  | Obj members =>
      let rendered :=
        map (fun kv => (fst kv, dumps item_sep key_sep sort (snd kv))) members in
      let ordered := if sort then sort_by_key rendered else rendered in
      "{"%char
      :: join item_sep (map (fun kr => quote (fst kr) ++ key_sep ++ snd kr) ordered)
      ++ ["}"%char]
  end.

(** [json.dumps(v)] *)
Definition dumps_default : value -> list ascii :=
  dumps (Py.chars ", ") (Py.chars ": ") false.

(** [json.dumps(v, separators=(',', ':'), sort_keys=True)] *)
Definition dumps_canonical : value -> list ascii :=
  dumps (Py.chars ",") (Py.chars ":") true.

End Json.

(** ** [audit/logger.py] *)

Module Audit.

Inductive EventType : Set :=
  | PERMISSION_REQUESTED | PERMISSION_APPROVED | PERMISSION_DENIED
  | PERMISSION_AUTO_APPROVED | PERMISSION_TIMEOUT
  | POLICY_EVALUATED | POLICY_MATCHED
  | PHASE_STARTED | PHASE_COMPLETED | PHASE_TRANSITION
  | SIMSTIM_STARTED | SIMSTIM_STOPPED | LOA_STARTED | LOA_STOPPED | LOA_EXIT
  | TELEGRAM_CONNECTED | TELEGRAM_DISCONNECTED | TELEGRAM_RECONNECTED
  | TELEGRAM_MESSAGE_SENT | TELEGRAM_CALLBACK
  | ERROR | WARNING.

Definition value (t : EventType) : string :=
  match t with
  | PERMISSION_REQUESTED => "permission_requested"
  | PERMISSION_APPROVED => "permission_approved"
  | PERMISSION_DENIED => "permission_denied"
  | PERMISSION_AUTO_APPROVED => "permission_auto_approved"
  | PERMISSION_TIMEOUT => "permission_timeout"
  | POLICY_EVALUATED => "policy_evaluated"
  | POLICY_MATCHED => "policy_matched"
  | PHASE_STARTED => "phase_started"
  | PHASE_COMPLETED => "phase_completed"
  | PHASE_TRANSITION => "phase_transition"
  | SIMSTIM_STARTED => "simstim_started"
  | SIMSTIM_STOPPED => "simstim_stopped"
  | LOA_STARTED => "loa_started"
  | LOA_STOPPED => "loa_stopped"
  | LOA_EXIT => "loa_exit"
  | TELEGRAM_CONNECTED => "telegram_connected"
  | TELEGRAM_DISCONNECTED => "telegram_disconnected"
  | TELEGRAM_RECONNECTED => "telegram_reconnected"
  | TELEGRAM_MESSAGE_SENT => "telegram_message_sent"
  | TELEGRAM_CALLBACK => "telegram_callback"
  | ERROR => "error"
  | WARNING => "warning"
  end.

(** [timestamp] holds the text that [datetime.isoformat()] returns;
    [metadata] is a dictionary of JSON-native values. *)
Record AuditEvent := {
  event_type : EventType;
  timestamp : string;
  session_id : string;
  request_id : option string;
  user_id : option Z;
  action : option string;
  target : option string;
  risk_level : option string;
  policy_name : option string;
  phase : option string;
  metadata : list (string * Json.value);
  error : option string;
}.

(** The entries that an [if field:] test on an optional text adds. *)
Definition if_set (key : string) (field : option string)
  : list (string * Json.value) :=
  match field with
  | Some s => if String.eqb s "" then [] else [(key, Json.Str s)]
  | None => []
  end.

(** [AuditEvent.to_dict], in insertion order. *)
Definition to_dict (e : AuditEvent) : list (string * Json.value) :=
  [("timestamp", Json.Str (timestamp e));
   ("event_type", Json.Str (value (event_type e)));
   ("session_id", Json.Str (session_id e))]
  ++ if_set "request_id" (request_id e)
  ++ match user_id e with Some u => [("user_id", Json.Int u)] | None => [] end
  ++ if_set "action" (action e)
  ++ if_set "target" (target e)
  ++ if_set "risk_level" (risk_level e)
  ++ if_set "policy_name" (policy_name e)
  ++ if_set "phase" (phase e)
  ++ match metadata e with [] => [] | m => [("metadata", Json.Obj m)] end
  ++ if_set "error" (error e).

(** One line of the store: its size in bytes, newline included, and
    what [json.loads] makes of it.  [Entry] is an object read through
    [entry.get("event", {})], [entry.get("hmac", "")] and
    [entry.get("prev_hash", "")] with text in the last two; [Untyped]
    is an object in which one of the two holds something else; [Blank]
    is a line of white space; [Malformed] is a line that [json.loads]
    rejects; [NotObject] is a line that decodes to a value that is not
    an object. *)
Inductive LineBody : Type :=
  | Entry (event : Json.value) (hmac : string) (prev_hash : string)
  | Blank
  | Malformed
  | NotObject
  | Untyped (event : Json.value) (hmac : Json.value) (prev_hash : Json.value).

Record Line := { nbytes : Z; body : LineBody }.

(** The files of one log path: the store itself and the rotated files
    [<stem>.jsonl.<i>], by their number [i]. *)
Record Files := {
  current : option (list Line);
  rotated : gmap Z (list Line);
}.

Record AuditLogger := {
  _session_id : string;
  _max_size : Z;
  _rotate_count : Z;
  _event_count : Z;
  _hmac_key : Py.bytes;
  _last_hash : Py.bytes;
}.

(** [AuditLogger.__init__] with an explicit session identifier and key. *)
Definition new_logger (session_id : string) (max_file_size_mb rotate_count : Z)
    (hmac_key : Py.bytes) : AuditLogger :=
  {| _session_id := session_id;
     _max_size := max_file_size_mb * 1024 * 1024;
     _rotate_count := rotate_count;
     _event_count := 0;
     _hmac_key := hmac_key;
     _last_hash := [] |}.

(** [st_size] *)
Definition file_size (lines : list Line) : Z :=
  fold_right (fun l acc => nbytes l + acc) 0 lines.

(** The loop of [_rotate], for [i] from [n] down to 1. *)
Fixpoint shift (n : nat) (r : gmap Z (list Line)) : gmap Z (list Line) :=
  match n with
  | O => r
  | S k =>
      let i := Z.of_nat n in
      shift k match r !! i with
              | Some f => <[i + 1 := f]> (delete i r)
              | None => r
              end
  end.

Definition _rotate (lg : AuditLogger) (fs : Files) : Files :=
  let r := delete (_rotate_count lg) (rotated fs) in
  let r := shift (Z.to_nat (_rotate_count lg - 1)) r in
  match current fs with
  | Some f => {| current := None; rotated := <[1 := f]> r |}
  | None => {| current := None; rotated := r |}
  end.

Definition _maybe_rotate (lg : AuditLogger) (fs : Files) : Files :=
  match current fs with
  | None => fs
  | Some f => if _max_size lg <=? file_size f then _rotate lg fs else fs
  end.

(** The record that [log] writes for [event_dict] after [last_hash]. *)
Definition signed_line (key last_hash : Py.bytes)
    (event_dict : list (string * Json.value)) : Line :=
  let event_json := Json.dumps_canonical (Json.Obj event_dict) in
  let signature :=
    Py.str_of (Py.hex (Sha256.hmac key (last_hash ++ Py.utf8 event_json))) in
  let prev := match last_hash with
              | [] => ""%string
              | _ => Py.str_of (Py.hex last_hash)
              end in
  let text := Json.dumps_default (Json.Obj
    [("event", Json.Obj event_dict); ("hmac", Json.Str signature);
     ("prev_hash", Json.Str prev)]) in
  {| nbytes := Z.of_nat (length text) + 1;
     body := Entry (Json.Obj event_dict) signature prev |}.

(** [AuditLogger.log].  [io_ok = false] stands for an [OSError] while
    the store is opened or written, which the method swallows.  The
    metadata of an event being JSON-native values, [json.dumps]
    accepts them; the queries of [_maybe_rotate] on the file system
    ([exists], [stat]) are taken to answer: an exception there, or
    from [json.dumps] on other metadata, would leave [log]. *)
Definition log (lg : AuditLogger) (fs : Files) (event : AuditEvent)
    (io_ok : bool) : Py.result (AuditLogger * Files) :=
  let event :=
    if String.eqb (session_id event) "" then
      {| event_type := event_type event; timestamp := timestamp event;
         session_id := _session_id lg; request_id := request_id event;
         user_id := user_id event; action := action event;
         target := target event; risk_level := risk_level event;
         policy_name := policy_name event; phase := phase event;
         metadata := metadata event; error := error event |}
    else event in
  let fs := _maybe_rotate lg fs in
  if io_ok then
    let line := signed_line (_hmac_key lg) (_last_hash lg) (to_dict event) in
    let fs' := {| current := Some (default [] (current fs) ++ [line]);
                  rotated := rotated fs |} in
    match body line with
    | Entry _ signature _ =>
        match Py.fromhex (Py.chars signature) with
        | Some h =>
            Py.Returned ({| _session_id := _session_id lg;
                            _max_size := _max_size lg;
                            _rotate_count := _rotate_count lg;
                            _event_count := _event_count lg + 1;
                            _hmac_key := _hmac_key lg;
                            _last_hash := h |}, fs')
        | None => Py.Raised Py.ValueError
        end
    | _ => Py.Raised Py.ValueError
    end
  else Py.Returned (lg, fs).

(** A run of [log] calls, each with its I/O outcome. *)
Fixpoint log_all (lg : AuditLogger) (fs : Files)
    (events : list (AuditEvent * bool)) : Py.result (AuditLogger * Files) :=
  match events with
  | [] => Py.Returned (lg, fs)
  | (e, ok) :: rest =>
      match log lg fs e ok with
      | Py.Returned (lg', fs') => log_all lg' fs' rest
      | Py.Raised x => Py.Raised x
      end
  end.

(** Whether the next [log] call rotates the store. *)
Definition rotates (lg : AuditLogger) (fs : Files) : bool :=
  match current fs with
  | None => false
  | Some f => _max_size lg <=? file_size f
  end.

(** No call of the run rotates the store. *)
Fixpoint rotation_free (lg : AuditLogger) (fs : Files)
    (events : list (AuditEvent * bool)) : bool :=
  match events with
  | [] => true
  | (e, ok) :: rest =>
      negb (rotates lg fs)
      && match log lg fs e ok with
         | Py.Returned (lg', fs') => rotation_free lg' fs' rest
         | Py.Raised _ => true
         end
  end.

(** The messages of [verify_audit_log], by kind and line number.
    [ChainBrokenItems] is the message about the link when the stored
    [prev_hash] is a list: it shows the first eight items. *)
Inductive VerifyError : Type :=
  | ChainBroken (line_num : nat) (expected_prev actual_prev : string)
  | InvalidHmac (line_num : nat)
  | MalformedJson (line_num : nat)
  | InvalidValue (line_num : nat)
  | ChainBrokenItems (line_num : nat) (expected_prev : list Json.value)
                     (actual_prev : string).

Definition line_of (e : VerifyError) : nat :=
  match e with
  | ChainBroken n _ _ | InvalidHmac n | MalformedJson n | InvalidValue n
  | ChainBrokenItems n _ _ => n
  end.

Definition first8 (s : string) : string := Py.str_of (take 8 (Py.chars s)).

(** The body of the loop of [verify_audit_log] for one line: the errors
    it appends and the [prev_hash] it leaves.  An exception that the
    loop does not catch is [Raised]: [AttributeError] from [entry.get]
    on a value that is not an object, [TypeError] from the slice
    [expected_prev[:8]] of a stored [prev_hash] that is neither text nor
    a list (for an object, as CPython does up to 3.11), and from
    [hmac.compare_digest] on a stored [hmac] that is not text or not
    ASCII. *)
Definition verify_line (key : Py.bytes) (line_num : nat) (prev_hash : Py.bytes)
    (l : Line) : Py.result (list VerifyError * Py.bytes) :=
  match body l with
  | Blank => Py.Returned ([], prev_hash)
  | Malformed => Py.Returned ([MalformedJson line_num], prev_hash)
  | Entry event_dict claimed_sig expected_prev =>
      let actual_prev := match prev_hash with
                         | [] => ""%string
                         | _ => Py.str_of (Py.hex prev_hash)
                         end in
      let e1 := if String.eqb actual_prev expected_prev then []
                else [ChainBroken line_num (first8 expected_prev)
                                  (first8 actual_prev)] in
      let event_json := Json.dumps_canonical event_dict in
      let computed_sig :=
        Py.str_of (Py.hex (Sha256.hmac key (prev_hash ++ Py.utf8 event_json))) in
      if negb (Py.is_ascii (Py.chars claimed_sig)) then Py.Raised Py.TypeError
      else
        let e2 := if String.eqb computed_sig claimed_sig then []
                  else [InvalidHmac line_num] in
        if String.eqb claimed_sig "" then Py.Returned (e1 ++ e2, [])
        else match Py.fromhex (Py.chars claimed_sig) with
             | Some h => Py.Returned (e1 ++ e2, h)
             | None => Py.Returned (e1 ++ e2 ++ [InvalidValue line_num], prev_hash)
             end
  | NotObject => Py.Raised Py.AttributeError
  | Untyped event_dict claimed expected =>
      let actual_prev := match prev_hash with
                         | [] => ""%string
                         | _ => Py.str_of (Py.hex prev_hash)
                         end in
      let link :=
        match expected with
        | Json.Str expected_prev =>
            Py.Returned (if String.eqb actual_prev expected_prev then []
                         else [ChainBroken line_num (first8 expected_prev)
                                           (first8 actual_prev)])
        | Json.Arr expected_prev =>
            Py.Returned [ChainBrokenItems line_num (take 8 expected_prev)
                                          (first8 actual_prev)]
        | _ => Py.Raised Py.TypeError
        end in
      match link with
      | Py.Raised x => Py.Raised x
      | Py.Returned e1 =>
          let event_json := Json.dumps_canonical event_dict in
          let computed_sig :=
            Py.str_of (Py.hex (Sha256.hmac key (prev_hash ++ Py.utf8 event_json))) in
          match claimed with
          | Json.Str claimed_sig =>
              if negb (Py.is_ascii (Py.chars claimed_sig))
              then Py.Raised Py.TypeError
              else
                let e2 := if String.eqb computed_sig claimed_sig then []
                          else [InvalidHmac line_num] in
                if String.eqb claimed_sig "" then Py.Returned (e1 ++ e2, [])
                else match Py.fromhex (Py.chars claimed_sig) with
                     | Some h => Py.Returned (e1 ++ e2, h)
                     | None => Py.Returned (e1 ++ e2 ++ [InvalidValue line_num],
                                            prev_hash)
                     end
          | _ => Py.Raised Py.TypeError
          end
      end
  end.

Fixpoint verify_lines (key : Py.bytes) (line_num : nat) (prev_hash : Py.bytes)
    (lines : list Line) : Py.result (list VerifyError) :=
  match lines with
  | [] => Py.Returned []
  | l :: rest =>
      match verify_line key line_num prev_hash l with
      | Py.Raised x => Py.Raised x
      | Py.Returned (errs, prev') =>
          match verify_lines key (S line_num) prev' rest with
          | Py.Raised x => Py.Raised x
          | Py.Returned more => Py.Returned (errs ++ more)
          end
      end
  end.

(** [verify_audit_log(log_path, hmac_key)] *)
Definition verify_audit_log (fs : Files) (hmac_key : Py.bytes)
  : Py.result (bool * list VerifyError) :=
  match current fs with
  | None => Py.Returned (true, [])
  | Some lines =>
      match verify_lines hmac_key 1 [] lines with
      | Py.Raised x => Py.Raised x
      | Py.Returned errors =>
          Py.Returned (bool_decide (length errors = 0%nat), errors)
      end
  end.

End Audit.


(** The verifier as the specification words it: the signature of a
    record is recomputed over the record's own stored [prev_hash] field
    rather than over the running position.  The specification speaks
    of records with text fields only; on the others this verifier
    raises. *)

Module AuditSpec.
Import Audit.

Definition verify_line_stored_prev (key : Py.bytes) (line_num : nat)
    (prev_hash : Py.bytes) (l : Line)
  : Py.result (list VerifyError * Py.bytes) :=
  match body l with
  | Blank => Py.Returned ([], prev_hash)
  | Malformed => Py.Returned ([MalformedJson line_num], prev_hash)
  | NotObject => Py.Raised Py.AttributeError
  | Untyped _ _ _ => Py.Raised Py.TypeError
  | Entry event_dict claimed_sig expected_prev =>
      let actual_prev := match prev_hash with
                         | [] => ""%string
                         | _ => Py.str_of (Py.hex prev_hash)
                         end in
      let e1 := if String.eqb actual_prev expected_prev then []
                else [ChainBroken line_num (first8 expected_prev)
                                  (first8 actual_prev)] in
      match Py.fromhex (Py.chars expected_prev) with
      | None => Py.Returned (e1 ++ [InvalidValue line_num], prev_hash)
      | Some stored_prev =>
          let event_json := Json.dumps_canonical event_dict in
          let computed_sig :=
            Py.str_of (Py.hex (Sha256.hmac key (stored_prev ++ Py.utf8 event_json))) in
          if negb (Py.is_ascii (Py.chars claimed_sig)) then Py.Raised Py.TypeError
          else
            let e2 := if String.eqb computed_sig claimed_sig then []
                      else [InvalidHmac line_num] in
            if String.eqb claimed_sig "" then Py.Returned (e1 ++ e2, [])
            else match Py.fromhex (Py.chars claimed_sig) with
                 | Some h => Py.Returned (e1 ++ e2, h)
                 | None =>
                     Py.Returned (e1 ++ e2 ++ [InvalidValue line_num], prev_hash)
                 end
      end
  end.

Fixpoint verify_lines_stored_prev (key : Py.bytes) (line_num : nat)
    (prev_hash : Py.bytes) (lines : list Line) : Py.result (list VerifyError) :=
  match lines with
  | [] => Py.Returned []
  | l :: rest =>
      match verify_line_stored_prev key line_num prev_hash l with
      | Py.Raised x => Py.Raised x
      | Py.Returned (errs, prev') =>
          match verify_lines_stored_prev key (S line_num) prev' rest with
          | Py.Raised x => Py.Raised x
          | Py.Returned more => Py.Returned (errs ++ more)
          end
      end
  end.

Definition verify_stored_prev (fs : Files) (hmac_key : Py.bytes)
  : Py.result (bool * list VerifyError) :=
  match current fs with
  | None => Py.Returned (true, [])
  | Some lines =>
      match verify_lines_stored_prev hmac_key 1 [] lines with
      | Py.Raised x => Py.Raised x
      | Py.Returned errors =>
          Py.Returned (bool_decide (length errors = 0%nat), errors)
      end
  end.

End AuditSpec.


(** ** [bridge/offline_queue.py]

    Points in time are exact rationals, in seconds. *)

Module OfflineQueue.

Inductive QueuedEventType : Set :=
  | PERMISSION_REQUEST | PHASE_NOTIFICATION | STATUS_MESSAGE | GENERIC_MESSAGE.

Record QueuedEvent := {
  event_type : QueuedEventType;
  timestamp : Qc;
  data : list (string * Json.value);
  priority : Z;
}.

Record OfflineQueue := {
  _queue : list QueuedEvent;
  _max_size : Z;
  _max_age : Z;
  _is_offline : bool;
  _offline_since : option Qc;
}.

Definition with_queue (q : OfflineQueue) (l : list QueuedEvent) : OfflineQueue :=
  {| _queue := l; _max_size := _max_size q; _max_age := _max_age q;
     _is_offline := _is_offline q; _offline_since := _offline_since q |}.

(** [OfflineQueue.__init__] *)
Definition new_queue (max_size max_age_seconds : Z) : OfflineQueue :=
  {| _queue := []; _max_size := max_size; _max_age := max_age_seconds;
     _is_offline := false; _offline_since := None |}.

(** [_prune_old_events]: the pruned queue and the number pruned. *)
Definition _prune_old_events (now : Qc) (q : OfflineQueue) : OfflineQueue * Z :=
  match _queue q with
  | [] => (q, 0)
  | _ =>
      let original_count := Z.of_nat (length (_queue q)) in
      let kept := List.filter
        (fun e => bool_decide ((now - timestamp e)%Qc < Qc_of_Z (_max_age q))%Qc)
        (_queue q) in
      (with_queue q kept, original_count - Z.of_nat (length kept))
  end.

(** [list.pop(0)], for its effect on the list. *)
Definition pop0 {A} (l : list A) : Py.result (list A) :=
  match l with
  | [] => Py.Raised Py.IndexError
  | _ :: rest => Py.Returned rest
  end.

(** [OfflineQueue.enqueue] *)
Definition enqueue (now : Qc) (q : OfflineQueue) (event : QueuedEvent)
  : Py.result (OfflineQueue * bool) :=
  let q := fst (_prune_old_events now q) in
  let popped :=
    if _max_size q <=? Z.of_nat (length (_queue q)) then pop0 (_queue q)
    else Py.Returned (_queue q) in
  match popped with
  | Py.Raised e => Py.Raised e
  | Py.Returned l => Py.Returned (with_queue q (l ++ [event]), true)
  end.

End OfflineQueue.

(** ** [bridge/rate_limiter.py]

    Points in time and the float settings are exact rationals, in
    seconds; the rounding of floating-point numbers, and of
    [timedelta] to microseconds, is not modelled. *)

Module RateLimiter.

Record UserRateState := {
  request_times : list Qc;
  denial_count : Z;
  last_denial : option Qc;
  backoff_until : option Qc;
}.

Definition fresh_state : UserRateState :=
  {| request_times := []; denial_count := 0;
     last_denial := None; backoff_until := None |}.

Record RateLimiter := {
  _requests_per_minute : Z;
  _denial_backoff_base : Qc;
  _denial_backoff_max : Qc;
  _denial_threshold : Z;
  _user_states : gmap Z UserRateState;
}.

(** [RateLimiter.__init__] *)
Definition new_limiter (requests_per_minute : Z) (denial_backoff_base
    denial_backoff_max : Qc) (denial_threshold : Z) : RateLimiter :=
  {| _requests_per_minute := requests_per_minute;
     _denial_backoff_base := denial_backoff_base;
     _denial_backoff_max := denial_backoff_max;
     _denial_threshold := denial_threshold;
     _user_states := ∅ |}.

(** [self._user_states[user_id]] on the [defaultdict]. *)
Definition state_of (rl : RateLimiter) (user_id : Z) : UserRateState :=
  default fresh_state (_user_states rl !! user_id).

Definition with_state (rl : RateLimiter) (user_id : Z) (st : UserRateState)
  : RateLimiter :=
  {| _requests_per_minute := _requests_per_minute rl;
     _denial_backoff_base := _denial_backoff_base rl;
     _denial_backoff_max := _denial_backoff_max rl;
     _denial_threshold := _denial_threshold rl;
     _user_states := <[user_id := st]> (_user_states rl) |}.

(** [min(a, b)] *)
Definition py_min (a b : Qc) : Qc := if bool_decide (b < a)%Qc then b else a.

(** [max(a, b)] *)
Definition py_max (a b : Qc) : Qc := if bool_decide (a < b)%Qc then b else a.

(** The seconds that [timedelta(seconds=...)] accepts: the days of the
    result stay within 999999999 either way. *)
Definition timedelta_ok (seconds : Qc) : bool :=
  bool_decide (Qc_of_Z (-86400 * 999999999) <= seconds)%Qc
  && bool_decide (seconds < Qc_of_Z (86400 * 1000000000))%Qc.

(** The instants that a [datetime] holds, from [datetime.min] to
    [datetime.max], in seconds from the epoch. *)
Definition datetime_ok (t : Qc) : bool :=
  bool_decide (Qc_of_Z (-62135596800) <= t)%Qc
  && bool_decide (t < Qc_of_Z 253402300800)%Qc.

(** [RateLimiter.record_denial]; [now] and [now'] are the two clock
    readings of the method, in order.  The result is the limiter as
    the method leaves it and how the method ends.  The settings being
    floats, as they are annotated, the product [base * 2 ** n] raises
    [OverflowError] as soon as [2 ** n] does not fit a float, which is
    from [n = 1024] on, before the expiry is touched; [timedelta] and
    the addition to a [datetime] raise [OverflowError] out of their
    ranges, after the expiry has been set to the clock reading. *)
Definition record_denial (now now' : Qc) (rl : RateLimiter) (user_id : Z)
  : RateLimiter * Py.result unit :=
  let state := state_of rl user_id in
  let count := denial_count state + 1 in
  let state := {| request_times := request_times state; denial_count := count;
                  last_denial := Some now;
                  backoff_until := backoff_until state |} in
  if _denial_threshold rl <=? count then
    if 1024 <=? count - _denial_threshold rl then
      (with_state rl user_id state, Py.Raised Py.OverflowError)
    else
      let backoff :=
        py_min (_denial_backoff_base rl
                * Qc_of_Z (2 ^ (count - _denial_threshold rl)))%Qc
               (_denial_backoff_max rl) in
      if timedelta_ok backoff && datetime_ok (now' + backoff)%Qc then
        (with_state rl user_id
           {| request_times := request_times state; denial_count := count;
              last_denial := Some now;
              backoff_until := Some (now' + backoff)%Qc |},
         Py.Returned tt)
      else
        (with_state rl user_id
           {| request_times := request_times state; denial_count := count;
              last_denial := Some now;
              backoff_until := Some now' |},
         Py.Raised Py.OverflowError)
  else (with_state rl user_id state, Py.Returned tt).

(** [RateLimiter.record_approval] *)
Definition record_approval (rl : RateLimiter) (user_id : Z) : RateLimiter :=
  let state := state_of rl user_id in
  with_state rl user_id
    {| request_times := request_times state; denial_count := 0;
       last_denial := last_denial state; backoff_until := None |}.

(** [RateLimiter.record_request] *)
Definition record_request (now : Qc) (rl : RateLimiter) (user_id : Z)
  : RateLimiter :=
  let state := state_of rl user_id in
  with_state rl user_id
    {| request_times := request_times state ++ [now];
       denial_count := denial_count state;
       last_denial := last_denial state;
       backoff_until := backoff_until state |}.

(** [RateLimiter.check_rate_limit] *)
Definition check_rate_limit (now : Qc) (rl : RateLimiter) (user_id : Z)
  : RateLimiter * (bool * option Qc) :=
  let state := state_of rl user_id in
  let denial_blocked :=
    match backoff_until state with
    | Some t => bool_decide (now < t)%Qc
    | None => false
    end in
  let denial_wait :=
    match backoff_until state with
    | Some t => if denial_blocked then (t - now)%Qc else 0%Qc
    | None => 0%Qc
    end in
  let cutoff := (now - Qc_of_Z 60)%Qc in
  let recent := List.filter (fun t => bool_decide (cutoff < t)%Qc)
                            (request_times state) in
  let rl := with_state rl user_id
    {| request_times := recent; denial_count := denial_count state;
       last_denial := last_denial state;
       backoff_until := backoff_until state |} in
  let rate_limited :=
    _requests_per_minute rl <=? Z.of_nat (length recent) in
  let rate_wait :=
    match recent with
    | oldest :: _ =>
        if rate_limited then (Qc_of_Z 60 - (now - oldest))%Qc else 0%Qc
    | [] => 0%Qc
    end in
  let tenth := (Qc_of_Z 1 / Qc_of_Z 10)%Qc in
  if denial_blocked then (rl, (false, Some (py_max tenth denial_wait)))
  else if rate_limited then (rl, (false, Some (py_max tenth rate_wait)))
  else (rl, (true, None)).

End RateLimiter.


(** ** [fnmatch.fnmatch] of the standard library, on a POSIX system *)

Module Fnmatch.

Inductive token : Type :=
  | Star
  | AnyChar
  | Lit (c : ascii)
  | Class (negated : bool) (chunks : list (list ascii))
  | Never.

(** Text of a bracket expression and what follows its closing bracket;
    a [!] and then a [\]] right after the opening bracket do not close
    it. *)
Fixpoint until_close (l : list ascii) : option (list ascii * list ascii) :=
  match l with
  | [] => None
  | c :: r =>
      if Ascii.eqb c "]"%char then Some ([], r)
      else match until_close r with
           | Some (stuff, rest) => Some (c :: stuff, rest)
           | None => None
           end
  end.

Definition bracket (l : list ascii) : option (list ascii * list ascii) :=
  let '(bang, l1) :=
    match l with
    | c :: r => if Ascii.eqb c "!"%char then ([c], r) else ([], l)
    | [] => ([], l)
    end in
  let '(first, l2) :=
    match l1 with
    | c :: r => if Ascii.eqb c "]"%char then ([c], r) else ([], l1)
    | [] => ([], l1)
    end in
  match until_close l2 with
  | Some (stuff, rest) => Some (bang ++ first ++ stuff, rest)
  | None => None
  end.

(** The pieces between the hyphens that stand for ranges: a hyphen is
    one when at least [skip] characters of the piece precede it; a
    trailing hyphen stays with the last piece. *)
Fixpoint pieces (skip : nat) (cur : list ascii) (l : list ascii)
  : list (list ascii) :=
  match l with
  | [] => [rev cur]
  | c :: r =>
      match skip with
      | O => if Ascii.eqb c "-"%char
             then match r with
                  | [] => [rev (c :: cur)]
                  | _ => rev cur :: pieces 2 [] r
                  end
             else pieces O (c :: cur) r
      | S k => pieces k (c :: cur) r
      end
  end.

(** Ranges whose bounds are out of order are dropped with their bounds,
    from the last one back to the first. *)
Fixpoint prune_ranges (chunks : list (list ascii)) : list (list ascii) :=
  match chunks with
  | a :: rest =>
      match prune_ranges rest with
      | b :: rest' =>
          match last a, b with
          | Some x, y :: b' =>
              if Py.byte_val y <? Py.byte_val x
              then (removelast a ++ b') :: rest'
              else a :: b :: rest'
          | _, _ => a :: b :: rest'
          end
      | [] => [a]
      end
  | [] => []
  end.

(** The bracket expression that the text between the brackets stands
    for.  The pieces are cut from the whole text, an exclamation mark
    at its start included, and whether the expression is negated is
    read off the first character that is left once the ranges out of
    order are gone. *)
Definition class_of (stuff : list ascii) : token :=
  let skip := match stuff with
              | c :: _ => if Ascii.eqb c "!"%char then 2%nat else 1%nat
              | [] => 1%nat
              end in
  let chunks :=
    if Py.contains "-"%char stuff then prune_ranges (pieces skip [] stuff)
    else [stuff] in
  match chunks with
  | [[]] => Never
  | (c :: first) :: rest =>
      if Ascii.eqb c "!"%char then
        match first, rest with
        | [], [] => AnyChar
        | _, _ => Class true (first :: rest)
        end
      else Class false chunks
  | _ => Class false chunks
  end.

(** [fnmatch.translate], as tokens; runs of [*] count once. *)
Fixpoint translate (fuel : nat) (pat : list ascii) : list token :=
  match fuel with
  | O => []
  | S f =>
      match pat with
      | [] => []
      | c :: r =>
          if Ascii.eqb c "*"%char then
            match translate f r with
            | Star :: ts => Star :: ts
            | ts => Star :: ts
            end
          else if Ascii.eqb c "?"%char then AnyChar :: translate f r
          else if Ascii.eqb c "["%char then
            match bracket r with
            | Some (stuff, rest) => class_of stuff :: translate f rest
            | None => Lit c :: translate f r
            end
          else Lit c :: translate f r
      end
  end.

(** Membership in a bracket expression: a character of a piece, or one
    between the end of a piece and the start of the next. *)
Fixpoint in_chunks (c : ascii) (chunks : list (list ascii)) : bool :=
  match chunks with
  | [] => false
  | a :: rest =>
      Py.contains c a
      || match last a, rest with
         | Some lo, (hi :: _) :: _ =>
             (Py.byte_val lo <=? Py.byte_val c) && (Py.byte_val c <=? Py.byte_val hi)
         | _, _ => false
         end
      || in_chunks c rest
  end.

Definition matches_char (t : token) (c : ascii) : bool :=
  match t with
  | Star => true
  | AnyChar => true
  | Lit x => Ascii.eqb x c
  | Class negated chunks => xorb negated (in_chunks c chunks)
  | Never => false
  end.

(** Whether the whole of [s] matches the tokens. *)
Fixpoint matches (ts : list token) (s : list ascii) : bool :=
  match ts with
  | [] => match s with [] => true | _ => false end
  | Star :: rest =>
      (fix try (s : list ascii) : bool :=
         matches rest s || match s with
                           | [] => false
                           | _ :: s' => try s'
                           end) s
  | t :: rest =>
      match s with
      | c :: s' => matches_char t c && matches rest s'
      | [] => false
      end
  end.

(** [fnmatch(name, pat)] *)
Definition fnmatch (name pat : list ascii) : bool :=
  matches (translate (length pat) pat) name.

End Fnmatch.

(** ** [policies/models.py] and [policies/engine.py] *)

Module PolicyEngine.

Inductive ActionType : Set :=
  | FILE_CREATE | FILE_EDIT | FILE_DELETE | BASH_EXECUTE | MCP_TOOL.

Definition action_value (a : ActionType) : string :=
  match a with
  | FILE_CREATE => "file_create"
  | FILE_EDIT => "file_edit"
  | FILE_DELETE => "file_delete"
  | BASH_EXECUTE => "bash_execute"
  | MCP_TOOL => "mcp_tool"
  end.

Inductive RiskLevel : Set := LOW | MEDIUM | HIGH | CRITICAL.

Definition risk_value (r : RiskLevel) : string :=
  match r with
  | LOW => "low" | MEDIUM => "medium" | HIGH => "high" | CRITICAL => "critical"
  end.

(** [config.Policy] *)
Record Policy := {
  name : string;
  enabled : bool;
  action : string;
  pattern : string;
  max_risk : string;
}.

Inductive PolicyDecision : Set := AUTO_APPROVE | AUTO_DENY | REQUIRE_MANUAL.

Record PolicyMatch := {
  matched : bool;
  policy : option Policy;
  decision : PolicyDecision;
  reason : string;
}.

Definition no_match : PolicyMatch :=
  {| matched := false; policy := None; decision := REQUIRE_MANUAL;
     reason := "No matching policy" |}.

Definition auto_approved (p : Policy) (reason : string) : PolicyMatch :=
  {| matched := true; policy := Some p; decision := AUTO_APPROVE;
     reason := reason |}.

Definition risk_exceeded (p : Policy) (reason : string) : PolicyMatch :=
  {| matched := false; policy := Some p; decision := REQUIRE_MANUAL;
     reason := reason |}.

Record PolicyEvaluationResult := {
  match_ : PolicyMatch;
  policies_checked : Z;
  result_action : string;
  result_target : string;
  result_risk_level : string;
}.

Definition RISK_ORDER : list string := ["low"; "medium"; "high"; "critical"]%string.

(** [list.index]; [None] stands for its [ValueError]. *)
Fixpoint list_index (x : string) (l : list string) : option Z :=
  match l with
  | [] => None
  | y :: r => if String.eqb y x then Some 0 else Z.succ <$> list_index x r
  end.

Definition lower (s : string) : string := Py.str_of (Py.lower (Py.chars s)).

(** [PolicyEngine._risk_acceptable] *)
Definition _risk_acceptable (max_risk actual_risk : string) : bool :=
  match list_index (lower max_risk) RISK_ORDER with
  | None => false
  | Some max_idx =>
      match list_index (lower actual_risk) RISK_ORDER with
      | None => false
      | Some actual_idx => actual_idx <=? max_idx
      end
  end.

(** [PolicyEngine._pattern_matches] *)
Definition _pattern_matches (pattern target : string) : bool :=
  let pat := Py.chars pattern in
  let tgt := Py.chars target in
  if Py.contains "{"%char pat && Py.contains "}"%char pat then
    match Py.index "{"%char pat, Py.index "}"%char pat with
    | Some start, Some end_ =>
        let prefix := take start pat in
        let suffix := drop (S end_) pat in
        let alternatives := Py.split ","%char (Py.slice (S start) end_ pat) in
        existsb (fun alt => Fnmatch.fnmatch tgt (prefix ++ Py.strip alt ++ suffix))
                alternatives
    | _, _ => false
    end
  else Fnmatch.fnmatch tgt pat.

Record PolicyEngine := {
  _policies : list Policy;
  _evaluation_count : Z;
}.

(** [PolicyEngine.__init__] *)
Definition new_engine (policies : list Policy) : PolicyEngine :=
  {| _policies := List.filter enabled policies; _evaluation_count := 0 |}.

(** The loop of [evaluate] over the policies still to be visited. *)
Fixpoint find_match (policies : list Policy) (action_str target risk_str : string)
  : PolicyMatch :=
  match policies with
  | [] => no_match
  | policy :: rest =>
      if negb (String.eqb (action policy) action_str) then
        find_match rest action_str target risk_str
      else if negb (_pattern_matches (pattern policy) target) then
        find_match rest action_str target risk_str
      else if negb (_risk_acceptable (max_risk policy) risk_str) then
        risk_exceeded policy
          ("Risk " ++ risk_str ++ " exceeds policy max " ++ max_risk policy)
      else
        auto_approved policy ("Matched policy: " ++ name policy)
  end.

(** [PolicyEngine.evaluate] *)
Definition evaluate (eng : PolicyEngine) (act : ActionType) (target : string)
    (risk : RiskLevel) : PolicyEngine * PolicyEvaluationResult :=
  let count := _evaluation_count eng + 1 in
  let action_str := action_value act in
  let risk_str := risk_value risk in
  ({| _policies := _policies eng; _evaluation_count := count |},
   {| match_ := find_match (_policies eng) action_str target risk_str;
      policies_checked := count;
      result_action := action_str;
      result_target := target;
      result_risk_level := risk_str |}).

(** [PolicyEngine.add_policy] *)
Definition add_policy (eng : PolicyEngine) (p : Policy) : PolicyEngine :=
  if enabled p
  then {| _policies := _policies eng ++ [p];
          _evaluation_count := _evaluation_count eng |}
  else eng.

End PolicyEngine.


(** ** [bridge/permission_queue.py]

    The coroutines run on one event loop, so each stretch of code
    between two [await]s is one atomic step.  The loop state holds the
    queue object, the futures and timeout tasks it created, by handle,
    and the [add()] calls suspended on their future. *)

Module PermissionQueue.

Record PermissionRequest := {
  action : PolicyEngine.ActionType;
  target : string;
  context : string;
  risk_level : PolicyEngine.RiskLevel;
  id : string;
  created_at : Qc;
  telegram_message_id : option Z;
  timeout_task : option nat;
}.

Record PermissionResponse := {
  request_id : string;
  approved : bool;
  responded_by : Z;
  response_time : Qc;
  auto_approved : bool;
  policy_name : option string;
}.

(** An [asyncio.Future]: [done()] holds of the last two states. *)
Inductive Future : Type :=
  | Pending
  | Result (r : PermissionResponse)
  | CancelledFuture.

(** A timeout task: asleep for the request it was made for, run to its
    end, or cancelled. *)
Inductive Task : Type :=
  | Sleeping (request_id : string)
  | Finished
  | Cancelled.

Record PermissionQueue := {
  _pending : gmap string PermissionRequest;
  _response_futures : gmap string nat;
  _timeout_seconds : Z;
  _default_action : string;
}.

Record Loop := {
  queue : PermissionQueue;
  futures : list Future;
  tasks : list Task;
  waiters : list (string * nat);
}.

(** [PermissionQueue.__init__] on a fresh event loop. *)
Definition new_loop (timeout_seconds : Z) (default_action : string) : Loop :=
  {| queue := {| _pending := ∅; _response_futures := ∅;
                 _timeout_seconds := timeout_seconds;
                 _default_action := default_action |};
     futures := []; tasks := []; waiters := [] |}.

Definition with_maps (q : PermissionQueue) (p : gmap string PermissionRequest)
    (f : gmap string nat) : PermissionQueue :=
  {| _pending := p; _response_futures := f;
     _timeout_seconds := _timeout_seconds q;
     _default_action := _default_action q |}.

(** What the steps let the outside see. *)
Inductive Obs : Type :=
  | Resolved (request_id : string) (r : PermissionResponse)
  | RespondReturned (request_id : string) (accepted : bool)
  | Delivered (request_id : string) (r : PermissionResponse)
  | CancelAllReturned (count : Z).

(** [add()] up to its [await]: the request is registered with its new
    future and its new timeout task, and the caller is suspended. *)
Definition add_begin (lp : Loop) (request : PermissionRequest) : Loop :=
  let future := length (futures lp) in
  let task := length (tasks lp) in
  let request :=
    {| action := action request; target := target request;
       context := context request; risk_level := risk_level request;
       id := id request; created_at := created_at request;
       telegram_message_id := telegram_message_id request;
       timeout_task := Some task |} in
  {| queue := with_maps (queue lp)
                (<[id request := request]> (_pending (queue lp)))
                (<[id request := future]> (_response_futures (queue lp)));
     futures := futures lp ++ [Pending];
     tasks := tasks lp ++ [Sleeping (id request)];
     waiters := waiters lp ++ [(id request, future)] |}.

(** The future of [request_id] when [future and not future.done()]. *)
Definition open_future (lp : Loop) (request_id : string) : option nat :=
  match _response_futures (queue lp) !! request_id with
  | Some f =>
      match futures lp !! f with
      | Some Pending => Some f
      | _ => None
      end
  | None => None
  end.

(** [future.set_result(response)] *)
Definition set_result (lp : Loop) (f : nat) (response : PermissionResponse) : Loop :=
  {| queue := queue lp; futures := <[f := Result response]> (futures lp);
     tasks := tasks lp; waiters := waiters lp |}.

(** [PermissionQueue.respond] *)
Definition respond (lp : Loop) (response : PermissionResponse)
  : Loop * bool * list Obs :=
  match _pending (queue lp) !! request_id response with
  | None => (lp, false, [])
  | Some _ =>
      match open_future lp (request_id response) with
      | Some f =>
          (set_result lp f response, true,
           [Resolved (request_id response) response])
      | None => (lp, false, [])
      end
  end.

Definition timeout_response (default_action : string) (request_id : string)
    (now : Qc) : PermissionResponse :=
  {| request_id := request_id;
     approved := String.eqb default_action "approve";
     responded_by := 0;
     response_time := now;
     auto_approved := true;
     policy_name := Some "timeout"%string |}.

(** [_timeout_handler] after its sleep, run for a task still asleep. *)
Definition _timeout_handler (lp : Loop) (task : nat) (now : Qc) : Loop * list Obs :=
  match tasks lp !! task with
  | Some (Sleeping request_id) =>
      let lp := {| queue := queue lp; futures := futures lp;
                   tasks := <[task := Finished]> (tasks lp);
                   waiters := waiters lp |} in
      match _pending (queue lp) !! request_id with
      | None => (lp, [])
      | Some _ =>
          match open_future lp request_id with
          | Some f =>
              let response :=
                timeout_response (_default_action (queue lp)) request_id now in
              (set_result lp f response, [Resolved request_id response])
          | None => (lp, [])
          end
      end
  | _ => (lp, [])
  end.

(** [task.cancel()] *)
Definition cancel_task (ts : list Task) (t : nat) : list Task :=
  match ts !! t with
  | Some (Sleeping _) => <[t := Cancelled]> ts
  | _ => ts
  end.

(** [_cleanup] *)
Definition _cleanup (lp : Loop) (request_id : string) : Loop :=
  let request := _pending (queue lp) !! request_id in
  {| queue := with_maps (queue lp)
                (delete request_id (_pending (queue lp)))
                (delete request_id (_response_futures (queue lp)));
     futures := futures lp;
     tasks := match request with
              | Some r =>
                  match timeout_task r with
                  | Some t => cancel_task (tasks lp) t
                  | None => tasks lp
                  end
              | None => tasks lp
              end;
     waiters := waiters lp |}.

Definition is_waiter (w : string * nat) (lp : Loop) : bool :=
  bool_decide (w ∈ waiters lp).

Definition drop_waiter (w : string * nat) (lp : Loop) : Loop :=
  {| queue := queue lp; futures := futures lp; tasks := tasks lp;
     waiters := List.filter (fun x => negb (bool_decide (x = w))) (waiters lp) |}.

(** [add()] from its [await] on: it returns the result of its future
    and cleans up.  Runs only for a suspended caller whose future has a
    result. *)
Definition add_finish (lp : Loop) (request_id : string) (future : nat)
  : Loop * list Obs :=
  if is_waiter (request_id, future) lp then
    match futures lp !! future with
    | Some (Result r) =>
        (_cleanup (drop_waiter (request_id, future) lp) request_id,
         [Delivered request_id r])
    | _ => (lp, [])
    end
  else (lp, []).

(** The caller of [add()] is cancelled while suspended: its future is
    cancelled and the [finally] clause cleans up. *)
Definition add_cancelled (lp : Loop) (request_id : string) (future : nat) : Loop :=
  if is_waiter (request_id, future) lp then
    let lp := drop_waiter (request_id, future) lp in
    let lp := {| queue := queue lp;
                 futures := match futures lp !! future with
                            | Some Pending => <[future := CancelledFuture]> (futures lp)
                            | _ => futures lp
                            end;
                 tasks := tasks lp; waiters := waiters lp |} in
    _cleanup lp request_id
  else lp.

Definition cancelled_response (request_id : string) (now : Qc) : PermissionResponse :=
  {| request_id := request_id; approved := false; responded_by := 0;
     response_time := now; auto_approved := true;
     policy_name := Some "cancelled"%string |}.

(** One round of the loop of [cancel_all]. *)
Definition cancel_one (now : Qc) (acc : Loop * list Obs) (request_id : string)
  : Loop * list Obs :=
  match open_future (fst acc) request_id with
  | Some f =>
      let response := cancelled_response request_id now in
      (set_result (fst acc) f response,
       snd acc ++ [Resolved request_id response])
  | None => acc
  end.

(** [PermissionQueue.cancel_all] *)
Definition cancel_all (lp : Loop) (now : Qc) : Loop * list Obs :=
  let count := Z.of_nat (size (_pending (queue lp))) in
  let request_ids := (map_to_list (_pending (queue lp))).*1 in
  let '(lp, obs) := fold_left (cancel_one now) request_ids (lp, []) in
  (lp, obs ++ [CancelAllReturned count]).

(** The steps that the event loop can take. *)
Inductive Event : Type :=
  | Add (request : PermissionRequest)
  | Respond (response : PermissionResponse)
  | TimerFires (task : nat) (now : Qc)
  | CancelAll (now : Qc)
  | AddReturns (request_id : string) (future : nat)
  | AddCancelled (request_id : string) (future : nat).

Definition step (lp : Loop) (e : Event) : Loop * list Obs :=
  match e with
  | Add request => (add_begin lp request, [])
  | Respond response =>
      let '(lp', accepted, obs) := respond lp response in
      (lp', obs ++ [RespondReturned (request_id response) accepted])
  | TimerFires task now => _timeout_handler lp task now
  | CancelAll now => cancel_all lp now
  | AddReturns request_id future => add_finish lp request_id future
  | AddCancelled request_id future => (add_cancelled lp request_id future, [])
  end.

Fixpoint run (lp : Loop) (trace : list Event) : Loop * list Obs :=
  match trace with
  | [] => (lp, [])
  | e :: rest =>
      let '(lp1, obs1) := step lp e in
      let '(lp2, obs2) := run lp1 rest in
      (lp2, obs1 ++ obs2)
  end.

End PermissionQueue.


(** * Predicates, invariants and sample data of the properties *)

Module PyIntInv.

Definition is_digit (c : ascii) : Prop :=
  exists d, 0 <= d < 10 /\ c = PyInt.digit_char d.

End PyIntInv.

Module Base64Inv.

Definition clean (c : ascii) : Prop :=
  Ascii.eqb c "="%char = false /\ Ascii.eqb c "|"%char = false
  /\ (Py.byte_val c <? 128) = true.

End Base64Inv.

Module CryptoInv.
Import PyIntInv Base64Inv.

(** The token text that [sign] attaches to the payload and time stamp. *)
Definition sig_text (key : Py.bytes) (t0 : Z) (payload : string) : list ascii :=
  Crypto.rstrip_eq (Base64.urlsafe_b64encode (take 16
    (Sha256.hmac key (Py.utf8 (Py.chars payload ++ Crypto.bar :: PyInt.str t0))))).

End CryptoInv.

Module AuditExamples.
Import Audit.

Definition blank_event (t : EventType) (ts : string) : AuditEvent :=
  {| event_type := t; timestamp := ts; session_id := "";
     request_id := None; user_id := None; action := None; target := None;
     risk_level := None; policy_name := None; phase := None;
     metadata := []; error := None |}.

Definition ev1 : AuditEvent :=
  {| event_type := PERMISSION_REQUESTED;
     timestamp := "2024-01-01T00:00:00+00:00"; session_id := "";
     request_id := Some "r1"%string; user_id := None; action := None;
     target := None; risk_level := None; policy_name := None; phase := None;
     metadata := [("context"%string, Json.Str "x");
                  ("a"%string, Json.Arr [Json.Int 1; Json.Int (-2); Json.Null;
                                         Json.Bool true])];
     error := None |}.

Definition ev2 : AuditEvent :=
  {| event_type := PERMISSION_APPROVED;
     timestamp := "2024-01-01T00:00:01+00:00"; session_id := "";
     request_id := Some "r1"%string; user_id := Some 42; action := None;
     target := None; risk_level := None; policy_name := None; phase := None;
     metadata := []; error := None |}.

Definition ev3 : AuditEvent :=
  {| event_type := ERROR;
     timestamp := "2024-01-01T00:00:02+00:00"; session_id := "";
     request_id := None; user_id := None; action := None;
     target := None; risk_level := None; policy_name := None; phase := None;
     metadata := []; error := Some "boom"%string |}.

Definition fresh : Files := {| current := None; rotated := ∅ |}.

Definition logger0 : AuditLogger := new_logger "s1" 100 5 (Py.chars "k").

Definition summary (r : Py.result (AuditLogger * Files))
  : list (Z * string * string) :=
  match r with
  | Py.Returned (_, fs) =>
      map (fun l => match body l with
                    | Entry _ h p => (nbytes l, h, p)
                    | _ => (nbytes l, ""%string, ""%string)
                    end) (default [] (current fs))
  | Py.Raised _ => []
  end.

(** A logger whose threshold every existing store has reached. *)
Definition logger_mb0 : AuditLogger := new_logger "s1" 0 5 (Py.chars "k").

Definition after_first : AuditLogger * Files :=
  Py.value_or (logger_mb0, fresh) (log logger_mb0 fresh ev1 true).

(** The verdict on the store that a run leaves. *)
Definition verdict (key : Py.bytes) (r : Py.result (AuditLogger * Files))
  : Py.result (bool * list VerifyError) :=
  match r with
  | Py.Returned (_, fs) => verify_audit_log fs key
  | Py.Raised x => Py.Raised x
  end.

(** The same line with another [hmac] field, or another event. *)
Definition with_hmac (sig : string) (l : Line) : Line :=
  {| nbytes := nbytes l;
     body := match body l with
             | Entry ev _ p => Entry ev sig p
             | b => b
             end |}.

Definition with_event (ev : Json.value) (l : Line) : Line :=
  {| nbytes := nbytes l;
     body := match body l with
             | Entry _ sig p => Entry ev sig p
             | b => b
             end |}.

Definition three : list Line :=
  default [] (current (snd (Py.value_or (logger0, fresh)
    (log_all logger0 fresh [(ev1, true); (ev2, true); (ev3, true)])))).

Definition zeros64 : string := Py.str_of (repeat "0"%char 64).

(** The three-entry store with the signature of its first entry
    overwritten. *)
Definition forged_first : Files :=
  {| current := Some (match three with
                      | l :: rest => with_hmac zeros64 l :: rest
                      | [] => []
                      end);
     rotated := ∅ |}.

End AuditExamples.

Module AuditInv.
Import Audit.

(** Text of the [prev_hash] field and of the chain position. *)
Definition prev_text (h : Py.bytes) : string :=
  match h with [] => ""%string | _ => Py.str_of (Py.hex h) end.

(** Bytes that the signature of an event placed after [prev] covers. *)
Definition next_hash (key prev : Py.bytes) (ev : Json.value) : Py.bytes :=
  Sha256.hmac key (prev ++ Py.utf8 (Json.dumps_canonical ev)).

Definition sealed (key prev : Py.bytes) (ev : Json.value) : LineBody :=
  Entry ev (Py.str_of (Py.hex (next_hash key prev ev))) (prev_text prev).

(** [chain key p lines q]: every line is an entry signed after its
    predecessor, from position [p] to position [q]. *)
Inductive chain (key : Py.bytes) : Py.bytes -> list Line -> Py.bytes -> Prop :=
  | chain_nil p : chain key p [] p
  | chain_cons p l ev rest q :
      body l = sealed key p ev ->
      chain key (next_hash key p ev) rest q ->
      chain key p (l :: rest) q.

(** The event as [log] writes it: with the session of the logger when
    it names none itself. *)
Definition stamped (session : string) (e : AuditEvent) : AuditEvent :=
  if String.eqb (session_id e) "" then
    {| event_type := event_type e; timestamp := timestamp e;
       session_id := session; request_id := request_id e;
       user_id := user_id e; action := action e;
       target := target e; risk_level := risk_level e;
       policy_name := policy_name e; phase := phase e;
       metadata := metadata e; error := error e |}
  else e.

(** The [event] fields that a run of [log] calls puts in the store, in
    order: one for each call whose write went through. *)
Definition payloads (session : string) (events : list (AuditEvent * bool))
  : list Json.value :=
  map (fun x => Json.Obj (to_dict (stamped session (fst x))))
      (List.filter (fun x : AuditEvent * bool => snd x) events).

(** The [event] field of a line that holds a record. *)
Definition entry_event (l : Line) : option Json.value :=
  match body l with
  | Entry ev _ _ => Some ev
  | _ => None
  end.

(** The exception that the verifier lets out when it meets a line of
    this shape, whatever the position; [None] for a line that it
    takes in. *)
Definition raises_on (b : LineBody) : option Py.exn :=
  match b with
  | Blank | Malformed => None
  | NotObject => Some Py.AttributeError
  | Entry _ sig _ =>
      if Py.is_ascii (Py.chars sig) then None else Some Py.TypeError
  | Untyped _ claimed expected =>
      match expected, claimed with
      | (Json.Str _ | Json.Arr _), Json.Str sig =>
          if Py.is_ascii (Py.chars sig) then None else Some Py.TypeError
      | _, _ => Some Py.TypeError
      end
  end.

(** The logger's position is the end of the chain held by the store. *)
Definition in_step (lg : AuditLogger) (fs : Files) : Prop :=
  chain (_hmac_key lg) [] (default [] (current fs)) (_last_hash lg).

End AuditInv.

Module OfflineQueueInv.
Import OfflineQueue.

Definition sample (p : Z) : QueuedEvent :=
  {| event_type := GENERIC_MESSAGE; timestamp := Qc_of_Z 0; data := [];
     priority := p |}.

End OfflineQueueInv.

Module RateLimiterInv.
Import RateLimiter.

(** The delay after the [k]-th denial past the threshold. *)
Definition backoff (rl : RateLimiter) (k : Z) : Qc :=
  py_min (_denial_backoff_base rl * Qc_of_Z (2 ^ k))%Qc (_denial_backoff_max rl).

Definition defaults : RateLimiter :=
  new_limiter 30 (Qc_of_Z 5) (Qc_of_Z 300) 3.

(** [n] denials of one identity in a row, at the seconds
    [t + 1, ..., t + n]; a call that raises leaves the limiter as it
    is at that point. *)
Fixpoint denied (n : nat) (t : Z) (rl : RateLimiter) (user_id : Z) : RateLimiter :=
  match n with
  | O => rl
  | S n =>
      denied n (t + 1)
        (fst (record_denial (Qc_of_Z (t + 1)) (Qc_of_Z (t + 1)) rl user_id))
        user_id
  end.

(** A limiter whose identity 7 has been denied four times. *)
Definition denied4 : RateLimiter := denied 4 0 defaults 7.

(** The same identity after 1026 denials in a row. *)
Definition denied1026 : RateLimiter := denied (Z.to_nat 1026) 0 defaults 7.

End RateLimiterInv.

Module PolicyInv.
Import PolicyEngine.

Fixpoint join_with (sep : ascii) (parts : list (list ascii)) : list ascii :=
  match parts with
  | [] => []
  | [p] => p
  | p :: rest => p ++ sep :: join_with sep rest
  end.

Definition free_of (c : ascii) (l : list ascii) : Prop :=
  Forall (fun x => Ascii.eqb c x = false) l.

(** The pattern with one brace group that the lemma below takes apart. *)
Definition braced (prefix : list ascii) (alts : list (list ascii))
    (suffix : list ascii) : string :=
  Py.str_of (prefix ++ "{"%char :: join_with ","%char alts ++ "}"%char :: suffix).

Definition rank (r : RiskLevel) : Z :=
  match r with LOW => 0 | MEDIUM => 1 | HIGH => 2 | CRITICAL => 3 end.

(** The test that makes a rule the deciding one. *)
Definition applies (act : ActionType) (target : string) (p : Policy) : bool :=
  enabled p && String.eqb (action p) (action_value act)
  && _pattern_matches (pattern p) target.

(** The outcome that a deciding rule gives. *)
Definition outcome (p : Policy) (risk : RiskLevel) : PolicyMatch :=
  if _risk_acceptable (max_risk p) (risk_value risk)
  then auto_approved p ("Matched policy: " ++ name p)
  else risk_exceeded p ("Risk " ++ risk_value risk ++ " exceeds policy max "
                        ++ max_risk p).

Definition strict_rule : Policy :=
  {| name := "strict"; enabled := true; action := "file_edit";
     pattern := "src/**/*.ts"; max_risk := "low" |}.

Definition lax_rule : Policy :=
  {| name := "lax"; enabled := true; action := "file_edit";
     pattern := "*"; max_risk := "critical" |}.

Definition off_rule : Policy :=
  {| name := "off"; enabled := false; action := "file_edit";
     pattern := "*"; max_risk := "critical" |}.

End PolicyInv.

Module QueueInv.
Import PermissionQueue.

Definition countb {A} (p : A -> bool) (l : list A) : nat :=
  length (List.filter p l).

Definition is_resolved (rid : string) (o : Obs) : bool :=
  match o with Resolved r _ => String.eqb r rid | _ => false end.

Definition is_accepted (rid : string) (o : Obs) : bool :=
  match o with RespondReturned r true => String.eqb r rid | _ => false end.

Definition is_delivered (rid : string) (o : Obs) : bool :=
  match o with Delivered r _ => String.eqb r rid | _ => false end.

Definition is_add (rid : string) (e : Event) : bool :=
  match e with Add request => String.eqb (id request) rid | _ => false end.

(** 1 when the request has a future that can still be resolved. *)
Definition unresolved (lp : Loop) (rid : string) : nat :=
  match open_future lp rid with Some _ => 1 | None => 0 end.

(** Number of suspended [add()] calls for the request. *)
Definition waiting (lp : Loop) (rid : string) : nat :=
  countb (fun w => String.eqb (fst w) rid) (waiters lp).

(** Every registered future exists. *)
Definition well_formed (lp : Loop) : Prop :=
  forall rid f, _response_futures (queue lp) !! rid = Some f ->
                (f < length (futures lp))%nat.

Definition request (rid : string) : PermissionRequest :=
  {| action := PolicyEngine.FILE_EDIT; target := "src/a.ts"; context := "";
     risk_level := PolicyEngine.LOW; id := rid; created_at := Qc_of_Z 0;
     telegram_message_id := None; timeout_task := None |}.

Definition reply (rid : string) (ok : bool) (user : Z) : PermissionResponse :=
  {| request_id := rid; approved := ok; responded_by := user;
     response_time := Qc_of_Z 1; auto_approved := false; policy_name := None |}.

(** Two replies race each other, the timer and [cancel_all]. *)
Definition race : list Event :=
  [Add (request "r1"); Respond (reply "r1" true 7); Respond (reply "r1" false 8);
   TimerFires 0 (Qc_of_Z 2); CancelAll (Qc_of_Z 3); AddReturns "r1" 0;
   Respond (reply "r1" false 9)].

(** Handles held by the queue, by pending requests and by suspended
    callers refer to futures and tasks that exist. *)
Definition sound (lp : Loop) : Prop :=
  well_formed lp
  /\ (forall r req t, _pending (queue lp) !! r = Some req ->
        timeout_task req = Some t -> (t < length (tasks lp))%nat)
  /\ (forall r f, (r, f) ∈ waiters lp -> (f < length (futures lp))%nat).

(** The request [rid] is registered with future [fut] and timeout task
    [task], is unresolved, and its caller is suspended; no other
    request or caller shares its future or its task. *)
Definition registered (rid : string) (fut task : nat) (lp : Loop) : Prop :=
  (exists req, _pending (queue lp) !! rid = Some req /\ timeout_task req = Some task)
  /\ _response_futures (queue lp) !! rid = Some fut
  /\ futures lp !! fut = Some Pending
  /\ (rid, fut) ∈ waiters lp
  /\ tasks lp !! task = Some (Sleeping rid)
  /\ (forall r, _response_futures (queue lp) !! r = Some fut -> r = rid)
  /\ (forall r req, _pending (queue lp) !! r = Some req ->
        timeout_task req = Some task -> r = rid)
  /\ (forall r f, (r, f) ∈ waiters lp -> (r = rid <-> f = fut)).

Definition is_cancel_of (rid : string) (fut : nat) (e : Event) : bool :=
  match e with
  | AddCancelled r f => String.eqb r rid && Nat.eqb f fut
  | _ => false
  end.

Definition is_return_of (rid : string) (fut : nat) (e : Event) : bool :=
  match e with
  | AddReturns r f => String.eqb r rid && Nat.eqb f fut
  | _ => false
  end.

End QueueInv.


(** ** Views of the permission queue and further invariants *)

Module QueueViews.
Import PermissionQueue.

(** [PermissionQueue.pending_count] *)
Definition pending_count (lp : Loop) : Z :=
  Z.of_nat (size (_pending (queue lp))).

(** [PermissionQueue.get_pending] *)
Definition get_pending (lp : Loop) (request_id : string)
  : option PermissionRequest :=
  _pending (queue lp) !! request_id.

End QueueViews.

Module QueueMoreInv.
Import PermissionQueue QueueInv QueueViews.

(** The step cancels the caller that waits on future [fut]. *)
Definition cancels_future (fut : nat) (e : Event) : bool :=
  match e with
  | AddCancelled _ f => Nat.eqb f fut
  | _ => false
  end.

(** The future is pending and no identifier leads to it any more. *)
Definition stranded (fut : nat) (lp : Loop) : Prop :=
  futures lp !! fut = Some Pending
  /\ forall r, _response_futures (queue lp) !! r <> Some fut.

(** Both tables have the same keys, and each key has a suspended
    caller. *)
Definition tables_backed (lp : Loop) : Prop :=
  forall rid,
    (is_Some (_pending (queue lp) !! rid)
     <-> is_Some (_response_futures (queue lp) !! rid))
    /\ (is_Some (_pending (queue lp) !! rid) -> (1 <= waiting lp rid)%nat).

End QueueMoreInv.

(** ** The convenience methods of [AuditLogger] and its key *)

Module AuditCalls.
Import Audit.

Abbreviation dict := (list (string * Json.value)).

(** [AuditEvent(event_type=t)] with its defaults; [timestamp] is the
    text of the clock reading of the default factory. *)
Definition default_event (t : EventType) (timestamp : string) : AuditEvent :=
  {| event_type := t; timestamp := timestamp; session_id := "";
     request_id := None; user_id := None; action := None; target := None;
     risk_level := None; policy_name := None; phase := None;
     metadata := []; error := None |}.

(** The event that [log_permission_request] builds. *)
Definition permission_request_event (timestamp request_id action target
    risk_level : string) (context : option string) : AuditEvent :=
  {| event_type := PERMISSION_REQUESTED; timestamp := timestamp; session_id := "";
     request_id := Some request_id; user_id := None; action := Some action;
     target := Some target; risk_level := Some risk_level;
     policy_name := None; phase := None;
     metadata := if_set "context" context; error := None |}.

(** The event that [log_permission_response] builds. *)
Definition permission_response_event (timestamp request_id : string)
    (approved : bool) (user_id : Z) (auto_approved : bool)
    (policy_name : option string) (response_time_ms : option Z) : AuditEvent :=
  let event_type :=
    if auto_approved then
      if bool_decide (policy_name = Some "timeout"%string)
      then PERMISSION_TIMEOUT else PERMISSION_AUTO_APPROVED
    else if approved then PERMISSION_APPROVED else PERMISSION_DENIED in
  let metadata :=
    match response_time_ms with
    | Some ms => [("response_time_ms"%string, Json.Int ms)]
    | None => []
    end in
  {| event_type := event_type; timestamp := timestamp; session_id := "";
     request_id := Some request_id; user_id := Some user_id; action := None;
     target := None; risk_level := None; policy_name := policy_name;
     phase := None; metadata := metadata; error := None |}.

(** The event that [log_policy_evaluation] builds. *)
Definition policy_evaluation_event (timestamp request_id action target
    risk_level : string) (matched : bool) (policy_name reason : option string)
  : AuditEvent :=
  {| event_type := if matched then POLICY_MATCHED else POLICY_EVALUATED;
     timestamp := timestamp; session_id := "";
     request_id := Some request_id; user_id := None; action := Some action;
     target := Some target; risk_level := Some risk_level;
     policy_name := policy_name; phase := None;
     metadata := if_set "reason" reason; error := None |}.

(** The events of [log_phase_transition], [log_system_event],
    [log_error] and [log_warning]; [default [] m] is [m or {}]. *)
Definition phase_transition_event (timestamp phase : string) (m : option dict)
  : AuditEvent :=
  {| event_type := PHASE_TRANSITION; timestamp := timestamp; session_id := "";
     request_id := None; user_id := None; action := None; target := None;
     risk_level := None; policy_name := None; phase := Some phase;
     metadata := default [] m; error := None |}.

Definition system_event (timestamp : string) (t : EventType) (m : option dict)
  : AuditEvent :=
  {| event_type := t; timestamp := timestamp; session_id := "";
     request_id := None; user_id := None; action := None; target := None;
     risk_level := None; policy_name := None; phase := None;
     metadata := default [] m; error := None |}.

Definition error_event (timestamp error : string) (context : option dict)
  : AuditEvent :=
  {| event_type := ERROR; timestamp := timestamp; session_id := "";
     request_id := None; user_id := None; action := None; target := None;
     risk_level := None; policy_name := None; phase := None;
     metadata := default [] context; error := Some error |}.

Definition warning_event (timestamp warning : string) (context : option dict)
  : AuditEvent :=
  {| event_type := WARNING; timestamp := timestamp; session_id := "";
     request_id := None; user_id := None; action := None; target := None;
     risk_level := None; policy_name := None; phase := None;
     metadata := default [] context; error := Some warning |}.

(** A call of one of the convenience methods, with its arguments. *)
Inductive Call : Type :=
  | log_permission_request (request_id action target risk_level : string)
      (context : option string)
  | log_permission_response (request_id : string) (approved : bool)
      (user_id : Z) (auto_approved : bool) (policy_name : option string)
      (response_time_ms : option Z)
  | log_policy_evaluation (request_id action target risk_level : string)
      (matched : bool) (policy_name reason : option string)
  | log_phase_transition (phase : string) (metadata : option dict)
  | log_system_event (event_type : EventType) (metadata : option dict)
  | log_error (error : string) (context : option dict)
  | log_warning (warning : string) (context : option dict).

Definition event_of (timestamp : string) (c : Call) : AuditEvent :=
  match c with
  | log_permission_request r a t k ctx =>
      permission_request_event timestamp r a t k ctx
  | log_permission_response r ok u auto p ms =>
      permission_response_event timestamp r ok u auto p ms
  | log_policy_evaluation r a t k m p why =>
      policy_evaluation_event timestamp r a t k m p why
  | log_phase_transition p m => phase_transition_event timestamp p m
  | log_system_event t m => system_event timestamp t m
  | log_error e ctx => error_event timestamp e ctx
  | log_warning w ctx => warning_event timestamp w ctx
  end.

(** The call itself: every method hands its event to [log]. *)
Definition perform (lg : AuditLogger) (fs : Files) (timestamp : string)
    (c : Call) (io_ok : bool) : Py.result (AuditLogger * Files) :=
  log lg fs (event_of timestamp c) io_ok.

Fixpoint perform_all (lg : AuditLogger) (fs : Files)
    (calls : list (string * Call * bool)) : Py.result (AuditLogger * Files) :=
  match calls with
  | [] => Py.Returned (lg, fs)
  | (ts, c, ok) :: rest =>
      match perform lg fs ts c ok with
      | Py.Returned (lg', fs') => perform_all lg' fs' rest
      | Py.Raised x => Py.Raised x
      end
  end.

(** A key argument: [bytes], or [str] taken as hexadecimal text. *)
Inductive KeyArg : Type :=
  | KeyBytes (b : Py.bytes)
  | KeyText (s : string).

(** [AuditLogger._init_hmac_key]; [env_key] is the value of
    [SIMSTIM_AUDIT_KEY], [fresh] what [os.urandom(32)] returns. *)
Definition _init_hmac_key (key : option KeyArg) (env_key : option string)
    (fresh : Py.bytes) : Py.result Py.bytes :=
  match key with
  | Some (KeyText s) =>
      match Py.fromhex (Py.chars s) with
      | Some b => Py.Returned b
      | None => Py.Raised Py.ValueError
      end
  | Some (KeyBytes b) => Py.Returned b
  | None =>
      match env_key with
      | Some s =>
          if String.eqb s "" then Py.Returned fresh
          else match Py.fromhex (Py.chars s) with
               | Some b => Py.Returned b
               | None => Py.Raised Py.ValueError
               end
      | None => Py.Returned fresh
      end
  end.

(** [AuditLogger.__init__]; [generated] is the session identifier that
    [_generate_session_id] would return. *)
Definition init_logger (session_id : option string) (generated : string)
    (max_file_size_mb rotate_count : Z) (hmac_key : option KeyArg)
    (env_key : option string) (fresh : Py.bytes) : Py.result AuditLogger :=
  let session :=
    match session_id with
    | Some s => if String.eqb s "" then generated else s
    | None => generated
    end in
  match _init_hmac_key hmac_key env_key fresh with
  | Py.Returned key =>
      Py.Returned (new_logger session max_file_size_mb rotate_count key)
  | Py.Raised x => Py.Raised x
  end.

(** [verify_audit_log] with a key of either type: a text key is decoded
    before the store is looked at. *)
Definition verify_audit_log_with (fs : Files) (hmac_key : KeyArg)
  : Py.result (bool * list VerifyError) :=
  match hmac_key with
  | KeyText s =>
      match Py.fromhex (Py.chars s) with
      | Some k => verify_audit_log fs k
      | None => Py.Raised Py.ValueError
      end
  | KeyBytes k => verify_audit_log fs k
  end.

(** [AuditLogger.event_count] *)
Definition event_count (lg : AuditLogger) : Z := _event_count lg.

End AuditCalls.

Module AuditMoreInv.
Import Audit AuditInv.

(** The [hmac] field of a line, and that of the last line of a store. *)
Definition hmac_field (l : Line) : string :=
  match body l with
  | Entry _ sig _ => sig
  | _ => ""%string
  end.

Definition last_hmac (lines : list Line) : string :=
  match last lines with
  | Some l => hmac_field l
  | None => ""%string
  end.

(** Every rotated file is in one of the slots [1 .. rotate_count]. *)
Definition slots_bounded (rc : Z) (fs : Files) : Prop :=
  forall j, is_Some (rotated fs !! j) -> 1 <= j <= rc.

Definition successes {A} (l : list (A * bool)) : nat :=
  length (List.filter snd l).

End AuditMoreInv.

(** ** [telegram/keyboards.py]: signed callback data *)

Module Keyboards.

Inductive CallbackAction : Set := APPROVE | DENY | CANCEL | HALT | CONFIRM.

Definition action_value (a : CallbackAction) : string :=
  match a with
  | APPROVE => "approve"
  | DENY => "deny"
  | CANCEL => "cancel"
  | HALT => "halt"
  | CONFIRM => "confirm"
  end.

(** [CallbackAction(text)]: the member with that value; [None] stands
    for the [ValueError] of the enumeration. *)
Definition action_of (text : string) : option CallbackAction :=
  List.find (fun a => String.eqb (action_value a) text)
            [APPROVE; DENY; CANCEL; HALT; CONFIRM].

Record CallbackData := {
  action : CallbackAction;
  request_id : option string;
  extra : option string;
}.

Definition colon : ascii := ":"%char.

(** Splits off the text before the first [sep], when there is one. *)
Fixpoint cut (sep : ascii) (l : list ascii)
  : option (list ascii * list ascii) :=
  match l with
  | [] => None
  | c :: r =>
      if Ascii.eqb c sep then Some ([], r)
      else match cut sep r with
           | Some (a, b) => Some (c :: a, b)
           | None => None
           end
  end.

(** [s.split(sep, maxsplit=2)] *)
Definition split2 (sep : ascii) (l : list ascii) : list (list ascii) :=
  match cut sep l with
  | None => [l]
  | Some (a, r) =>
      match cut sep r with
      | None => [a; r]
      | Some (b, c) => [a; b; c]
      end
  end.

(** [create_permission_keyboard]: the [callback_data] of the Approve
    and of the Deny button.  [_signer] is the key of the module's
    signer, if one is set; [now] and [now'] are the clock readings of
    the two [sign] calls. *)
Definition create_permission_keyboard (_signer : option Py.bytes) (now now' : Z)
    (request_id : string) : string * string :=
  let approve_payload := (action_value APPROVE ++ ":" ++ request_id)%string in
  let deny_payload := (action_value DENY ++ ":" ++ request_id)%string in
  match _signer with
  | Some key =>
      (Crypto.sign key now approve_payload, Crypto.sign key now' deny_payload)
  | None => (approve_payload, deny_payload)
  end.

(** [create_confirmation_keyboard]: the [callback_data] of the Confirm
    and of the Cancel button. *)
Definition create_confirmation_keyboard (_signer : option Py.bytes) (now now' : Z)
    (action data : string) : string * string :=
  let confirm_payload :=
    (action_value CONFIRM ++ ":" ++ action ++ ":" ++ data)%string in
  let cancel_payload :=
    (action_value CANCEL ++ ":" ++ action ++ ":" ++ data)%string in
  match _signer with
  | Some key =>
      (Crypto.sign key now confirm_payload, Crypto.sign key now' cancel_payload)
  | None => (confirm_payload, cancel_payload)
  end.

(** [parse_callback_data]; [now] is the clock reading of [verify]. *)
Definition parse_callback_data (_signer : option Py.bytes) (now : Z)
    (data : string) : Py.result CallbackData :=
  let verified :=
    match _signer with
    | Some key =>
        match Crypto.verify key now data Crypto.CALLBACK_MAX_AGE_SECONDS with
        | None => Py.Raised Py.ValueError
        | Some result => Py.Returned (Crypto.payload result)
        end
    | None => Py.Returned data
    end in
  match verified with
  | Py.Raised e => Py.Raised e
  | Py.Returned payload =>
      match split2 colon (Py.chars payload) with
      | [] => Py.Raised Py.ValueError
      | first :: more =>
          match action_of (Py.str_of first) with
          | None => Py.Raised Py.ValueError
          | Some action =>
              Py.Returned {| action := action;
                             request_id := Py.str_of <$> more !! 0%nat;
                             extra := Py.str_of <$> more !! 1%nat |}
          end
      end
  end.

End Keyboards.

Module KeyboardsInv.

(** Number of occurrences of a character. *)
Definition occurrences (c : ascii) (l : list ascii) : nat :=
  length (List.filter (Ascii.eqb c) l).

(** A token signed at [signed] is within the age limit and the clock
    tolerance when checked at [now]. *)
Definition fresh_at (now signed : Z) : Prop :=
  now - signed <= Crypto.CALLBACK_MAX_AGE_SECONDS /\ signed <= now + 60.

(** The signature field as [verify] pads it before decoding. *)
Definition padded (signature : list ascii) : list ascii :=
  let len := Z.of_nat (length signature) in
  if negb (len mod 4 =? 0)
  then signature ++ repeat "="%char (Z.to_nat (4 - len mod 4))
  else signature.

(** A character that the decoder skips and that ends no field. *)
Definition skipped (c : ascii) : Prop :=
  (Py.byte_val c <? 128) = true /\ Base64.b64val c = None
  /\ Ascii.eqb c "="%char = false /\ Ascii.eqb c "|"%char = false.

End KeyboardsInv.

(** ** [RateLimiter.clear_user] and [get_user_stats] *)

Module RateStats.
Import RateLimiter.

(** [RateLimiter.clear_user] *)
Definition clear_user (rl : RateLimiter) (user_id : Z) : RateLimiter :=
  {| _requests_per_minute := _requests_per_minute rl;
     _denial_backoff_base := _denial_backoff_base rl;
     _denial_backoff_max := _denial_backoff_max rl;
     _denial_threshold := _denial_threshold rl;
     _user_states := delete user_id (_user_states rl) |}.

(** The dictionary that [get_user_stats] returns. *)
Record UserStats := {
  user_id : Z;
  requests_last_minute : Z;
  requests_remaining : Z;
  stats_denial_count : Z;
  in_backoff : bool;
  backoff_remaining : Qc;
}.

(** [RateLimiter.get_user_stats]; reading the state of a user enters
    it in the table. *)
Definition get_user_stats (now : Qc) (rl : RateLimiter) (user_id : Z)
  : RateLimiter * UserStats :=
  let state := state_of rl user_id in
  let cutoff := (now - Qc_of_Z 60)%Qc in
  let recent_requests :=
    Z.of_nat (length (List.filter (fun t => bool_decide (cutoff < t)%Qc)
                                  (request_times state))) in
  let blocked :=
    match backoff_until state with
    | Some t => bool_decide (now < t)%Qc
    | None => false
    end in
  (with_state rl user_id state,
   {| user_id := user_id;
      requests_last_minute := recent_requests;
      requests_remaining := Z.max 0 (_requests_per_minute rl - recent_requests);
      stats_denial_count := denial_count state;
      in_backoff := blocked;
      backoff_remaining :=
        match backoff_until state with
        | Some t => if blocked then (t - now)%Qc else 0%Qc
        | None => 0%Qc
        end |}).

End RateStats.

Module RateMoreInv.
Import RateLimiter.

(** The requests of the state that count at time [now]. *)
Definition recent (now : Qc) (st : UserRateState) : list Qc :=
  List.filter (fun t => bool_decide (now - Qc_of_Z 60 < t)%Qc) (request_times st).

(** A caller that asks before each request, at the first clock reading
    of the pair, and records the request, at the second, when it was
    allowed: the limiter it leaves and the times of the requests that
    went through. *)
Fixpoint let_through (rl : RateLimiter) (user : Z) (attempts : list (Qc * Qc))
  : RateLimiter * list Qc :=
  match attempts with
  | [] => (rl, [])
  | (asked, made) :: rest =>
      let '(rl1, (allowed, _)) := check_rate_limit asked rl user in
      if allowed then
        let '(rl2, times) := let_through (record_request made rl1 user) user rest in
        (rl2, made :: times)
      else let_through rl1 user rest
  end.

(** The clock readings of the attempts never go back. *)
Fixpoint clock_ordered (from : Qc) (attempts : list (Qc * Qc)) : Prop :=
  match attempts with
  | [] => True
  | (asked, made) :: rest =>
      (from <= asked)%Qc /\ (asked <= made)%Qc /\ clock_ordered made rest
  end.

(** Any two of the times that are [n] places apart are at least a
    minute apart. *)
Definition spaced (n : nat) (l : list Qc) : Prop :=
  forall i a b, l !! i = Some a -> l !! (i + n)%nat = Some b ->
                (Qc_of_Z 60 <= b - a)%Qc.

(** A limiter of one request a minute whose identity 7 made a request
    at time 0. *)
Definition busy : RateLimiter :=
  record_request (Qc_of_Z 0) (new_limiter 1 (Qc_of_Z 5) (Qc_of_Z 300) 3) 7.

(** Three attempts ten seconds apart, then one a minute after the
    first. *)
Definition burst : list (Qc * Qc) :=
  [(Qc_of_Z 0, Qc_of_Z 0); (Qc_of_Z 10, Qc_of_Z 10);
   (Qc_of_Z 20, Qc_of_Z 20); (Qc_of_Z 60, Qc_of_Z 61)].

Definition ascending (l : list Qc) : Prop :=
  forall i j a b, (i <= j)%nat -> l !! i = Some a -> l !! j = Some b -> (a <= b)%Qc.

End RateMoreInv.

(** ** [OfflineQueue.flush] and the offline flag

    [flush] holds the lock of the queue while it awaits the handler, so
    no [enqueue] and no other [flush] runs in between; the handler is a
    function of a state of its own, which stands for everything it can
    reach. *)

Module OfflineFlush.
Import OfflineQueue.

(** What [await handler(event)] does, as seen by [flush]: it returns a
    value that is true or false, raises an exception that
    [except Exception] catches, or raises one that it does not catch
    ([CancelledError], [KeyboardInterrupt], ...). *)
Inductive Outcome : Set :=
  | Returns (success : bool)
  | RaisesException
  | RaisesOther.

(** [(-a.priority, a.timestamp) < (-b.priority, b.timestamp)], the
    comparison of tuples that [sorted] uses. *)
Definition key_lt (a b : QueuedEvent) : bool :=
  if bool_decide (- priority a = - priority b)
  then bool_decide (timestamp a < timestamp b)%Qc
  else bool_decide (- priority a < - priority b).

(** [sorted(queue, key=...)]: the sort is stable, and this is the
    stable sort by insertion. *)
Fixpoint insert (e : QueuedEvent) (l : list QueuedEvent) : list QueuedEvent :=
  match l with
  | [] => [e]
  | x :: rest => if key_lt x e then x :: insert e rest else e :: x :: rest
  end.

Definition sorted (l : list QueuedEvent) : list QueuedEvent :=
  foldr insert [] l.

Section Flush.
Context {H : Type}.
Variable handler : H -> QueuedEvent -> H * Outcome.

(** The [for] loop of [flush]: [None] when an exception leaves it. *)
Fixpoint flush_loop (events : list QueuedEvent) (h : H) (processed : Z)
    (remaining : list QueuedEvent) : H * option (Z * list QueuedEvent) :=
  match events with
  | [] => (h, Some (processed, remaining))
  | event :: rest =>
      match handler h event with
      | (h, Returns true) => flush_loop rest h (processed + 1) remaining
      | (h, Returns false) => flush_loop rest h processed (remaining ++ [event])
      | (h, RaisesException) => flush_loop rest h processed (remaining ++ [event])
      | (h, RaisesOther) => (h, None)
      end
  end.

(** [OfflineQueue.flush]: the queue and the handler's state afterwards,
    and the number returned, [None] when an exception came out. *)
Definition flush (now : Qc) (q : OfflineQueue) (h : H)
  : OfflineQueue * H * option Z :=
  let q := fst (_prune_old_events now q) in
  match _queue q with
  | [] => (q, h, Some 0)
  | _ =>
      let sorted_events := sorted (_queue q) in
      match flush_loop sorted_events h 0 [] with
      | (h, Some (processed, remaining)) =>
          (with_queue q remaining, h, Some processed)
      | (h, None) => (q, h, None)
      end
  end.

End Flush.

(** [OfflineQueue.set_offline] *)
Definition set_offline (now : Qc) (q : OfflineQueue) : OfflineQueue :=
  if negb (_is_offline q)
  then {| _queue := _queue q; _max_size := _max_size q; _max_age := _max_age q;
          _is_offline := true; _offline_since := Some now |}
  else q.

(** [OfflineQueue.set_online] *)
Definition set_online (q : OfflineQueue) : OfflineQueue :=
  if _is_offline q
  then {| _queue := _queue q; _max_size := _max_size q; _max_age := _max_age q;
          _is_offline := false; _offline_since := None |}
  else q.

(** [OfflineQueue.is_offline] *)
Definition is_offline (q : OfflineQueue) : bool := _is_offline q.

(** [OfflineQueue.queue_size] *)
Definition queue_size (q : OfflineQueue) : Z := Z.of_nat (length (_queue q)).

(** [OfflineQueue.offline_duration] *)
Definition offline_duration (now : Qc) (q : OfflineQueue) : option Qc :=
  match _offline_since q with
  | Some since => if negb (_is_offline q) then None else Some (now - since)%Qc
  | None => None
  end.

(** The calls that a user of the queue makes, one after the other; a
    call of [enqueue] that raises leaves the queue pruned. *)
Inductive Op {H : Type} : Type :=
  | Enqueue (now : Qc) (event : QueuedEvent)
  | Flush (now : Qc) (handler : H -> QueuedEvent -> H * Outcome) (h : H)
  | SetOffline (now : Qc)
  | SetOnline.
Arguments Op H : clear implicits.

Definition perform {H : Type} (q : OfflineQueue) (op : Op H) : OfflineQueue :=
  match op with
  | Enqueue now event =>
      match enqueue now q event with
      | Py.Returned (q', _) => q'
      | Py.Raised _ => fst (_prune_old_events now q)
      end
  | Flush now handler h => fst (fst (flush handler now q h))
  | SetOffline now => set_offline now q
  | SetOnline => set_online q
  end.

Definition perform_all {H : Type} (q : OfflineQueue) (ops : list (Op H))
  : OfflineQueue :=
  fold_left perform ops q.

End OfflineFlush.

Module OfflineFlushInv.
Import OfflineQueue OfflineFlush.

(** [a] is handed over no later than [b]: its priority is not lower,
    and at equal priority it is not younger. *)
Definition precedes (a b : QueuedEvent) : Prop :=
  priority b <= priority a
  /\ (priority a = priority b -> (timestamp a <= timestamp b)%Qc).

Fixpoint in_priority_order (l : list QueuedEvent) : Prop :=
  match l with
  | [] => True
  | x :: rest => Forall (precedes x) rest /\ in_priority_order rest
  end.

(** No event of the queue has reached the age limit at [now]. *)
Definition unexpired (now : Qc) (q : OfflineQueue) : Prop :=
  Forall (fun e => (now - timestamp e < Qc_of_Z (_max_age q))%Qc) (_queue q).

Definition is_set_online {H : Type} (op : Op H) : bool :=
  match op with SetOnline => true | _ => false end.

Definition event_at (t p : Z) : QueuedEvent :=
  {| event_type := STATUS_MESSAGE; timestamp := Qc_of_Z t; data := [];
     priority := p |}.

(** A handler that is offline itself: it fails for every event and
    counts the calls. *)
Definition failing (h : nat) (e : QueuedEvent) : nat * Outcome :=
  (S h, Returns false).

(** A handler that accepts the events of priority 1 and above. *)
Definition urgent_only (h : nat) (e : QueuedEvent) : nat * Outcome :=
  (S h, if 1 <=? priority e then Returns true else RaisesException).

End OfflineFlushInv.

(** ** [ReconnectionManager]

    One call of [attempt_reconnect] runs against what its surroundings
    do in each turn of its loop: the clock, the outcome of
    [connect_fn] and of [on_success], the random number drawn for the
    jitter, whether the sleep ends, and whether another task calls
    [cancel] meanwhile.  A list of such turns that runs out before the
    call ends leaves it [Pending]. *)

Module Reconnection.
Import OfflineFlush.

Record ReconnectionManager := {
  _initial_delay : Qc;
  _max_delay : Qc;
  _backoff_factor : Qc;
  _max_attempts : Z;
  _jitter : Qc;
  _current_delay : Qc;
  _attempt_count : Z;
  _is_reconnecting : bool;
  _last_attempt : option Qc;
  _successful_connections : Z;
}.

(** [ReconnectionManager.__init__] *)
Definition new_manager (initial_delay max_delay backoff_factor : Qc)
    (max_attempts : Z) (jitter : Qc) : ReconnectionManager :=
  {| _initial_delay := initial_delay; _max_delay := max_delay;
     _backoff_factor := backoff_factor; _max_attempts := max_attempts;
     _jitter := jitter; _current_delay := initial_delay; _attempt_count := 0;
     _is_reconnecting := false; _last_attempt := None;
     _successful_connections := 0 |}.

Definition set_reconnecting (m : ReconnectionManager) (b : bool)
  : ReconnectionManager :=
  {| _initial_delay := _initial_delay m; _max_delay := _max_delay m;
     _backoff_factor := _backoff_factor m; _max_attempts := _max_attempts m;
     _jitter := _jitter m; _current_delay := _current_delay m;
     _attempt_count := _attempt_count m; _is_reconnecting := b;
     _last_attempt := _last_attempt m;
     _successful_connections := _successful_connections m |}.

Definition set_attempt (m : ReconnectionManager) (count : Z) (now : Qc)
  : ReconnectionManager :=
  {| _initial_delay := _initial_delay m; _max_delay := _max_delay m;
     _backoff_factor := _backoff_factor m; _max_attempts := _max_attempts m;
     _jitter := _jitter m; _current_delay := _current_delay m;
     _attempt_count := count; _is_reconnecting := _is_reconnecting m;
     _last_attempt := Some now;
     _successful_connections := _successful_connections m |}.

Definition set_delay (m : ReconnectionManager) (delay : Qc)
  : ReconnectionManager :=
  {| _initial_delay := _initial_delay m; _max_delay := _max_delay m;
     _backoff_factor := _backoff_factor m; _max_attempts := _max_attempts m;
     _jitter := _jitter m; _current_delay := delay;
     _attempt_count := _attempt_count m; _is_reconnecting := _is_reconnecting m;
     _last_attempt := _last_attempt m;
     _successful_connections := _successful_connections m |}.

Definition set_successes (m : ReconnectionManager) (n : Z)
  : ReconnectionManager :=
  {| _initial_delay := _initial_delay m; _max_delay := _max_delay m;
     _backoff_factor := _backoff_factor m; _max_attempts := _max_attempts m;
     _jitter := _jitter m; _current_delay := _current_delay m;
     _attempt_count := _attempt_count m; _is_reconnecting := _is_reconnecting m;
     _last_attempt := _last_attempt m;
     _successful_connections := n |}.

(** [ReconnectionManager._reset] *)
Definition _reset (m : ReconnectionManager) : ReconnectionManager :=
  {| _initial_delay := _initial_delay m; _max_delay := _max_delay m;
     _backoff_factor := _backoff_factor m; _max_attempts := _max_attempts m;
     _jitter := _jitter m; _current_delay := _initial_delay m;
     _attempt_count := 0; _is_reconnecting := _is_reconnecting m;
     _last_attempt := _last_attempt m;
     _successful_connections := _successful_connections m |}.

(** [ReconnectionManager.cancel] *)
Definition cancel (m : ReconnectionManager) : ReconnectionManager :=
  set_reconnecting m false.

(** [random.uniform(a, b)], from the number [u] that [random()] draws. *)
Definition uniform (a b u : Qc) : Qc := (a + (b - a) * u)%Qc.

Record Round := {
  clock : Qc;
  connect : Outcome;
  success_cb : Outcome;
  sample : Qc;
  slept : bool;
  cancel_called : bool;
}.

Inductive Action : Set :=
  | Connect
  | OnSuccess
  | OnFailure
  | Sleep (delay : Qc).

Inductive Result : Set :=
  | Returned (b : bool)
  | Propagated
  | Pending.

(** The [while True] loop of [attempt_reconnect]. *)
Fixpoint loop (on_success : bool) (on_failure : option Outcome)
    (rounds : list Round) (m : ReconnectionManager)
  : ReconnectionManager * list Action * Result :=
  match rounds with
  | [] => (m, [], Pending)
  | r :: rest =>
      let m := set_attempt m (_attempt_count m + 1) (clock r) in
      if (0 <? _max_attempts m) && (_max_attempts m <? _attempt_count m) then
        match on_failure with
        | None => (m, [], Returned false)
        | Some (Returns _) => (m, [OnFailure], Returned false)
        | Some _ => (m, [OnFailure], Propagated)
        end
      else
        let wait (m : ReconnectionManager) (done : list Action) :=
          let jitter_range := (_current_delay m * _jitter m)%Qc in
          let jitter := uniform (- jitter_range) jitter_range (sample r) in
          let delay :=
            RateLimiter.py_min (_current_delay m + jitter) (_max_delay m) in
          if slept r then
            let m := set_delay m
              (RateLimiter.py_min (_current_delay m * _backoff_factor m)
                                  (_max_delay m)) in
            let m := if cancel_called r then cancel m else m in
            let '(m, later, res) := loop on_success on_failure rest m in
            (m, done ++ Sleep delay :: later, res)
          else (m, done ++ [Sleep delay], Propagated) in
        match connect r with
        | Returns true =>
            let m := _reset (set_successes m (_successful_connections m + 1)) in
            if on_success then
              match success_cb r with
              | Returns _ => (m, [Connect; OnSuccess], Returned true)
              | RaisesException => wait m [Connect; OnSuccess]
              | RaisesOther => (m, [Connect; OnSuccess], Propagated)
              end
            else (m, [Connect], Returned true)
        | Returns false => wait m [Connect]
        | RaisesException => wait m [Connect]
        | RaisesOther => (m, [Connect], Propagated)
        end
  end.

(** [ReconnectionManager.attempt_reconnect]; the [finally] clause runs
    when the loop is left. *)
Definition attempt_reconnect (on_success : bool) (on_failure : option Outcome)
    (rounds : list Round) (m : ReconnectionManager)
  : ReconnectionManager * list Action * Result :=
  if _is_reconnecting m then (m, [], Returned false)
  else
    let '(m, actions, res) :=
      loop on_success on_failure rounds (set_reconnecting m true) in
    match res with
    | Pending => (m, actions, Pending)
    | _ => (set_reconnecting m false, actions, res)
    end.

End Reconnection.

Module ReconnectionInv.
Import OfflineFlush Reconnection.

(** A turn in which the connection is not made and the sleep ends. *)
Definition failed (r : Round) : Prop :=
  (connect r = Returns false \/ connect r = RaisesException) /\ slept r = true.

(** The delay before jitter after [k] failures. *)
Definition cap (m : ReconnectionManager) (k : nat) : Qc :=
  RateLimiter.py_min (_initial_delay m * Qcpower (_backoff_factor m) k)%Qc
                     (_max_delay m).

(** The sleep after the failure number [k], counted from 0. *)
Definition pause (m : ReconnectionManager) (k : nat) (u : Qc) : Qc :=
  RateLimiter.py_min
    (cap m k + uniform (- (cap m k * _jitter m)) (cap m k * _jitter m) u)%Qc
    (_max_delay m).

Fixpoint schedule (m : ReconnectionManager) (k : nat) (rounds : list Round)
  : list Action :=
  match rounds with
  | [] => []
  | r :: rest => Connect :: Sleep (pause m k (sample r)) :: schedule m (S k) rest
  end.

Definition is_connect (a : Action) : bool :=
  match a with Connect => true | _ => false end.

(** The number of calls of [connect_fn]. *)
Definition connects (actions : list Action) : nat :=
  length (List.filter is_connect actions).

(** The turn as it is when nobody calls [cancel]. *)
Definition undisturbed (r : Round) : Round :=
  {| clock := clock r; connect := connect r; success_cb := success_cb r;
     sample := sample r; slept := slept r; cancel_called := false |}.

(** [m] has the settings of [m0]. *)
Definition same_settings (m m0 : ReconnectionManager) : Prop :=
  _initial_delay m = _initial_delay m0 /\ _max_delay m = _max_delay m0
  /\ _backoff_factor m = _backoff_factor m0 /\ _jitter m = _jitter m0
  /\ _max_attempts m = _max_attempts m0.

(** The attempts of [m] are used up. *)
Definition exhausted (m : ReconnectionManager) : Prop :=
  0 < _max_attempts m /\ _max_attempts m <= _attempt_count m.

(** How a call ends that finds the attempts used up. *)
Definition given_up (on_failure : option Outcome) : Result :=
  match on_failure with
  | None => Returned false
  | Some (Returns _) => Returned false
  | Some _ => Propagated
  end.

Definition sleeps_at_most (limit : Qc) (a : Action) : Prop :=
  match a with Sleep d => (d <= limit)%Qc | _ => True end.

Definition refused (t : Z) : Round :=
  {| clock := Qc_of_Z t; connect := Returns false; success_cb := Returns true;
     sample := Q2Qc (1 # 2); slept := true; cancel_called := false |}.

Definition accepted (t : Z) : Round :=
  {| clock := Qc_of_Z t; connect := Returns true; success_cb := Returns true;
     sample := Q2Qc (1 # 2); slept := true; cancel_called := false |}.

Definition cancelled_in (r : Round) : Round :=
  {| clock := clock r; connect := connect r; success_cb := success_cb r;
     sample := sample r; slept := slept r; cancel_called := true |}.

Definition standard (max_attempts : Z) : ReconnectionManager :=
  new_manager (Qc_of_Z 1) (Qc_of_Z 300) (Qc_of_Z 2) max_attempts (Q2Qc (1 # 10)).

End ReconnectionInv.

(** ** The rule list of [PolicyEngine] at runtime *)

Module PolicyRuntime.
Import PolicyEngine.

(** The loop of [remove_policy]: the list without the first rule of
    that name, [None] when there is none. *)
Fixpoint remove_first (rule_name : string) (policies : list Policy)
  : option (list Policy) :=
  match policies with
  | [] => None
  | p :: rest =>
      if String.eqb (name p) rule_name then Some rest
      else (fun l => p :: l) <$> remove_first rule_name rest
  end.

(** [PolicyEngine.remove_policy] *)
Definition remove_policy (eng : PolicyEngine) (rule_name : string)
  : PolicyEngine * bool :=
  match remove_first rule_name (_policies eng) with
  | Some l => ({| _policies := l; _evaluation_count := _evaluation_count eng |}, true)
  | None => (eng, false)
  end.

(** [PolicyEngine.get_policy] *)
Definition get_policy (eng : PolicyEngine) (rule_name : string) : option Policy :=
  List.find (fun p => String.eqb (name p) rule_name) (_policies eng).

(** [PolicyEngine.list_policies] *)
Definition list_policies (eng : PolicyEngine) : list Policy := _policies eng.

(** [PolicyEngine.policy_count] *)
Definition policy_count (eng : PolicyEngine) : Z :=
  Z.of_nat (length (_policies eng)).

(** [PolicyEngine.evaluation_count] *)
Definition evaluation_count (eng : PolicyEngine) : Z := _evaluation_count eng.

End PolicyRuntime.


(** * Properties *)

Example sha_abc : Py.str_of (Py.hex (Sha256.digest (Py.chars "abc")))
  = "ba7816bf8f01cfea414140de5dae2223b00361a396177a9cb410ff61f20015ad"%string.
Proof. vm_compute. reflexivity. Qed.

Example hmac_fox :
  Sha256.hmac_hexdigest (Py.chars "key") (Py.chars "The quick brown fox jumps over the lazy dog")
  = "f7bc83f430538424b13298e6aa6fb143ef4d59a14946175997479dbc2d1a3cd8"%string.
Proof. vm_compute. reflexivity. Qed.

Example hmac_longkey :
  Sha256.hmac_hexdigest (repeat "k"%char 100) (Py.chars "msg")
  = "bd56a1782c2830e8abc6ed866a57a1230661e650b84c62f7ee3accc5fa5af491"%string.
Proof. vm_compute. reflexivity. Qed.

Example sign_example :
  Crypto.sign (Py.chars "secret") 1700000000 "approve:abc123"
  = "approve:abc123|1700000000|eetTkzcIp1IeTDuE-llo3g"%string.
Proof. vm_compute. reflexivity. Qed.

Example verify_example :
  Crypto.verify (Py.chars "secret") 1700000100
    "approve:abc123|1700000000|eetTkzcIp1IeTDuE-llo3g" 300
  = Some {| Crypto.payload := "approve:abc123"; Crypto.timestamp := 1700000000;
            Crypto.signature := "eetTkzcIp1IeTDuE-llo3g" |}.
Proof. vm_compute. reflexivity. Qed.

(** ** Facts about the built-ins *)

Module PyFacts.

Lemma byte_val_range (c : ascii) : 0 <= Py.byte_val c < 256.
Proof.
  unfold Py.byte_val. pose proof (N_ascii_bounded c). lia.
Qed.

Lemma byte_val_of (z : Z) : 0 <= z < 256 -> Py.byte_val (Py.byte_of z) = z.
Proof.
  intros Hz. unfold Py.byte_val, Py.byte_of.
  rewrite Z.mod_small by lia.
  rewrite N_ascii_embedding by lia. lia.
Qed.

Lemma byte_of_val (c : ascii) : Py.byte_of (Py.byte_val c) = c.
Proof.
  unfold Py.byte_val, Py.byte_of.
  pose proof (N_ascii_bounded c).
  rewrite Z.mod_small by lia.
  rewrite N2Z.id. apply ascii_N_embedding.
Qed.

Lemma eqb_byte_of (a b : Z) :
  0 <= a < 256 -> 0 <= b < 256 -> a <> b ->
  Ascii.eqb (Py.byte_of a) (Py.byte_of b) = false.
Proof.
  intros Ha Hb Hab. apply Ascii.eqb_neq. intros E.
  apply (f_equal Py.byte_val) in E. rewrite !byte_val_of in E by lia. lia.
Qed.

Lemma chars_str_of (l : list ascii) : Py.chars (Py.str_of l) = l.
Proof. apply list_ascii_of_string_of_list_ascii. Qed.

Lemma str_of_chars (s : string) : Py.str_of (Py.chars s) = s.
Proof. apply string_of_list_ascii_of_string. Qed.

(** Three-at-a-time induction on lists. *)
Lemma list_ind3 {A} (P : list A -> Prop) :
  P [] -> (forall x, P [x]) -> (forall x y, P [x; y]) ->
  (forall x y z r, P r -> P (x :: y :: z :: r)) ->
  forall l, P l.
Proof.
  intros H0 H1 H2 H3 l.
  assert (H : P l /\ (forall x, P (x :: l)) /\ (forall x y, P (x :: y :: l))).
  { induction l as [|a l (IH0 & IH1 & IH2)]; auto. }
  apply H.
Qed.

Lemma lstrip_id (l : list ascii) :
  Forall (fun c => Py.isspace c = false) l -> Py.lstrip l = l.
Proof. destruct 1 as [|c r Hc _]; simpl; [reflexivity | now rewrite Hc]. Qed.

Lemma strip_id (l : list ascii) :
  Forall (fun c => Py.isspace c = false) l -> Py.strip l = l.
Proof.
  intros H. unfold Py.strip. rewrite (lstrip_id l H).
  rewrite lstrip_id by (apply Forall_rev; exact H).
  apply rev_involutive.
Qed.

Lemma rcut_none (sep : ascii) (l : list ascii) :
  Forall (fun c => Ascii.eqb c sep = false) l -> Py.rcut sep l = None.
Proof.
  induction 1 as [|c r Hc _ IH]; simpl; [reflexivity|].
  now rewrite IH, Hc.
Qed.

Lemma rcut_last (sep : ascii) (a z : list ascii) :
  Forall (fun c => Ascii.eqb c sep = false) z ->
  Py.rcut sep (a ++ sep :: z) = Some (a, z).
Proof.
  intros Hz. induction a as [|c a IH]; simpl.
  - rewrite (rcut_none _ _ Hz). now rewrite Ascii.eqb_refl.
  - now rewrite IH.
Qed.

Lemma rsplit2_three (sep : ascii) (x y z : list ascii) :
  Forall (fun c => Ascii.eqb c sep = false) y ->
  Forall (fun c => Ascii.eqb c sep = false) z ->
  Py.rsplit2 sep (x ++ sep :: y ++ sep :: z) = [x; y; z].
Proof.
  intros Hy Hz. unfold Py.rsplit2.
  replace (x ++ sep :: y ++ sep :: z) with ((x ++ sep :: y) ++ sep :: z)
    by (rewrite <- app_assoc; reflexivity).
  rewrite (rcut_last _ _ _ Hz), (rcut_last _ _ _ Hy). reflexivity.
Qed.

End PyFacts.

Module PyIntFacts.
Import PyFacts PyIntInv.

Lemma digit_val_char (d : Z) :
  0 <= d < 10 -> PyInt.digit_val (PyInt.digit_char d) = Some d.
Proof.
  intros Hd. unfold PyInt.digit_val, PyInt.digit_char.
  rewrite byte_val_of by lia.
  replace ((48 <=? 48 + d) && (48 + d <=? 57)) with true
    by (symmetry; apply andb_true_iff; split; lia).
  f_equal. lia.
Qed.

Lemma digits_shape (fuel : nat) : forall n acc,
  (0 < fuel)%nat -> Forall is_digit acc ->
  exists c r, PyInt.digits fuel n acc = c :: r /\ Forall is_digit (c :: r).
Proof.
  induction fuel as [|f IH]; intros n acc Hf Hacc; [lia|].
  assert (Hd : is_digit (PyInt.digit_char (n mod 10))).
  { exists (n mod 10). split; [apply Z.mod_pos_bound; lia | reflexivity]. }
  simpl. destruct (n <? 10) eqn:Hn.
  - eauto.
  - destruct f as [|f'].
    + simpl. eauto.
    + apply IH; [lia | constructor; assumption].
Qed.

Lemma parse_digits_digits (fuel : nat) : forall n acc,
  0 <= n < 2 ^ Z.of_nat fuel -> (0 < fuel)%nat ->
  exists k, forall prev a,
    PyInt.parse_digits (PyInt.digits fuel n acc) prev a
    = PyInt.parse_digits acc true (a * 10 ^ k + n) /\ 0 <= k.
Proof.
  induction fuel as [|f IH]; intros n acc Hn Hf; [lia|].
  simpl PyInt.digits. destruct (Z.ltb_spec n 10) as [Hlt|Hn10].
  - exists 1. intros prev a. split; [|lia].
    rewrite Z.mod_small by lia.
    simpl. rewrite digit_val_char by lia. f_equal. lia.
  - 
    assert (Hpow : 2 ^ Z.of_nat (S f) = 2 * 2 ^ Z.of_nat f).
    { rewrite Nat2Z.inj_succ, Z.pow_succ_r by lia. reflexivity. }
    assert (Hdiv : 0 <= n / 10 < 2 ^ Z.of_nat f).
    { split; [apply Z.div_pos; lia|].
      apply Z.div_lt_upper_bound; lia. }
    assert (Hf' : (0 < f)%nat).
    { destruct f; [|lia]. simpl in Hdiv. assert (1 <= n / 10) by
        (apply Z.div_le_lower_bound; lia). lia. }
    destruct (IH (n / 10) (PyInt.digit_char (n mod 10) :: acc) Hdiv Hf')
      as [k Hk].
    exists (k + 1). intros prev a. destruct (Hk prev a) as [E Hk0].
    split; [|lia]. rewrite E. simpl.
    rewrite digit_val_char by (apply Z.mod_pos_bound; lia).
    f_equal. rewrite Z.pow_add_r by lia.
    pose proof (Z.div_mod n 10 ltac:(lia)). lia.
Qed.

Lemma fuel_enough (n : Z) :
  0 <= n -> 0 <= n < 2 ^ Z.of_nat (S (Z.to_nat (Z.log2 n))).
Proof.
  intros Hn. split; [assumption|].
  rewrite Nat2Z.inj_succ, Z2Nat.id by apply Z.log2_nonneg.
  destruct (Z.eq_dec n 0) as [->|Hne]; [reflexivity|].
  apply Z.log2_spec. lia.
Qed.

Lemma digit_not_space c : is_digit c -> PyInt.is_blank c = false.
Proof.
  intros (d & Hd & ->). unfold PyInt.is_blank, PyInt.digit_char.
  rewrite byte_val_of by lia.
  repeat (apply orb_false_iff; split); try apply andb_false_iff; lia.
Qed.

Lemma lskip_id (l : list ascii) :
  Forall (fun c => PyInt.is_blank c = false) l -> PyInt.lskip l = l.
Proof. destruct 1 as [|c r Hc _]; simpl; [reflexivity | now rewrite Hc]. Qed.

Lemma skip_blanks_id (l : list ascii) :
  Forall (fun c => PyInt.is_blank c = false) l -> PyInt.skip_blanks l = l.
Proof.
  intros H. unfold PyInt.skip_blanks. rewrite (lskip_id l H).
  rewrite lskip_id by (apply Forall_rev; exact H).
  apply rev_involutive.
Qed.

Lemma digit_not (c : ascii) (x : Z) :
  is_digit c -> 0 <= x < 48 \/ 57 < x < 256 ->
  Ascii.eqb c (Py.byte_of x) = false.
Proof.
  intros (d & Hd & ->) Hx. unfold PyInt.digit_char.
  apply eqb_byte_of; lia.
Qed.

Lemma str_nonneg (n : Z) : 0 <= n ->
  exists c r, PyInt.str n = c :: r /\ Forall is_digit (c :: r).
Proof.
  intros Hn. unfold PyInt.str.
  replace (n <? 0) with false by (symmetry; apply Z.ltb_ge; lia).
  apply digits_shape; [lia | constructor].
Qed.

Lemma str_chars (n : Z) :
  Forall (fun c => is_digit c \/ c = "-"%char) (PyInt.str n).
Proof.
  destruct (Z.ltb_spec n 0) as [Hneg|Hpos].
  - unfold PyInt.str. replace (n <? 0) with true by (symmetry; apply Z.ltb_lt; lia).
    constructor; [now right|].
    destruct (digits_shape (S (Z.to_nat (Z.log2 (- n)))) (- n) [])
      as (c & r & -> & H); [lia | constructor |].
    eapply Forall_impl; [exact H | intros; now left].
  - destruct (str_nonneg n Hpos) as (c & r & -> & H).
    eapply Forall_impl; [exact H | intros; now left].
Qed.

(** [int(str(n)) == n] *)
Lemma parse_str (n : Z) : PyInt.parse (PyInt.str n) = Some n.
Proof.
  unfold PyInt.parse. rewrite skip_blanks_id.
  2:{ eapply Forall_impl; [apply str_chars|].
      intros c [H| ->]; [now apply digit_not_space | reflexivity]. }
  destruct (Z.ltb_spec n 0) as [Hneg|Hpos].
  - unfold PyInt.str. replace (n <? 0) with true by (symmetry; apply Z.ltb_lt; lia).
    rewrite Ascii.eqb_refl.
    destruct (parse_digits_digits _ (- n) [] (fuel_enough (- n) ltac:(lia))
                ltac:(lia)) as [k Hk].
    destruct (Hk false 0) as [-> _]. simpl. f_equal. lia.
  - destruct (str_nonneg n Hpos) as (c & r & E & H).
    rewrite E.
    assert (Hc : is_digit c) by (inversion H; assumption).
    change "-"%char with (Py.byte_of 45). change "+"%char with (Py.byte_of 43).
    rewrite !(digit_not c) by (assumption || lia).
    rewrite <- E. unfold PyInt.str.
    replace (n <? 0) with false by (symmetry; apply Z.ltb_ge; lia).
    destruct (parse_digits_digits _ n [] (fuel_enough n Hpos) ltac:(lia))
      as [k Hk].
    destruct (Hk false 0) as [-> _]. simpl. f_equal.
Qed.

Lemma str_no_bar (n : Z) :
  Forall (fun c => Ascii.eqb c "|"%char = false) (PyInt.str n).
Proof.
  eapply Forall_impl; [apply str_chars|].
  intros c [H| ->]; [|reflexivity].
  change "|"%char with (Py.byte_of 124). apply digit_not; [assumption | lia].
Qed.

End PyIntFacts.

Module Base64Facts.
Import PyFacts Base64Inv.

Lemma b64char_facts (v : Z) :
  0 <= v < 64 ->
  Base64.b64val (Base64.b64char v) = Some v
  /\ Ascii.eqb (Base64.b64char v) "="%char = false
  /\ Ascii.eqb (Base64.b64char v) "|"%char = false
  /\ (Py.byte_val (Base64.b64char v) <? 128) = true.
Proof.
  intros Hv.
  assert (E : exists n, v = Z.of_nat n /\ (n < 64)%nat).
  { exists (Z.to_nat v). lia. }
  destruct E as (n & -> & Hn).
  do 64 (destruct n as [|n]; [vm_compute; auto|]). lia.
Qed.

Lemma a2b_quad0 v r l p : 0 <= v < 64 ->
  Base64.a2b_base64 (Base64.b64char v :: r) 0 l p
  = Base64.a2b_base64 r 1 v 0.
Proof.
  intros Hv. destruct (b64char_facts v Hv) as (E1 & E2 & _).
  cbn [Base64.a2b_base64]. now rewrite E2, E1.
Qed.

Lemma a2b_quad1 v r l p : 0 <= v < 64 ->
  Base64.a2b_base64 (Base64.b64char v :: r) 1 l p
  = (Py.byte_of (l * 4 + v / 16) ::.) <$> Base64.a2b_base64 r 2 (v mod 16) 0.
Proof.
  intros Hv. destruct (b64char_facts v Hv) as (E1 & E2 & _).
  cbn [Base64.a2b_base64]. now rewrite E2, E1.
Qed.

Lemma a2b_quad2 v r l p : 0 <= v < 64 ->
  Base64.a2b_base64 (Base64.b64char v :: r) 2 l p
  = (Py.byte_of (l * 16 + v / 4) ::.) <$> Base64.a2b_base64 r 3 (v mod 4) 0.
Proof.
  intros Hv. destruct (b64char_facts v Hv) as (E1 & E2 & _).
  cbn [Base64.a2b_base64]. now rewrite E2, E1.
Qed.

Lemma a2b_quad3 v r l p : 0 <= v < 64 ->
  Base64.a2b_base64 (Base64.b64char v :: r) 3 l p
  = (Py.byte_of (l * 64 + v) ::.) <$> Base64.a2b_base64 r 0 0 0.
Proof.
  intros Hv. destruct (b64char_facts v Hv) as (E1 & E2 & _).
  cbn [Base64.a2b_base64]. now rewrite E2, E1.
Qed.

Ltac sextet := pose proof byte_val_range;
  match goal with
  | |- _ <= _ < _ => split
  | _ => idtac
  end; Z.div_mod_to_equations; lia.

Lemma byte_rebuild (c : ascii) (z : Z) : z = Py.byte_val c -> Py.byte_of z = c.
Proof. intros ->. apply byte_of_val. Qed.

(** Decoding undoes encoding, padding included. *)
Lemma decode_encode (b : Py.bytes) :
  Base64.a2b_base64 (Base64.urlsafe_b64encode b) 0 0 0 = Some b.
Proof.
  induction b as [|x|x y|x y z r IH] using list_ind3.
  - reflexivity.
  - pose proof (byte_val_range x) as Hx.
    cbn [Base64.urlsafe_b64encode].
    rewrite a2b_quad0, a2b_quad1 by sextet.
    cbn [Base64.a2b_base64]. simpl fmap. f_equal. f_equal.
    apply byte_rebuild. sextet.
  - pose proof (byte_val_range x) as Hx. pose proof (byte_val_range y) as Hy.
    cbn [Base64.urlsafe_b64encode].
    rewrite a2b_quad0, a2b_quad1, a2b_quad2 by sextet.
    cbn [Base64.a2b_base64]. simpl fmap. f_equal.
    f_equal; [|f_equal]; apply byte_rebuild; sextet.
  - pose proof (byte_val_range x) as Hx. pose proof (byte_val_range y) as Hy.
    pose proof (byte_val_range z) as Hz.
    cbn [Base64.urlsafe_b64encode].
    rewrite a2b_quad0, a2b_quad1, a2b_quad2, a2b_quad3 by sextet.
    rewrite IH. simpl fmap. f_equal.
    f_equal; [|f_equal; [|f_equal]]; apply byte_rebuild; sextet.
Qed.

Lemma clean_b64char v : 0 <= v < 64 -> clean (Base64.b64char v).
Proof. intros Hv. destruct (b64char_facts v Hv) as (_ & ? & ? & ?). now repeat split. Qed.

(** The encoding is a body free of [=] followed by the padding that
    completes its length to a multiple of four. *)
Lemma encode_shape (b : Py.bytes) :
  exists body n,
    Base64.urlsafe_b64encode b = body ++ repeat "="%char n
    /\ Forall clean body
    /\ ((Z.of_nat (length body) mod 4 = 0 /\ n = 0%nat)
        \/ (Z.of_nat (length body) mod 4 <> 0
            /\ n = Z.to_nat (4 - Z.of_nat (length body) mod 4))).
Proof.
  induction b as [|x|x y|x y z r IH] using list_ind3.
  - exists [], 0%nat. repeat split; [constructor | now left].
  - pose proof (byte_val_range x). eexists [_; _], 2%nat.
    split; [reflexivity|]. split; [|right; split; [discriminate|reflexivity]].
    repeat constructor; apply clean_b64char; sextet.
  - pose proof (byte_val_range x). pose proof (byte_val_range y).
    eexists [_; _; _], 1%nat.
    split; [reflexivity|]. split; [|right; split; [discriminate|reflexivity]].
    repeat constructor; apply clean_b64char; sextet.
  - destruct IH as (body & n & E & Hb & Hn).
    pose proof (byte_val_range x). pose proof (byte_val_range y).
    pose proof (byte_val_range z).
    eexists (_ :: _ :: _ :: _ :: body), n.
    split; [cbn [Base64.urlsafe_b64encode]; rewrite E; reflexivity|].
    split; [repeat (constructor; [apply clean_b64char; sextet|]); exact Hb|].
    assert (El : Z.of_nat (length (Base64.b64char (Py.byte_val x / 4)
                   :: Base64.b64char (Py.byte_val x mod 4 * 16 + Py.byte_val y / 16)
                   :: Base64.b64char (Py.byte_val y mod 16 * 4 + Py.byte_val z / 64)
                   :: Base64.b64char (Py.byte_val z mod 64) :: body)) mod 4
                 = Z.of_nat (length body) mod 4).
    { cbn [length]. rewrite !Nat2Z.inj_succ.
      replace (Z.succ (Z.succ (Z.succ (Z.succ (Z.of_nat (length body))))))
        with (Z.of_nat (length body) + 1 * 4) by lia.
      apply Z.mod_add. lia. }
    rewrite El. exact Hn.
Qed.

Lemma rstrip_eq_body (body : list ascii) (n : nat) :
  Forall clean body ->
  Crypto.rstrip_eq (body ++ repeat "="%char n) = body.
Proof.
  intros Hb. unfold Crypto.rstrip_eq.
  rewrite rev_app_distr, rev_repeat.
  induction n as [|n IH]; simpl.
  - destruct (rev body) as [|c r] eqn:E; [rewrite <- (rev_involutive body), E; reflexivity|].
    assert (Hc : clean c).
    { apply Forall_rev in Hb. rewrite E in Hb. now inversion Hb. }
    destruct Hc as (-> & _). rewrite <- E. apply rev_involutive.
  - exact IH.
Qed.

End Base64Facts.

(** ** Callback signer *)

Module CryptoProps.
Import PyFacts PyIntFacts Base64Facts PyIntInv Base64Inv CryptoInv.

Lemma is_ascii_shape (body : list ascii) (n : nat) :
  Forall clean body -> Py.is_ascii (body ++ repeat "="%char n) = true.
Proof.
  intros Hb. unfold Py.is_ascii. rewrite forallb_app.
  apply andb_true_iff. split.
  - induction Hb as [|c r (_ & _ & Hc) _ IH]; simpl; [reflexivity|].
    now rewrite Hc, IH.
  - induction n; simpl; auto.
Qed.

(** What [verify] answers on a token made by [sign] at time [t0]. *)
Lemma verify_sign (key : Py.bytes) (t0 now max_age : Z) (payload : string) :
  Crypto.verify key now (Crypto.sign key t0 payload) max_age
  = if max_age <? now - t0 then None
    else if now + 60 <? t0 then None
    else Some {| Crypto.payload := payload; Crypto.timestamp := t0;
                 Crypto.signature := Py.str_of (sig_text key t0 payload) |}.
Proof.
  unfold Crypto.verify, Crypto.sign. cbv zeta.
  fold (sig_text key t0 payload).
  set (h := take 16 (Sha256.hmac key
    (Py.utf8 (Py.chars payload ++ Crypto.bar :: PyInt.str t0)))).
  assert (Hsig : sig_text key t0 payload
                 = Crypto.rstrip_eq (Base64.urlsafe_b64encode h)) by reflexivity.
  destruct (encode_shape h) as (body & n & E & Hb & Hn).
  rewrite E, rstrip_eq_body in Hsig by assumption.
  rewrite chars_str_of, Hsig.
  rewrite rsplit2_three.
  2: apply str_no_bar.
  2:{ eapply Forall_impl; [exact Hb|]. intros c (_ & Hc & _). exact Hc. }
  rewrite parse_str.
  destruct (max_age <? now - t0); [reflexivity|].
  destruct (now + 60 <? t0); [reflexivity|].
  assert (Epad : (if negb (Z.of_nat (length body) mod 4 =? 0)
                  then body ++ repeat "="%char
                         (Z.to_nat (4 - Z.of_nat (length body) mod 4))
                  else body) = Base64.urlsafe_b64encode h).
  { rewrite E. destruct Hn as [(Hm & ->)|(Hm & ->)].
    - rewrite Hm. simpl. now rewrite app_nil_r.
    - apply Z.eqb_neq in Hm. now rewrite Hm. }
  rewrite Epad. unfold Base64.urlsafe_b64decode.
  rewrite E at 1. rewrite is_ascii_shape by assumption.
  rewrite decode_encode.
  rewrite bool_decide_eq_true_2 by reflexivity.
  now rewrite str_of_chars.
Qed.

(** C7. A token made by [sign] and checked by [verify] at the same clock
    time, with a non-negative age limit, yields the original payload;
    checked when it is older than [max_age], or when it is dated more
    than 60 seconds ahead of the clock, [verify] answers with the
    invalid result although the signature is the right one; and any
    text whose time-stamp field is that old or that far ahead is
    rejected whatever its signature field. *)
Theorem callback_sign_verify (key : Py.bytes) (payload : string)
    (t0 now max_age : Z) :
  (0 <= max_age ->
   exists d, Crypto.verify key now (Crypto.sign key now payload) max_age = Some d
             /\ Crypto.payload d = payload /\ Crypto.timestamp d = now)
  /\ (now - t0 > max_age \/ t0 > now + 60 ->
      Crypto.verify key now (Crypto.sign key t0 payload) max_age = None)
  /\ (forall signed p ts sg,
        Py.rsplit2 Crypto.bar (Py.chars signed) = [p; ts; sg] ->
        PyInt.parse ts = Some t0 ->
        now - t0 > max_age \/ t0 > now + 60 ->
        Crypto.verify key now signed max_age = None).
Proof.
  split; [|split].
  - intros Hage. rewrite verify_sign.
    replace (max_age <? now - now) with false by (symmetry; apply Z.ltb_ge; lia).
    replace (now + 60 <? now) with false by (symmetry; apply Z.ltb_ge; lia).
    eexists. split; [reflexivity|]. split; reflexivity.
  - intros H. rewrite verify_sign.
    destruct (Z.ltb_spec max_age (now - t0)); [reflexivity|].
    destruct (Z.ltb_spec (now + 60) t0); [reflexivity|]. lia.
  - intros signed p ts sg Hsplit Hts H. unfold Crypto.verify.
    rewrite Hsplit, Hts.
    destruct (Z.ltb_spec max_age (now - t0)); [reflexivity|].
    destruct (Z.ltb_spec (now + 60) t0); [reflexivity|]. lia.
Qed.

Lemma callback_sign_verify_witness :
  (exists d, Crypto.verify (Py.chars "secret") 1700000000
               (Crypto.sign (Py.chars "secret") 1700000000 "approve:abc123") 300
             = Some d
             /\ Crypto.payload d = "approve:abc123"%string
             /\ Crypto.timestamp d = 1700000000)
  /\ Crypto.verify (Py.chars "secret") 1700000000
       (Crypto.sign (Py.chars "secret") 1699999000 "approve:abc123") 300 = None
  /\ Crypto.verify (Py.chars "secret") 1700000000
       "approve:abc123|1700000061|eetTkzcIp1IeTDuE-llo3g" 300 = None.
Proof.
  pose proof (callback_sign_verify (Py.chars "secret") "approve:abc123"
                1700000000 1700000000 300) as (H1 & _ & _).
  pose proof (callback_sign_verify (Py.chars "secret") "approve:abc123"
                1699999000 1700000000 300) as (_ & H2 & _).
  pose proof (callback_sign_verify (Py.chars "secret") "approve:abc123"
                1700000061 1700000000 300) as (_ & _ & H3).
  split; [apply H1; lia|]. split; [apply H2; lia|].
  apply (H3 _ (Py.chars "approve:abc123") (Py.chars "1700000061")
            (Py.chars "eetTkzcIp1IeTDuE-llo3g")).
  - reflexivity.
  - reflexivity.
  - lia.
Defined.

End CryptoProps.

(** ** Audit log *)

Module AuditExampleFacts.
Import Audit AuditExamples.

Example three_lines :
  summary (log_all logger0 fresh [(ev1, true); (ev2, true); (ev3, true)])
  = [(281, "3559999f391431a9241ec104ed2fe4453b604d6adb9a6a0fce0b4bddcd6b83ef",
      "");
     (303, "5bb2e66319c8b6803bb231376b957b1e63f8a2bef31479c0d27a2afdf3f359d7",
      "3559999f391431a9241ec104ed2fe4453b604d6adb9a6a0fce0b4bddcd6b83ef");
     (271, "68012c70a50343f7bf686dc3907baa6d936e878e378a264a491bbae2c85e8337",
      "5bb2e66319c8b6803bb231376b957b1e63f8a2bef31479c0d27a2afdf3f359d7")]%string.
Proof. vm_compute. reflexivity. Qed.

End AuditExampleFacts.

Module HexFacts.
Import PyFacts.

Lemma hexdigit_facts (n : Z) :
  0 <= n < 16 ->
  Py.hexval (Py.hexdigit n) = Some n
  /\ Py.is_ascii_space (Py.hexdigit n) = false
  /\ (Py.byte_val (Py.hexdigit n) <? 128) = true.
Proof.
  intros Hn.
  assert (E : exists k, n = Z.of_nat k /\ (k < 16)%nat) by (exists (Z.to_nat n); lia).
  destruct E as (k & -> & Hk).
  do 16 (destruct k as [|k]; [vm_compute; auto|]). lia.
Qed.

Lemma nibbles (c : ascii) :
  0 <= Py.byte_val c / 16 < 16 /\ 0 <= Py.byte_val c mod 16 < 16
  /\ 16 * (Py.byte_val c / 16) + Py.byte_val c mod 16 = Py.byte_val c.
Proof. pose proof (byte_val_range c). Z.div_mod_to_equations. lia. Qed.

(** [bytes.fromhex(b.hex()) == b] *)
Lemma fromhex_hex (b : Py.bytes) : Py.fromhex (Py.hex b) = Some b.
Proof.
  induction b as [|c r IH]; [reflexivity|].
  destruct (nibbles c) as (Hhi & Hlo & E).
  destruct (hexdigit_facts _ Hhi) as (V1 & S1 & _).
  destruct (hexdigit_facts _ Hlo) as (V2 & _ & _).
  change (Py.hex (c :: r))
    with (Py.hexdigit (Py.byte_val c / 16) :: Py.hexdigit (Py.byte_val c mod 16)
          :: Py.hex r).
  cbn [Py.fromhex]. rewrite S1, V1, V2, IH, E, byte_of_val. reflexivity.
Qed.

Lemma is_ascii_hex (b : Py.bytes) : Py.is_ascii (Py.hex b) = true.
Proof.
  induction b as [|c r IH]; [reflexivity|].
  destruct (nibbles c) as (Hhi & Hlo & _).
  destruct (hexdigit_facts _ Hhi) as (_ & _ & A1).
  destruct (hexdigit_facts _ Hlo) as (_ & _ & A2).
  change (Py.hex (c :: r))
    with (Py.hexdigit (Py.byte_val c / 16) :: Py.hexdigit (Py.byte_val c mod 16)
          :: Py.hex r).
  unfold Py.is_ascii in *. cbn [forallb]. now rewrite A1, A2, IH.
Qed.

Lemma hex_nil (b : Py.bytes) : Py.str_of (Py.hex b) = ""%string -> b = [].
Proof. destruct b; [reflexivity | discriminate]. Qed.

End HexFacts.

Module AuditProps.
Import Audit PyFacts HexFacts AuditInv.

Local Opaque Sha256.hmac Json.dumps.

Lemma chain_app key p a q b r :
  chain key p a q -> chain key q b r -> chain key p (a ++ b) r.
Proof.
  induction 1 as [|p l ev rest q Hl _ IH]; intros Hb; [exact Hb|].
  simpl. econstructor; [exact Hl | exact (IH Hb)].
Qed.

Lemma signed_line_sealed key prev dict :
  body (signed_line key prev dict) = sealed key prev (Json.Obj dict).
Proof. reflexivity. Qed.

(** A sealed entry passes both checks and moves the position on. *)
Lemma verify_line_sealed key n p l ev :
  body l = sealed key p ev ->
  verify_line key n p l = Py.Returned ([], next_hash key p ev).
Proof.
  intros Hl. unfold verify_line. rewrite Hl. unfold sealed. cbv zeta.
  fold (prev_text p). fold (next_hash key p ev).
  rewrite !String.eqb_refl, chars_str_of, is_ascii_hex. cbn [negb app].
  rewrite fromhex_hex.
  destruct (String.eqb_spec (Py.str_of (Py.hex (next_hash key p ev))) "") as [E|_];
    [|reflexivity].
  now rewrite (hex_nil _ E).
Qed.

Lemma verify_chain key p lines q :
  chain key p lines q -> forall n, verify_lines key n p lines = Py.Returned [].
Proof.
  induction 1 as [|p l ev rest q Hl _ IH]; intros n; [reflexivity|].
  cbn [verify_lines]. rewrite (verify_line_sealed _ _ _ _ _ Hl), IH. reflexivity.
Qed.

Lemma maybe_rotate_quiet lg fs : rotates lg fs = false -> _maybe_rotate lg fs = fs.
Proof.
  unfold rotates, _maybe_rotate. destruct (current fs); [|reflexivity].
  now intros ->.
Qed.

(** What one accepted write does. *)
Lemma log_written lg fs e :
  exists dict,
    log lg fs e true
    = Py.Returned
        ({| _session_id := _session_id lg; _max_size := _max_size lg;
            _rotate_count := _rotate_count lg;
            _event_count := _event_count lg + 1;
            _hmac_key := _hmac_key lg;
            _last_hash := next_hash (_hmac_key lg) (_last_hash lg) (Json.Obj dict) |},
         {| current := Some (default [] (current (_maybe_rotate lg fs))
                             ++ [signed_line (_hmac_key lg) (_last_hash lg) dict]);
            rotated := rotated (_maybe_rotate lg fs) |}).
Proof.
  unfold log. cbv zeta.
  match goal with
  | |- context [signed_line _ _ (to_dict ?ev)] => exists (to_dict ev)
  end.
  rewrite signed_line_sealed. unfold sealed.
  rewrite chars_str_of, fromhex_hex. reflexivity.
Qed.

Lemma log_failed lg fs e :
  log lg fs e false = Py.Returned (lg, _maybe_rotate lg fs).
Proof. reflexivity. Qed.

Lemma log_keeps_step lg fs e ok :
  in_step lg fs -> rotates lg fs = false ->
  exists lg' fs', log lg fs e ok = Py.Returned (lg', fs')
                  /\ in_step lg' fs' /\ _hmac_key lg' = _hmac_key lg.
Proof.
  intros Hin Hrot. destruct ok.
  - destruct (log_written lg fs e) as [dict E].
    rewrite (maybe_rotate_quiet _ _ Hrot) in E.
    eexists _, _. split; [exact E|]. split; [|reflexivity].
    unfold in_step. cbn [_hmac_key _last_hash current default].
    eapply chain_app; [exact Hin|].
    econstructor; [apply signed_line_sealed | constructor].
  - rewrite log_failed, (maybe_rotate_quiet _ _ Hrot). eauto.
Qed.

Lemma log_all_keeps_step events : forall lg fs,
  in_step lg fs -> rotation_free lg fs events = true ->
  exists lg' fs', log_all lg fs events = Py.Returned (lg', fs')
                  /\ in_step lg' fs' /\ _hmac_key lg' = _hmac_key lg.
Proof.
  induction events as [|[e ok] rest IH]; intros lg fs Hin Hfree.
  - exists lg, fs. auto.
  - cbn [rotation_free] in Hfree. apply andb_true_iff in Hfree as [Hrot Hrest].
    apply negb_true_iff in Hrot.
    destruct (log_keeps_step lg fs e ok Hin Hrot) as (lg1 & fs1 & E & Hin1 & Hk1).
    cbn [log_all]. rewrite E in Hrest |- *.
    destruct (IH lg1 fs1 Hin1 Hrest) as (lg' & fs' & E' & Hin' & Hk').
    exists lg', fs'. split; [exact E'|]. split; [exact Hin' | congruence].
Qed.

Lemma verify_in_step lg fs :
  in_step lg fs -> verify_audit_log fs (_hmac_key lg) = Py.Returned (true, []).
Proof.
  unfold in_step, verify_audit_log. intros H.
  destruct (current fs) as [lines|]; [|reflexivity].
  now rewrite (verify_chain _ _ _ _ H).
Qed.

(** What one call leaves in the store when nothing is rotated: the
    record of the event if the write went through, nothing otherwise. *)
Lemma log_appends lg fs e ok lg' fs' :
  rotates lg fs = false ->
  log lg fs e ok = Py.Returned (lg', fs') ->
  default [] (current fs')
  = default [] (current fs)
    ++ (if ok
        then [signed_line (_hmac_key lg) (_last_hash lg)
                (to_dict (stamped (_session_id lg) e))]
        else [])
  /\ _event_count lg' = _event_count lg + (if ok then 1 else 0)
  /\ _session_id lg' = _session_id lg.
Proof.
  intros Hrot. unfold log. cbv zeta. rewrite (maybe_rotate_quiet _ _ Hrot).
  destruct ok.
  - fold (stamped (_session_id lg) e).
    rewrite signed_line_sealed. unfold sealed.
    rewrite chars_str_of, fromhex_hex. intros [= <- <-].
    cbn [current default _event_count _session_id]. auto.
  - intros [= <- <-]. rewrite app_nil_r. split; [reflexivity|]. split; [lia|reflexivity].
Qed.

Lemma log_all_appends events : forall lg fs lg' fs',
  rotation_free lg fs events = true ->
  log_all lg fs events = Py.Returned (lg', fs') ->
  map entry_event (default [] (current fs'))
  = map entry_event (default [] (current fs))
    ++ map Some (payloads (_session_id lg) events)
  /\ _event_count lg'
     = _event_count lg + Z.of_nat (length (payloads (_session_id lg) events)).
Proof.
  induction events as [|[e ok] rest IH]; intros lg fs lg' fs' Hfree Hrun.
  - cbn in Hrun. injection Hrun as <- <-. cbn. rewrite app_nil_r. split; [reflexivity|lia].
  - cbn [rotation_free] in Hfree. apply andb_true_iff in Hfree as [Hrot Hrest].
    apply negb_true_iff in Hrot. cbn [log_all] in Hrun.
    destruct (log lg fs e ok) as [x|[lg1 fs1]] eqn:E; [discriminate|].
    destruct (log_appends _ _ _ _ _ _ Hrot E) as (Hl & Hc & Hs).
    destruct (IH _ _ _ _ Hrest Hrun) as (Hl' & Hc').
    rewrite Hl', Hc', Hl, Hc, Hs, map_app, <- app_assoc.
    unfold payloads. cbn [List.filter snd fst].
    destruct ok; cbn [map app length]; split; try reflexivity; lia.
Qed.

(** C2. For every run of [log] calls on a logger made with a fixed key,
    begun with no store file (or an empty one) and free of rotation,
    every call returns (the metadata being JSON-native values and the
    file system answering the queries of the rotation check, as [log]
    is modelled); the store then holds, in the order of the
    calls, exactly one record for each call whose write went through,
    its [event] field being the dictionary of the event (with the
    session of the logger when the event names none), and
    [event_count] is the number of those records; and
    [verify_audit_log] of that store with the same key answers
    [(True, [])], whatever the events, their number and the writes
    that failed.  A store that does not exist verifies as
    [(True, [])]. *)
Theorem audit_round_trip (session : string) (mb rc : Z) (key : Py.bytes)
    (fs0 : Files) (events : list (AuditEvent * bool)) :
  default [] (current fs0) = [] ->
  rotation_free (new_logger session mb rc key) fs0 events = true ->
  (exists lg fs,
     log_all (new_logger session mb rc key) fs0 events = Py.Returned (lg, fs)
     /\ map entry_event (default [] (current fs))
        = map Some (payloads session events)
     /\ _event_count lg = Z.of_nat (length (payloads session events))
     /\ verify_audit_log fs key = Py.Returned (true, []))
  /\ (forall fs, current fs = None ->
        verify_audit_log fs key = Py.Returned (true, [])).
Proof.
  intros Hnone Hfree. split.
  - assert (Hin : in_step (new_logger session mb rc key) fs0).
    { unfold in_step. rewrite Hnone. constructor. }
    destruct (log_all_keeps_step events _ _ Hin Hfree)
      as (lg & fs & E & Hin' & Hk).
    destruct (log_all_appends events _ _ _ _ Hfree E) as (Hl & Hc).
    rewrite Hnone in Hl. cbn [_session_id _event_count new_logger map app] in Hl, Hc.
    exists lg, fs. split; [exact E|]. split; [exact Hl|]. split; [exact Hc|].
    cbn [_hmac_key new_logger] in Hk. rewrite <- Hk. now apply verify_in_step.
  - intros fs Hfs. unfold verify_audit_log. now rewrite Hfs.
Qed.

Lemma audit_round_trip_witness :
  (exists lg fs,
     log_all AuditExamples.logger0 AuditExamples.fresh
       [(AuditExamples.ev1, true); (AuditExamples.ev2, false);
        (AuditExamples.ev3, true)] = Py.Returned (lg, fs)
     /\ map entry_event (default [] (current fs))
        = [Some (Json.Obj (to_dict (stamped "s1" AuditExamples.ev1)));
           Some (Json.Obj (to_dict (stamped "s1" AuditExamples.ev3)))]
     /\ _event_count lg = 2
     /\ verify_audit_log fs (Py.chars "k") = Py.Returned (true, []))
  /\ verify_audit_log AuditExamples.fresh (Py.chars "k") = Py.Returned (true, []).
Proof.
  destruct (audit_round_trip "s1" 100 5 (Py.chars "k") AuditExamples.fresh
              [(AuditExamples.ev1, true); (AuditExamples.ev2, false);
               (AuditExamples.ev3, true)]) as (H1 & H2).
  - reflexivity.
  - vm_compute. reflexivity.
  - split; [exact H1 | apply H2; reflexivity].
Defined.

End AuditProps.

Module RotationProps.
Import Audit PyFacts HexFacts AuditProps AuditInv.

Local Opaque Sha256.hmac Json.dumps.

(** Slot by slot, what the loop of [_rotate] leaves when the slot above
    the highest one it moves is free. *)
Lemma shift_lookup (n : nat) : forall (r : gmap Z (list Line)),
  r !! (Z.of_nat n + 1) = None ->
  forall j,
    shift n r !! j =
      if bool_decide (2 <= j <= Z.of_nat n + 1) then r !! (j - 1)
      else if bool_decide (j = 1 /\ n <> O) then None
      else r !! j.
Proof.
  induction n as [|k IH]; intros r Hfree j.
  - cbn [shift]. repeat case_bool_decide; try lia. reflexivity.
  - cbn [shift]. set (i := Z.of_nat (S k)).
    set (r' := match r !! i with
               | Some f => <[i + 1 := f]> (delete i r)
               | None => r
               end).
    assert (F1 : r' !! i = None).
    { subst r'. destruct (r !! i) eqn:E; [|exact E].
      rewrite lookup_insert_ne by lia. apply lookup_delete_eq. }
    assert (F2 : r' !! (i + 1) = r !! i).
    { subst r'. destruct (r !! i) eqn:E.
      - apply lookup_insert_eq.
      - exact Hfree. }
    assert (F3 : forall m, m <> i -> m <> i + 1 -> r' !! m = r !! m).
    { intros m H1 H2. subst r'. destruct (r !! i); [|reflexivity].
      rewrite lookup_insert_ne by lia. now rewrite lookup_delete_ne by lia. }
    assert (Hi : i = Z.of_nat k + 1) by lia.
    rewrite IH by (rewrite <- Hi; exact F1).
    repeat case_bool_decide; try lia.
    + apply F3; lia.
    + reflexivity.
    + replace j with (i + 1) by lia. rewrite F2. f_equal. lia.
    + replace j with i by lia. exact F1.
    + apply F3; lia.
Qed.

(** The rotated files after [_rotate]. *)
Lemma rotate_lookup lg fs f :
  current fs = Some f -> 1 <= _rotate_count lg ->
  current (_rotate lg fs) = None
  /\ rotated (_rotate lg fs) !! 1 = Some f
  /\ (forall i, 1 <= i < _rotate_count lg ->
        rotated (_rotate lg fs) !! (i + 1) = rotated fs !! i)
  /\ (forall j, j < 1 \/ _rotate_count lg < j ->
        rotated (_rotate lg fs) !! j = rotated fs !! j).
Proof.
  intros Hcur Hrc. unfold _rotate. rewrite Hcur. cbn [current rotated].
  set (rc := _rotate_count lg) in *.
  assert (Hn : Z.of_nat (Z.to_nat (rc - 1)) + 1 = rc) by lia.
  assert (Hfree : delete rc (rotated fs) !! (Z.of_nat (Z.to_nat (rc - 1)) + 1) = None).
  { rewrite Hn. apply lookup_delete_eq. }
  pose proof (shift_lookup _ _ Hfree) as L.
  split; [reflexivity|]. split; [apply lookup_insert_eq|]. split.
  - intros i Hi. rewrite lookup_insert_ne by lia. rewrite L.
    case_bool_decide; [|lia].
    replace (i + 1 - 1) with i by lia. apply lookup_delete_ne. lia.
  - intros j Hj. rewrite lookup_insert_ne by lia. rewrite L.
    repeat case_bool_decide; try lia. apply lookup_delete_ne. lia.
Qed.

Lemma prev_text_nonempty (h : Py.bytes) : h <> [] -> prev_text h <> ""%string.
Proof. destruct h; [congruence | discriminate]. Qed.

(** C3. When the store has reached the size threshold, the next [log]
    call moves it to slot 1, moves every rotated file of a slot below
    the retention count one slot down (the file of the last slot is
    thereby dropped), leaves other slots alone and starts a new store
    of one entry.  That entry does not restart the chain: its
    [prev_hash] field is the text of the logger's last signature,
    which is not empty once the logger has written an entry. *)
Theorem rotation_continues_chain lg fs f e :
  current fs = Some f ->
  _max_size lg <= file_size f ->
  1 <= _rotate_count lg ->
  exists lg' fs' line ev signature,
    log lg fs e true = Py.Returned (lg', fs')
    /\ rotated fs' !! 1 = Some f
    /\ (forall i, 1 <= i < _rotate_count lg ->
          rotated fs' !! (i + 1) = rotated fs !! i)
    /\ (forall j, j < 1 \/ _rotate_count lg < j ->
          rotated fs' !! j = rotated fs !! j)
    /\ current fs' = Some [line]
    /\ body line = Entry ev signature (prev_text (_last_hash lg))
    /\ (_last_hash lg <> [] -> prev_text (_last_hash lg) <> ""%string).
Proof.
  intros Hcur Hsize Hrc.
  destruct (log_written lg fs e) as [dict E].
  assert (Hrot : _maybe_rotate lg fs = _rotate lg fs).
  { unfold _maybe_rotate. rewrite Hcur.
    now replace (_max_size lg <=? file_size f) with true
      by (symmetry; apply Z.leb_le; exact Hsize). }
  rewrite Hrot in E.
  destruct (rotate_lookup lg fs f Hcur Hrc) as (R0 & R1 & R2 & R3).
  rewrite R0 in E. cbn [default app] in E.
  eexists _, _, _, _, _. split; [exact E|]. cbn [rotated current].
  split; [exact R1|]. split; [exact R2|]. split; [exact R3|].
  split; [reflexivity|].
  split; [apply signed_line_sealed | apply prev_text_nonempty].
Qed.

Lemma rotation_continues_chain_witness :
  let lg := fst AuditExamples.after_first in
  let fs := snd AuditExamples.after_first in
  exists lg' fs' line ev signature,
    log lg fs AuditExamples.ev2 true = Py.Returned (lg', fs')
    /\ rotated fs' !! 1 = Some (default [] (current fs))
    /\ (forall i, 1 <= i < _rotate_count lg ->
          rotated fs' !! (i + 1) = rotated fs !! i)
    /\ (forall j, j < 1 \/ _rotate_count lg < j ->
          rotated fs' !! j = rotated fs !! j)
    /\ current fs' = Some [line]
    /\ body line = Entry ev signature (prev_text (_last_hash lg))
    /\ (_last_hash lg <> [] -> prev_text (_last_hash lg) <> ""%string).
Proof.
  apply (rotation_continues_chain (fst AuditExamples.after_first)
           (snd AuditExamples.after_first)
           (default [] (current (snd AuditExamples.after_first)))
           AuditExamples.ev2).
  - vm_compute. reflexivity.
  - vm_compute. discriminate.
  - vm_compute. discriminate.
Defined.

(** The store begun by a rotation does not pass [verify_audit_log]:
    its first entry is linked to, and signed after, the last entry of
    the rotated file. *)
Example rotation_breaks_verification :
  AuditExamples.summary
    (log_all AuditExamples.logger_mb0 AuditExamples.fresh
       [(AuditExamples.ev1, true); (AuditExamples.ev2, true)])
  = [(303, "5bb2e66319c8b6803bb231376b957b1e63f8a2bef31479c0d27a2afdf3f359d7",
      "3559999f391431a9241ec104ed2fe4453b604d6adb9a6a0fce0b4bddcd6b83ef")]%string
  /\ AuditExamples.verdict (Py.chars "k")
       (log_all AuditExamples.logger_mb0 AuditExamples.fresh
          [(AuditExamples.ev1, true); (AuditExamples.ev2, true)])
     = Py.Returned (false, [ChainBroken 1 "3559999f" ""; InvalidHmac 1]).
Proof. vm_compute. split; reflexivity. Qed.

End RotationProps.

Module TamperProps.
Import Audit PyFacts HexFacts AuditProps AuditInv.

Local Opaque Sha256.hmac Json.dumps.

(** C4, as stated, fails.  In the three-entry store whose first
    signature is overwritten, the code reports the second entry twice,
    once for the link and once for a signature recomputed over the
    running position; a verifier that signs over the stored
    [prev_hash] field would report the link only. *)
Lemma hmac_not_over_stored_prev :
  verify_audit_log AuditExamples.forged_first (Py.chars "k")
  = Py.Returned (false, [InvalidHmac 1;
                         ChainBroken 2 "3559999f" "00000000";
                         InvalidHmac 2])
  /\ AuditSpec.verify_stored_prev AuditExamples.forged_first (Py.chars "k")
     = Py.Returned (false, [InvalidHmac 1;
                            ChainBroken 2 "3559999f" "00000000"]).
Proof. vm_compute. split; reflexivity. Qed.

Lemma verify_line_lines key n p l errs p' :
  verify_line key n p l = Py.Returned (errs, p') ->
  Forall (fun e => line_of e = n) errs.
Proof.
  assert (T : forall (e1 : list VerifyError) sig,
    Forall (fun e => line_of e = n) e1 ->
    (if negb (Py.is_ascii (Py.chars sig)) then Py.Raised Py.TypeError
     else
       if String.eqb sig ""
       then Py.Returned
              (e1 ++ (if String.eqb
                        (Py.str_of (Py.hex (Sha256.hmac key
                           (p ++ Py.utf8 (Json.dumps_canonical
                              match body l with
                              | Entry ev _ _ | Untyped ev _ _ => ev
                              | _ => Json.Null
                              end))))) sig
                      then [] else [InvalidHmac n]), [])
       else match Py.fromhex (Py.chars sig) with
            | Some h =>
                Py.Returned
                  (e1 ++ (if String.eqb
                            (Py.str_of (Py.hex (Sha256.hmac key
                               (p ++ Py.utf8 (Json.dumps_canonical
                                  match body l with
                                  | Entry ev _ _ | Untyped ev _ _ => ev
                                  | _ => Json.Null
                                  end))))) sig
                          then [] else [InvalidHmac n]), h)
            | None =>
                Py.Returned
                  (e1 ++ (if String.eqb
                            (Py.str_of (Py.hex (Sha256.hmac key
                               (p ++ Py.utf8 (Json.dumps_canonical
                                  match body l with
                                  | Entry ev _ _ | Untyped ev _ _ => ev
                                  | _ => Json.Null
                                  end))))) sig
                          then [] else [InvalidHmac n])
                   ++ [InvalidValue n], p)
            end) = Py.Returned (errs, p') ->
    Forall (fun e => line_of e = n) errs).
  { intros e1 sig H1.
    destruct (negb (Py.is_ascii (Py.chars sig))); [discriminate|].
    set (e2 := if String.eqb _ sig then _ else _).
    assert (H2 : Forall (fun e => line_of e = n) e2).
    { subst e2. destruct (String.eqb _ sig); repeat constructor. }
    destruct (String.eqb sig ""); [|destruct (Py.fromhex (Py.chars sig))];
      intros [= <- <-]; repeat (apply Forall_app; split); auto;
      repeat constructor. }
  unfold verify_line. destruct (body l) as [ev sig ph| | | |ev cl ex]; cbv zeta.
  - apply T. destruct (String.eqb _ ph); repeat constructor.
  - intros [= <- <-]. constructor.
  - intros [= <- <-]. repeat constructor.
  - discriminate.
  - destruct ex as [| | |ph|items|]; try discriminate;
      destruct cl as [| | |sig| |]; try discriminate; apply T.
    + destruct (String.eqb _ ph); repeat constructor.
    + repeat constructor.
Qed.

(** A line of a shape that raises does so wherever it stands; any other
    line is taken in. *)
Lemma verify_line_raises key n p l e :
  raises_on (body l) = Some e -> verify_line key n p l = Py.Raised e.
Proof.
  unfold raises_on, verify_line.
  destruct (body l) as [ev sig ph| | | |ev cl ex]; cbv zeta; try discriminate.
  - destruct (Py.is_ascii (Py.chars sig)); [discriminate|]. now intros [= <-].
  - now intros [= <-].
  - destruct ex as [| | |ph|items|]; try (now intros [= <-]);
      destruct cl as [| | |sig| |]; try (now intros [= <-]);
      (destruct (Py.is_ascii (Py.chars sig)); [discriminate|]; now intros [= <-]).
Qed.

Lemma verify_line_returns key n p l :
  raises_on (body l) = None ->
  exists errs p', verify_line key n p l = Py.Returned (errs, p').
Proof.
  unfold raises_on, verify_line.
  destruct (body l) as [ev sig ph| | | |ev cl ex]; cbv zeta; eauto;
    try discriminate.
  - destruct (Py.is_ascii (Py.chars sig)); [|discriminate]. intros _. cbn [negb].
    destruct (String.eqb sig ""); [|destruct (Py.fromhex (Py.chars sig))]; eauto.
  - destruct ex as [| | |ph|items|]; try discriminate;
      destruct cl as [| | |sig| |]; try discriminate;
      (destruct (Py.is_ascii (Py.chars sig)); [|discriminate]; intros _;
       cbn [negb];
       destruct (String.eqb sig ""); [|destruct (Py.fromhex (Py.chars sig))];
       eauto).
Qed.

(** Whatever the running position, a sealed entry is processed and
    resets the position to its own signature. *)
Lemma verify_line_sealed_from key n p p' l ev :
  body l = sealed key p ev ->
  exists errs, verify_line key n p' l = Py.Returned (errs, next_hash key p ev).
Proof.
  intros Hl. unfold verify_line. rewrite Hl. unfold sealed. cbv zeta.
  rewrite chars_str_of, is_ascii_hex, fromhex_hex. cbn [negb].
  destruct (String.eqb_spec (Py.str_of (Py.hex (next_hash key p ev))) "") as [E|_].
  - rewrite (hex_nil _ E). eauto.
  - eauto.
Qed.

Lemma verify_chain_prefix key p a q :
  chain key p a q ->
  forall n rest,
    verify_lines key n p (a ++ rest) = verify_lines key (n + length a) q rest.
Proof.
  induction 1 as [p|p l ev r q Hl _ IH]; intros n rest.
  - simpl. now rewrite Nat.add_0_r.
  - cbn [app verify_lines length].
    rewrite (verify_line_sealed _ _ _ _ _ Hl), IH. cbn [app].
    replace (S n + length r)%nat with (n + S (length r))%nat by lia.
    now destruct (verify_lines key (n + S (length r)) q rest).
Qed.

Lemma chain_split key p a o b q :
  chain key p (a ++ o :: b) q ->
  exists q1 ev,
    chain key p a q1 /\ body o = sealed key q1 ev
    /\ chain key (next_hash key q1 ev) b q.
Proof.
  revert p. induction a as [|l a IH]; intros p H.
  - inversion H; subst. eexists _, _. split; [constructor|]. eauto.
  - inversion H as [|? ? ev ? ? Hl Hrest]; subst.
    destruct (IH _ Hrest) as (q1 & ev1 & Ha & Ho & Hb).
    exists q1, ev1. split; [econstructor; eauto | eauto].
Qed.

Lemma hex_inj (a b : Py.bytes) :
  Py.str_of (Py.hex a) = Py.str_of (Py.hex b) -> a = b.
Proof.
  intros E. apply (f_equal Py.chars) in E. rewrite !chars_str_of in E.
  apply (f_equal Py.fromhex) in E. rewrite !fromhex_hex in E. congruence.
Qed.

(** One replaced line in a chained store: the lines before it pass, the
    lines after the next one pass, so every error is on the replaced
    line or on the one that follows it. *)
Lemma replaced_line_errors key a o b q x :
  chain key [] (a ++ o :: b) q ->
  raises_on (body x) = None ->
  exists errs,
    verify_lines key 1 [] (a ++ x :: b) = Py.Returned errs
    /\ Forall (fun e => line_of e = S (length a) \/ line_of e = S (S (length a)))
         errs.
Proof.
  intros Hch Hx.
  destruct (chain_split _ _ _ _ _ _ Hch) as (q1 & ev & Ha & Ho & Hb).
  rewrite (verify_chain_prefix _ _ _ _ Ha). cbn [Nat.add verify_lines].
  destruct (verify_line_returns key (S (length a)) q1 x Hx) as (ex & px & Ex).
  rewrite Ex.
  pose proof (verify_line_lines _ _ _ _ _ _ Ex) as Hex.
  inversion Hb as [|? l2 ev2 b2 ? Hl2 Hb2]; subst.
  - cbn [verify_lines]. exists (ex ++ []). split; [reflexivity|].
    rewrite app_nil_r. eapply Forall_impl; [exact Hex|]. intros; now left.
  - cbn [verify_lines].
    destruct (verify_line_sealed_from key (S (S (length a))) _ px l2 ev2 Hl2)
      as [e2 E2].
    rewrite E2, (verify_chain _ _ _ _ Hb2).
    pose proof (verify_line_lines _ _ _ _ _ _ E2) as He2.
    exists (ex ++ e2 ++ []). split; [reflexivity|].
    rewrite app_nil_r. apply Forall_app. split.
    + eapply Forall_impl; [exact Hex|]. intros; now left.
    + eapply Forall_impl; [exact He2|]. intros; now right.
Qed.

(** A replaced line of a shape that raises is reached, the lines before
    it being in order, and ends the verification. *)
Lemma replaced_line_raises key a o b q x e :
  chain key [] (a ++ o :: b) q ->
  raises_on (body x) = Some e ->
  verify_lines key 1 [] (a ++ x :: b) = Py.Raised e.
Proof.
  intros Hch Hx.
  destruct (chain_split _ _ _ _ _ _ Hch) as (q1 & ev & Ha & _ & _).
  rewrite (verify_chain_prefix _ _ _ _ Ha). cbn [Nat.add verify_lines].
  now rewrite (verify_line_raises _ _ _ _ _ Hx).
Qed.

(** One line whose event alone is replaced: the link and the position
    are intact, so the only possible error is the signature of that
    line. *)
Lemma replaced_event_errors key a o b q x ev sig ph ev' :
  chain key [] (a ++ o :: b) q ->
  body o = Entry ev sig ph -> body x = Entry ev' sig ph ->
  exists q1,
    chain key [] a q1
    /\ verify_lines key 1 [] (a ++ x :: b)
       = Py.Returned (if bool_decide (next_hash key q1 ev' = next_hash key q1 ev)
                      then [] else [InvalidHmac (S (length a))]).
Proof.
  intros Hch Ho Hx.
  destruct (chain_split _ _ _ _ _ _ Hch) as (q1 & ev0 & Ha & Ho' & Hb).
  rewrite Ho in Ho'. unfold sealed in Ho'. injection Ho' as -> -> ->.
  exists q1. split; [exact Ha|].
  rewrite (verify_chain_prefix _ _ _ _ Ha). cbn [Nat.add verify_lines].
  unfold verify_line. rewrite Hx. cbv zeta.
  fold (prev_text q1). fold (next_hash key q1 ev').
  rewrite String.eqb_refl, chars_str_of, is_ascii_hex, fromhex_hex.
  cbn [negb app].
  assert (Hnext : forall es : list VerifyError,
    (if String.eqb (Py.str_of (Py.hex (next_hash key q1 ev0))) ""
     then Py.Returned (es, @nil ascii)
     else Py.Returned (es, next_hash key q1 ev0))
    = Py.Returned (es, next_hash key q1 ev0)).
  { intros es. destruct (String.eqb_spec (Py.str_of (Py.hex (next_hash key q1 ev0))) "")
      as [E|_]; [now rewrite (hex_nil _ E) | reflexivity]. }
  rewrite Hnext, (verify_chain _ _ _ _ Hb), app_nil_r.
  case_bool_decide as Hd.
  - now rewrite Hd, String.eqb_refl.
  - destruct (String.eqb_spec (Py.str_of (Py.hex (next_hash key q1 ev')))
                (Py.str_of (Py.hex (next_hash key q1 ev0)))) as [E|_];
      [|reflexivity].
    now apply hex_inj in E.
Qed.

(** The checks of one record: the link compares the stored [prev_hash]
    with the running position, the signature is recomputed over the
    running position, and the position moves to the stored signature
    whether or not the checks passed. *)
Lemma verify_line_entry key n prev l ev sig ph :
  body l = Entry ev sig ph ->
  Py.is_ascii (Py.chars sig) = true ->
  exists errs prev',
    verify_line key n prev l = Py.Returned (errs, prev')
    /\ (In (InvalidHmac n) errs
        <-> sig <> Py.str_of (Py.hex (next_hash key prev ev)))
    /\ ((exists e a, In (ChainBroken n e a) errs) <-> ph <> prev_text prev)
    /\ (sig = ""%string -> prev' = [])
    /\ (forall h, sig <> ""%string -> Py.fromhex (Py.chars sig) = Some h ->
          prev' = h)
    /\ (sig <> ""%string -> Py.fromhex (Py.chars sig) = None ->
        prev' = prev /\ In (InvalidValue n) errs).
Proof.
  intros Hl Hascii. unfold verify_line. rewrite Hl. cbv zeta.
  fold (prev_text prev). fold (next_hash key prev ev). rewrite Hascii. cbn [negb].
  destruct (String.eqb_spec (prev_text prev) ph) as [Hp|Hp];
  destruct (String.eqb_spec (Py.str_of (Py.hex (next_hash key prev ev))) sig)
    as [Hs|Hs];
  destruct (String.eqb_spec sig "") as [He|He];
  try destruct (Py.fromhex (Py.chars sig)) as [h|] eqn:Hh;
  eexists _, _; (split; [reflexivity|]); cbn [app In];
  repeat split; try congruence; try tauto;
  try (intros [H|H]; congruence);
  try (intros [H|[H|H]]; congruence || tauto);
  try (intros (e & a & H); repeat destruct H as [H|H]; congruence || tauto);
  try (intros _; eexists _, _; left; reflexivity);
  try (intros _; now left); try (intros _; right; now left).
Qed.

(** C4, amended.  A line that is a JSON object whose [hmac] is ASCII
    text and whose [prev_hash] is text is checked as follows: the link
    error is reported exactly when the stored [prev_hash] differs from
    the running position, the signature error exactly when the stored
    [hmac] differs from the HMAC recomputed with the given key over the
    running position (the decoded [hmac] of the previous record, empty
    at the first) followed by the canonical event payload; the running
    position then becomes the decoded stored [hmac], checks passed or
    not, except that a stored [hmac] that is not hexadecimal leaves the
    position where it was and adds an invalid-value error.  A line that
    is JSON but not an object makes the verification raise
    [AttributeError]; an [hmac] that is not ASCII text, or a
    [prev_hash] that is neither text nor a list, makes it raise
    [TypeError].  Hence in a store written by the logger in which one
    line is replaced: if the new line is of a raising shape the
    verification raises that exception; otherwise it returns, and
    every error is on that line or the next one; and when only the
    event of the line is replaced, the verdict is exactly one
    invalid-signature error on that line, or no error at all precisely
    when the HMAC at that position is the same for the two payloads. *)
Theorem tamper_localised (key : Py.bytes) (session : string) (mb rc : Z)
    (fs0 : Files) (events : list (AuditEvent * bool))
    (lg : AuditLogger) (fs : Files) (a b : list Line) (o x : Line) :
  default [] (current fs0) = [] ->
  rotation_free (new_logger session mb rc key) fs0 events = true ->
  log_all (new_logger session mb rc key) fs0 events = Py.Returned (lg, fs) ->
  current fs = Some (a ++ o :: b) ->
  (forall n prev l ev sig ph,
     body l = Entry ev sig ph -> Py.is_ascii (Py.chars sig) = true ->
     exists errs prev',
       verify_line key n prev l = Py.Returned (errs, prev')
       /\ (In (InvalidHmac n) errs
           <-> sig <> Py.str_of (Py.hex
                 (Sha256.hmac key (prev ++ Py.utf8 (Json.dumps_canonical ev)))))
       /\ ((exists e a, In (ChainBroken n e a) errs) <-> ph <> prev_text prev)
       /\ (sig = ""%string -> prev' = [])
       /\ (forall h, sig <> ""%string -> Py.fromhex (Py.chars sig) = Some h ->
             prev' = h)
       /\ (sig <> ""%string -> Py.fromhex (Py.chars sig) = None ->
           prev' = prev /\ In (InvalidValue n) errs))
  /\ (forall n prev l e,
        raises_on (body l) = Some e -> verify_line key n prev l = Py.Raised e)
  /\ (forall e,
        raises_on (body x) = Some e ->
        verify_audit_log {| current := Some (a ++ x :: b); rotated := rotated fs |} key
        = Py.Raised e)
  /\ (raises_on (body x) = None ->
      exists errs,
        verify_audit_log {| current := Some (a ++ x :: b); rotated := rotated fs |} key
        = Py.Returned (bool_decide (length errs = 0%nat), errs)
        /\ Forall (fun e => line_of e = S (length a)
                            \/ line_of e = S (S (length a))) errs)
  /\ (forall ev sig ph ev',
        body o = Entry ev sig ph -> body x = Entry ev' sig ph ->
        exists q1,
          chain key [] a q1
          /\ verify_audit_log
               {| current := Some (a ++ x :: b); rotated := rotated fs |} key
             = Py.Returned
                 (if bool_decide
                       (Sha256.hmac key (q1 ++ Py.utf8 (Json.dumps_canonical ev'))
                        = Sha256.hmac key (q1 ++ Py.utf8 (Json.dumps_canonical ev)))
                  then (true, [])
                  else (false, [InvalidHmac (S (length a))]))).
Proof.
  intros Hnone Hfree Hrun Hcur.
  assert (Hch : chain key [] (a ++ o :: b) (_last_hash lg)).
  { assert (Hin : in_step (new_logger session mb rc key) fs0).
    { unfold in_step. rewrite Hnone. constructor. }
    destruct (log_all_keeps_step events _ _ Hin Hfree)
      as (lg' & fs' & E & Hin' & Hk).
    rewrite Hrun in E. injection E as <- <-.
    unfold in_step in Hin'. rewrite Hcur, Hk in Hin'. exact Hin'. }
  split; [|split; [|split; [|split]]].
  - intros n prev l ev sig ph Hl Ha.
    exact (verify_line_entry key n prev l ev sig ph Hl Ha).
  - intros n prev l e. apply verify_line_raises.
  - intros e Hx. unfold verify_audit_log. cbn [current].
    now rewrite (replaced_line_raises key a o b _ x e Hch Hx).
  - intros Hx.
    destruct (replaced_line_errors key a o b _ x Hch Hx) as (errs & E & HF).
    exists errs. unfold verify_audit_log. cbn [current]. rewrite E. auto.
  - intros ev sig ph ev' Ho Hx.
    destruct (replaced_event_errors key a o b _ x ev sig ph ev' Hch Ho Hx)
      as (q1 & Hq & E).
    exists q1. split; [exact Hq|].
    unfold verify_audit_log. cbn [current]. unfold next_hash in E. rewrite E.
    destruct (bool_decide _); reflexivity.
Qed.

Lemma tamper_localised_witness :
  let key := Py.chars "k" in
  let l1 := default {| nbytes := 0; body := Blank |} (AuditExamples.three !! 0%nat) in
  let l2 := default {| nbytes := 0; body := Blank |} (AuditExamples.three !! 1%nat) in
  let l3 := default {| nbytes := 0; body := Blank |} (AuditExamples.three !! 2%nat) in
  verify_audit_log
    {| current := Some ([l1] ++ {| nbytes := 3; body := NotObject |} :: [l3]);
       rotated := ∅ |} key
  = Py.Raised Py.AttributeError
  /\ (exists errs,
        verify_audit_log
          {| current := Some ([l1] ++ AuditExamples.with_hmac AuditExamples.zeros64 l2 :: [l3]);
             rotated := ∅ |} key
        = Py.Returned (bool_decide (length errs = 0%nat), errs)
        /\ Forall (fun e => line_of e = 2%nat \/ line_of e = 3%nat) errs)
  /\ (exists q1,
        chain key [] [l1] q1
        /\ verify_audit_log
             {| current := Some ([l1] ++ AuditExamples.with_event (Json.Obj []) l2 :: [l3]);
                rotated := ∅ |} key
           = Py.Returned
               (if bool_decide
                     (Sha256.hmac key (q1 ++ Py.utf8 (Json.dumps_canonical (Json.Obj [])))
                      = Sha256.hmac key
                          (q1 ++ Py.utf8 (Json.dumps_canonical
                                            (Json.Obj (to_dict (stamped "s1" AuditExamples.ev2))))))
                then (true, [])
                else (false, [InvalidHmac 2]))).
Proof.
  intros key l1 l2 l3.
  set (run := Py.value_or (AuditExamples.logger0, AuditExamples.fresh)
                (log_all AuditExamples.logger0 AuditExamples.fresh
                   [(AuditExamples.ev1, true); (AuditExamples.ev2, true);
                    (AuditExamples.ev3, true)])).
  assert (Hrun : log_all (new_logger "s1" 100 5 key) AuditExamples.fresh
                   [(AuditExamples.ev1, true); (AuditExamples.ev2, true);
                    (AuditExamples.ev3, true)]
                 = Py.Returned (fst run, snd run)) by (vm_compute; reflexivity).
  assert (Hcur : current (snd run) = Some ([l1] ++ l2 :: [l3]))
    by (vm_compute; reflexivity).
  assert (Hfree : rotation_free (new_logger "s1" 100 5 key) AuditExamples.fresh
                    [(AuditExamples.ev1, true); (AuditExamples.ev2, true);
                     (AuditExamples.ev3, true)] = true)
    by (vm_compute; reflexivity).
  assert (Hrot : rotated (snd run) = ∅) by (vm_compute; reflexivity).
  split; [|split].
  - pose proof (tamper_localised key "s1" 100 5 AuditExamples.fresh _
                  (fst run) (snd run) [l1] [l3] l2
                  {| nbytes := 3; body := NotObject |}
                  eq_refl Hfree Hrun Hcur) as (_ & _ & H & _).
    rewrite Hrot in H. apply H. reflexivity.
  - pose proof (tamper_localised key "s1" 100 5 AuditExamples.fresh _
                  (fst run) (snd run) [l1] [l3] l2
                  (AuditExamples.with_hmac AuditExamples.zeros64 l2)
                  eq_refl Hfree Hrun Hcur) as (_ & _ & _ & H & _).
    rewrite Hrot in H. apply H. vm_compute. reflexivity.
  - pose proof (tamper_localised key "s1" 100 5 AuditExamples.fresh _
                  (fst run) (snd run) [l1] [l3] l2
                  (AuditExamples.with_event (Json.Obj []) l2)
                  eq_refl Hfree Hrun Hcur) as (_ & _ & _ & _ & H).
    rewrite Hrot in H.
    eapply (H _ _ _ (Json.Obj [])); vm_compute; reflexivity.
Defined.

End TamperProps.

(** ** Offline queue *)

Module OfflineQueueProps.
Import OfflineQueue OfflineQueueInv.

Lemma prune_keeps_size now q :
  _max_size (fst (_prune_old_events now q)) = _max_size q.
Proof. unfold _prune_old_events. now destruct (_queue q). Qed.

(** C10.  What [enqueue] does with the queue as pruning leaves it:
    below capacity it appends the event and returns [True]; at
    capacity with at least one event queued it removes the event at
    the head of the list, whatever its age, appends the new one and
    returns [True]; at capacity with nothing queued, which is the case
    of a queue made with [max_size <= 0], it raises [IndexError] and
    returns nothing.  So [enqueue] does not always return [True], and
    the event dropped is the oldest one only while the list stands in
    arrival order, which a [flush] does not keep. *)
Theorem enqueue_at_capacity (now : Qc) (q : OfflineQueue) (event : QueuedEvent) :
  let pruned := _queue (fst (_prune_old_events now q)) in
  (Z.of_nat (length pruned) < _max_size q ->
   exists q',
     enqueue now q event = Py.Returned (q', true)
     /\ _queue q' = pruned ++ [event])
  /\ (forall head rest,
        pruned = head :: rest -> _max_size q <= Z.of_nat (length pruned) ->
        exists q',
          enqueue now q event = Py.Returned (q', true)
          /\ _queue q' = rest ++ [event])
  /\ (pruned = [] -> _max_size q <= 0 ->
      enqueue now q event = Py.Raised Py.IndexError).
Proof.
  intros pruned. unfold enqueue. cbv zeta. rewrite prune_keeps_size.
  fold pruned. split; [|split].
  - intros H. replace (_max_size q <=? Z.of_nat (length pruned)) with false
      by (symmetry; apply Z.leb_gt; exact H).
    eexists. split; reflexivity.
  - intros head rest Hp H.
    replace (_max_size q <=? Z.of_nat (length pruned)) with true
      by (symmetry; apply Z.leb_le; exact H).
    rewrite Hp. cbn [pop0]. eexists. split; reflexivity.
  - intros Hp H. rewrite Hp. cbn [length].
    replace (_max_size q <=? Z.of_nat 0) with true
      by (symmetry; apply Z.leb_le; exact H).
    reflexivity.
Qed.

(** After a [flush] that delivered nothing, the queue stands in
    priority order and [enqueue] at capacity drops the event of
    priority 5 queued at second 2, keeping the older one of second 1;
    and a queue made with [max_size = 0] raises. *)
Lemma enqueue_at_capacity_witness :
  let waiting := with_queue (new_queue 3 3600)
                   [OfflineFlushInv.event_at 1 0; OfflineFlushInv.event_at 2 5;
                    OfflineFlushInv.event_at 3 0] in
  let after := fst (fst (OfflineFlush.flush OfflineFlushInv.failing
                           (Qc_of_Z 4) waiting 0%nat)) in
  _queue after
  = [OfflineFlushInv.event_at 2 5; OfflineFlushInv.event_at 1 0;
     OfflineFlushInv.event_at 3 0]
  /\ (exists q',
        enqueue (Qc_of_Z 6) after (OfflineFlushInv.event_at 6 0)
        = Py.Returned (q', true)
        /\ _queue q'
           = [OfflineFlushInv.event_at 1 0; OfflineFlushInv.event_at 3 0;
              OfflineFlushInv.event_at 6 0])
  /\ enqueue (Qc_of_Z 0) (new_queue 0 3600) (sample 0)
     = Py.Raised Py.IndexError.
Proof.
  intros waiting after.
  assert (Hq : _queue after
               = [OfflineFlushInv.event_at 2 5; OfflineFlushInv.event_at 1 0;
                  OfflineFlushInv.event_at 3 0]) by (vm_compute; reflexivity).
  split; [exact Hq|]. split.
  - destruct (enqueue_at_capacity (Qc_of_Z 6) after (OfflineFlushInv.event_at 6 0))
      as (_ & H & _).
    apply (H (OfflineFlushInv.event_at 2 5)
             [OfflineFlushInv.event_at 1 0; OfflineFlushInv.event_at 3 0]).
    + vm_compute. reflexivity.
    + vm_compute. discriminate.
  - destruct (enqueue_at_capacity (Qc_of_Z 0) (new_queue 0 3600) (sample 0))
      as (_ & _ & H).
    apply H; [reflexivity | vm_compute; discriminate].
Defined.

End OfflineQueueProps.

(** ** Rate limiter *)

Module RateLimiterProps.
Import RateLimiter RateLimiterInv.

Lemma state_of_with_state rl u st : state_of (with_state rl u st) u = st.
Proof. unfold state_of, with_state. cbn. now rewrite lookup_insert_eq. Qed.

Lemma state_of_with_state_ne rl u v st :
  u <> v -> state_of (with_state rl u st) v = state_of rl v.
Proof. intros H. unfold state_of, with_state. cbn. now rewrite lookup_insert_ne. Qed.

Lemma py_min_le_r a b : (py_min a b <= b)%Qc.
Proof.
  unfold py_min. case_bool_decide as H.
  - apply Qcle_refl.
  - now apply Qcnot_lt_le.
Qed.

Lemma py_min_le_l a b : (py_min a b <= a)%Qc.
Proof.
  unfold py_min. case_bool_decide as H.
  - now apply Qclt_le_weak.
  - apply Qcle_refl.
Qed.

Lemma py_min_mono a a' b : (a <= a')%Qc -> (py_min a b <= py_min a' b)%Qc.
Proof.
  intros H. unfold py_min at 2. case_bool_decide as H'.
  - apply py_min_le_r.
  - eapply Qcle_trans; [apply py_min_le_l | exact H].
Qed.

Lemma pow2_double k : 0 <= k -> Qc_of_Z (2 ^ (k + 1)) = (2 * Qc_of_Z (2 ^ k))%Qc.
Proof.
  intros Hk. rewrite Z.pow_add_r, Z.pow_1_r by lia.
  rewrite Z.mul_comm, Z2Qc_inj_mul, Z2Qc_inj_2. reflexivity.
Qed.

Lemma pow2_nonneg k : (0 <= Qc_of_Z (2 ^ k))%Qc.
Proof.
  assert (H : 0 <= 2 ^ k) by (apply Z.pow_nonneg; lia).
  apply Z2Qc_inj_le in H. now rewrite Z2Qc_inj_0 in H.
Qed.

Lemma scaled_mono base k :
  (0 <= base)%Qc -> 0 <= k ->
  (base * Qc_of_Z (2 ^ k) <= base * Qc_of_Z (2 ^ (k + 1)))%Qc.
Proof.
  intros Hb Hk. rewrite !(Qcmult_comm base).
  apply Qcmult_le_compat_r; [|exact Hb].
  apply (proj1 (Z2Qc_inj_le _ _)). apply Z.pow_le_mono_r; lia.
Qed.

Lemma backoff_capped rl k : (backoff rl k <= _denial_backoff_max rl)%Qc.
Proof. apply py_min_le_r. Qed.

Lemma backoff_grows rl k :
  (0 <= _denial_backoff_base rl)%Qc -> 0 <= k ->
  (backoff rl k <= backoff rl (k + 1))%Qc
  /\ ((_denial_backoff_base rl * Qc_of_Z (2 ^ (k + 1))
       <= _denial_backoff_max rl)%Qc ->
      backoff rl (k + 1) = (2 * backoff rl k)%Qc).
Proof.
  intros Hb Hk. split.
  - apply py_min_mono. now apply scaled_mono.
  - intros Hfit. unfold backoff, py_min.
    rewrite bool_decide_eq_false_2 by (now apply Qcle_not_lt).
    rewrite bool_decide_eq_false_2.
    + rewrite pow2_double by assumption.
      rewrite !Qcmult_assoc. f_equal. apply Qcmult_comm.
    + apply Qcle_not_lt. eapply Qcle_trans; [|exact Hfit].
      now apply scaled_mono.
Qed.

(** The limiter that a [record_denial] call leaves, in its four cases. *)
Lemma record_denial_cases rl user now now' :
  let st := state_of rl user in
  let count := denial_count st + 1 in
  let k := count - _denial_threshold rl in
  let left expiry :=
    with_state rl user
      {| request_times := request_times st; denial_count := count;
         last_denial := Some now; backoff_until := expiry |} in
  (count < _denial_threshold rl ->
   record_denial now now' rl user = (left (backoff_until st), Py.Returned tt))
  /\ (_denial_threshold rl <= count -> 1024 <= k ->
      record_denial now now' rl user
      = (left (backoff_until st), Py.Raised Py.OverflowError))
  /\ (_denial_threshold rl <= count -> k < 1024 ->
      timedelta_ok (backoff rl k) && datetime_ok (now' + backoff rl k)%Qc = true ->
      record_denial now now' rl user
      = (left (Some (now' + backoff rl k)%Qc), Py.Returned tt))
  /\ (_denial_threshold rl <= count -> k < 1024 ->
      timedelta_ok (backoff rl k) && datetime_ok (now' + backoff rl k)%Qc = false ->
      record_denial now now' rl user
      = (left (Some now'), Py.Raised Py.OverflowError)).
Proof.
  intros st count k left. subst left. unfold record_denial. cbv zeta.
  fold st. fold count. fold k. fold (backoff rl k).
  repeat split.
  - intros H. replace (_denial_threshold rl <=? count) with false
      by (symmetry; apply Z.leb_gt; exact H).
    reflexivity.
  - intros H Hk. replace (_denial_threshold rl <=? count) with true
      by (symmetry; apply Z.leb_le; exact H).
    replace (1024 <=? k) with true by (symmetry; apply Z.leb_le; exact Hk).
    reflexivity.
  - intros H Hk Hr. replace (_denial_threshold rl <=? count) with true
      by (symmetry; apply Z.leb_le; exact H).
    replace (1024 <=? k) with false by (symmetry; apply Z.leb_gt; exact Hk).
    now rewrite Hr.
  - intros H Hk Hr. replace (_denial_threshold rl <=? count) with true
      by (symmetry; apply Z.leb_le; exact H).
    replace (1024 <=? k) with false by (symmetry; apply Z.leb_gt; exact Hk).
    now rewrite Hr.
Qed.

Lemma record_denial_count rl user now now' :
  denial_count (state_of (fst (record_denial now now' rl user)) user)
  = denial_count (state_of rl user) + 1
  /\ _denial_threshold (fst (record_denial now now' rl user))
     = _denial_threshold rl.
Proof.
  unfold record_denial. cbv zeta.
  destruct (_denial_threshold rl <=? _);
    [destruct (1024 <=? _); [|destruct (timedelta_ok _ && datetime_ok _)]|];
    cbn [fst]; now rewrite state_of_with_state.
Qed.

(** Denials in a row add up, whether or not the calls return. *)
Lemma denied_count n : forall t rl user,
  denial_count (state_of (denied n t rl user) user)
  = denial_count (state_of rl user) + Z.of_nat n
  /\ _denial_threshold (denied n t rl user) = _denial_threshold rl.
Proof.
  induction n as [|n IH]; intros t rl user.
  - cbn [denied]. split; [lia|reflexivity].
  - cbn [denied].
    destruct (IH (t + 1)
                (fst (record_denial (Qc_of_Z (t + 1)) (Qc_of_Z (t + 1)) rl user))
                user) as (Hc & Ht).
    destruct (record_denial_count rl user (Qc_of_Z (t + 1)) (Qc_of_Z (t + 1)))
      as (Hc1 & Ht1).
    rewrite Hc, Ht, Hc1, Ht1. split; [lia|reflexivity].
Qed.

Lemma denied1026_count :
  denial_count (state_of denied1026 7) = 1026
  /\ _denial_threshold denied1026 = 3.
Proof.
  unfold denied1026.
  destruct (denied_count (Z.to_nat 1026) 0 defaults 7) as (Hc & Ht).
  rewrite Hc, Ht, Z2Nat.id by lia. split; reflexivity.
Qed.

(** C8. A [record_denial] call adds one to the denial count of the
    identity and leaves other identities alone, however it ends.
    Below the threshold it returns and leaves the expiry as it was.
    Once the new count has reached the threshold, with
    [n = count - threshold]: if [n < 1024] and both the delay
    [min(base * 2^n, max)] and the expiry are in the ranges of
    [timedelta] and [datetime], it returns and sets the backoff expiry
    to the second clock reading plus that delay; if [n >= 1024] it
    raises [OverflowError] and leaves the expiry as it was, the count
    being already incremented; if [n < 1024] and the delay or the
    expiry is out of range it raises [OverflowError] with the expiry
    left at the clock reading.  The delay never exceeds [max],
    never shrinks from one denial to the next and doubles as long as
    the doubled value stays within [max] (for a non-negative base).  A
    [record_approval] call sets the denial count to zero and clears
    the expiry. *)
Theorem denial_backoff (rl : RateLimiter) (user : Z) (now now' : Qc) :
  let out := record_denial now now' rl user in
  let rl' := fst out in
  let count := denial_count (state_of rl user) + 1 in
  let n := count - _denial_threshold rl in
  denial_count (state_of rl' user) = count
  /\ (forall other, other <> user -> state_of rl' other = state_of rl other)
  /\ (count < _denial_threshold rl ->
      snd out = Py.Returned tt
      /\ backoff_until (state_of rl' user) = backoff_until (state_of rl user))
  /\ (_denial_threshold rl <= count -> n < 1024 ->
      timedelta_ok (backoff rl n) = true ->
      datetime_ok (now' + backoff rl n)%Qc = true ->
      snd out = Py.Returned tt
      /\ backoff_until (state_of rl' user)
         = Some (now' + py_min (_denial_backoff_base rl
                                * Qc_of_Z (2 ^ (count - _denial_threshold rl)))
                               (_denial_backoff_max rl))%Qc)
  /\ (_denial_threshold rl <= count -> 1024 <= n ->
      snd out = Py.Raised Py.OverflowError
      /\ backoff_until (state_of rl' user) = backoff_until (state_of rl user))
  /\ (_denial_threshold rl <= count -> n < 1024 ->
      timedelta_ok (backoff rl n) && datetime_ok (now' + backoff rl n)%Qc = false ->
      snd out = Py.Raised Py.OverflowError
      /\ backoff_until (state_of rl' user) = Some now')
  /\ (forall k, (backoff rl k <= _denial_backoff_max rl)%Qc)
  /\ (forall k, (0 <= _denial_backoff_base rl)%Qc -> 0 <= k ->
        (backoff rl k <= backoff rl (k + 1))%Qc
        /\ ((_denial_backoff_base rl * Qc_of_Z (2 ^ (k + 1))
             <= _denial_backoff_max rl)%Qc ->
            backoff rl (k + 1) = (2 * backoff rl k)%Qc))
  /\ denial_count (state_of (record_approval rl' user) user) = 0
  /\ backoff_until (state_of (record_approval rl' user) user) = None.
Proof.
  intros out rl' count n. subst rl' out.
  pose proof (record_denial_cases rl user now now') as Hc. cbv zeta in Hc.
  fold count in Hc. fold n in Hc. destruct Hc as (Hlow & Hbig & Hin & Hout).
  split; [|split].
  - destruct (Z.lt_ge_cases count (_denial_threshold rl)) as [H|H];
      [rewrite (Hlow H) | destruct (Z.lt_ge_cases n 1024) as [Hn|Hn];
        [destruct (timedelta_ok (backoff rl n)
                   && datetime_ok (now' + backoff rl n)%Qc) eqn:Hr;
          [rewrite (Hin H Hn eq_refl) | rewrite (Hout H Hn eq_refl)]
        | rewrite (Hbig H Hn)]];
      cbn [fst]; now rewrite state_of_with_state.
  - intros other Hne.
    destruct (Z.lt_ge_cases count (_denial_threshold rl)) as [H|H];
      [rewrite (Hlow H) | destruct (Z.lt_ge_cases n 1024) as [Hn|Hn];
        [destruct (timedelta_ok (backoff rl n)
                   && datetime_ok (now' + backoff rl n)%Qc) eqn:Hr;
          [rewrite (Hin H Hn eq_refl) | rewrite (Hout H Hn eq_refl)]
        | rewrite (Hbig H Hn)]];
      cbn [fst]; now rewrite state_of_with_state_ne by congruence.
  - split; [|split; [|split; [|split; [|split; [|split; [|split]]]]]].
    + intros H. rewrite (Hlow H). cbn [fst snd].
      now rewrite state_of_with_state.
    + intros H Hn Ht Hd.
      assert (Hr : timedelta_ok (backoff rl n)
                   && datetime_ok (now' + backoff rl n)%Qc = true)
        by (now rewrite Ht, Hd).
      rewrite (Hin H Hn Hr). cbn [fst snd].
      now rewrite state_of_with_state.
    + intros H Hn. rewrite (Hbig H Hn). cbn [fst snd].
      now rewrite state_of_with_state.
    + intros H Hn Hr. rewrite (Hout H Hn Hr). cbn [fst snd].
      now rewrite state_of_with_state.
    + apply backoff_capped.
    + apply backoff_grows.
    + unfold record_approval. cbv zeta. now rewrite state_of_with_state.
    + unfold record_approval. cbv zeta. now rewrite state_of_with_state.
Qed.

Lemma denial_backoff_witness :
  denial_count (state_of (fst (record_denial (Qc_of_Z 9) (Qc_of_Z 9) denied4 7)) 7) = 5
  /\ (snd (record_denial (Qc_of_Z 9) (Qc_of_Z 9) denied4 7) = Py.Returned tt
      /\ backoff_until
           (state_of (fst (record_denial (Qc_of_Z 9) (Qc_of_Z 9) denied4 7)) 7)
         = Some (Qc_of_Z 9 + py_min (Qc_of_Z 5 * Qc_of_Z (2 ^ (5 - 3))) (Qc_of_Z 300))%Qc)
  /\ backoff_until
       (state_of (fst (record_denial (Qc_of_Z 1) (Qc_of_Z 1) defaults 7)) 7) = None
  /\ state_of (fst (record_denial (Qc_of_Z 9) (Qc_of_Z 9) denied4 7)) 8
     = state_of denied4 8
  /\ (backoff defaults 2 <= backoff defaults 3)%Qc
  /\ backoff defaults 3 = (2 * backoff defaults 2)%Qc
  /\ (snd (record_denial (Qc_of_Z 1027) (Qc_of_Z 1027) denied1026 7)
      = Py.Raised Py.OverflowError
      /\ denial_count
           (state_of (fst (record_denial (Qc_of_Z 1027) (Qc_of_Z 1027) denied1026 7)) 7)
         = 1027
      /\ backoff_until
           (state_of (fst (record_denial (Qc_of_Z 1027) (Qc_of_Z 1027) denied1026 7)) 7)
         = backoff_until (state_of denied1026 7)).
Proof.
  pose proof (denial_backoff denied4 7 (Qc_of_Z 9) (Qc_of_Z 9))
    as (H1 & H4 & _ & H2 & _).
  pose proof (denial_backoff defaults 7 (Qc_of_Z 1) (Qc_of_Z 1))
    as (_ & _ & H3 & _ & _ & _ & _ & H6 & _).
  pose proof (denial_backoff denied1026 7 (Qc_of_Z 1027) (Qc_of_Z 1027))
    as (H7 & _ & _ & _ & H8 & _).
  destruct denied1026_count as (Hc & Ht).
  split; [exact H1|].
  split; [apply H2; vm_compute; reflexivity || discriminate|].
  split; [apply H3; reflexivity|]. split; [apply H4; discriminate|].
  destruct (H6 2) as (Hmono & Hdouble).
  - vm_compute. discriminate.
  - lia.
  - split; [exact Hmono|]. split; [apply Hdouble; vm_compute; discriminate|].
    cbv zeta in H7, H8. rewrite Hc in H7. rewrite Hc, Ht in H8.
    destruct H8 as (H8 & H9); [lia | lia |].
    split; [exact H8|]. split; [exact H7 | exact H9].
Defined.

End RateLimiterProps.

(** ** Policy engine *)

Module PolicyProps.
Import PolicyEngine PyFacts PolicyInv.

Lemma contains_mid c p r : Py.contains c (p ++ c :: r) = true.
Proof.
  unfold Py.contains. rewrite existsb_app. simpl.
  rewrite Ascii.eqb_refl. now rewrite orb_true_r.
Qed.

Lemma index_mid c p r :
  free_of c p -> Py.index c (p ++ c :: r) = Some (length p).
Proof.
  induction 1 as [|x p Hx _ IH]; simpl.
  - now rewrite Ascii.eqb_refl.
  - now rewrite Hx, IH.
Qed.

Lemma split_free sep l : free_of sep l -> Py.split sep l = [l].
Proof.
  induction 1 as [|x l Hx _ IH]; simpl; [reflexivity|].
  rewrite Ascii.eqb_sym in Hx. now rewrite Hx, IH.
Qed.

Lemma split_app sep a r :
  free_of sep a -> Py.split sep (a ++ sep :: r) = a :: Py.split sep r.
Proof.
  induction 1 as [|x a Hx _ IH]; simpl.
  - now rewrite Ascii.eqb_refl.
  - rewrite Ascii.eqb_sym in Hx. now rewrite Hx, IH.
Qed.

Lemma split_join sep parts :
  parts <> [] -> Forall (free_of sep) parts ->
  Py.split sep (join_with sep parts) = parts.
Proof.
  intros Hne Hfree. induction Hfree as [|p rest Hp Hrest IH]; [congruence|].
  destruct rest as [|q rest'].
  - simpl. now apply split_free.
  - change (join_with sep (p :: q :: rest'))
      with (p ++ sep :: join_with sep (q :: rest')).
    rewrite split_app by assumption. f_equal. apply IH. discriminate.
Qed.

Lemma free_of_join c sep parts :
  Ascii.eqb c sep = false -> Forall (free_of c) parts ->
  free_of c (join_with sep parts).
Proof.
  intros Hsep H. induction H as [|p rest Hp Hrest IH]; [constructor|].
  destruct rest as [|q rest'].
  - exact Hp.
  - change (join_with sep (p :: q :: rest'))
      with (p ++ sep :: join_with sep (q :: rest')).
    apply Forall_app. split; [exact Hp|]. constructor; [exact Hsep | exact IH].
Qed.

Lemma drop_past (a : list ascii) c r : drop (S (length a)) (a ++ c :: r) = r.
Proof. induction a as [|x a IH]; [reflexivity | exact IH]. Qed.

(** C9. A pattern made of a prefix free of braces, one brace group of
    alternatives free of commas and closing braces, and a suffix,
    matches a target exactly when the glob made of the prefix, one of
    the alternatives stripped of surrounding white space, and the
    suffix matches that target; in particular [*.{ts,tsx}] matches
    [index.ts] and [Button.tsx] and does not match [script.py]. *)
Theorem brace_alternation (prefix suffix : list ascii)
    (alts : list (list ascii)) (target : string) :
  alts <> [] ->
  free_of "{"%char prefix -> free_of "}"%char prefix ->
  Forall (fun a => free_of ","%char a /\ free_of "}"%char a) alts ->
  (_pattern_matches (braced prefix alts suffix) target
   = existsb (fun alt => Fnmatch.fnmatch (Py.chars target)
                           (prefix ++ Py.strip alt ++ suffix)) alts)
  /\ _pattern_matches "*.{ts,tsx}" "index.ts" = true
  /\ _pattern_matches "*.{ts,tsx}" "Button.tsx" = true
  /\ _pattern_matches "*.{ts,tsx}" "script.py" = false.
Proof.
  intros Hne Hopen Hclose Halts.
  split; [|repeat split; vm_compute; reflexivity].
  set (inner := join_with ","%char alts).
  assert (Hinner : free_of "}"%char inner).
  { apply free_of_join; [reflexivity|].
    eapply Forall_impl; [exact Halts|]. now intros a [_ H]. }
  set (A := prefix ++ "{"%char :: inner).
  assert (E1 : prefix ++ "{"%char :: inner ++ "}"%char :: suffix
               = A ++ "}"%char :: suffix).
  { subst A. rewrite <- app_assoc. reflexivity. }
  assert (Hopen_idx : Py.index "{"%char (A ++ "}"%char :: suffix)
                      = Some (length prefix)).
  { rewrite <- E1. now apply index_mid. }
  assert (Hclose_idx : Py.index "}"%char (A ++ "}"%char :: suffix)
                       = Some (length A)).
  { apply index_mid. subst A. apply Forall_app. split; [exact Hclose|].
    constructor; [reflexivity | exact Hinner]. }
  assert (Htake : take (length prefix) (A ++ "}"%char :: suffix) = prefix).
  { rewrite <- E1. apply take_app_length. }
  assert (Hslice : Py.slice (S (length prefix)) (length A)
                     (A ++ "}"%char :: suffix) = inner).
  { unfold Py.slice. rewrite <- E1, (drop_past prefix).
    replace (length A - S (length prefix))%nat with (length inner)
      by (subst A; rewrite length_app; simpl; lia).
    apply take_app_length. }
  unfold _pattern_matches, braced. cbv zeta. rewrite chars_str_of. fold inner.
  rewrite contains_mid, E1, contains_mid. cbn [andb].
  rewrite Hopen_idx, Hclose_idx, Htake, Hslice, drop_past.
  subst inner. rewrite split_join; [reflexivity | exact Hne |].
  eapply Forall_impl; [exact Halts|]. now intros a [H _].
Qed.

Lemma brace_alternation_witness :
  _pattern_matches (braced (Py.chars "*.") [Py.chars "ts"; Py.chars " tsx"] [])
                   "Button.tsx"
  = existsb (fun alt => Fnmatch.fnmatch (Py.chars "Button.tsx")
                          (Py.chars "*." ++ Py.strip alt ++ []))
            [Py.chars "ts"; Py.chars " tsx"]
  /\ _pattern_matches (braced (Py.chars "*.") [Py.chars "ts"; Py.chars " tsx"] [])
                      "Button.tsx" = true.
Proof.
  destruct (brace_alternation (Py.chars "*.") [] [Py.chars "ts"; Py.chars " tsx"]
              "Button.tsx") as (H & _).
  - discriminate.
  - repeat constructor.
  - repeat constructor.
  - repeat constructor.
  - split; [exact H|]. rewrite H. vm_compute. reflexivity.
Defined.

Lemma find_match_find rules act target risk :
  find_match (List.filter enabled rules) (action_value act) target (risk_value risk)
  = match List.find (applies act target) rules with
    | Some p => outcome p risk
    | None => no_match
    end.
Proof.
  induction rules as [|p rest IH]; [reflexivity|].
  cbn [List.filter List.find]. unfold applies at 1.
  destruct (enabled p); cbn [andb]; [|exact IH].
  cbn [find_match].
  destruct (String.eqb (action p) (action_value act)); cbn [negb andb]; [|exact IH].
  destruct (_pattern_matches (pattern p) target); cbn [negb]; [|exact IH].
  unfold outcome. now destruct (_risk_acceptable (max_risk p) (risk_value risk)).
Qed.

Lemma find_skip {A} (f : A -> bool) (before : list A) (p : A) (after : list A) :
  Forall (fun q => f q = false) before -> f p = true ->
  List.find f (before ++ p :: after) = Some p.
Proof.
  induction 1 as [|q before Hq _ IH]; intros Hp; simpl.
  - now rewrite Hp.
  - rewrite Hq. now apply IH.
Qed.

(** C6. For every rule list and request, the outcome of [evaluate] is
    decided by the first rule in list order that is enabled, whose
    action equals the request's and whose pattern matches the target:
    auto-approval when the risk is acceptable to that rule, which for
    the four levels means [risk <= max_risk], and risk-exceeded
    otherwise; with no such rule the outcome is no-match.  The rules
    after the deciding one never change the outcome, even when it is
    risk-exceeded and a later rule would approve. *)
Theorem first_match_decides (rules : list Policy) (act : ActionType)
    (target : string) (risk : RiskLevel) :
  match_ (snd (evaluate (new_engine rules) act target risk))
  = match List.find (applies act target) rules with
    | Some p => outcome p risk
    | None => no_match
    end
  /\ (forall m r : RiskLevel,
        _risk_acceptable (risk_value m) (risk_value r) = (rank r <=? rank m))
  /\ (forall before p after,
        Forall (fun q => applies act target q = false) before ->
        applies act target p = true ->
        match_ (snd (evaluate (new_engine (before ++ p :: after)) act target risk))
        = outcome p risk).
Proof.
  assert (H : forall rs,
    match_ (snd (evaluate (new_engine rs) act target risk))
    = match List.find (applies act target) rs with
      | Some p => outcome p risk
      | None => no_match
      end).
  { intros rs. unfold evaluate, new_engine. cbn [snd match_ _policies].
    apply find_match_find. }
  split; [apply H|]. split.
  - intros m r. destruct m, r; reflexivity.
  - intros before p after Hb Hp. rewrite H, (find_skip _ _ _ _ Hb Hp). reflexivity.
Qed.

Lemma first_match_decides_witness :
  match_ (snd (evaluate (new_engine [off_rule; strict_rule; lax_rule])
                 FILE_EDIT "src/components/Button.ts" HIGH))
  = risk_exceeded strict_rule "Risk high exceeds policy max low"
  /\ match_ (snd (evaluate (new_engine [off_rule; lax_rule; strict_rule])
                    FILE_EDIT "src/components/Button.ts" HIGH))
     = auto_approved lax_rule "Matched policy: lax".
Proof.
  pose proof (first_match_decides [off_rule; strict_rule; lax_rule] FILE_EDIT
                "src/components/Button.ts" HIGH) as (_ & _ & H1).
  pose proof (first_match_decides [off_rule; lax_rule; strict_rule] FILE_EDIT
                "src/components/Button.ts" HIGH) as (_ & _ & H2).
  split.
  - etransitivity.
    + apply (H1 [off_rule] strict_rule [lax_rule]);
        [repeat constructor | vm_compute; reflexivity].
    + vm_compute. reflexivity.
  - etransitivity.
    + apply (H2 [off_rule] lax_rule [strict_rule]);
        [repeat constructor | vm_compute; reflexivity].
    + vm_compute. reflexivity.
Defined.

(** The scenario of the specification. *)
Example scenario :
  let rule := {| name := "ts"; enabled := true; action := "file_edit";
                 pattern := "src/**/*.ts"; max_risk := "medium" |} in
  let eng := new_engine [rule] in
  matched (match_ (snd (evaluate eng FILE_EDIT "src/components/Button.ts" LOW)))
  = true
  /\ match_ (snd (evaluate eng FILE_EDIT "src/components/Button.ts" CRITICAL))
     = risk_exceeded rule "Risk critical exceeds policy max medium"
  /\ match_ (snd (evaluate eng FILE_EDIT "lib/util.ts" LOW)) = no_match.
Proof. vm_compute. repeat split; reflexivity. Qed.

End PolicyProps.

(** ** Permission queue *)

Module QueueProps.
Import PermissionQueue QueueInv.

Lemma countb_app {A} (p : A -> bool) (a b : list A) :
  countb p (a ++ b) = (countb p a + countb p b)%nat.
Proof. unfold countb. now rewrite List.filter_app, length_app. Qed.

Lemma unresolved_le_1 lp rid : (unresolved lp rid <= 1)%nat.
Proof. unfold unresolved. destruct (open_future lp rid); lia. Qed.

Lemma open_future_pending lp rid f :
  open_future lp rid = Some f ->
  _response_futures (queue lp) !! rid = Some f /\ futures lp !! f = Some Pending.
Proof.
  unfold open_future. destruct (_response_futures (queue lp) !! rid) as [g|]; [|discriminate].
  destruct (futures lp !! g) as [[| |]|] eqn:E; try discriminate.
  intros [= <-]. auto.
Qed.

(** Resolving a future closes every request registered with it and
    opens none. *)
Lemma set_result_unresolved lp f response rid :
  (f < length (futures lp))%nat ->
  (unresolved (set_result lp f response) rid <= unresolved lp rid)%nat
  /\ (_response_futures (queue lp) !! rid = Some f ->
      unresolved (set_result lp f response) rid = 0%nat).
Proof.
  intros Hf. unfold unresolved, open_future, set_result. cbn [queue futures].
  destruct (_response_futures (queue lp) !! rid) as [g|]; [|split; [lia|discriminate]].
  destruct (decide (g = f)) as [->|Hne].
  - rewrite list_lookup_insert_eq by exact Hf.
    split; [lia | reflexivity].
  - rewrite list_lookup_insert_ne by congruence.
    split; [lia | congruence].
Qed.

Lemma well_formed_set_result lp f response :
  well_formed lp -> well_formed (set_result lp f response).
Proof.
  intros H rid g Hg. unfold set_result. cbn [futures].
  rewrite length_insert. exact (H rid g Hg).
Qed.

Lemma lookup_lt_pending lp f : futures lp !! f = Some Pending -> (f < length (futures lp))%nat.
Proof. intros H. eapply lookup_lt_Some. exact H. Qed.

(** Resolving the open future of [r0], as [respond], the timeout and
    [cancel_all] do. *)
Lemma resolve_counts lp r0 f response rid :
  open_future lp r0 = Some f ->
  (countb (is_resolved rid) [Resolved r0 response]
   + unresolved (set_result lp f response) rid <= unresolved lp rid)%nat.
Proof.
  intros Hopen. destruct (open_future_pending _ _ _ Hopen) as (Hmap & Hpend).
  pose proof (lookup_lt_pending _ _ Hpend) as Hlt.
  destruct (set_result_unresolved lp f response rid Hlt) as (Hle & Hzero).
  unfold countb. cbn [List.filter is_resolved].
  destruct (String.eqb_spec r0 rid) as [->|Hne]; cbn [length].
  - rewrite (Hzero Hmap). unfold unresolved. now rewrite Hopen.
  - lia.
Qed.

Lemma respond_counts lp response rid :
  let '(lp', accepted, obs) := respond lp response in
  (countb (is_resolved rid) obs + unresolved lp' rid <= unresolved lp rid)%nat
  /\ (well_formed lp -> well_formed lp')
  /\ waiters lp' = waiters lp
  /\ countb (is_accepted rid) [RespondReturned (request_id response) accepted]
     = countb (is_resolved rid) obs
  /\ countb (is_delivered rid) obs = 0%nat
  /\ countb (is_accepted rid) obs = 0%nat.
Proof.
  unfold respond.
  destruct (_pending (queue lp) !! request_id response);
    [destruct (open_future lp (request_id response)) as [f|] eqn:Hopen|].
  - repeat split; try reflexivity.
    + now apply resolve_counts.
    + apply well_formed_set_result.
    + unfold countb. cbn. now destruct (String.eqb _ _).
  - repeat split; auto.
  - repeat split; auto.
Qed.

Lemma timeout_counts lp task now rid :
  let '(lp', obs) := _timeout_handler lp task now in
  (countb (is_resolved rid) obs + unresolved lp' rid <= unresolved lp rid)%nat
  /\ (well_formed lp -> well_formed lp')
  /\ waiters lp' = waiters lp
  /\ countb (is_accepted rid) obs = 0%nat
  /\ countb (is_delivered rid) obs = 0%nat.
Proof.
  unfold _timeout_handler.
  destruct (tasks lp !! task) as [[r0| |]|]; try (repeat split; auto; fail).
  set (lp1 := {| queue := queue lp; futures := futures lp;
                 tasks := <[task := Finished]> (tasks lp);
                 waiters := waiters lp |}).
  assert (Hsame : forall r, unresolved lp1 r = unresolved lp r) by reflexivity.
  destruct (_pending (queue lp1) !! r0);
    [destruct (open_future lp1 r0) as [f|] eqn:Hopen|].
  - repeat split; try reflexivity.
    + rewrite <- Hsame. now apply resolve_counts.
    + intros H. apply well_formed_set_result. exact H.
  - repeat split; auto.
  - repeat split; auto.
Qed.

Lemma cancel_one_counts now acc r0 rid :
  let acc' := cancel_one now acc r0 in
  (countb (is_resolved rid) (snd acc') + unresolved (fst acc') rid
   <= countb (is_resolved rid) (snd acc) + unresolved (fst acc) rid)%nat
  /\ (well_formed (fst acc) -> well_formed (fst acc'))
  /\ waiters (fst acc') = waiters (fst acc)
  /\ countb (is_accepted rid) (snd acc') = countb (is_accepted rid) (snd acc)
  /\ countb (is_delivered rid) (snd acc') = countb (is_delivered rid) (snd acc).
Proof.
  unfold cancel_one. destruct (open_future (fst acc) r0) as [f|] eqn:Hopen.
  - cbn [fst snd]. rewrite !countb_app. repeat split.
    + pose proof (resolve_counts _ _ _ (cancelled_response r0 now) rid Hopen). lia.
    + apply well_formed_set_result.
    + unfold countb. simpl. lia.
    + unfold countb. simpl. lia.
  - repeat split; auto.
Qed.

Lemma cancel_fold_counts now rid ids : forall acc,
  let acc' := fold_left (cancel_one now) ids acc in
  (countb (is_resolved rid) (snd acc') + unresolved (fst acc') rid
   <= countb (is_resolved rid) (snd acc) + unresolved (fst acc) rid)%nat
  /\ (well_formed (fst acc) -> well_formed (fst acc'))
  /\ waiters (fst acc') = waiters (fst acc)
  /\ countb (is_accepted rid) (snd acc') = countb (is_accepted rid) (snd acc)
  /\ countb (is_delivered rid) (snd acc') = countb (is_delivered rid) (snd acc).
Proof.
  induction ids as [|r0 ids IH]; intros acc; [repeat split; auto|].
  cbn [fold_left].
  destruct (cancel_one_counts now acc r0 rid) as (A1 & A2 & A3 & A4 & A5).
  destruct (IH (cancel_one now acc r0)) as (B1 & B2 & B3 & B4 & B5).
  cbv zeta in *. repeat split; try congruence; auto. lia.
Qed.

Lemma cancel_all_counts lp now rid :
  let '(lp', obs) := cancel_all lp now in
  (countb (is_resolved rid) obs + unresolved lp' rid <= unresolved lp rid)%nat
  /\ (well_formed lp -> well_formed lp')
  /\ waiters lp' = waiters lp
  /\ countb (is_accepted rid) obs = 0%nat
  /\ countb (is_delivered rid) obs = 0%nat.
Proof.
  unfold cancel_all.
  pose proof (cancel_fold_counts now rid
                (map_to_list (_pending (queue lp))).*1 (lp, []))
    as (A1 & A2 & A3 & A4 & A5).
  cbv zeta in *.
  destruct (fold_left (cancel_one now) _ (lp, [])) as [lp' obs].
  cbn [fst snd] in *. rewrite !countb_app.
  unfold countb in *. cbn in *. repeat split; auto; lia.
Qed.

Lemma add_begin_counts lp request rid :
  well_formed lp ->
  (unresolved (add_begin lp request) rid
   <= unresolved lp rid + countb (is_add rid) [Add request])%nat
  /\ well_formed (add_begin lp request)
  /\ waiting (add_begin lp request) rid
     = (waiting lp rid + countb (is_add rid) [Add request])%nat.
Proof.
  intros Hwf. split; [|split].
  - unfold countb. cbn [List.filter is_add].
    destruct (String.eqb_spec (id request) rid) as [E|Hne]; cbn [length].
    + pose proof (unresolved_le_1 (add_begin lp request) rid). lia.
    + unfold unresolved, open_future, add_begin.
      cbn [queue futures _response_futures with_maps id].
      rewrite lookup_insert_ne by exact Hne.
      destruct (_response_futures (queue lp) !! rid) as [g|] eqn:Hg; [|lia].
      rewrite lookup_app_l by exact (Hwf _ _ Hg). lia.
  - intros r g. unfold add_begin.
    cbn [queue futures _response_futures with_maps id].
    rewrite length_app. cbn [length].
    destruct (decide (id request = r)) as [->|Hne].
    + rewrite lookup_insert_eq. intros [= <-]. lia.
    + rewrite lookup_insert_ne by exact Hne. intros Hg.
      pose proof (Hwf _ _ Hg). lia.
  - unfold waiting, add_begin. cbn [waiters id]. rewrite countb_app.
    f_equal. unfold countb. cbn [List.filter is_add fst].
    now destruct (String.eqb (id request) rid).
Qed.

Lemma cleanup_counts lp r0 rid :
  (unresolved (_cleanup lp r0) rid <= unresolved lp rid)%nat
  /\ (well_formed lp -> well_formed (_cleanup lp r0))
  /\ waiters (_cleanup lp r0) = waiters lp.
Proof.
  split; [|split; [|reflexivity]].
  - unfold unresolved, open_future, _cleanup.
    cbn [queue futures _response_futures with_maps].
    destruct (decide (r0 = rid)) as [->|Hne].
    + rewrite lookup_delete_eq. lia.
    + rewrite lookup_delete_ne by exact Hne. lia.
  - intros Hwf r g. unfold _cleanup.
    cbn [queue futures _response_futures with_maps].
    intros Hg. apply lookup_delete_Some in Hg as [_ Hg]. exact (Hwf _ _ Hg).
Qed.

Lemma drop_waiter_counts lp w rid :
  (waiting (drop_waiter w lp) rid <= waiting lp rid)%nat
  /\ (w ∈ waiters lp -> fst w = rid ->
      (waiting (drop_waiter w lp) rid + 1 <= waiting lp rid)%nat).
Proof.
  unfold waiting, drop_waiter, countb. cbn [waiters].
  induction (waiters lp) as [|x l (IH1 & IH2)].
  - split; [reflexivity|]. intros H. inversion H.
  - cbn [List.filter]. split.
    + destruct (negb (bool_decide (x = w))); cbn [List.filter];
        destruct (String.eqb (fst x) rid); cbn [length]; lia.
    + intros Hin Hw. case_bool_decide as Hx; cbn [negb List.filter].
      * subst x. rewrite Hw, String.eqb_refl. cbn [length]. lia.
      * apply elem_of_cons in Hin as [Hin|Hin]; [congruence|].
        specialize (IH2 Hin Hw).
        destruct (String.eqb (fst x) rid); cbn [length]; lia.
Qed.

Lemma add_finish_counts lp r0 f rid :
  let '(lp', obs) := add_finish lp r0 f in
  (unresolved lp' rid <= unresolved lp rid)%nat
  /\ (well_formed lp -> well_formed lp')
  /\ (countb (is_delivered rid) obs + waiting lp' rid <= waiting lp rid)%nat
  /\ countb (is_resolved rid) obs = 0%nat
  /\ countb (is_accepted rid) obs = 0%nat.
Proof.
  unfold add_finish, is_waiter. case_bool_decide as Hin; [|repeat split; auto].
  destruct (futures lp !! f) as [[|r|]|]; try (repeat split; auto; fail).
  destruct (cleanup_counts (drop_waiter (r0, f) lp) r0 rid) as (C1 & C2 & C3).
  destruct (drop_waiter_counts lp (r0, f) rid) as (D1 & D2).
  repeat split; auto.
  unfold waiting at 1. rewrite C3. fold (waiting (drop_waiter (r0, f) lp) rid).
  unfold countb at 1. cbn [List.filter is_delivered].
  destruct (String.eqb_spec r0 rid) as [E|Hne]; cbn [length].
  - specialize (D2 Hin E). lia.
  - lia.
Qed.

Lemma add_cancelled_counts lp r0 f rid :
  (unresolved (add_cancelled lp r0 f) rid <= unresolved lp rid)%nat
  /\ (well_formed lp -> well_formed (add_cancelled lp r0 f))
  /\ (waiting (add_cancelled lp r0 f) rid <= waiting lp rid)%nat.
Proof.
  unfold add_cancelled, is_waiter. case_bool_decide as Hin; [|auto].
  set (lp1 := drop_waiter (r0, f) lp).
  set (lp2 := {| queue := queue lp1;
                 futures := match futures lp1 !! f with
                            | Some Pending => <[f := CancelledFuture]> (futures lp1)
                            | _ => futures lp1
                            end;
                 tasks := tasks lp1; waiters := waiters lp1 |}).
  destruct (cleanup_counts lp2 r0 rid) as (C1 & C2 & C3).
  destruct (drop_waiter_counts lp (r0, f) rid) as (D1 & _).
  assert (Hlen : length (futures lp2) = length (futures lp)).
  { subst lp2 lp1. cbn [futures drop_waiter].
    destruct (futures lp !! f) as [[| |]|]; try reflexivity. apply length_insert. }
  assert (Hun : (unresolved lp2 rid <= unresolved lp rid)%nat).
  { unfold unresolved, open_future. subst lp2 lp1. cbn [queue futures drop_waiter].
    destruct (_response_futures (queue lp) !! rid) as [g|]; [|lia].
    destruct (futures lp !! f) as [[| |]|] eqn:Ef; try lia.
    destruct (decide (g = f)) as [->|Hne].
    - rewrite list_lookup_insert_eq by (eapply lookup_lt_Some; exact Ef). lia.
    - rewrite list_lookup_insert_ne by congruence. lia. }
  split; [lia|]. split.
  - intros Hwf. apply C2. intros r g Hg. rewrite Hlen. exact (Hwf r g Hg).
  - unfold waiting at 1. rewrite C3. exact D1.
Qed.

Ltac no_add :=
  repeat match goal with
         | |- context [countb ?p [?x]] => change (countb p [x]) with 0%nat
         | |- context [countb ?p []] => change (countb p []) with 0%nat
         end.

(** What one step of the loop does to the counts for one request. *)
Lemma step_counts lp e rid :
  well_formed lp ->
  let '(lp', obs) := step lp e in
  (countb (is_resolved rid) obs + unresolved lp' rid
   <= unresolved lp rid + countb (is_add rid) [e])%nat
  /\ well_formed lp'
  /\ (countb (is_delivered rid) obs + waiting lp' rid
      <= waiting lp rid + countb (is_add rid) [e])%nat
  /\ (countb (is_accepted rid) obs <= countb (is_resolved rid) obs)%nat.
Proof.
  intros Hwf. destruct e as [request|response|task now|now|r0 f|r0 f]; cbn [step].
  - destruct (add_begin_counts lp request rid Hwf) as (A1 & A2 & A3).
    repeat split; auto; unfold countb at 1; cbn [List.filter length]; lia.
  - pose proof (respond_counts lp response rid) as H.
    destruct (respond lp response) as [[lp' accepted] obs].
    destruct H as (A1 & A2 & A3 & A4 & A5 & A6).
    rewrite !countb_app. unfold waiting. rewrite A3, A4, A5, A6.
    replace (countb (is_resolved rid) [RespondReturned (request_id response) accepted])
      with 0%nat by reflexivity.
    replace (countb (is_delivered rid) [RespondReturned (request_id response) accepted])
      with 0%nat by reflexivity.
    repeat split; auto; no_add; lia.
  - pose proof (timeout_counts lp task now rid) as H.
    destruct (_timeout_handler lp task now) as [lp' obs].
    destruct H as (A1 & A2 & A3 & A4 & A5).
    unfold waiting. rewrite A3, A4, A5.
    repeat split; auto; no_add; lia.
  - pose proof (cancel_all_counts lp now rid) as H.
    destruct (cancel_all lp now) as [lp' obs].
    destruct H as (A1 & A2 & A3 & A4 & A5).
    unfold waiting. rewrite A3, A4, A5.
    repeat split; auto; no_add; lia.
  - pose proof (add_finish_counts lp r0 f rid) as H.
    destruct (add_finish lp r0 f) as [lp' obs].
    destruct H as (A1 & A2 & A3 & A4 & A5).
    rewrite A4, A5.
    repeat split; auto; no_add; lia.
  - destruct (add_cancelled_counts lp r0 f rid) as (A1 & A2 & A3).
    repeat split; auto; no_add; lia.
Qed.

Lemma run_counts trace : forall lp rid,
  well_formed lp ->
  let '(lp', obs) := run lp trace in
  (countb (is_resolved rid) obs + unresolved lp' rid
   <= unresolved lp rid + countb (is_add rid) trace)%nat
  /\ well_formed lp'
  /\ (countb (is_delivered rid) obs + waiting lp' rid
      <= waiting lp rid + countb (is_add rid) trace)%nat
  /\ (countb (is_accepted rid) obs <= countb (is_resolved rid) obs)%nat.
Proof.
  induction trace as [|e rest IH]; intros lp rid Hwf.
  - cbn [run]. no_add. repeat split; auto; lia.
  - cbn [run]. pose proof (step_counts lp e rid Hwf) as Hs.
    destruct (step lp e) as [lp1 obs1]. destruct Hs as (S1 & S2 & S3 & S4).
    pose proof (IH lp1 rid S2) as Hr.
    destruct (run lp1 rest) as [lp2 obs2]. destruct Hr as (R1 & R2 & R3 & R4).
    rewrite !countb_app.
    change (e :: rest) with ([e] ++ rest). rewrite countb_app.
    repeat split; auto; lia.
Qed.

Lemma well_formed_new ts da : well_formed (new_loop ts da).
Proof. intros rid f H. cbn in H. now rewrite lookup_empty in H. Qed.

(** C1. Take any run of the event loop from a new queue - calls of
    [add] and [respond], timers firing, [cancel_all], callers of [add]
    resuming or being cancelled, in any order - and any request
    identifier that [add] registers at most once in it.  Then at most
    one response is delivered to the caller of [add] for that
    identifier, at most one [respond] call for it returns [True], and
    its future is resolved at most once.  In every state, a [respond]
    call whose identifier is not pending, or whose future is missing or
    already done, returns [False] and leaves the whole state, pending
    table and futures included, as it was. *)
Theorem single_resolution (timeout_seconds : Z) (default_action : string)
    (trace : list Event) (rid : string) :
  (countb (is_add rid) trace <= 1)%nat ->
  let obs := snd (run (new_loop timeout_seconds default_action) trace) in
  (countb (is_delivered rid) obs <= 1)%nat
  /\ (countb (is_accepted rid) obs <= 1)%nat
  /\ (countb (is_resolved rid) obs <= 1)%nat
  /\ (forall lp response,
        _pending (queue lp) !! request_id response = None
        \/ open_future lp (request_id response) = None ->
        step lp (Respond response)
        = (lp, [RespondReturned (request_id response) false])).
Proof.
  intros Hadd obs.
  pose proof (run_counts trace (new_loop timeout_seconds default_action) rid
                (well_formed_new _ _)) as H.
  subst obs. destruct (run (new_loop timeout_seconds default_action) trace)
    as [lp' obs]. destruct H as (R1 & _ & R3 & R4). cbn [snd].
  change (unresolved (new_loop timeout_seconds default_action) rid) with 0%nat in R1.
  change (waiting (new_loop timeout_seconds default_action) rid) with 0%nat in R3.
  repeat split; try lia.
  intros lp response [Hp|Hf]; cbn [step]; unfold respond.
  - now rewrite Hp.
  - rewrite Hf. now destruct (_pending (queue lp) !! request_id response).
Qed.

Lemma single_resolution_witness :
  snd (run (new_loop 300 "deny") race)
  = [Resolved "r1" (reply "r1" true 7); RespondReturned "r1" true;
     RespondReturned "r1" false; CancelAllReturned 1;
     Delivered "r1" (reply "r1" true 7); RespondReturned "r1" false]
  /\ (countb (is_delivered "r1") (snd (run (new_loop 300 "deny") race)) <= 1)%nat
  /\ (countb (is_accepted "r1") (snd (run (new_loop 300 "deny") race)) <= 1)%nat.
Proof.
  split; [vm_compute; reflexivity|].
  destruct (single_resolution 300 "deny" race "r1") as (H1 & H2 & _).
  - vm_compute. lia.
  - split; [exact H1 | exact H2].
Defined.

(** *** The timeout path *)

Lemma cancel_task_length ts t : length (cancel_task ts t) = length ts.
Proof.
  unfold cancel_task. destruct (ts !! t) as [[| |]|]; try reflexivity.
  apply length_insert.
Qed.

Lemma cancel_one_shape now acc r0 :
  let acc' := cancel_one now acc r0 in
  queue (fst acc') = queue (fst acc)
  /\ tasks (fst acc') = tasks (fst acc)
  /\ waiters (fst acc') = waiters (fst acc)
  /\ length (futures (fst acc')) = length (futures (fst acc))
  /\ (forall f r, futures (fst acc) !! f = Some (Result r) ->
        futures (fst acc') !! f = Some (Result r)).
Proof.
  unfold cancel_one. destruct (open_future (fst acc) r0) as [f0|] eqn:Ho;
    [|repeat split; auto].
  cbn [fst set_result queue tasks waiters futures].
  split; [reflexivity|]. split; [reflexivity|]. split; [reflexivity|].
  split; [apply length_insert|].
  intros f r Hf. destruct (open_future_pending _ _ _ Ho) as (_ & Hp).
  rewrite list_lookup_insert_ne; [exact Hf | congruence].
Qed.

Lemma cancel_fold_shape now ids : forall acc,
  let acc' := fold_left (cancel_one now) ids acc in
  queue (fst acc') = queue (fst acc)
  /\ tasks (fst acc') = tasks (fst acc)
  /\ waiters (fst acc') = waiters (fst acc)
  /\ length (futures (fst acc')) = length (futures (fst acc))
  /\ (forall f r, futures (fst acc) !! f = Some (Result r) ->
        futures (fst acc') !! f = Some (Result r)).
Proof.
  induction ids as [|r0 ids IH]; intros acc; [repeat split; auto|].
  cbn [fold_left]. destruct (IH (cancel_one now acc r0)) as (B1 & B2 & B3 & B4 & B5).
  destruct (cancel_one_shape now acc r0) as (C1 & C2 & C3 & C4 & C5).
  cbv zeta in *. rewrite B1, B2, B3, B4. repeat split; auto.
Qed.

(** No step changes the settings of the queue, shortens the lists of
    futures and tasks, or alters a future that has its result. *)
Lemma step_shape lp e :
  let lp' := fst (step lp e) in
  _default_action (queue lp') = _default_action (queue lp)
  /\ (forall f r, futures lp !! f = Some (Result r) ->
        futures lp' !! f = Some (Result r)).
Proof.
  destruct e as [request|response|task now|now|r0 f0|r0 f0]; cbn [step].
  - cbn. split; [reflexivity|]. intros f r Hf.
    rewrite lookup_app_l; [exact Hf | eapply lookup_lt_Some; exact Hf].
  - unfold respond.
    destruct (_pending (queue lp) !! request_id response);
      [destruct (open_future lp (request_id response)) as [g|] eqn:Ho|];
      cbn; try (split; [reflexivity | auto]; fail).
    split; [reflexivity|]. intros f r Hf.
    destruct (open_future_pending _ _ _ Ho) as (_ & Hp).
    rewrite list_lookup_insert_ne; [exact Hf | congruence].
  - unfold _timeout_handler.
    destruct (tasks lp !! task) as [[r1| |]|]; try (split; [reflexivity | auto]; fail).
    cbn [queue _pending].
    destruct (_pending (queue lp) !! r1); [|split; [reflexivity | auto]].
    match goal with
    | |- context [open_future ?l r1] => destruct (open_future l r1) as [g|] eqn:Ho
    end; [|split; [reflexivity | auto]].
    cbn. split; [reflexivity|]. intros f r Hf.
    destruct (open_future_pending _ _ _ Ho) as (_ & Hp). cbn in Hp.
    rewrite list_lookup_insert_ne; [exact Hf | congruence].
  - unfold cancel_all.
    pose proof (cancel_fold_shape now (map_to_list (_pending (queue lp))).*1 (lp, []))
      as (B1 & _ & _ & _ & B5). cbv zeta in *.
    destruct (fold_left (cancel_one now) _ (lp, [])) as [lp' obs].
    cbn [fst] in *. rewrite B1. auto.
  - unfold add_finish. destruct (is_waiter (r0, f0) lp); [|auto].
    destruct (futures lp !! f0) as [[|r1|]|]; auto.
  - unfold add_cancelled. destruct (is_waiter (r0, f0) lp); [|auto].
    cbn. split; [reflexivity|]. intros f r Hf.
    destruct (futures lp !! f0) as [[| |]|] eqn:E0; try exact Hf.
    rewrite list_lookup_insert_ne; [exact Hf | congruence].
Qed.

Lemma step_sound lp e : sound lp -> sound (fst (step lp e)).
Proof.
  intros (Hwf & Ht & Hw).
  pose proof (step_counts lp e EmptyString Hwf) as Hc.
  destruct e as [request|response|task now|now|r0 f0|r0 f0]; cbn [step] in *.
  - destruct Hc as (_ & Hwf' & _). split; [exact Hwf'|]. cbn. split.
    + intros r req t. rewrite length_app. cbn [length].
      destruct (decide (id request = r)) as [->|Hne].
      * rewrite lookup_insert_eq. intros [= <-]. cbn. intros [= <-]. lia.
      * rewrite lookup_insert_ne by exact Hne. intros Hr Hreq.
        pose proof (Ht _ _ _ Hr Hreq). lia.
    + intros r f Hin. rewrite length_app. cbn [length].
      apply elem_of_app in Hin as [Hin|Hin].
      * pose proof (Hw _ _ Hin). lia.
      * apply list_elem_of_singleton in Hin. injection Hin as -> ->. lia.
  - unfold respond in *.
    destruct (_pending (queue lp) !! request_id response);
      [destruct (open_future lp (request_id response)) as [g|]|];
      cbn [fst] in *; try (split; [|split]; assumption).
    destruct Hc as (_ & Hwf' & _). split; [exact Hwf'|]. cbn.
    split; [exact Ht|]. intros r f Hin. rewrite length_insert. eauto.
  - unfold _timeout_handler in *.
    destruct (tasks lp !! task) as [[r1| |]|]; try (split; [|split]; assumption).
    cbn [queue _pending] in *.
    destruct (_pending (queue lp) !! r1).
    + match goal with
      | |- context [open_future ?l r1] => destruct (open_future l r1) as [g|]
      end; destruct Hc as (_ & Hwf' & _); (split; [exact Hwf'|]); cbn.
      * split; [intros r req t; rewrite length_insert; eauto|].
        intros r f Hin. rewrite length_insert. eauto.
      * split; [intros r req t; rewrite length_insert; eauto|]. exact Hw.
    + destruct Hc as (_ & Hwf' & _). split; [exact Hwf'|]. cbn.
      split; [intros r req t; rewrite length_insert; eauto|]. exact Hw.
  - unfold cancel_all in *.
    pose proof (cancel_fold_shape now (map_to_list (_pending (queue lp))).*1 (lp, []))
      as (B1 & B2 & B3 & B4 & _). cbv zeta in *.
    destruct (fold_left (cancel_one now) _ (lp, [])) as [lp' obs].
    cbn [fst] in *. destruct Hc as (_ & Hwf' & _). split; [exact Hwf'|].
    rewrite B1, B2, B3, B4. auto.
  - unfold add_finish in *. destruct (is_waiter (r0, f0) lp);
      [|split; [|split]; assumption].
    destruct (futures lp !! f0) as [[|r1|]|]; try (split; [|split]; assumption).
    cbn [fst] in *. destruct Hc as (_ & Hwf' & _). split; [exact Hwf'|]. cbn.
    split.
    + intros r req t Hr. apply lookup_delete_Some in Hr as [_ Hr].
      intros Hreq. pose proof (Ht _ _ _ Hr Hreq) as Hlt.
      destruct (_pending (queue lp) !! r0) as [q0|]; [|exact Hlt].
      destruct (timeout_task q0); [now rewrite cancel_task_length | exact Hlt].
    + intros r f Hin. apply list_elem_of_In, List.filter_In in Hin as [Hin _].
      apply list_elem_of_In in Hin. eauto.
  - destruct Hc as (_ & Hwf' & _). split; [exact Hwf'|].
    unfold add_cancelled. destruct (is_waiter (r0, f0) lp); [|auto]. cbn.
    split.
    + intros r req t Hr. apply lookup_delete_Some in Hr as [_ Hr].
      intros Hreq. pose proof (Ht _ _ _ Hr Hreq) as Hlt.
      destruct (_pending (queue lp) !! r0) as [q0|]; [|exact Hlt].
      destruct (timeout_task q0); [now rewrite cancel_task_length | exact Hlt].
    + intros r f Hin. apply list_elem_of_In, List.filter_In in Hin as [Hin _].
      apply list_elem_of_In in Hin. pose proof (Hw _ _ Hin) as Hlt.
      destruct (futures lp !! f0) as [[| |]|]; try exact Hlt.
      now rewrite length_insert.
Qed.

Lemma run_sound trace : forall lp, sound lp -> sound (fst (run lp trace)).
Proof.
  induction trace as [|e rest IH]; intros lp H; [exact H|].
  cbn [run]. pose proof (step_sound lp e H) as H1.
  destruct (step lp e) as [lp1 obs1]. cbn [fst] in H1.
  pose proof (IH lp1 H1) as H2. destruct (run lp1 rest) as [lp2 obs2]. exact H2.
Qed.

Lemma sound_new ts da : sound (new_loop ts da).
Proof.
  split; [apply well_formed_new|]. split.
  - intros r req t H. cbn in H. now rewrite lookup_empty in H.
  - intros r f H. cbn in H. inversion H.
Qed.

Lemma not_waiting lp rid r f :
  waiting lp rid = 0%nat -> (r, f) ∈ waiters lp -> r <> rid.
Proof.
  unfold waiting, countb. intros H Hin ->.
  induction (waiters lp) as [|x l IH]; [inversion Hin|].
  cbn [List.filter] in H. apply elem_of_cons in Hin as [<-|Hin].
  - cbn [fst] in H. rewrite String.eqb_refl in H. discriminate.
  - destruct (String.eqb (fst x) rid); [discriminate | auto].
Qed.

Lemma registered_open rid fut task lp :
  registered rid fut task lp -> open_future lp rid = Some fut.
Proof.
  intros (_ & Hfm & Hfut & _). unfold open_future. now rewrite Hfm, Hfut.
Qed.

Lemma add_registers lp request :
  sound lp -> waiting lp (id request) = 0%nat ->
  registered (id request) (length (futures lp)) (length (tasks lp))
    (add_begin lp request).
Proof.
  intros (Hwf & Ht & Hw) Hfree. unfold registered, add_begin.
  cbn [queue futures tasks waiters _pending _response_futures with_maps id].
  split; [eexists; split; [apply lookup_insert_eq | reflexivity]|].
  split; [apply lookup_insert_eq|].
  split; [now apply list_lookup_middle|].
  split; [apply elem_of_app; right; constructor|].
  split; [now apply list_lookup_middle|].
  split; [|split].
  - intros r Hr. destruct (decide (id request = r)) as [E|Hne]; [now symmetry|].
    rewrite lookup_insert_ne in Hr by exact Hne.
    pose proof (Hwf _ _ Hr). lia.
  - intros r req Hr Hreq.
    destruct (decide (id request = r)) as [E|Hne]; [now symmetry|].
    rewrite lookup_insert_ne in Hr by exact Hne.
    pose proof (Ht _ _ _ Hr Hreq). lia.
  - intros r f Hin. apply elem_of_app in Hin as [Hin|Hin].
    + pose proof (not_waiting _ _ _ _ Hfree Hin).
      pose proof (Hw _ _ Hin). split; [congruence | lia].
    + apply list_elem_of_singleton in Hin. injection Hin as -> ->. tauto.
Qed.

(** [set_result] on another future keeps the registration. *)
Lemma registered_set_result rid fut task lp f response :
  registered rid fut task lp -> f <> fut ->
  registered rid fut task (set_result lp f response).
Proof.
  intros (Hp & Hfm & Hfut & Hw & Htask & Hinj & Htinj & Hwu) Hne.
  unfold registered, set_result. cbn [queue futures tasks waiters].
  repeat split; auto; try apply Hwu; auto.
  rewrite list_lookup_insert_ne; [exact Hfut | exact Hne].
Qed.

Lemma filter_keeps (w x : string * nat) (l : list (string * nat)) :
  x ∈ l -> x <> w ->
  x ∈ List.filter (fun y => negb (bool_decide (y = w))) l.
Proof.
  intros Hin Hne. apply list_elem_of_In, List.filter_In.
  split; [now apply list_elem_of_In|].
  now rewrite bool_decide_eq_false_2.
Qed.

Lemma filter_sub (w x : string * nat) (l : list (string * nat)) :
  x ∈ List.filter (fun y => negb (bool_decide (y = w))) l -> x ∈ l.
Proof.
  intros Hin. apply list_elem_of_In, List.filter_In in Hin as [Hin _].
  now apply list_elem_of_In.
Qed.

Lemma cancel_task_other ts t t' :
  t <> t' -> cancel_task ts t !! t' = ts !! t'.
Proof.
  intros Hne. unfold cancel_task. destruct (ts !! t) as [[| |]|]; try reflexivity.
  now apply list_lookup_insert_ne.
Qed.

(** Cleaning up after another caller keeps the registration. *)
Lemma registered_cleanup rid fut task lp r0 f0 :
  registered rid fut task lp -> r0 <> rid -> f0 <> fut ->
  registered rid fut task (_cleanup (drop_waiter (r0, f0) lp) r0).
Proof.
  intros ((req & Hp & Htt) & Hfm & Hfut & Hw & Htask & Hinj & Htinj & Hwu) Hr Hf.
  unfold registered, _cleanup, drop_waiter.
  cbn [queue futures tasks waiters _pending _response_futures with_maps].
  split; [exists req; split; [now rewrite lookup_delete_ne | exact Htt]|].
  split; [now rewrite lookup_delete_ne|].
  split; [exact Hfut|].
  split; [apply filter_keeps; [exact Hw | congruence]|].
  split.
  { destruct (_pending (queue lp) !! r0) as [q0|] eqn:E0; [|exact Htask].
    destruct (timeout_task q0) as [t0|] eqn:Et; [|exact Htask].
    rewrite cancel_task_other; [exact Htask|].
    intros ->. apply Hr. exact (Htinj _ _ E0 Et). }
  split; [|split].
  - intros r Hlk. apply lookup_delete_Some in Hlk as [_ Hlk]. auto.
  - intros r q Hlk. apply lookup_delete_Some in Hlk as [_ Hlk]. eauto.
  - intros r f Hin. apply Hwu. eapply filter_sub. exact Hin.
Qed.

Lemma fold_obs_grows now p ids : forall acc,
  (countb p (snd acc) <= countb p (snd (fold_left (cancel_one now) ids acc)))%nat.
Proof.
  induction ids as [|r0 ids IH]; intros acc; [reflexivity|].
  cbn [fold_left]. etransitivity; [|apply IH].
  unfold cancel_one. destruct (open_future (fst acc) r0); [|reflexivity].
  cbn [snd]. rewrite countb_app. lia.
Qed.

(** [cancel_all] resolves a registered request. *)
Lemma cancel_fold_resolves now rid fut ids : forall acc,
  rid ∈ ids ->
  open_future (fst acc) rid = Some fut ->
  (forall r, _response_futures (queue (fst acc)) !! r = Some fut -> r = rid) ->
  (1 <= countb (is_resolved rid) (snd (fold_left (cancel_one now) ids acc)))%nat.
Proof.
  induction ids as [|r0 ids IH]; intros acc Hin Hopen Hinj; [inversion Hin|].
  cbn [fold_left]. destruct (decide (r0 = rid)) as [->|Hne].
  - etransitivity; [|apply fold_obs_grows].
    unfold cancel_one. rewrite Hopen. cbn [snd]. rewrite countb_app.
    unfold countb at 2. cbn [List.filter is_resolved].
    rewrite String.eqb_refl. cbn [length]. lia.
  - apply elem_of_cons in Hin as [Hin|Hin]; [congruence|].
    apply IH; [exact Hin | |].
    + unfold cancel_one. destruct (open_future (fst acc) r0) as [f0|] eqn:Ho;
        [|exact Hopen].
      cbn [fst]. destruct (open_future_pending _ _ _ Ho) as (Hm0 & _).
      destruct (open_future_pending _ _ _ Hopen) as (Hm & Hp).
      unfold open_future, set_result. cbn [queue futures]. rewrite Hm.
      rewrite list_lookup_insert_ne; [now rewrite Hp|].
      intros ->. apply Hne. now apply Hinj.
    + destruct (cancel_one_shape now acc r0) as (C1 & _). cbv zeta in C1.
      rewrite C1. exact Hinj.
Qed.

(** A step that neither registers the identifier again, nor resolves
    the request, nor cancels its caller keeps the registration. *)
Lemma step_registered rid fut task lp e :
  registered rid fut task lp ->
  is_add rid e = false ->
  is_cancel_of rid fut e = false ->
  countb (is_resolved rid) (snd (step lp e)) = 0%nat ->
  registered rid fut task (fst (step lp e)).
Proof.
  intros Hreg Hadd Hcan Hres.
  pose proof (registered_open _ _ _ _ Hreg) as Hopen.
  pose proof Hreg as ((req & Hp & Htt) & Hfm & Hfut & Hw & Htask & Hinj & Htinj & Hwu).
  destruct e as [request|response|t now|now|r0 f0|r0 f0]; cbn [step] in *.
  - (* Add *)
    cbn [is_add] in Hadd. apply String.eqb_neq in Hadd.
    pose proof (lookup_lt_Some _ _ _ Hfut) as Hlt.
    pose proof (lookup_lt_Some _ _ _ Htask) as Hlt'.
    unfold registered, add_begin.
    cbn [fst queue futures tasks waiters _pending _response_futures with_maps id].
    split; [exists req; split; [now rewrite lookup_insert_ne | exact Htt]|].
    split; [now rewrite lookup_insert_ne|].
    split; [now rewrite lookup_app_l|].
    split; [apply elem_of_app; now left|].
    split; [now rewrite lookup_app_l|].
    split; [|split].
    + intros r Hr. destruct (decide (id request = r)) as [<-|Hne].
      * rewrite lookup_insert_eq in Hr. injection Hr as Hr. lia.
      * rewrite lookup_insert_ne in Hr by exact Hne. auto.
    + intros r q Hr Hq. destruct (decide (id request = r)) as [<-|Hne].
      * rewrite lookup_insert_eq in Hr. injection Hr as <-. cbn in Hq.
        injection Hq as Hq. lia.
      * rewrite lookup_insert_ne in Hr by exact Hne. eauto.
    + intros r f Hin. apply elem_of_app in Hin as [Hin|Hin]; [auto|].
      apply list_elem_of_singleton in Hin. injection Hin as -> ->.
      split; [congruence | lia].
  - (* Respond *)
    unfold respond in *.
    destruct (_pending (queue lp) !! request_id response); [|exact Hreg].
    destruct (open_future lp (request_id response)) as [g|] eqn:Ho; [|exact Hreg].
    cbn [fst snd] in *. rewrite countb_app in Hres.
    unfold countb at 1 in Hres. cbn [List.filter is_resolved] in Hres.
    destruct (String.eqb_spec (request_id response) rid) as [E|Hne];
      [cbn in Hres; lia|].
    apply registered_set_result; [exact Hreg|].
    intros ->. apply Hne. apply Hinj.
    now destruct (open_future_pending _ _ _ Ho).
  - (* TimerFires *)
    unfold _timeout_handler in *.
    destruct (tasks lp !! t) as [[r1| |]|] eqn:Et; try exact Hreg.
    set (lp1 := {| queue := queue lp; futures := futures lp;
                   tasks := <[t := Finished]> (tasks lp);
                   waiters := waiters lp |}) in *.
    assert (Hopen1 : forall r, open_future lp1 r = open_future lp r) by reflexivity.
    destruct (decide (r1 = rid)) as [->|Hne].
    + exfalso. cbn [queue _pending] in Hres. subst lp1. cbn [queue] in Hres.
      rewrite Hp in Hres.
      change (open_future {| queue := queue lp; futures := futures lp;
                             tasks := <[t := Finished]> (tasks lp);
                             waiters := waiters lp |} rid)
        with (open_future lp rid) in Hres.
      rewrite Hopen in Hres. cbn [snd] in Hres.
      unfold countb in Hres. cbn [List.filter is_resolved] in Hres.
      rewrite String.eqb_refl in Hres. discriminate.
    + assert (Hreg1 : registered rid fut task lp1).
      { unfold registered. subst lp1. cbn [queue futures tasks waiters].
        repeat split; eauto; try apply Hwu; auto.
        rewrite list_lookup_insert_ne; [exact Htask|].
        intros ->. rewrite Htask in Et. congruence. }
      cbn [queue _pending]. destruct (_pending (queue lp1) !! r1); [|exact Hreg1].
      destruct (open_future lp1 r1) as [g|] eqn:Ho; [|exact Hreg1].
      cbn [fst]. apply registered_set_result; [exact Hreg1|].
      intros ->. apply Hne. apply Hinj.
      rewrite Hopen1 in Ho. now destruct (open_future_pending _ _ _ Ho).
  - (* CancelAll *)
    exfalso. unfold cancel_all in Hres.
    assert (Hin : rid ∈ (map_to_list (_pending (queue lp))).*1).
    { apply list_elem_of_fmap. exists (rid, req). split; [reflexivity|].
      now apply elem_of_map_to_list. }
    pose proof (cancel_fold_resolves now rid fut _ (lp, []) Hin Hopen Hinj) as H1.
    destruct (fold_left (cancel_one now) _ (lp, [])) as [lp' obs].
    cbn [snd] in *. rewrite countb_app in Hres. lia.
  - (* AddReturns *)
    unfold add_finish, is_waiter in *. case_bool_decide as Hin; [|exact Hreg].
    destruct (futures lp !! f0) as [[|r1|]|] eqn:Ef; try exact Hreg.
    cbn [fst].
    assert (Hf : f0 <> fut) by (intros ->; congruence).
    apply registered_cleanup; [exact Hreg | | exact Hf].
    intros ->. apply Hf. now apply (Hwu rid f0 Hin).
  - (* AddCancelled *)
    unfold add_cancelled, is_waiter. case_bool_decide as Hin; [|exact Hreg].
    cbn [is_cancel_of] in Hcan.
    assert (Hr : r0 <> rid).
    { intros ->. pose proof (proj1 (Hwu rid f0 Hin) eq_refl) as ->.
      now rewrite String.eqb_refl, Nat.eqb_refl in Hcan. }
    assert (Hf : f0 <> fut).
    { intros ->. apply Hr. now apply (Hwu r0 fut Hin). }
    cbn [fst].
    set (lpc := {| queue := queue lp;
                   futures := match futures lp !! f0 with
                              | Some Pending => <[f0 := CancelledFuture]> (futures lp)
                              | _ => futures lp
                              end;
                   tasks := tasks lp; waiters := waiters lp |}).
    assert (Hregc : registered rid fut task lpc).
    { unfold registered. subst lpc. cbn [queue futures tasks waiters].
      repeat split; eauto; try apply Hwu; auto.
      destruct (futures lp !! f0) as [[| |]|]; try exact Hfut.
      rewrite list_lookup_insert_ne; [exact Hfut | exact Hf]. }
    exact (registered_cleanup rid fut task lpc r0 f0 Hregc Hr Hf).
Qed.

Lemma run_registered rid fut task trace : forall lp,
  registered rid fut task lp ->
  countb (is_add rid) trace = 0%nat ->
  countb (is_cancel_of rid fut) trace = 0%nat ->
  countb (is_resolved rid) (snd (run lp trace)) = 0%nat ->
  registered rid fut task (fst (run lp trace)).
Proof.
  induction trace as [|e rest IH]; intros lp Hreg Hadd Hcan Hres; [exact Hreg|].
  change (e :: rest) with ([e] ++ rest) in Hadd, Hcan.
  rewrite countb_app in Hadd, Hcan.
  cbn [run] in *.
  pose proof (step_registered rid fut task lp e Hreg) as Hs.
  destruct (step lp e) as [lp1 obs1]. cbn [fst snd] in Hs.
  specialize (IH lp1). destruct (run lp1 rest) as [lp2 obs2].
  cbn [fst snd] in *. rewrite countb_app in Hres.
  apply IH; try lia. apply Hs; try lia.
  - unfold countb in Hadd. cbn [List.filter] in Hadd.
    destruct (is_add rid e); [cbn in Hadd; lia | reflexivity].
  - unfold countb in Hcan. cbn [List.filter] in Hcan.
    destruct (is_cancel_of rid fut e); [cbn in Hcan; lia | reflexivity].
Qed.

(** A future that has its result keeps it, and its caller stays
    suspended until it resumes or is cancelled. *)
Lemma run_settled rid fut r trace : forall lp,
  futures lp !! fut = Some (Result r) -> (rid, fut) ∈ waiters lp ->
  countb (is_cancel_of rid fut) trace = 0%nat ->
  countb (is_return_of rid fut) trace = 0%nat ->
  futures (fst (run lp trace)) !! fut = Some (Result r)
  /\ (rid, fut) ∈ waiters (fst (run lp trace))
  /\ _default_action (queue (fst (run lp trace))) = _default_action (queue lp).
Proof.
  induction trace as [|e rest IH]; intros lp Hf Hw Hcan Hret; [auto|].
  change (e :: rest) with ([e] ++ rest) in Hcan, Hret.
  rewrite countb_app in Hcan, Hret.
  cbn [run]. destruct (step_shape lp e) as (Hd & Hkeep). cbv zeta in *.
  assert (Hw1 : (rid, fut) ∈ waiters (fst (step lp e))).
  { destruct e as [request|response|t now|now|r0 f0|r0 f0]; cbn [step].
    - cbn. apply elem_of_app. now left.
    - pose proof (respond_counts lp response rid) as Hc.
      destruct (respond lp response) as [[lp' acc] obs].
      destruct Hc as (_ & _ & E & _). cbn [fst]. rewrite E. exact Hw.
    - pose proof (timeout_counts lp t now rid) as Hc.
      destruct (_timeout_handler lp t now) as [lp' obs].
      destruct Hc as (_ & _ & E & _). cbn [fst]. rewrite E. exact Hw.
    - pose proof (cancel_all_counts lp now rid) as Hc.
      destruct (cancel_all lp now) as [lp' obs].
      destruct Hc as (_ & _ & E & _). cbn [fst]. rewrite E. exact Hw.
    - unfold add_finish. destruct (is_waiter (r0, f0) lp); [|exact Hw].
      destruct (futures lp !! f0) as [[|r1|]|]; try exact Hw.
      cbn. apply filter_keeps; [exact Hw|]. intros [= <- <-].
      unfold countb in Hret. cbn [List.filter is_return_of] in Hret.
      rewrite String.eqb_refl, Nat.eqb_refl in Hret. cbn in Hret. lia.
    - unfold add_cancelled. destruct (is_waiter (r0, f0) lp); [|exact Hw].
      cbn. apply filter_keeps; [exact Hw|]. intros [= <- <-].
      unfold countb in Hcan. cbn [List.filter is_cancel_of] in Hcan.
      rewrite String.eqb_refl, Nat.eqb_refl in Hcan. cbn in Hcan. lia. }
  specialize (Hkeep _ _ Hf).
  destruct (step lp e) as [lp1 obs1]. cbn [fst] in *.
  destruct (IH lp1 Hkeep Hw1 ltac:(lia) ltac:(lia)) as (I1 & I2 & I3).
  destruct (run lp1 rest) as [lp2 obs2]. cbn [fst] in *.
  repeat split; auto. congruence.
Qed.

Lemma run_default_action trace : forall lp,
  _default_action (queue (fst (run lp trace))) = _default_action (queue lp).
Proof.
  induction trace as [|e rest IH]; intros lp; [reflexivity|].
  cbn [run]. destruct (step_shape lp e) as (Hd & _). cbv zeta in Hd.
  destruct (step lp e) as [lp1 obs1]. specialize (IH lp1).
  destruct (run lp1 rest) as [lp2 obs2]. cbn [fst] in *. congruence.
Qed.

(** C5. In any run of the event loop, let [add] register a request
    whose identifier no suspended caller is using.  If, until the
    timer of that request fires, nothing resolves the request (no
    [respond] call is accepted for it, [cancel_all] is not called, no
    timer left over from an earlier use of the identifier fires), the
    identifier is not registered again and the caller is not
    cancelled, then the timer resolves the request with the
    synthesized response, and the caller of [add], whenever it resumes
    afterwards, receives exactly that response: [approved] is
    [default_action == "approve"], [responded_by] is 0,
    [auto_approved] is true and [policy_name] is ["timeout"]. *)
Theorem timeout_delivers_default (timeout_seconds : Z) (default_action : string)
    (pre : list Event) (request : PermissionRequest) (mid : list Event)
    (now : Qc) (post : list Event) :
  let lp0 := fst (run (new_loop timeout_seconds default_action) pre) in
  let rid := id request in
  let fut := length (futures lp0) in
  let task := length (tasks lp0) in
  let lp1 := fst (step lp0 (Add request)) in
  let lp2 := fst (run lp1 mid) in
  let lp3 := fst (step lp2 (TimerFires task now)) in
  let lp4 := fst (run lp3 post) in
  let response := timeout_response default_action rid now in
  waiting lp0 rid = 0%nat ->
  countb (is_add rid) mid = 0%nat ->
  countb (is_resolved rid) (snd (run lp1 mid)) = 0%nat ->
  countb (is_cancel_of rid fut) (mid ++ post) = 0%nat ->
  countb (is_return_of rid fut) post = 0%nat ->
  snd (step lp2 (TimerFires task now)) = [Resolved rid response]
  /\ snd (step lp4 (AddReturns rid fut)) = [Delivered rid response]
  /\ approved response = String.eqb default_action "approve"
  /\ responded_by response = 0
  /\ auto_approved response = true
  /\ policy_name response = Some "timeout"%string.
Proof.
  intros lp0 rid fut task lp1 lp2 lp3 lp4 response Hfree Hadd Hres Hcan Hret.
  rewrite countb_app in Hcan.
  assert (Hs0 : sound lp0) by (apply run_sound, sound_new).
  assert (Hd0 : _default_action (queue lp0) = default_action)
    by (subst lp0; now rewrite run_default_action).
  assert (Hr1 : registered rid fut task lp1)
    by (apply add_registers; assumption).
  assert (Hr2 : registered rid fut task lp2)
    by (apply run_registered; [exact Hr1 | exact Hadd | lia | exact Hres]).
  assert (Hd2 : _default_action (queue lp2) = default_action).
  { subst lp2. rewrite run_default_action. exact Hd0. }
  pose proof (registered_open _ _ _ _ Hr2) as Hopen.
  destruct Hr2 as ((req & Hp & Htt) & Hfm & Hfut & Hw & Htask & _).
  assert (Hstep : step lp2 (TimerFires task now)
                  = (set_result {| queue := queue lp2; futures := futures lp2;
                                   tasks := <[task := Finished]> (tasks lp2);
                                   waiters := waiters lp2 |} fut response,
                     [Resolved rid response])).
  { cbn [step]. unfold _timeout_handler. rewrite Htask. cbn [queue].
    rewrite Hp.
    change (open_future {| queue := queue lp2; futures := futures lp2;
                           tasks := <[task := Finished]> (tasks lp2);
                           waiters := waiters lp2 |} rid)
      with (open_future lp2 rid).
    rewrite Hopen, Hd2. reflexivity. }
  split; [now rewrite Hstep|].
  assert (Hf3 : futures lp3 !! fut = Some (Result response)).
  { subst lp3. rewrite Hstep. cbn [fst set_result futures].
    apply list_lookup_insert_eq. eapply lookup_lt_Some. exact Hfut. }
  assert (Hw3 : (rid, fut) ∈ waiters lp3).
  { subst lp3. now rewrite Hstep. }
  destruct (run_settled rid fut response post lp3 Hf3 Hw3 ltac:(lia) Hret)
    as (Hf4 & Hw4 & _).
  fold lp4 in Hf4, Hw4.
  split; [|repeat split].
  cbn [step]. unfold add_finish, is_waiter.
  rewrite bool_decide_eq_true_2 by exact Hw4. now rewrite Hf4.
Qed.

(** A reply to an unknown request precedes the timer; a late reply
    follows it. *)
Lemma timeout_delivers_default_witness :
  let lp1 := fst (step (new_loop 300 "approve") (Add (request "r1"))) in
  let lp2 := fst (run lp1 [Respond (reply "zz" false 8)]) in
  let lp3 := fst (step lp2 (TimerFires 0 (Qc_of_Z 300))) in
  let lp4 := fst (run lp3 [Respond (reply "r1" false 9)]) in
  let response := timeout_response "approve" "r1" (Qc_of_Z 300) in
  snd (step lp2 (TimerFires 0 (Qc_of_Z 300))) = [Resolved "r1" response]
  /\ snd (step lp4 (AddReturns "r1" 0)) = [Delivered "r1" response]
  /\ approved response = true.
Proof.
  destruct (timeout_delivers_default 300 "approve" [] (request "r1")
              [Respond (reply "zz" false 8)] (Qc_of_Z 300)
              [Respond (reply "r1" false 9)])
    as (H1 & H2 & H3 & _); try (vm_compute; reflexivity).
  exact (conj H1 (conj H2 H3)).
Defined.

End QueueProps.


(** * Further properties of the code *)

(** ** Order on the rationals *)

Module QcTactics.

Ltac qc_unfold :=
  repeat (progress (unfold Qcle, Qclt, Qcplus, Qcminus, Qcopp, Qcmult, Qc_of_Z, Q2Qc in *;
                    cbn [this] in * ));
  rewrite ?Qred_correct in *;
  repeat match goal with
         | H : context [Qred ?x] |- _ => rewrite (Qred_correct x) in H
         end;
  cbn [inject_Z] in *.

Ltac qc_lra := qc_unfold; lra.

Ltac qc_nra := qc_unfold; nra.

End QcTactics.


(** ** Lengths of digests *)

Module Sha256Facts.
Import Sha256.

Lemma round_length st kw : length (round st kw) = length st.
Proof.
  unfold round.
  destruct st as [|a [|b [|c [|d [|e [|f [|g [|h [|x st]]]]]]]]]; reflexivity.
Qed.

Lemma fold_round_length l : forall st, length (fold_left round l st) = length st.
Proof.
  induction l as [|kw l IH]; intros st; [reflexivity|].
  cbn [fold_left]. now rewrite IH, round_length.
Qed.

Lemma compress_length h block : length (compress h block) = length h.
Proof.
  unfold compress. rewrite length_map, length_combine, fold_round_length. lia.
Qed.

Lemma fold_compress_length blocks : forall h,
  length (fold_left compress blocks h) = length h.
Proof.
  induction blocks as [|b l IH]; intros h; [reflexivity|].
  cbn [fold_left]. now rewrite IH, compress_length.
Qed.

Lemma words_length (ws : list Z) :
  length (flat_map (be_bytes 4) ws) = (4 * length ws)%nat.
Proof.
  induction ws as [|w ws IH]; [reflexivity|].
  cbn [flat_map]. rewrite length_app, IH. cbn [be_bytes length]. lia.
Qed.

(** A SHA-256 digest has 32 bytes, and so has an HMAC-SHA256 tag. *)
Lemma digest_length msg : length (digest msg) = 32%nat.
Proof.
  unfold digest. rewrite words_length, fold_compress_length. reflexivity.
Qed.

Lemma hmac_length key msg : length (hmac key msg) = 32%nat.
Proof. unfold hmac. apply digest_length. Qed.

End Sha256Facts.

(** ** Permission queue: delivery, cancellation and the tables *)

Module QueueMoreProps.
Import PermissionQueue QueueInv QueueViews QueueMoreInv QueueProps.

Lemma registered_resolved rid fut task lp response :
  registered rid fut task lp ->
  futures (set_result lp fut response) !! fut = Some (Result response)
  /\ (rid, fut) ∈ waiters (set_result lp fut response).
Proof.
  intros (_ & _ & Hfut & Hw & _). cbn. split; [|exact Hw].
  apply list_lookup_insert_eq. eapply lookup_lt_Some. exact Hfut.
Qed.

(** The state in which a new request of [rid] is registered and
    unresolved, as the hypotheses of the delivery theorems give it. *)
Lemma reaches_registered ts da pre request mid :
  let lp0 := fst (run (new_loop ts da) pre) in
  let rid := id request in
  let lp1 := fst (step lp0 (Add request)) in
  waiting lp0 rid = 0%nat ->
  countb (is_add rid) mid = 0%nat ->
  countb (is_resolved rid) (snd (run lp1 mid)) = 0%nat ->
  countb (is_cancel_of rid (length (futures lp0))) mid = 0%nat ->
  registered rid (length (futures lp0)) (length (tasks lp0)) (fst (run lp1 mid)).
Proof.
  intros lp0 rid lp1 Hfree Hadd Hres Hcan.
  assert (Hs0 : sound lp0) by (apply run_sound, sound_new).
  apply run_registered; try assumption.
  apply add_registers; assumption.
Qed.

(** An accepted reply reaches the caller of [add()] unchanged. *)
Theorem accepted_response_delivered (timeout_seconds : Z) (default_action : string)
    (pre : list Event) (request : PermissionRequest) (mid : list Event)
    (response : PermissionResponse) (post : list Event) :
  let lp0 := fst (run (new_loop timeout_seconds default_action) pre) in
  let rid := id request in
  let fut := length (futures lp0) in
  let lp1 := fst (step lp0 (Add request)) in
  let lp2 := fst (run lp1 mid) in
  let lp3 := fst (step lp2 (Respond response)) in
  let lp4 := fst (run lp3 post) in
  let lp5 := fst (step lp4 (AddReturns rid fut)) in
  waiting lp0 rid = 0%nat ->
  countb (is_add rid) mid = 0%nat ->
  countb (is_resolved rid) (snd (run lp1 mid)) = 0%nat ->
  countb (is_cancel_of rid fut) (mid ++ post) = 0%nat ->
  countb (is_return_of rid fut) post = 0%nat ->
  request_id response = rid ->
  snd (step lp2 (Respond response))
  = [Resolved rid response; RespondReturned rid true]
  /\ snd (step lp4 (AddReturns rid fut)) = [Delivered rid response]
  /\ get_pending lp5 rid = None
  /\ _response_futures (queue lp5) !! rid = None.
Proof.
  intros lp0 rid fut lp1 lp2 lp3 lp4 lp5 Hfree Hadd Hres Hcan Hret Hid.
  rewrite countb_app in Hcan.
  assert (Hr2 : registered rid fut (length (tasks lp0)) lp2).
  { assert (Hc1 : countb (is_cancel_of rid fut) mid = 0%nat) by lia.
    apply reaches_registered; assumption. }
  pose proof (registered_open _ _ _ _ Hr2) as Hopen.
  pose proof Hr2 as ((req & Hp & Htt) & _).
  assert (Hstep : step lp2 (Respond response)
                  = (set_result lp2 fut response,
                     [Resolved rid response; RespondReturned rid true])).
  { cbn [step]. unfold respond. rewrite Hid, Hp, Hopen. reflexivity. }
  split; [now rewrite Hstep|].
  destruct (registered_resolved _ _ _ _ response Hr2) as (Hf3 & Hw3).
  assert (E3 : lp3 = set_result lp2 fut response) by (subst lp3; now rewrite Hstep).
  rewrite <- E3 in Hf3, Hw3.
  destruct (run_settled rid fut response post lp3 Hf3 Hw3 ltac:(lia) Hret)
    as (Hf4 & Hw4 & _).
  fold lp4 in Hf4, Hw4.
  assert (Hfin : step lp4 (AddReturns rid fut)
                 = (_cleanup (drop_waiter (rid, fut) lp4) rid,
                    [Delivered rid response])).
  { cbn [step]. unfold add_finish, is_waiter.
    rewrite bool_decide_eq_true_2 by exact Hw4. now rewrite Hf4. }
  split; [now rewrite Hfin|].
  subst lp5. rewrite Hfin. cbn [fst]. unfold get_pending, _cleanup.
  cbn [queue _pending _response_futures with_maps].
  split; apply lookup_delete_eq.
Qed.

Lemma accepted_response_delivered_witness :
  let lp1 := fst (step (new_loop 300 "deny") (Add (request "r1"))) in
  let lp2 := fst (run lp1 [Respond (reply "zz" false 8)]) in
  let lp3 := fst (step lp2 (Respond (reply "r1" true 7))) in
  let lp4 := fst (run lp3 [TimerFires 0 (Qc_of_Z 300); Respond (reply "r1" false 9)]) in
  snd (step lp2 (Respond (reply "r1" true 7)))
  = [Resolved "r1" (reply "r1" true 7); RespondReturned "r1" true]
  /\ snd (step lp4 (AddReturns "r1" 0)) = [Delivered "r1" (reply "r1" true 7)].
Proof.
  destruct (accepted_response_delivered 300 "deny" [] (request "r1")
              [Respond (reply "zz" false 8)] (reply "r1" true 7)
              [TimerFires 0 (Qc_of_Z 300); Respond (reply "r1" false 9)])
    as (H1 & H2 & _); try (vm_compute; reflexivity).
  exact (conj H1 H2).
Defined.


(** *** [cancel_all] *)

Lemma fold_obs_in now (x : Obs) ids : forall acc,
  In x (snd acc) -> In x (snd (fold_left (cancel_one now) ids acc)).
Proof.
  induction ids as [|r0 ids IH]; intros acc H; [exact H|].
  cbn [fold_left]. apply IH. unfold cancel_one.
  destruct (open_future (fst acc) r0); [|exact H].
  cbn [snd]. apply in_or_app. now left.
Qed.

Lemma cancel_one_keeps_open now acc r0 rid fut :
  r0 <> rid ->
  open_future (fst acc) rid = Some fut ->
  (forall r, _response_futures (queue (fst acc)) !! r = Some fut -> r = rid) ->
  open_future (fst (cancel_one now acc r0)) rid = Some fut.
Proof.
  intros Hne Hopen Hinj. unfold cancel_one.
  destruct (open_future (fst acc) r0) as [f0|] eqn:Ho; [|exact Hopen].
  cbn [fst]. destruct (open_future_pending _ _ _ Ho) as (Hm0 & _).
  destruct (open_future_pending _ _ _ Hopen) as (Hm & Hp).
  unfold open_future, set_result. cbn [queue futures]. rewrite Hm.
  rewrite list_lookup_insert_ne; [now rewrite Hp|].
  intros ->. apply Hne. now apply Hinj.
Qed.

(** [cancel_all] gives a registered request the cancelled response. *)
Lemma cancel_fold_cancels now rid fut ids : forall acc,
  rid ∈ ids ->
  open_future (fst acc) rid = Some fut ->
  (forall r, _response_futures (queue (fst acc)) !! r = Some fut -> r = rid) ->
  let acc' := fold_left (cancel_one now) ids acc in
  In (Resolved rid (cancelled_response rid now)) (snd acc')
  /\ futures (fst acc') !! fut = Some (Result (cancelled_response rid now)).
Proof.
  induction ids as [|r0 ids IH]; intros acc Hin Hopen Hinj; [inversion Hin|].
  cbn [fold_left]. destruct (decide (r0 = rid)) as [->|Hne].
  - assert (E : cancel_one now acc rid
                = (set_result (fst acc) fut (cancelled_response rid now),
                   snd acc ++ [Resolved rid (cancelled_response rid now)])).
    { unfold cancel_one. now rewrite Hopen. }
    cbv zeta. rewrite E. split.
    + apply fold_obs_in. cbn [snd]. apply in_or_app. right. now left.
    + destruct (cancel_fold_shape now ids
                  (set_result (fst acc) fut (cancelled_response rid now),
                   snd acc ++ [Resolved rid (cancelled_response rid now)]))
        as (_ & _ & _ & _ & Hkeep).
      apply Hkeep. cbn [fst set_result futures].
      apply list_lookup_insert_eq.
      destruct (open_future_pending _ _ _ Hopen) as (_ & Hp).
      eapply lookup_lt_Some. exact Hp.
  - apply elem_of_cons in Hin as [Hin|Hin]; [congruence|].
    apply IH; [exact Hin | now apply cancel_one_keeps_open |].
    destruct (cancel_one_shape now acc r0) as (C1 & _). cbv zeta in C1.
    rewrite C1. exact Hinj.
Qed.

Lemma cancel_one_closed now acc r0 r :
  open_future (fst acc) r = None ->
  open_future (fst (cancel_one now acc r0)) r = None.
Proof.
  intros Hc. unfold cancel_one.
  destruct (open_future (fst acc) r0) as [f0|] eqn:Ho; [|exact Hc].
  cbn [fst]. unfold open_future, set_result in *. cbn [queue futures].
  destruct (_response_futures (queue (fst acc)) !! r) as [f|]; [|reflexivity].
  destruct (decide (f = f0)) as [->|Hne].
  - destruct (_response_futures (queue (fst acc)) !! r0) as [g|]; [|discriminate].
    destruct (futures (fst acc) !! g) as [[| |]|] eqn:Eg; try discriminate.
    injection Ho as ->.
    rewrite list_lookup_insert_eq; [reflexivity | eapply lookup_lt_Some; exact Eg].
  - rewrite list_lookup_insert_ne by congruence. exact Hc.
Qed.

Lemma cancel_one_closes now acc r :
  open_future (fst (cancel_one now acc r)) r = None.
Proof.
  unfold cancel_one. destruct (open_future (fst acc) r) as [f|] eqn:Ho;
    [|exact Ho].
  cbn [fst]. destruct (open_future_pending _ _ _ Ho) as (Hm & Hp).
  unfold open_future, set_result. cbn [queue futures]. rewrite Hm.
  rewrite list_lookup_insert_eq; [reflexivity | eapply lookup_lt_Some; exact Hp].
Qed.

Lemma cancel_fold_closes now r ids : forall acc,
  r ∈ ids \/ open_future (fst acc) r = None ->
  open_future (fst (fold_left (cancel_one now) ids acc)) r = None.
Proof.
  induction ids as [|r0 ids IH]; intros acc [Hin|Hc].
  - inversion Hin.
  - exact Hc.
  - cbn [fold_left]. apply IH. apply elem_of_cons in Hin as [->|Hin].
    + right. apply cancel_one_closes.
    + now left.
  - cbn [fold_left]. apply IH. right. now apply cancel_one_closed.
Qed.

(** After [cancel_all] no [respond] call is accepted. *)
Lemma cancel_all_closes lp now response :
  snd (step (fst (cancel_all lp now)) (Respond response))
  = [RespondReturned (request_id response) false].
Proof.
  unfold cancel_all.
  pose proof (cancel_fold_shape now (map_to_list (_pending (queue lp))).*1 (lp, []))
    as (B1 & _). cbv zeta in B1.
  pose proof (cancel_fold_closes now (request_id response)
                (map_to_list (_pending (queue lp))).*1 (lp, [])) as Hc.
  destruct (fold_left (cancel_one now) _ (lp, [])) as [lp' obs].
  cbn [fst] in *. cbn [step]. unfold respond. rewrite B1.
  destruct (_pending (queue lp) !! request_id response) as [req|] eqn:Ep;
    [|reflexivity].
  rewrite Hc; [reflexivity|]. left.
  apply list_elem_of_fmap. exists (request_id response, req).
  split; [reflexivity | now apply elem_of_map_to_list].
Qed.

(** [cancel_all] denies every pending request: the caller of [add()]
    receives the cancelled response, the call returns the number of
    pending requests, and no reply is accepted afterwards. *)
Theorem cancel_all_denies_pending (timeout_seconds : Z) (default_action : string)
    (pre : list Event) (request : PermissionRequest) (mid : list Event)
    (now : Qc) (post : list Event) :
  let lp0 := fst (run (new_loop timeout_seconds default_action) pre) in
  let rid := id request in
  let fut := length (futures lp0) in
  let lp1 := fst (step lp0 (Add request)) in
  let lp2 := fst (run lp1 mid) in
  let lp3 := fst (step lp2 (CancelAll now)) in
  let lp4 := fst (run lp3 post) in
  let response := cancelled_response rid now in
  waiting lp0 rid = 0%nat ->
  countb (is_add rid) mid = 0%nat ->
  countb (is_resolved rid) (snd (run lp1 mid)) = 0%nat ->
  countb (is_cancel_of rid fut) (mid ++ post) = 0%nat ->
  countb (is_return_of rid fut) post = 0%nat ->
  In (Resolved rid response) (snd (step lp2 (CancelAll now)))
  /\ last (snd (step lp2 (CancelAll now)))
     = Some (CancelAllReturned (pending_count lp2))
  /\ snd (step lp4 (AddReturns rid fut)) = [Delivered rid response]
  /\ approved response = false
  /\ responded_by response = 0
  /\ auto_approved response = true
  /\ policy_name response = Some "cancelled"%string
  /\ (forall reply, snd (step lp3 (Respond reply))
                    = [RespondReturned (request_id reply) false]).
Proof.
  intros lp0 rid fut lp1 lp2 lp3 lp4 response Hfree Hadd Hres Hcan Hret.
  rewrite countb_app in Hcan.
  assert (Hr2 : registered rid fut (length (tasks lp0)) lp2).
  { assert (Hc1 : countb (is_cancel_of rid fut) mid = 0%nat) by lia.
    apply reaches_registered; assumption. }
  pose proof (registered_open _ _ _ _ Hr2) as Hopen.
  pose proof Hr2 as ((req & Hp & Htt) & _ & _ & Hw & _ & Hinj & _).
  assert (Hin : rid ∈ (map_to_list (_pending (queue lp2))).*1).
  { apply list_elem_of_fmap. exists (rid, req). split; [reflexivity|].
    now apply elem_of_map_to_list. }
  pose proof (cancel_fold_cancels now rid fut _ (lp2, []) Hin Hopen Hinj)
    as (Hobs & Hfut).
  pose proof (cancel_fold_shape now (map_to_list (_pending (queue lp2))).*1 (lp2, []))
    as (_ & _ & Hws & _).
  cbv zeta in Hobs, Hfut, Hws.
  assert (Hf3 : futures lp3 !! fut = Some (Result response)
                /\ (rid, fut) ∈ waiters lp3
                /\ In (Resolved rid response) (snd (step lp2 (CancelAll now)))
                /\ last (snd (step lp2 (CancelAll now)))
                   = Some (CancelAllReturned (pending_count lp2))).
  { subst lp3. cbn [step]. unfold cancel_all.
    destruct (fold_left (cancel_one now) _ (lp2, [])) as [lp' obs].
    cbn [fst snd] in *. rewrite Hws.
    split; [exact Hfut|]. split; [exact Hw|].
    split; [apply in_or_app; now left | apply last_snoc]. }
  destruct Hf3 as (Hf3 & Hw3 & Ho3 & Hl3).
  split; [exact Ho3|]. split; [exact Hl3|].
  destruct (run_settled rid fut response post lp3 Hf3 Hw3 ltac:(lia) Hret)
    as (Hf4 & Hw4 & _).
  fold lp4 in Hf4, Hw4.
  split.
  { cbn [step]. unfold add_finish, is_waiter.
    rewrite bool_decide_eq_true_2 by exact Hw4. now rewrite Hf4. }
  repeat (split; [reflexivity|]).
  intros reply. subst lp3. cbn [step fst]. apply cancel_all_closes.
Qed.

Lemma cancel_all_denies_pending_witness :
  let lp1 := fst (step (new_loop 300 "approve") (Add (request "r1"))) in
  let lp3 := fst (step lp1 (CancelAll (Qc_of_Z 5))) in
  let lp4 := fst (run lp3 [TimerFires 0 (Qc_of_Z 300)]) in
  snd (step lp4 (AddReturns "r1" 0))
  = [Delivered "r1" (cancelled_response "r1" (Qc_of_Z 5))]
  /\ snd (step lp3 (Respond (reply "r1" true 7))) = [RespondReturned "r1" false].
Proof.
  destruct (cancel_all_denies_pending 300 "approve" [] (request "r1") []
              (Qc_of_Z 5) [TimerFires 0 (Qc_of_Z 300)])
    as (_ & _ & H3 & _ & _ & _ & _ & H8); try (vm_compute; reflexivity).
  exact (conj H3 (H8 (reply "r1" true 7))).
Defined.


(** *** Nothing stays in the tables without a caller *)

Lemma waiting_app lp rid r f :
  countb (fun w : string * nat => String.eqb (fst w) rid) (waiters lp ++ [(r, f)])
  = (waiting lp rid + if String.eqb r rid then 1 else 0)%nat.
Proof.
  unfold waiting. rewrite countb_app. f_equal.
  unfold countb. cbn [List.filter fst]. now destruct (String.eqb r rid).
Qed.

Lemma waiting_drop_other lp w rid :
  fst w <> rid ->
  waiting (drop_waiter w lp) rid = waiting lp rid.
Proof.
  intros Hne. unfold waiting, drop_waiter, countb. cbn [waiters].
  induction (waiters lp) as [|x l IH]; [reflexivity|].
  cbn [List.filter]. case_bool_decide as E; cbn [negb].
  - subst x. apply String.eqb_neq in Hne. rewrite Hne. exact IH.
  - cbn [List.filter]. destruct (String.eqb (fst x) rid); cbn [length]; now rewrite IH.
Qed.

Lemma backed_same lp lp' :
  queue lp' = queue lp -> waiters lp' = waiters lp ->
  tables_backed lp -> tables_backed lp'.
Proof.
  intros Hq Hw H rid. unfold waiting. rewrite Hq, Hw. apply H.
Qed.

Lemma backed_cleanup lp r0 f0 fs :
  tables_backed lp ->
  tables_backed (_cleanup (drop_waiter (r0, f0)
    {| queue := queue lp; futures := fs; tasks := tasks lp;
       waiters := waiters lp |}) r0).
Proof.
  intros H rid. unfold _cleanup, drop_waiter.
  cbn [queue futures tasks waiters _pending _response_futures with_maps].
  destruct (decide (r0 = rid)) as [->|Hne].
  - rewrite !lookup_delete_eq. split; [split|]; intros [x Hx]; discriminate.
  - rewrite !lookup_delete_ne by exact Hne.
    destruct (H rid) as (H1 & H2). split; [exact H1|].
    intros Hs. specialize (H2 Hs).
    pose proof (waiting_drop_other lp (r0, f0) rid Hne) as E.
    unfold waiting, drop_waiter in E. cbn [waiters] in E.
    unfold waiting in H2 |- *. cbn [waiters]. lia.
Qed.

Lemma step_backed lp e : tables_backed lp -> tables_backed (fst (step lp e)).
Proof.
  intros H.
  destruct e as [request|response|task now|now|r0 f0|r0 f0]; cbn [step].
  - intros rid. cbn [fst]. unfold waiting, add_begin.
    cbn [queue waiters _pending _response_futures with_maps id].
    rewrite waiting_app.
    destruct (H rid) as (H1 & H2).
    destruct (decide (id request = rid)) as [E|Hne].
    + cbn [id]. rewrite E, !lookup_insert_eq, String.eqb_refl.
      split; [split; intros _; eexists; reflexivity | intros _; lia].
    + cbn [id]. rewrite !lookup_insert_ne by exact Hne.
      split; [exact H1|]. intros Hs. specialize (H2 Hs). lia.
  - unfold respond.
    destruct (_pending (queue lp) !! request_id response); [|exact H].
    destruct (open_future lp (request_id response)); [|exact H].
    cbn [fst]. eapply backed_same; [| |exact H]; reflexivity.
  - unfold _timeout_handler.
    destruct (tasks lp !! task) as [[r1| |]|]; try exact H.
    cbn [queue _pending].
    destruct (_pending (queue lp) !! r1);
      [|eapply backed_same; [| |exact H]; reflexivity].
    match goal with
    | |- context [open_future ?l r1] => destruct (open_future l r1)
    end; eapply backed_same; [| |exact H| | |exact H]; reflexivity.
  - unfold cancel_all.
    pose proof (cancel_fold_shape now (map_to_list (_pending (queue lp))).*1 (lp, []))
      as (B1 & _ & B3 & _). cbv zeta in B1, B3.
    destruct (fold_left (cancel_one now) _ (lp, [])) as [lp' obs].
    cbn [fst] in *. eapply backed_same; [exact B1 | exact B3 | exact H].
  - unfold add_finish. destruct (is_waiter (r0, f0) lp); [|exact H].
    destruct (futures lp !! f0) as [[|r1|]|]; try exact H.
    cbn [fst]. pose proof (backed_cleanup lp r0 f0 (futures lp) H) as Hb.
    destruct lp. exact Hb.
  - unfold add_cancelled. destruct (is_waiter (r0, f0) lp); [|exact H].
    cbn [fst]. exact (backed_cleanup lp r0 f0 _ H).
Qed.

Lemma run_backed trace : forall lp,
  tables_backed lp -> tables_backed (fst (run lp trace)).
Proof.
  induction trace as [|e rest IH]; intros lp H; [exact H|].
  cbn [run]. pose proof (step_backed lp e H) as H1.
  destruct (step lp e) as [lp1 obs1]. cbn [fst] in H1.
  pose proof (IH lp1 H1) as H2. destruct (run lp1 rest) as [lp2 obs2]. exact H2.
Qed.

(** In every state that a new queue reaches, the pending table and the
    table of futures hold the same identifiers, each of them with a
    suspended [add()] call; so once no call is suspended, nothing is
    pending. *)
Theorem no_entry_without_caller (timeout_seconds : Z) (default_action : string)
    (trace : list Event) :
  let lp := fst (run (new_loop timeout_seconds default_action) trace) in
  (forall rid,
     (is_Some (get_pending lp rid)
      <-> is_Some (_response_futures (queue lp) !! rid))
     /\ (is_Some (get_pending lp rid) -> (1 <= waiting lp rid)%nat))
  /\ (waiters lp = [] ->
      pending_count lp = 0 /\ _response_futures (queue lp) = ∅).
Proof.
  intros lp.
  assert (H : tables_backed lp).
  { apply run_backed. intros rid. cbn. rewrite !lookup_empty.
    split; [split|]; intros [x Hx]; discriminate. }
  split; [exact H|]. intros Hw.
  assert (Hnone : forall rid, _pending (queue lp) !! rid = None).
  { intros rid. destruct (_pending (queue lp) !! rid) as [req|] eqn:E; [|reflexivity].
    destruct (H rid) as (_ & H2). rewrite E in H2.
    specialize (H2 (mk_is_Some _ _ eq_refl)).
    unfold waiting in H2. rewrite Hw in H2. cbn in H2. lia. }
  split.
  - unfold pending_count. replace (_pending (queue lp)) with (∅ : gmap string PermissionRequest).
    + reflexivity.
    + symmetry. apply map_empty. exact Hnone.
  - apply map_empty. intros rid.
    destruct (_response_futures (queue lp) !! rid) as [f|] eqn:E; [|reflexivity].
    destruct (H rid) as (H1 & _). rewrite E in H1.
    destruct (proj2 H1 (mk_is_Some _ _ eq_refl)) as [x Hx].
    unfold get_pending in *. rewrite Hnone in Hx. discriminate.
Qed.

(** *** An identifier registered twice *)

Lemma stranded_set_result fut lp r f response :
  stranded fut lp -> open_future lp r = Some f ->
  stranded fut (set_result lp f response).
Proof.
  intros (Hp & Hno) Ho. destruct (open_future_pending _ _ _ Ho) as (Hm & _).
  split; [|exact Hno]. cbn [set_result futures].
  rewrite list_lookup_insert_ne; [exact Hp|].
  intros ->. exact (Hno _ Hm).
Qed.

Lemma stranded_cleanup fut lp r0 w :
  stranded fut lp -> stranded fut (_cleanup (drop_waiter w lp) r0).
Proof.
  intros (Hp & Hno). split; [exact Hp|]. intros r.
  cbn [_cleanup queue _response_futures with_maps drop_waiter].
  intros Hlk. apply lookup_delete_Some in Hlk as [_ Hlk]. exact (Hno _ Hlk).
Qed.

Lemma stranded_fold now fut ids : forall acc,
  stranded fut (fst acc) ->
  stranded fut (fst (fold_left (cancel_one now) ids acc)).
Proof.
  induction ids as [|r0 ids IH]; intros acc H; [exact H|].
  cbn [fold_left]. apply IH. unfold cancel_one.
  destruct (open_future (fst acc) r0) as [f|] eqn:Ho; [|exact H].
  cbn [fst]. eapply stranded_set_result; eauto.
Qed.

Lemma step_stranded fut lp e :
  stranded fut lp -> cancels_future fut e = false ->
  stranded fut (fst (step lp e)).
Proof.
  intros H Hc. pose proof H as (Hp & Hno).
  destruct e as [request|response|task now|now|r0 f0|r0 f0]; cbn [step].
  - pose proof (lookup_lt_Some _ _ _ Hp) as Hlt. split.
    + cbn. now rewrite lookup_app_l.
    + intros r. cbn [fst add_begin queue _response_futures with_maps id].
      destruct (decide (id request = r)) as [<-|Hne].
      * rewrite lookup_insert_eq. intros [= E]. lia.
      * rewrite lookup_insert_ne by exact Hne. apply Hno.
  - unfold respond.
    destruct (_pending (queue lp) !! request_id response); [|exact H].
    destruct (open_future lp (request_id response)) as [f|] eqn:Ho; [|exact H].
    cbn [fst]. eapply stranded_set_result; eauto.
  - unfold _timeout_handler.
    destruct (tasks lp !! task) as [[r1| |]|]; try exact H.
    set (lp1 := {| queue := queue lp; futures := futures lp;
                   tasks := <[task := Finished]> (tasks lp);
                   waiters := waiters lp |}).
    assert (H1 : stranded fut lp1) by exact H.
    cbn [queue _pending]. destruct (_pending (queue lp1) !! r1); [|exact H1].
    destruct (open_future lp1 r1) as [f|] eqn:Ho; [|exact H1].
    cbn [fst]. eapply stranded_set_result; eauto.
  - unfold cancel_all.
    pose proof (stranded_fold now fut (map_to_list (_pending (queue lp))).*1 (lp, []) H)
      as Hf.
    destruct (fold_left (cancel_one now) _ (lp, [])) as [lp' obs]. exact Hf.
  - unfold add_finish. destruct (is_waiter (r0, f0) lp); [|exact H].
    destruct (futures lp !! f0) as [[|r1|]|]; try exact H.
    cbn [fst]. now apply stranded_cleanup.
  - unfold add_cancelled. destruct (is_waiter (r0, f0) lp); [|exact H].
    cbn [cancels_future] in Hc. apply Nat.eqb_neq in Hc.
    cbn [fst].
    set (lpd := drop_waiter (r0, f0) lp).
    assert (Hd : stranded fut
              {| queue := queue lpd;
                 futures := match futures lpd !! f0 with
                            | Some Pending => <[f0 := CancelledFuture]> (futures lpd)
                            | _ => futures lpd
                            end;
                 tasks := tasks lpd; waiters := waiters lpd |}).
    { split; [|exact Hno]. cbn [futures]. subst lpd. cbn [drop_waiter futures].
      destruct (futures lp !! f0) as [[| |]|]; try exact Hp.
      rewrite list_lookup_insert_ne; [exact Hp | exact Hc]. }
    destruct Hd as (Hd1 & Hd2). split; [exact Hd1|]. intros r.
    cbn [_cleanup queue _response_futures with_maps].
    intros Hlk. apply lookup_delete_Some in Hlk as [_ Hlk]. exact (Hd2 _ Hlk).
Qed.

Lemma run_stranded fut trace : forall lp,
  stranded fut lp -> countb (cancels_future fut) trace = 0%nat ->
  stranded fut (fst (run lp trace)).
Proof.
  induction trace as [|e rest IH]; intros lp H Hc; [exact H|].
  change (e :: rest) with ([e] ++ rest) in Hc. rewrite countb_app in Hc.
  cbn [run]. pose proof (step_stranded fut lp e H) as H1.
  destruct (step lp e) as [lp1 obs1]. cbn [fst] in H1.
  specialize (IH lp1). destruct (run lp1 rest) as [lp2 obs2]. cbn [fst] in *.
  apply IH; [|lia]. apply H1.
  unfold countb in Hc. cbn [List.filter] in Hc.
  destruct (cancels_future fut e); [cbn in Hc; lia | reflexivity].
Qed.

(** A second [add()] with the identifier of a request that is still
    unresolved takes the identifier over: the future of the first call
    stays pending whatever happens next, so the first caller never
    receives a response and can only end by being cancelled. *)
Theorem reused_id_strands_first_caller (timeout_seconds : Z)
    (default_action : string) (pre : list Event)
    (request : PermissionRequest) (mid : list Event)
    (again : PermissionRequest) (post : list Event) :
  let lp0 := fst (run (new_loop timeout_seconds default_action) pre) in
  let rid := id request in
  let fut := length (futures lp0) in
  let lp1 := fst (step lp0 (Add request)) in
  let lp2 := fst (run lp1 mid) in
  let lp3 := fst (step lp2 (Add again)) in
  let lp4 := fst (run lp3 post) in
  waiting lp0 rid = 0%nat ->
  countb (is_add rid) mid = 0%nat ->
  countb (is_resolved rid) (snd (run lp1 mid)) = 0%nat ->
  countb (is_cancel_of rid fut) mid = 0%nat ->
  id again = rid ->
  countb (cancels_future fut) post = 0%nat ->
  futures lp4 !! fut = Some Pending
  /\ (forall r, _response_futures (queue lp4) !! r <> Some fut)
  /\ snd (step lp4 (AddReturns rid fut)) = [].
Proof.
  intros lp0 rid fut lp1 lp2 lp3 lp4 Hfree Hadd Hres Hcan Hid Hpost.
  assert (Hr2 : registered rid fut (length (tasks lp0)) lp2)
    by (apply reaches_registered; assumption).
  destruct Hr2 as (_ & _ & Hfut & _ & _ & Hinj & _).
  pose proof (lookup_lt_Some _ _ _ Hfut) as Hlt.
  assert (H3 : stranded fut lp3).
  { subst lp3. cbn [step fst]. split.
    - cbn. now rewrite lookup_app_l.
    - intros r. cbn [add_begin queue _response_futures with_maps id].
      rewrite Hid. destruct (decide (rid = r)) as [<-|Hne].
      + rewrite lookup_insert_eq. intros [= E]. lia.
      + rewrite lookup_insert_ne by exact Hne. intros Hr. apply Hne.
        symmetry. now apply Hinj. }
  destruct (run_stranded fut post lp3 H3 Hpost) as (H4 & Hno).
  fold lp4 in H4, Hno.
  split; [exact H4|]. split; [exact Hno|].
  cbn [step]. unfold add_finish. rewrite H4. now destruct (is_waiter (rid, fut) lp4).
Qed.

Lemma reused_id_strands_first_caller_witness :
  let lp1 := fst (step (new_loop 300 "deny") (Add (request "r1"))) in
  let lp3 := fst (step lp1 (Add (request "r1"))) in
  let lp4 := fst (run lp3 [Respond (reply "r1" true 7); AddReturns "r1" 1;
                           TimerFires 0 (Qc_of_Z 300); TimerFires 1 (Qc_of_Z 300);
                           CancelAll (Qc_of_Z 301)]) in
  futures lp4 !! 0%nat = Some Pending
  /\ snd (step lp4 (AddReturns "r1" 0)) = [].
Proof.
  destruct (reused_id_strands_first_caller 300 "deny" [] (request "r1") []
              (request "r1")
              [Respond (reply "r1" true 7); AddReturns "r1" 1;
               TimerFires 0 (Qc_of_Z 300); TimerFires 1 (Qc_of_Z 300);
               CancelAll (Qc_of_Z 301)])
    as (H1 & _ & H3); try (vm_compute; reflexivity).
  exact (conj H1 H3).
Defined.

End QueueMoreProps.

(** ** Audit log: what verification detects *)

Module AuditMoreProps.
Import Audit PyFacts HexFacts AuditInv AuditProps TamperProps AuditCalls AuditMoreInv.

Local Opaque Sha256.hmac Json.dumps.

Lemma next_hash_nonempty key p ev : next_hash key p ev <> [].
Proof.
  intros E. pose proof (Sha256Facts.hmac_length key (p ++ Py.utf8 (Json.dumps_canonical ev))) as H.
  unfold next_hash in E. rewrite E in H. discriminate.
Qed.

Lemma prev_text_hex (h : Py.bytes) : h <> [] -> prev_text h = Py.str_of (Py.hex h).
Proof. destruct h; [congruence | reflexivity]. Qed.

Lemma chain_cut key p a b q :
  chain key p (a ++ b) q -> exists q1, chain key p a q1 /\ chain key q1 b q.
Proof.
  revert p. induction a as [|l a IH]; intros p H.
  - exists p. split; [constructor | exact H].
  - inversion H as [|? ? ev ? ? Hl Hrest]; subst.
    destruct (IH _ Hrest) as (q1 & Ha & Hb).
    exists q1. split; [econstructor; eauto | exact Hb].
Qed.

(** The store that a run of the logger leaves is a chain from the empty
    position. *)
Lemma logged_chain key session mb rc fs0 events lg fs lines :
  default [] (current fs0) = [] ->
  rotation_free (new_logger session mb rc key) fs0 events = true ->
  log_all (new_logger session mb rc key) fs0 events = Py.Returned (lg, fs) ->
  current fs = Some lines ->
  chain key [] lines (_last_hash lg).
Proof.
  intros Hnone Hfree Hrun Hcur.
  assert (Hin : in_step (new_logger session mb rc key) fs0).
  { unfold in_step. rewrite Hnone. constructor. }
  destruct (log_all_keeps_step events _ _ Hin Hfree) as (lg' & fs' & E & Hin' & Hk).
  rewrite Hrun in E. injection E as <- <-.
  unfold in_step in Hin'. rewrite Hcur, Hk in Hin'. exact Hin'.
Qed.

(** Cutting entries off the end of a store is not detected: every
    prefix of a store written by the logger verifies. *)
Theorem truncation_not_detected (key : Py.bytes) (session : string) (mb rc : Z)
    (fs0 : Files) (events : list (AuditEvent * bool))
    (lg : AuditLogger) (fs : Files) (kept cut : list Line) :
  default [] (current fs0) = [] ->
  rotation_free (new_logger session mb rc key) fs0 events = true ->
  log_all (new_logger session mb rc key) fs0 events = Py.Returned (lg, fs) ->
  current fs = Some (kept ++ cut) ->
  verify_audit_log {| current := Some kept; rotated := rotated fs |} key
  = Py.Returned (true, []).
Proof.
  intros Hnone Hfree Hrun Hcur.
  pose proof (logged_chain _ _ _ _ _ _ _ _ _ Hnone Hfree Hrun Hcur) as Hch.
  destruct (chain_cut _ _ _ _ _ Hch) as (q1 & Ha & _).
  unfold verify_audit_log. cbn [current].
  now rewrite (verify_chain _ _ _ _ Ha).
Qed.

Lemma truncation_not_detected_witness :
  verify_audit_log {| current := Some (take 1 AuditExamples.three); rotated := ∅ |}
    (Py.chars "k")
  = Py.Returned (true, []).
Proof.
  set (run := Py.value_or (AuditExamples.logger0, AuditExamples.fresh)
                (log_all AuditExamples.logger0 AuditExamples.fresh
                   [(AuditExamples.ev1, true); (AuditExamples.ev2, true);
                    (AuditExamples.ev3, true)])).
  assert (Hrot : rotated (snd run) = ∅) by (vm_compute; reflexivity).
  rewrite <- Hrot.
  apply (truncation_not_detected (Py.chars "k") "s1" 100 5 AuditExamples.fresh
           [(AuditExamples.ev1, true); (AuditExamples.ev2, true);
            (AuditExamples.ev3, true)]
           (fst run) (snd run) (take 1 AuditExamples.three)
           (drop 1 AuditExamples.three)).
  - reflexivity.
  - vm_compute. reflexivity.
  - vm_compute. reflexivity.
  - vm_compute. reflexivity.
Defined.


(** *** Removed and inserted lines *)

Lemma chain_last_hmac key a : forall p q,
  chain key p a q -> a <> [] -> prev_text q = last_hmac a.
Proof.
  induction a as [|l a IH]; intros p q H Hne; [congruence|].
  inversion H as [|? ? ev ? ? Hl Hrest]; subst.
  destruct a as [|l2 a].
  - inversion Hrest; subst. unfold last_hmac, hmac_field. cbn [last].
    rewrite Hl. unfold sealed. apply prev_text_hex, next_hash_nonempty.
  - rewrite (IH _ _ Hrest) by discriminate. reflexivity.
Qed.

Lemma sealed_hmac_field key p l ev :
  body l = sealed key p ev ->
  hmac_field l = prev_text (next_hash key p ev).
Proof.
  intros Hl. unfold hmac_field. rewrite Hl. unfold sealed.
  symmetry. apply prev_text_hex, next_hash_nonempty.
Qed.

Lemma prev_text_some h : h <> [] -> prev_text h <> ""%string.
Proof. destruct h; [congruence | discriminate]. Qed.

(** Removing an entry that is not the last one is detected at the entry
    that followed it, as a broken link, whenever the signature of the
    removed entry differs from the one before it; that is always so for
    the first entry of a store. *)
Theorem deletion_detected (key : Py.bytes) (session : string) (mb rc : Z)
    (fs0 : Files) (events : list (AuditEvent * bool))
    (lg : AuditLogger) (fs : Files) (a b : list Line) (o n : Line) :
  default [] (current fs0) = [] ->
  rotation_free (new_logger session mb rc key) fs0 events = true ->
  log_all (new_logger session mb rc key) fs0 events = Py.Returned (lg, fs) ->
  current fs = Some (a ++ o :: n :: b) ->
  a = [] \/ last_hmac a <> hmac_field o ->
  exists errs,
    verify_audit_log {| current := Some (a ++ n :: b); rotated := rotated fs |} key
    = Py.Returned (false, errs)
    /\ (exists e e', In (ChainBroken (S (length a)) e e') errs)
    /\ Forall (fun x => line_of x = S (length a)) errs.
Proof.
  intros Hnone Hfree Hrun Hcur Hdiff.
  pose proof (logged_chain _ _ _ _ _ _ _ _ _ Hnone Hfree Hrun Hcur) as Hch.
  destruct (chain_split _ _ _ _ _ _ Hch) as (q1 & evo & Ha & Ho & Hrest).
  inversion Hrest as [|? ? evn ? ? Hn Hb]; subst.
  assert (Hne : prev_text (next_hash key q1 evo) <> prev_text q1).
  { rewrite <- (sealed_hmac_field _ _ _ _ Ho). intros E. destruct Hdiff as [->|Hd].
    - inversion Ha; subst. cbn in E. rewrite (sealed_hmac_field _ _ _ _ Ho) in E.
      exact (prev_text_some _ (next_hash_nonempty _ _ _) E).
    - apply Hd. destruct a as [|l a]; [inversion Ha; subst|].
      + exfalso. cbn in E. rewrite (sealed_hmac_field _ _ _ _ Ho) in E.
        exact (prev_text_some _ (next_hash_nonempty _ _ _) E).
      + rewrite <- (chain_last_hmac _ _ _ _ Ha) by discriminate. now symmetry. }
  set (q2 := next_hash key q1 evo) in *.
  assert (Hascii : Py.is_ascii (Py.chars (Py.str_of (Py.hex (next_hash key q2 evn)))) = true)
    by (rewrite chars_str_of; apply is_ascii_hex).
  destruct (verify_line_entry key (S (length a)) q1 n evn _ _ Hn Hascii)
    as (errs & prev' & E & _ & Hlink & _).
  destruct (verify_line_sealed_from key (S (length a)) q2 q1 n evn Hn)
    as (errs' & E').
  rewrite E in E'. injection E' as <- ->.
  exists errs. unfold verify_audit_log. cbn [current].
  rewrite (verify_chain_prefix _ _ _ _ Ha). cbn [verify_lines Nat.add].
  rewrite E, (verify_chain _ _ _ _ Hb), app_nil_r.
  assert (Hbroken : exists e e', In (ChainBroken (S (length a)) e e') errs)
    by (apply Hlink; exact Hne).
  split; [|split; [exact Hbroken | exact (verify_line_lines _ _ _ _ _ _ E)]].
  f_equal. f_equal. apply bool_decide_eq_false_2.
  destruct Hbroken as (e & e' & Hin). destruct errs; [inversion Hin | discriminate].
Qed.

Lemma deletion_detected_witness :
  exists errs,
    verify_audit_log {| current := Some (drop 1 AuditExamples.three); rotated := ∅ |}
      (Py.chars "k")
    = Py.Returned (false, errs)
    /\ (exists e e', In (ChainBroken 1 e e') errs).
Proof.
  set (run := Py.value_or (AuditExamples.logger0, AuditExamples.fresh)
                (log_all AuditExamples.logger0 AuditExamples.fresh
                   [(AuditExamples.ev1, true); (AuditExamples.ev2, true);
                    (AuditExamples.ev3, true)])).
  assert (Hrot : rotated (snd run) = ∅) by (vm_compute; reflexivity).
  set (d := {| nbytes := 0; body := Blank |}).
  destruct (deletion_detected (Py.chars "k") "s1" 100 5 AuditExamples.fresh
              [(AuditExamples.ev1, true); (AuditExamples.ev2, true);
               (AuditExamples.ev3, true)]
              (fst run) (snd run) [] (drop 2 AuditExamples.three)
              (default d (AuditExamples.three !! 0%nat))
              (default d (AuditExamples.three !! 1%nat)))
    as (errs & E & Hb & _).
  - reflexivity.
  - vm_compute. reflexivity.
  - vm_compute. reflexivity.
  - vm_compute. reflexivity.
  - now left.
  - exists errs. rewrite Hrot in E. split; [exact E | exact Hb].
Defined.

(** A blank line anywhere in a store written by the logger leaves it
    valid; a line that is not JSON costs exactly one error, on its own
    line, and the entries after it still verify. *)
Theorem inserted_lines_localised (key : Py.bytes) (session : string) (mb rc : Z)
    (fs0 : Files) (events : list (AuditEvent * bool))
    (lg : AuditLogger) (fs : Files) (a b : list Line) (x : Line) :
  default [] (current fs0) = [] ->
  rotation_free (new_logger session mb rc key) fs0 events = true ->
  log_all (new_logger session mb rc key) fs0 events = Py.Returned (lg, fs) ->
  current fs = Some (a ++ b) ->
  (body x = Blank ->
   verify_audit_log {| current := Some (a ++ x :: b); rotated := rotated fs |} key
   = Py.Returned (true, []))
  /\ (body x = Malformed ->
      verify_audit_log {| current := Some (a ++ x :: b); rotated := rotated fs |} key
      = Py.Returned (false, [MalformedJson (S (length a))])).
Proof.
  intros Hnone Hfree Hrun Hcur.
  pose proof (logged_chain _ _ _ _ _ _ _ _ _ Hnone Hfree Hrun Hcur) as Hch.
  destruct (chain_cut _ _ _ _ _ Hch) as (q1 & Ha & Hb).
  split; intros Hx; unfold verify_audit_log; cbn [current];
    rewrite (verify_chain_prefix _ _ _ _ Ha); cbn [verify_lines Nat.add];
    unfold verify_line; rewrite Hx, (verify_chain _ _ _ _ Hb); reflexivity.
Qed.

Lemma inserted_lines_localised_witness :
  verify_audit_log
    {| current := Some (take 1 AuditExamples.three
                        ++ {| nbytes := 1; body := Blank |}
                        :: drop 1 AuditExamples.three);
       rotated := ∅ |} (Py.chars "k")
  = Py.Returned (true, [])
  /\ verify_audit_log
       {| current := Some (take 1 AuditExamples.three
                           ++ {| nbytes := 16; body := Malformed |}
                           :: drop 1 AuditExamples.three);
          rotated := ∅ |} (Py.chars "k")
     = Py.Returned (false, [MalformedJson 2]).
Proof.
  set (run := Py.value_or (AuditExamples.logger0, AuditExamples.fresh)
                (log_all AuditExamples.logger0 AuditExamples.fresh
                   [(AuditExamples.ev1, true); (AuditExamples.ev2, true);
                    (AuditExamples.ev3, true)])).
  assert (Hrot : rotated (snd run) = ∅) by (vm_compute; reflexivity).
  assert (H : forall x,
    (body x = Blank ->
     verify_audit_log {| current := Some (take 1 AuditExamples.three ++ x
                                          :: drop 1 AuditExamples.three);
                         rotated := ∅ |} (Py.chars "k")
     = Py.Returned (true, []))
    /\ (body x = Malformed ->
        verify_audit_log {| current := Some (take 1 AuditExamples.three ++ x
                                             :: drop 1 AuditExamples.three);
                            rotated := ∅ |} (Py.chars "k")
        = Py.Returned (false, [MalformedJson 2]))).
  { intros x. rewrite <- Hrot.
    apply (inserted_lines_localised (Py.chars "k") "s1" 100 5 AuditExamples.fresh
             [(AuditExamples.ev1, true); (AuditExamples.ev2, true);
              (AuditExamples.ev3, true)]
             (fst run) (snd run) (take 1 AuditExamples.three)
             (drop 1 AuditExamples.three) x).
    - reflexivity.
    - vm_compute. reflexivity.
    - vm_compute. reflexivity.
    - vm_compute. reflexivity. }
  split; [apply (H {| nbytes := 1; body := Blank |}) |
          apply (H {| nbytes := 16; body := Malformed |})]; reflexivity.
Defined.


(** *** Counting, retention and the convenience methods *)

Lemma log_returns lg fs e ok :
  exists lg' fs',
    log lg fs e ok = Py.Returned (lg', fs')
    /\ _event_count lg' = _event_count lg + (if ok then 1 else 0)
    /\ _session_id lg' = _session_id lg /\ _hmac_key lg' = _hmac_key lg
    /\ _max_size lg' = _max_size lg /\ _rotate_count lg' = _rotate_count lg
    /\ rotated fs' = rotated (_maybe_rotate lg fs)
    /\ length (default [] (current fs'))
       = (length (default [] (current (_maybe_rotate lg fs)))
          + if ok then 1 else 0)%nat.
Proof.
  destruct ok.
  - destruct (log_written lg fs e) as [dict E]. eexists _, _.
    split; [exact E|]. cbn. rewrite length_app. cbn. repeat split; lia.
  - rewrite log_failed. eexists _, _. split; [reflexivity|].
    repeat split; lia.
Qed.

Lemma log_all_counts (events : list (AuditEvent * bool)) :
  forall (lg : AuditLogger) (fs : Files),
  exists lg' fs',
    log_all lg fs events = Py.Returned (lg', fs')
    /\ event_count lg' = event_count lg + Z.of_nat (successes events).
Proof.
  unfold event_count, successes.
  induction events as [|[e ok] rest IH]; intros lg fs.
  - exists lg, fs. cbn. split; [reflexivity | lia].
  - destruct (log_returns lg fs e ok) as (lg1 & fs1 & E & C1 & _).
    destruct (IH lg1 fs1) as (lg2 & fs2 & E2 & C2).
    exists lg2, fs2. cbn [log_all]. rewrite E. split; [exact E2|].
    cbn [List.filter snd]. destruct ok; cbn [length]; lia.
Qed.

(** Over a run of [log] calls that returns, with or without rotation,
    [event_count] goes up by the number of writes that succeeded, and
    the settings of the logger stay as they are. *)
Theorem event_count_counts_writes (lg : AuditLogger) (fs : Files)
    (events : list (AuditEvent * bool)) (lg' : AuditLogger) (fs' : Files) :
  log_all lg fs events = Py.Returned (lg', fs') ->
  event_count lg' = event_count lg + Z.of_nat (successes events)
  /\ _session_id lg' = _session_id lg /\ _hmac_key lg' = _hmac_key lg
  /\ _max_size lg' = _max_size lg /\ _rotate_count lg' = _rotate_count lg.
Proof.
  unfold event_count, successes. revert lg fs.
  induction events as [|[e ok] rest IH]; intros lg fs Hrun.
  - cbn in Hrun. injection Hrun as <- <-. cbn. repeat split; lia.
  - cbn [log_all] in Hrun.
    destruct (log_returns lg fs e ok) as (lg1 & fs1 & E & C1 & S1 & K1 & M1 & R1 & _).
    rewrite E in Hrun.
    destruct (IH lg1 fs1 Hrun) as (C2 & S2 & K2 & M2 & R2).
    cbn [List.filter snd]. destruct ok; cbn [length];
      repeat split; try congruence; lia.
Qed.

Lemma event_count_counts_writes_witness :
  let calls := [(AuditExamples.ev1, true); (AuditExamples.ev2, false);
                (AuditExamples.ev3, true)] in
  let run := Py.value_or (AuditExamples.logger0, AuditExamples.fresh)
               (log_all AuditExamples.logger0 AuditExamples.fresh calls) in
  log_all AuditExamples.logger0 AuditExamples.fresh calls
  = Py.Returned (fst run, snd run)
  /\ event_count (fst run) = 2.
Proof.
  intros calls run.
  assert (Hrun : log_all AuditExamples.logger0 AuditExamples.fresh calls
                 = Py.Returned (fst run, snd run)) by (vm_compute; reflexivity).
  split; [exact Hrun|].
  destruct (event_count_counts_writes _ _ _ _ _ Hrun) as (H & _).
  exact H.
Defined.

Lemma rotate_bounded lg fs :
  1 <= _rotate_count lg ->
  slots_bounded (_rotate_count lg) fs ->
  slots_bounded (_rotate_count lg) (_maybe_rotate lg fs).
Proof.
  intros Hrc Hb. unfold _maybe_rotate.
  destruct (current fs) as [f|] eqn:Hcur; [|exact Hb].
  destruct (_max_size lg <=? file_size f); [|exact Hb].
  destruct (RotationProps.rotate_lookup lg fs f Hcur Hrc) as (_ & R1 & R2 & R3).
  intros j Hj.
  destruct (decide (1 <= j <= _rotate_count lg)) as [Hin|Hout]; [exact Hin|].
  exfalso. rewrite R3 in Hj by lia. specialize (Hb j Hj). lia.
Qed.

(** With a retention count of at least one, a logger never leaves a
    rotated file outside the slots [1 .. rotate_count]. *)
Theorem rotation_keeps_slots (events : list (AuditEvent * bool)) :
  forall (lg : AuditLogger) (fs : Files),
  1 <= _rotate_count lg ->
  slots_bounded (_rotate_count lg) fs ->
  exists lg' fs',
    log_all lg fs events = Py.Returned (lg', fs')
    /\ forall j, is_Some (rotated fs' !! j) -> 1 <= j <= _rotate_count lg.
Proof.
  induction events as [|[e ok] rest IH]; intros lg fs Hrc Hb.
  - exists lg, fs. split; [reflexivity | exact Hb].
  - destruct (log_returns lg fs e ok) as (lg1 & fs1 & E & _ & _ & _ & _ & R1 & F1 & _).
    assert (Hb1 : slots_bounded (_rotate_count lg1) fs1).
    { rewrite R1. intros j. rewrite F1. now apply rotate_bounded. }
    destruct (IH lg1 fs1 ltac:(lia) Hb1) as (lg2 & fs2 & E2 & H2).
    exists lg2, fs2. cbn [log_all]. rewrite E. split; [exact E2|].
    intros j Hj. rewrite <- R1. exact (H2 j Hj).
Qed.

Lemma rotation_keeps_slots_witness :
  exists lg' fs',
    log_all AuditExamples.logger_mb0 AuditExamples.fresh
      [(AuditExamples.ev1, true); (AuditExamples.ev2, true);
       (AuditExamples.ev3, true)]
    = Py.Returned (lg', fs')
    /\ forall j, is_Some (rotated fs' !! j) -> 1 <= j <= 5.
Proof.
  apply (rotation_keeps_slots
           [(AuditExamples.ev1, true); (AuditExamples.ev2, true);
            (AuditExamples.ev3, true)]
           AuditExamples.logger_mb0 AuditExamples.fresh).
  - vm_compute. discriminate.
  - intros j [x Hx]. cbn in Hx. rewrite lookup_empty in Hx. discriminate.
Defined.

Lemma perform_all_log_all calls : forall lg fs,
  perform_all lg fs calls
  = log_all lg fs (map (fun c => (event_of c.1.1 c.1.2, c.2)) calls).
Proof.
  induction calls as [|[[ts c] ok] rest IH]; intros lg fs; [reflexivity|].
  cbn [perform_all map log_all fst snd]. unfold perform.
  destruct (log lg fs (event_of ts c) ok) as [x|[lg' fs']]; [reflexivity|].
  apply IH.
Qed.

Lemma log_all_lines events : forall lg fs lg' fs',
  rotation_free lg fs events = true ->
  log_all lg fs events = Py.Returned (lg', fs') ->
  length (default [] (current fs'))
  = (length (default [] (current fs)) + successes events)%nat.
Proof.
  unfold successes.
  induction events as [|[e ok] rest IH]; intros lg fs lg' fs' Hfree Hrun.
  - injection Hrun as <- <-. cbn. lia.
  - cbn [rotation_free] in Hfree. apply andb_true_iff in Hfree as [Hrot Hrest].
    apply negb_true_iff in Hrot.
    destruct (log_returns lg fs e ok) as (lg1 & fs1 & E & _ & _ & _ & _ & _ & _ & L1).
    cbn [log_all] in Hrun. rewrite E in Hrun, Hrest.
    rewrite (maybe_rotate_quiet _ _ Hrot) in L1.
    rewrite (IH _ _ _ _ Hrest Hrun), L1.
    cbn [List.filter snd]. destruct ok; cbn [length]; lia.
Qed.

(** Any run of the convenience methods on a new logger, begun without a
    store and free of rotation, leaves a store that verifies and that
    holds one entry for each call whose write succeeded. *)
Theorem convenience_calls_verify (session : string) (mb rc : Z) (key : Py.bytes)
    (fs0 : Files) (calls : list (string * Call * bool)) :
  default [] (current fs0) = [] ->
  rotation_free (new_logger session mb rc key) fs0
    (map (fun c => (event_of c.1.1 c.1.2, c.2)) calls) = true ->
  exists lg fs,
    perform_all (new_logger session mb rc key) fs0 calls = Py.Returned (lg, fs)
    /\ verify_audit_log fs key = Py.Returned (true, [])
    /\ length (default [] (current fs)) = successes calls
    /\ event_count lg = Z.of_nat (successes calls).
Proof.
  intros Hnone Hfree. rewrite perform_all_log_all.
  set (events := map (fun c => (event_of c.1.1 c.1.2, c.2)) calls) in *.
  assert (Hs : successes events = successes calls).
  { unfold successes, events. clear. induction calls as [|[[ts c] ok] rest IH];
      [reflexivity|].
    cbn [map List.filter snd fst]. destruct ok; cbn [length]; now rewrite IH. }
  assert (Hin : in_step (new_logger session mb rc key) fs0).
  { unfold in_step. rewrite Hnone. constructor. }
  destruct (log_all_keeps_step events _ _ Hin Hfree) as (lg & fs & E & Hin' & Hk).
  exists lg, fs. split; [exact E|]. split.
  - cbn [new_logger _hmac_key] in Hk. rewrite <- Hk. now apply verify_in_step.
  - split.
    + rewrite (log_all_lines _ _ _ _ _ Hfree E), Hnone, Hs. reflexivity.
    + destruct (log_all_counts events (new_logger session mb rc key) fs0)
        as (lg2 & fs2 & E2 & C2).
      rewrite E in E2. injection E2 as <- <-. rewrite C2, Hs. cbn. lia.
Qed.


Lemma convenience_calls_verify_witness :
  let calls :=
    [("2024-01-01T00:00:00+00:00"%string,
      log_permission_request "r1" "file_edit" "src/a.ts" "low" (Some "ctx"%string),
      true);
     ("2024-01-01T00:05:00+00:00"%string,
      log_permission_response "r1" false 0 true (Some "timeout"%string) None,
      true);
     ("2024-01-01T00:05:01+00:00"%string, log_error "boom" None, false)] in
  exists lg fs,
    perform_all (new_logger "s1" 100 5 (Py.chars "k")) AuditExamples.fresh calls
    = Py.Returned (lg, fs)
    /\ verify_audit_log fs (Py.chars "k") = Py.Returned (true, [])
    /\ length (default [] (current fs)) = 2%nat
    /\ event_count lg = 2.
Proof.
  intros calls.
  apply (convenience_calls_verify "s1" 100 5 (Py.chars "k") AuditExamples.fresh calls).
  - reflexivity.
  - vm_compute. reflexivity.
Defined.

(** *** Keys given as text *)

(** A key given as hexadecimal text stands for the bytes it spells: the
    logger made with [k.hex()] holds the key [k], whether the text comes
    as an argument or from the environment, and the verifier answers for
    [k.hex()] as for [k]; an argument takes precedence over the
    environment, and text that is not hexadecimal raises [ValueError],
    in the verifier even when the store does not exist. *)
Theorem text_key_is_its_bytes (k : Py.bytes) (fs : Files) :
  (forall session generated mb rc env fresh,
     init_logger (Some session) generated mb rc
       (Some (KeyText (Py.str_of (Py.hex k)))) env fresh
     = init_logger (Some session) generated mb rc (Some (KeyBytes k)) env fresh)
  /\ (forall env fresh,
        _init_hmac_key (Some (KeyText (Py.str_of (Py.hex k)))) env fresh
        = Py.Returned k)
  /\ (forall fresh, k <> [] ->
        _init_hmac_key None (Some (Py.str_of (Py.hex k))) fresh = Py.Returned k)
  /\ verify_audit_log_with fs (KeyText (Py.str_of (Py.hex k)))
     = verify_audit_log_with fs (KeyBytes k)
  /\ (forall s env fresh, Py.fromhex (Py.chars s) = None ->
        _init_hmac_key (Some (KeyText s)) env fresh = Py.Raised Py.ValueError
        /\ verify_audit_log_with {| current := None; rotated := ∅ |} (KeyText s)
           = Py.Raised Py.ValueError).
Proof.
  assert (Hk : Py.fromhex (Py.chars (Py.str_of (Py.hex k))) = Some k)
    by (rewrite chars_str_of; apply fromhex_hex).
  split; [|split; [|split; [|split]]].
  - intros. unfold init_logger, _init_hmac_key. now rewrite Hk.
  - intros. unfold _init_hmac_key. now rewrite Hk.
  - intros fresh Hne. unfold _init_hmac_key. rewrite Hk.
    destruct (String.eqb_spec (Py.str_of (Py.hex k)) "") as [E|_]; [|reflexivity].
    now apply hex_nil in E.
  - unfold verify_audit_log_with. now rewrite Hk.
  - intros s env fresh Hs. unfold _init_hmac_key, verify_audit_log_with.
    now rewrite Hs.
Qed.

Lemma text_key_is_its_bytes_witness :
  _init_hmac_key None (Some "6b6B"%string) [] = Py.Returned (Py.chars "kk")
  /\ verify_audit_log_with {| current := None; rotated := ∅ |} (KeyText "xyz")
     = Py.Raised Py.ValueError.
Proof.
  pose proof (text_key_is_its_bytes (Py.chars "kk") AuditExamples.fresh)
    as (_ & _ & H3 & _ & H5).
  split.
  - etransitivity; [|apply (H3 []); discriminate]. reflexivity.
  - apply (H5 "xyz"%string None []). reflexivity.
Defined.

End AuditMoreProps.

(** ** Callback data of the keyboards *)

Module KeyboardsProps.
Import PyFacts PyIntFacts Base64Facts CryptoProps Keyboards KeyboardsInv.

Lemma chars_append (a b : string) : Py.chars (a ++ b)%string = Py.chars a ++ Py.chars b.
Proof.
  unfold Py.chars. induction a as [|c a IH]; [reflexivity|].
  simpl. f_equal. exact IH.
Qed.

Lemma cut_none sep l : Py.contains sep l = false -> cut sep l = None.
Proof.
  unfold Py.contains. induction l as [|c r IH]; [reflexivity|].
  cbn [existsb cut]. intros H. apply orb_false_iff in H as [Hc Hr].
  rewrite Ascii.eqb_sym, Hc. now rewrite IH.
Qed.

Lemma cut_first sep a r :
  Py.contains sep a = false -> cut sep (a ++ sep :: r) = Some (a, r).
Proof.
  unfold Py.contains. induction a as [|c a IH]; intros H.
  - cbn. now rewrite Ascii.eqb_refl.
  - cbn [existsb] in H. apply orb_false_iff in H as [Hc Ha].
    cbn [app cut]. rewrite Ascii.eqb_sym, Hc. now rewrite IH.
Qed.

Lemma verified_payload key now t payload :
  fresh_at t now ->
  Crypto.verify key t (Crypto.sign key now payload) Crypto.CALLBACK_MAX_AGE_SECONDS
  = Some {| Crypto.payload := payload; Crypto.timestamp := now;
            Crypto.signature := Py.str_of (CryptoInv.sig_text key now payload) |}.
Proof.
  intros [H1 H2]. rewrite verify_sign.
  replace (Crypto.CALLBACK_MAX_AGE_SECONDS <? t - now) with false
    by (symmetry; apply Z.ltb_ge; exact H1).
  replace (t + 60 <? now) with false by (symmetry; apply Z.ltb_ge; exact H2).
  reflexivity.
Qed.

(** What [parse_callback_data] makes of a button's data, signed or
    not. *)
Lemma parse_button (signer : option Py.bytes) now t payload :
  match signer with Some _ => fresh_at t now | None => True end ->
  parse_callback_data signer t
    match signer with
    | Some key => Crypto.sign key now payload
    | None => payload
    end
  = match split2 colon (Py.chars payload) with
    | [] => Py.Raised Py.ValueError
    | first :: more =>
        match action_of (Py.str_of first) with
        | None => Py.Raised Py.ValueError
        | Some action =>
            Py.Returned {| action := action;
                           request_id := Py.str_of <$> more !! 0%nat;
                           extra := Py.str_of <$> more !! 1%nat |}
        end
    end.
Proof.
  intros Hf. unfold parse_callback_data. destruct signer as [key|]; [|reflexivity].
  now rewrite (verified_payload _ _ _ _ Hf).
Qed.

(** The buttons parse back to what they were made from: the permission
    buttons to their action and the request identifier, the
    confirmation buttons to their action, the confirmed action and the
    data, with or without a signer, as long as the identifier (the
    confirmed action) holds no colon and a signed button is pressed
    while it is fresh. *)
Theorem keyboard_round_trip (signer : option Py.bytes) (now now' t : Z)
    (request_id confirmed data : string) :
  match signer with
  | Some _ => fresh_at t now /\ fresh_at t now'
  | None => True
  end ->
  (Py.contains colon (Py.chars request_id) = false ->
   let buttons := create_permission_keyboard signer now now' request_id in
   parse_callback_data signer t (fst buttons)
   = Py.Returned {| action := APPROVE; request_id := Some request_id;
                    extra := None |}
   /\ parse_callback_data signer t (snd buttons)
      = Py.Returned {| action := DENY; request_id := Some request_id;
                       extra := None |})
  /\ (Py.contains colon (Py.chars confirmed) = false ->
      let buttons := create_confirmation_keyboard signer now now' confirmed data in
      parse_callback_data signer t (fst buttons)
      = Py.Returned {| action := CONFIRM; request_id := Some confirmed;
                       extra := Some data |}
      /\ parse_callback_data signer t (snd buttons)
         = Py.Returned {| action := CANCEL; request_id := Some confirmed;
                          extra := Some data |}).
Proof.
  intros Hf.
  assert (H1 : match signer with Some _ => fresh_at t now | None => True end)
    by (destruct signer; tauto).
  assert (H2 : match signer with Some _ => fresh_at t now' | None => True end)
    by (destruct signer; tauto).
  assert (Hp : forall a, Py.contains colon (Py.chars (action_value a)) = false)
    by (intros []; reflexivity).
  split.
  - intros Hid buttons.
    assert (S : forall a, split2 colon (Py.chars (action_value a ++ ":" ++ request_id)%string)
                          = [Py.chars (action_value a); Py.chars request_id]).
    { intros a. rewrite chars_append. unfold split2.
      change (Py.chars (":" ++ request_id)%string) with (colon :: Py.chars request_id).
      rewrite cut_first by apply Hp. now rewrite cut_none. }
    subst buttons. unfold create_permission_keyboard. split.
    + pose proof (parse_button signer now t (action_value APPROVE ++ ":" ++ request_id)%string H1) as P.
      rewrite S in P. cbv zeta. destruct signer; cbn [fst snd]; rewrite P; cbn;
        now rewrite !str_of_chars.
    + pose proof (parse_button signer now' t (action_value DENY ++ ":" ++ request_id)%string H2) as P.
      rewrite S in P. cbv zeta. destruct signer; cbn [fst snd]; rewrite P; cbn;
        now rewrite !str_of_chars.
  - intros Hid buttons.
    assert (S : forall a, split2 colon
                  (Py.chars (action_value a ++ ":" ++ confirmed ++ ":" ++ data)%string)
                = [Py.chars (action_value a); Py.chars confirmed; Py.chars data]).
    { intros a. rewrite chars_append. unfold split2.
      change (Py.chars (":" ++ confirmed ++ ":" ++ data)%string)
        with (colon :: Py.chars (confirmed ++ ":" ++ data)%string).
      rewrite cut_first by apply Hp. rewrite chars_append.
      change (Py.chars (":" ++ data)%string) with (colon :: Py.chars data).
      now rewrite cut_first. }
    subst buttons. unfold create_confirmation_keyboard. split.
    + pose proof (parse_button signer now t
                    (action_value CONFIRM ++ ":" ++ confirmed ++ ":" ++ data)%string H1) as P.
      rewrite S in P. cbv zeta. destruct signer; cbn [fst snd]; rewrite P; cbn;
        now rewrite !str_of_chars.
    + pose proof (parse_button signer now' t
                    (action_value CANCEL ++ ":" ++ confirmed ++ ":" ++ data)%string H2) as P.
      rewrite S in P. cbv zeta. destruct signer; cbn [fst snd]; rewrite P; cbn;
        now rewrite !str_of_chars.
Qed.

Lemma keyboard_round_trip_witness :
  parse_callback_data (Some (Py.chars "secret")) 1700000200
    (fst (create_permission_keyboard (Some (Py.chars "secret"))
            1700000000 1700000001 "abc123"))
  = Py.Returned {| action := APPROVE; request_id := Some "abc123"%string;
                   extra := None |}
  /\ parse_callback_data None 0
       (snd (create_confirmation_keyboard None 0 0 "halt" "a:b"))
     = Py.Returned {| action := CANCEL; request_id := Some "halt"%string;
                      extra := Some "a:b"%string |}.
Proof.
  split.
  - destruct (keyboard_round_trip (Some (Py.chars "secret")) 1700000000 1700000001
                1700000200 "abc123" "halt" "a:b") as (H & _).
    + unfold fresh_at, Crypto.CALLBACK_MAX_AGE_SECONDS. lia.
    + apply H. reflexivity.
  - destruct (keyboard_round_trip None 0 0 0 "abc123" "halt" "a:b") as (_ & H).
    + exact I.
    + apply H. reflexivity.
Defined.



(** *** Rejected data *)

Lemma occurrences_none sep l :
  occurrences sep l = 0%nat -> Forall (fun c => Ascii.eqb c sep = false) l.
Proof.
  unfold occurrences. induction l as [|c r IH]; intros H; [constructor|].
  cbn [List.filter] in H. destruct (Ascii.eqb sep c) eqn:E; [discriminate|].
  constructor; [now rewrite Ascii.eqb_sym | auto].
Qed.

Lemma rcut_occurrences sep l :
  match Py.rcut sep l with
  | Some (a, z) => occurrences sep l = S (occurrences sep a)
  | None => occurrences sep l = 0%nat
  end.
Proof.
  unfold occurrences. induction l as [|c r IH]; [reflexivity|].
  cbn [Py.rcut List.filter]. destruct (Py.rcut sep r) as [[a z]|].
  - cbn [List.filter]. destruct (Ascii.eqb sep c); cbn [length]; now rewrite IH.
  - rewrite (Ascii.eqb_sym sep c). destruct (Ascii.eqb c sep); cbn [length].
    + now rewrite IH.
    + exact IH.
Qed.

Lemma rsplit2_few sep l :
  (occurrences sep l < 2)%nat ->
  Py.rsplit2 sep l = [l] \/ exists a z, Py.rsplit2 sep l = [a; z].
Proof.
  intros H. unfold Py.rsplit2. pose proof (rcut_occurrences sep l) as H1.
  destruct (Py.rcut sep l) as [[a z]|]; [|now left].
  right. exists a, z. pose proof (rcut_occurrences sep a) as H2.
  destruct (Py.rcut sep a) as [[x y]|]; [lia | reflexivity].
Qed.

(** With a signer set, data that is not a fresh token of that signer is
    refused with [ValueError]: text with fewer than two bars, such as
    the unsigned data of a button, and a token that is too old or dated
    too far ahead.  With or without a signer, so is data whose first
    field is not one of the five actions. *)
Theorem forged_data_rejected (key : Py.bytes) (t : Z) :
  (forall data, (occurrences Crypto.bar (Py.chars data) < 2)%nat ->
     parse_callback_data (Some key) t data = Py.Raised Py.ValueError)
  /\ (forall now payload, ~ fresh_at t now ->
        parse_callback_data (Some key) t (Crypto.sign key now payload)
        = Py.Raised Py.ValueError)
  /\ (forall now payload,
        fresh_at t now ->
        action_of (Py.str_of (hd [] (split2 colon (Py.chars payload)))) = None ->
        parse_callback_data (Some key) t (Crypto.sign key now payload)
        = Py.Raised Py.ValueError)
  /\ (forall data,
        action_of (Py.str_of (hd [] (split2 colon (Py.chars data)))) = None ->
        parse_callback_data None t data = Py.Raised Py.ValueError).
Proof.
  split; [|split; [|split]].
  - intros data H. unfold parse_callback_data, Crypto.verify.
    destruct (rsplit2_few _ _ H) as [->|(a & z & ->)]; reflexivity.
  - intros now payload Hf. unfold parse_callback_data. rewrite verify_sign.
    unfold fresh_at in Hf.
    destruct (Z.ltb_spec Crypto.CALLBACK_MAX_AGE_SECONDS (t - now)); [reflexivity|].
    destruct (Z.ltb_spec (t + 60) now); [reflexivity|]. lia.
  - intros now payload Hf Ha.
    pose proof (parse_button (Some key) now t payload Hf) as P. cbv beta iota in P.
    rewrite P. destruct (split2 colon (Py.chars payload)) as [|first more];
      [reflexivity|].
    cbn [hd] in Ha. now rewrite Ha.
  - intros data Ha. unfold parse_callback_data.
    destruct (split2 colon (Py.chars data)) as [|first more]; [reflexivity|].
    cbn [hd] in Ha. now rewrite Ha.
Qed.

Lemma forged_data_rejected_witness :
  parse_callback_data (Some (Py.chars "secret")) 1700000000 "approve:abc123"
  = Py.Raised Py.ValueError
  /\ parse_callback_data (Some (Py.chars "secret")) 1700000301
       (Crypto.sign (Py.chars "secret") 1700000000 "approve:abc123")
     = Py.Raised Py.ValueError
  /\ parse_callback_data None 1700000000 "grant:abc123" = Py.Raised Py.ValueError.
Proof.
  pose proof (forged_data_rejected (Py.chars "secret") 1700000000) as (H1 & _ & _ & H4).
  pose proof (forged_data_rejected (Py.chars "secret") 1700000301) as (_ & H2 & _).
  split; [apply H1; vm_compute; lia|]. split.
  - apply H2. unfold fresh_at, Crypto.CALLBACK_MAX_AGE_SECONDS. lia.
  - apply H4. reflexivity.
Defined.


(** *** Size of a token *)

Lemma digits_length (k : nat) : forall fuel n acc,
  10 ^ Z.of_nat k <= n < 10 ^ Z.of_nat (S k) -> (k < fuel)%nat ->
  length (PyInt.digits fuel n acc) = (S k + length acc)%nat.
Proof.
  induction k as [|k IH]; intros fuel n acc Hn Hf;
    (destruct fuel as [|f]; [lia|]); cbn [PyInt.digits].
  - change (10 ^ Z.of_nat 0) with 1 in Hn. change (10 ^ Z.of_nat 1) with 10 in Hn.
    replace (n <? 10) with true by (symmetry; apply Z.ltb_lt; lia). reflexivity.
  - rewrite !Nat2Z.inj_succ, !Z.pow_succ_r in Hn by lia.
    assert (1 <= 10 ^ Z.of_nat k) by (apply Z.pow_le_mono_r with (b := 0); lia).
    replace (n <? 10) with false by (symmetry; apply Z.ltb_ge; lia).
    rewrite IH; [cbn [length]; lia | | lia].
    rewrite Nat2Z.inj_succ, Z.pow_succ_r by lia. split.
    + apply Z.div_le_lower_bound; lia.
    + apply Z.div_lt_upper_bound; lia.
Qed.

(** A clock reading of these decades has ten digits. *)
Lemma str_ten_digits n :
  1000000000 <= n < 10000000000 -> length (PyInt.str n) = 10%nat.
Proof.
  intros Hn. unfold PyInt.str.
  replace (n <? 0) with false by (symmetry; apply Z.ltb_ge; lia).
  rewrite (digits_length 9); [reflexivity | exact Hn |].
  assert (29 <= Z.log2 n).
  { change 29 with (Z.log2 (2 ^ 29)). apply Z.log2_le_mono. lia. }
  lia.
Qed.

Lemma utf8_ascii l : Py.is_ascii l = true -> Py.utf8 l = l.
Proof.
  unfold Py.is_ascii, Py.utf8. induction l as [|c r IH]; [reflexivity|].
  cbn [forallb flat_map]. intros H. apply andb_true_iff in H as [Hc Hr].
  rewrite Hc. cbn [app]. now rewrite IH.
Qed.

Lemma is_ascii_app a b :
  Py.is_ascii (a ++ b) = Py.is_ascii a && Py.is_ascii b.
Proof. apply forallb_app. Qed.

Lemma is_ascii_digits n : Py.is_ascii (PyInt.str n) = true.
Proof.
  unfold Py.is_ascii. apply forallb_forall. intros c Hc.
  pose proof (str_chars n) as H. rewrite List.Forall_forall in H.
  destruct (H c Hc) as [(d & Hd & ->)| ->]; [|reflexivity].
  unfold PyInt.digit_char. rewrite byte_val_of by lia. apply Z.ltb_lt. lia.
Qed.

(** The signature field: 22 characters of the alphabet. *)
Lemma sig_text_shape key now payload :
  length (CryptoInv.sig_text key now payload) = 22%nat
  /\ Forall Base64Inv.clean (CryptoInv.sig_text key now payload).
Proof.
  unfold CryptoInv.sig_text.
  set (m := Sha256.hmac key _).
  assert (Hm : length (take 16 m) = 16%nat).
  { rewrite length_take. subst m. rewrite Sha256Facts.hmac_length. reflexivity. }
  destruct (take 16 m) as [|a1 [|a2 [|a3 [|a4 [|a5 [|a6 [|a7 [|a8 [|a9 [|a10
    [|a11 [|a12 [|a13 [|a14 [|a15 [|a16 [|a17 h]]]]]]]]]]]]]]]]]; try discriminate.
  clear Hm.
  pose proof (byte_val_range a1). pose proof (byte_val_range a2).
  pose proof (byte_val_range a3). pose proof (byte_val_range a4).
  pose proof (byte_val_range a5). pose proof (byte_val_range a6).
  pose proof (byte_val_range a7). pose proof (byte_val_range a8).
  pose proof (byte_val_range a9). pose proof (byte_val_range a10).
  pose proof (byte_val_range a11). pose proof (byte_val_range a12).
  pose proof (byte_val_range a13). pose proof (byte_val_range a14).
  pose proof (byte_val_range a15). pose proof (byte_val_range a16).
  cbn [Base64.urlsafe_b64encode].
  match goal with
  | |- context [Crypto.rstrip_eq ?l] =>
      assert (E : exists body, l = body ++ repeat "="%char 2
                               /\ length body = 22%nat /\ Forall Base64Inv.clean body)
  end.
  { eexists [_; _; _; _; _; _; _; _; _; _; _; _; _; _; _; _; _; _; _; _; _; _].
    split; [reflexivity|]. split; [reflexivity|].
    repeat (constructor; [apply clean_b64char; sextet|]). constructor. }
  destruct E as (body & -> & Hl & Hb).
  rewrite rstrip_eq_body by exact Hb. auto.
Qed.

Lemma clean_is_ascii body : Forall Base64Inv.clean body -> Py.is_ascii body = true.
Proof.
  intros H. pose proof (is_ascii_shape body 0 H) as E.
  cbn [repeat] in E. now rewrite app_nil_r in E.
Qed.

(** A token is its payload, the clock reading and 22 characters of
    signature, joined by two bars; so the signed data of a permission
    button for an ASCII identifier of at most 22 characters fits in the
    64 bytes that the messenger allows, as long as the clock has ten
    digits. *)
Theorem signed_data_fits (key : Py.bytes) (now now' : Z) (request_id : string) :
  (forall payload,
     length (Py.chars (Crypto.sign key now payload))
     = (length (Py.chars payload) + length (PyInt.str now) + 24)%nat)
  /\ (1000000000 <= now < 10000000000 ->
      1000000000 <= now' < 10000000000 ->
      Py.is_ascii (Py.chars request_id) = true ->
      (length (Py.chars request_id) <= 22)%nat ->
      let buttons := create_permission_keyboard (Some key) now now' request_id in
      length (Py.utf8 (Py.chars (fst buttons)))
      = (42 + length (Py.chars request_id))%nat
      /\ length (Py.utf8 (Py.chars (snd buttons)))
         = (39 + length (Py.chars request_id))%nat
      /\ (length (Py.utf8 (Py.chars (fst buttons))) <= 64)%nat
      /\ (length (Py.utf8 (Py.chars (snd buttons))) <= 64)%nat).
Proof.
  assert (Hlen : forall t payload,
    length (Py.chars (Crypto.sign key t payload))
    = (length (Py.chars payload) + length (PyInt.str t) + 24)%nat).
  { intros t payload. unfold Crypto.sign. cbv zeta.
    fold (CryptoInv.sig_text key t payload).
    destruct (sig_text_shape key t payload) as (Hs & _).
    rewrite chars_str_of. rewrite length_app. cbn [length].
    rewrite length_app. cbn [length]. rewrite Hs. lia. }
  assert (Hascii : forall t payload, Py.is_ascii (Py.chars payload) = true ->
    Py.is_ascii (Py.chars (Crypto.sign key t payload)) = true).
  { intros t payload Hp. unfold Crypto.sign. cbv zeta.
    fold (CryptoInv.sig_text key t payload).
    destruct (sig_text_shape key t payload) as (_ & Hc).
    rewrite chars_str_of.
    change (Py.chars payload ++ Crypto.bar :: PyInt.str t
            ++ Crypto.bar :: CryptoInv.sig_text key t payload)
      with (Py.chars payload ++ [Crypto.bar] ++ PyInt.str t
            ++ [Crypto.bar] ++ CryptoInv.sig_text key t payload).
    rewrite !is_ascii_app, Hp, is_ascii_digits, (clean_is_ascii _ Hc).
    reflexivity. }
  split; [apply Hlen|].
  intros Hn Hn' Hid Hshort buttons. subst buttons.
  unfold create_permission_keyboard. cbv zeta. cbn [fst snd].
  assert (Ha : forall a, Py.is_ascii (Py.chars (action_value a ++ ":" ++ request_id)%string) = true).
  { intros a. rewrite chars_append, is_ascii_app.
    change (Py.chars (":" ++ request_id)%string) with ([colon] ++ Py.chars request_id).
    rewrite is_ascii_app, Hid. now destruct a. }
  rewrite !utf8_ascii by (apply Hascii, Ha).
  rewrite !Hlen, !chars_append, !length_app, !str_ten_digits by assumption.
  change (Py.chars (":" ++ request_id)%string) with (colon :: Py.chars request_id).
  cbn [length action_value Py.chars list_ascii_of_string]. lia.
Qed.

Lemma signed_data_fits_witness :
  let buttons :=
    create_permission_keyboard (Some (Py.chars "secret")) 1700000000 1700000001
      "3f2a9c1e" in
  length (Py.utf8 (Py.chars (fst buttons))) = 50%nat
  /\ length (Py.utf8 (Py.chars (snd buttons))) = 47%nat.
Proof.
  destruct (signed_data_fits (Py.chars "secret") 1700000000 1700000001 "3f2a9c1e")
    as (_ & H).
  destruct H as (H1 & H2 & _); try lia; try reflexivity.
  - cbn. lia.
  - exact (conj H1 H2).
Defined.


(** *** What [verify] accepts *)

Lemma rcut_inv sep l a z :
  Py.rcut sep l = Some (a, z) ->
  l = a ++ sep :: z /\ Py.contains sep z = false.
Proof.
  revert a. induction l as [|c r IH]; intros a H; [discriminate|].
  cbn [Py.rcut] in H. destruct (Py.rcut sep r) as [[a' z']|] eqn:E.
  - injection H as <- <-. destruct (IH a' eq_refl) as (-> & Hz). auto.
  - destruct (Ascii.eqb_spec c sep) as [->|Hne]; [|discriminate].
    injection H as <- <-. split; [reflexivity|].
    pose proof (rcut_occurrences sep r) as Ho. rewrite E in Ho.
    apply occurrences_none in Ho. unfold Py.contains. clear E IH.
    induction Ho as [|x l Hx _ IHl]; [reflexivity|].
    cbn [existsb]. rewrite Ascii.eqb_sym, Hx. exact IHl.
Qed.

Lemma rsplit2_inv sep l x y z :
  Py.rsplit2 sep l = [x; y; z] ->
  l = x ++ sep :: y ++ sep :: z
  /\ Py.contains sep y = false /\ Py.contains sep z = false.
Proof.
  unfold Py.rsplit2. destruct (Py.rcut sep l) as [[a z']|] eqn:E1; [|discriminate].
  destruct (Py.rcut sep a) as [[x' y']|] eqn:E2; [|discriminate].
  intros [= <- <- <-].
  destruct (rcut_inv _ _ _ _ E1) as (-> & Hz).
  destruct (rcut_inv _ _ _ _ E2) as (-> & Hy).
  rewrite <- app_assoc. auto.
Qed.

(** Whatever [verify] accepts is the three fields of its result joined
    by bars, with a time stamp inside the window from [max_age] seconds
    ago to 60 seconds ahead, and a signature field that decodes to the
    first 16 bytes of the HMAC of the first two fields under the key. *)
Theorem verify_accepts_only (key : Py.bytes) (now max_age : Z)
    (signed_data : string) (d : Crypto.SignedCallbackData) :
  Crypto.verify key now signed_data max_age = Some d ->
  exists timestamp_str,
    Py.chars signed_data
    = Py.chars (Crypto.payload d) ++ Crypto.bar :: timestamp_str
      ++ Crypto.bar :: Py.chars (Crypto.signature d)
    /\ PyInt.parse timestamp_str = Some (Crypto.timestamp d)
    /\ now - max_age <= Crypto.timestamp d <= now + 60
    /\ Py.contains Crypto.bar timestamp_str = false
    /\ Py.contains Crypto.bar (Py.chars (Crypto.signature d)) = false
    /\ Base64.urlsafe_b64decode (padded (Py.chars (Crypto.signature d)))
       = Some (take 16 (Sha256.hmac key
           (Py.utf8 (Py.chars (Crypto.payload d) ++ Crypto.bar :: timestamp_str)))).
Proof.
  unfold Crypto.verify.
  destruct (Py.rsplit2 Crypto.bar (Py.chars signed_data))
    as [|p [|ts [|sg [|? ?]]]] eqn:E; try discriminate.
  destruct (rsplit2_inv _ _ _ _ _ E) as (Hl & Hts & Hsg).
  destruct (PyInt.parse ts) as [t0|] eqn:Ep; [|discriminate].
  destruct (Z.ltb_spec max_age (now - t0)); [discriminate|].
  destruct (Z.ltb_spec (now + 60) t0); [discriminate|].
  cbv zeta. fold (padded sg).
  destruct (Base64.urlsafe_b64decode (padded sg)) as [received|] eqn:Ed;
    [|discriminate].
  case_bool_decide as Heq; [|discriminate].
  intros [= <-]. cbn [Crypto.payload Crypto.timestamp Crypto.signature].
  exists ts. rewrite !chars_str_of.
  repeat split; try assumption; try lia. now rewrite Heq.
Qed.

Lemma verify_accepts_only_witness :
  exists timestamp_str,
    PyInt.parse timestamp_str = Some 1700000000
    /\ 1700000100 - 300 <= 1700000000 <= 1700000100 + 60.
Proof.
  destruct (verify_accepts_only (Py.chars "secret") 1700000100 300
              "approve:abc123|1700000000|eetTkzcIp1IeTDuE-llo3g"
              {| Crypto.payload := "approve:abc123"; Crypto.timestamp := 1700000000;
                 Crypto.signature := "eetTkzcIp1IeTDuE-llo3g" |})
    as (ts & _ & H2 & H3 & _).
  - vm_compute. reflexivity.
  - exists ts. split; [exact H2 | exact H3].
Defined.

Lemma a2b_skip junk : forall rest quad left pads,
  Forall skipped junk ->
  Base64.a2b_base64 (junk ++ rest) quad left pads
  = Base64.a2b_base64 rest quad left pads.
Proof.
  induction junk as [|c junk IH]; intros rest quad left pads H; [reflexivity|].
  inversion H as [|? ? (_ & Hv & He & _) Hj]; subst.
  cbn [app Base64.a2b_base64]. rewrite He, Hv. now apply IH.
Qed.

Lemma skipped_is_ascii junk : Forall skipped junk -> Py.is_ascii junk = true.
Proof.
  unfold Py.is_ascii. induction 1 as [|c r (Hc & _) _ IH]; [reflexivity|].
  cbn [forallb]. now rewrite Hc, IH.
Qed.

(** The signature field is not canonical: a token stays valid when
    characters that the decoder skips are put in front of its
    signature, four at a time, and [verify] then returns the altered
    field as the signature. *)
Theorem signature_field_not_canonical (key : Py.bytes) (t0 now max_age : Z)
    (payload : string) (junk : list ascii) :
  now - t0 <= max_age -> t0 <= now + 60 ->
  Forall skipped junk ->
  Z.of_nat (length junk) mod 4 = 0 ->
  let signature := junk ++ CryptoInv.sig_text key t0 payload in
  Crypto.verify key now
    (Py.str_of (Py.chars payload ++ Crypto.bar :: PyInt.str t0
                ++ Crypto.bar :: signature)) max_age
  = Some {| Crypto.payload := payload; Crypto.timestamp := t0;
            Crypto.signature := Py.str_of signature |}.
Proof.
  intros Hage Hskew Hjunk Hfour signature.
  unfold Crypto.verify. cbv zeta.
  set (h := take 16 (Sha256.hmac key
    (Py.utf8 (Py.chars payload ++ Crypto.bar :: PyInt.str t0)))).
  assert (Hsig : CryptoInv.sig_text key t0 payload
                 = Crypto.rstrip_eq (Base64.urlsafe_b64encode h)) by reflexivity.
  destruct (encode_shape h) as (body & n & E & Hb & Hn).
  rewrite E, rstrip_eq_body in Hsig by assumption.
  subst signature. rewrite Hsig, chars_str_of.
  rewrite rsplit2_three.
  2: apply str_no_bar.
  2:{ apply Forall_app. split.
      - eapply Forall_impl; [exact Hjunk|]. now intros c (_ & _ & _ & Hc).
      - eapply Forall_impl; [exact Hb|]. intros c (_ & Hc & _). exact Hc. }
  rewrite parse_str.
  replace (max_age <? now - t0) with false by (symmetry; apply Z.ltb_ge; lia).
  replace (now + 60 <? t0) with false by (symmetry; apply Z.ltb_ge; lia).
  assert (Hlen : Z.of_nat (length (junk ++ body)) mod 4 = Z.of_nat (length body) mod 4).
  { rewrite length_app, Nat2Z.inj_add, Z.add_mod, Hfour, Z.add_0_l, Z.mod_mod by lia.
    reflexivity. }
  rewrite Hlen.
  assert (Epad : (if negb (Z.of_nat (length body) mod 4 =? 0)
                  then (junk ++ body) ++ repeat "="%char
                         (Z.to_nat (4 - Z.of_nat (length body) mod 4))
                  else junk ++ body) = junk ++ Base64.urlsafe_b64encode h).
  { rewrite E. destruct Hn as [(Hm & ->)|(Hm & ->)].
    - rewrite Hm. simpl. now rewrite app_nil_r.
    - apply Z.eqb_neq in Hm. rewrite Hm. simpl. now rewrite <- app_assoc. }
  rewrite Epad. unfold Base64.urlsafe_b64decode.
  rewrite is_ascii_app, (skipped_is_ascii _ Hjunk).
  rewrite E at 1. rewrite is_ascii_shape by assumption. cbn [andb].
  rewrite a2b_skip by exact Hjunk. rewrite decode_encode.
  rewrite bool_decide_eq_true_2 by reflexivity.
  now rewrite str_of_chars.
Qed.

Lemma signature_field_not_canonical_witness :
  Crypto.verify (Py.chars "secret") 1700000100
    "approve:abc123|1700000000|....eetTkzcIp1IeTDuE-llo3g" 300
  = Some {| Crypto.payload := "approve:abc123"; Crypto.timestamp := 1700000000;
            Crypto.signature := "....eetTkzcIp1IeTDuE-llo3g" |}.
Proof.
  apply (signature_field_not_canonical (Py.chars "secret") 1700000000 1700000100
           300 "approve:abc123" (Py.chars "....")).
  - lia.
  - lia.
  - repeat constructor.
  - reflexivity.
Defined.

End KeyboardsProps.

(** ** Rate limiter: statistics, waits and the window *)

Module RateMoreProps.
Import QcTactics RateLimiter RateLimiterInv RateLimiterProps RateStats RateMoreInv.

Lemma py_max_ge_r a b : (b <= py_max a b)%Qc.
Proof.
  unfold py_max. case_bool_decide as H; [apply Qcle_refl | now apply Qcnot_lt_le].
Qed.

Lemma py_max_ge_l a b : (a <= py_max a b)%Qc.
Proof.
  unfold py_max. case_bool_decide as H; [now apply Qclt_le_weak | apply Qcle_refl].
Qed.

Lemma filter_twice {A} (f : A -> bool) l :
  List.filter f (List.filter f l) = List.filter f l.
Proof.
  induction l as [|x l IH]; [reflexivity|]. cbn [List.filter].
  destruct (f x) eqn:E; [|exact IH]. cbn [List.filter]. now rewrite E, IH.
Qed.

(** At any instant [check_rate_limit] and [get_user_stats] agree: a
    request is allowed exactly when the statistics show no backoff and
    a request remaining, it comes with a wait exactly when it is
    refused, and the pruning that the check does leaves the statistics
    of that instant as they are. *)
Theorem check_agrees_with_stats (now : Qc) (rl : RateLimiter) (user : Z) :
  let checked := check_rate_limit now rl user in
  let stats := snd (get_user_stats now rl user) in
  fst (snd checked) = negb (in_backoff stats) && (0 <? requests_remaining stats)
  /\ (fst (snd checked) = true <-> snd (snd checked) = None)
  /\ snd (get_user_stats now (fst checked) user) = stats.
Proof.
  unfold check_rate_limit, get_user_stats. cbv zeta.
  set (st := state_of rl user).
  set (keep := fun t => bool_decide (now - Qc_of_Z 60 < t)%Qc).
  set (blocked := match backoff_until st with
                  | Some t => bool_decide (now < t)%Qc
                  | None => false
                  end).
  cbn [snd in_backoff requests_remaining _requests_per_minute with_state].
  assert (Hrem : (0 <? Z.max 0 (_requests_per_minute rl
                                - Z.of_nat (length (List.filter keep (request_times st)))))
                 = negb (_requests_per_minute rl
                         <=? Z.of_nat (length (List.filter keep (request_times st))))).
  { destruct (Z.leb_spec (_requests_per_minute rl)
                (Z.of_nat (length (List.filter keep (request_times st)))));
      cbn [negb]; [apply Z.ltb_ge | apply Z.ltb_lt]; lia. }
  rewrite Hrem.
  destruct blocked eqn:Eb;
    [|destruct (_requests_per_minute rl
                <=? Z.of_nat (length (List.filter keep (request_times st)))) eqn:Er];
    cbn [fst snd negb andb];
    (split; [reflexivity|]); (split; [split; congruence|]);
    rewrite state_of_with_state; cbn [request_times denial_count backoff_until];
    rewrite filter_twice; fold blocked; rewrite ?Eb; reflexivity.
Qed.


Lemma state_of_clear rl u : state_of (clear_user rl u) u = fresh_state.
Proof. unfold state_of, clear_user. cbn. now rewrite lookup_delete_eq. Qed.

Lemma state_of_clear_ne rl u v :
  u <> v -> state_of (clear_user rl u) v = state_of rl v.
Proof. intros H. unfold state_of, clear_user. cbn. now rewrite lookup_delete_ne. Qed.

(** [clear_user] puts a user back where a user never seen stands: no
    requests, no denials, no backoff, whatever was recorded before; the
    next check allows the user exactly when the limit is at least one
    request a minute, and refuses with the minimum wait otherwise.
    Other users keep their state. *)
Theorem clear_user_forgets (now : Qc) (rl : RateLimiter) (user : Z) :
  let cleared := clear_user rl user in
  state_of cleared user = fresh_state
  /\ (forall other, other <> user -> state_of cleared other = state_of rl other)
  /\ snd (get_user_stats now cleared user)
     = {| user_id := user; requests_last_minute := 0;
          requests_remaining := Z.max 0 (_requests_per_minute rl);
          stats_denial_count := 0; in_backoff := false;
          backoff_remaining := 0%Qc |}
  /\ (1 <= _requests_per_minute rl ->
      snd (check_rate_limit now cleared user) = (true, None))
  /\ (_requests_per_minute rl <= 0 ->
      snd (check_rate_limit now cleared user)
      = (false, Some (Qc_of_Z 1 / Qc_of_Z 10)%Qc)).
Proof.
  cbv zeta. split; [apply state_of_clear|].
  split; [intros other H; now apply state_of_clear_ne|].
  unfold get_user_stats, check_rate_limit. cbv zeta. rewrite state_of_clear.
  cbn [fresh_state request_times backoff_until denial_count List.filter length
       snd _requests_per_minute clear_user with_state].
  split; [now rewrite Z.sub_0_r|].
  split; intros H.
  - replace (_requests_per_minute rl <=? Z.of_nat 0) with false
      by (symmetry; apply Z.leb_gt; lia).
    reflexivity.
  - replace (_requests_per_minute rl <=? Z.of_nat 0) with true
      by (symmetry; apply Z.leb_le; lia).
    cbn [snd].
    assert (E : py_max (Qc_of_Z 1 / Qc_of_Z 10) (Q2Qc 0) = (Qc_of_Z 1 / Qc_of_Z 10)%Qc).
    { unfold py_max. rewrite bool_decide_eq_false_2; [reflexivity|].
      intros Hlt. vm_compute in Hlt. discriminate. }
    now rewrite E.
Qed.

Lemma clear_user_forgets_witness :
  snd (check_rate_limit (Qc_of_Z 5) (clear_user denied4 7) 7) = (true, None).
Proof.
  destruct (clear_user_forgets (Qc_of_Z 5) denied4 7) as (_ & _ & _ & H & _).
  apply H. vm_compute. discriminate.
Defined.

(** *** Backoff and the check *)

(** Once a denial at or past the threshold has set the backoff (the
    exponent below 1024, the delay and the expiry in the ranges of
    [timedelta] and [datetime], so that the call returns), every check
    before the expiry is refused, whatever the request rate, with the
    time left as the wait (a tenth of a second at least); from the
    expiry on the backoff no longer matters, and an approval lifts it
    at once. *)
Theorem backoff_blocks_until_expiry (rl : RateLimiter) (user : Z)
    (now now' asked : Qc) :
  let denied := fst (record_denial now now' rl user) in
  let count := denial_count (state_of rl user) + 1 in
  let expiry := (now' + backoff rl (count - _denial_threshold rl))%Qc in
  _denial_threshold rl <= count ->
  count - _denial_threshold rl < 1024 ->
  timedelta_ok (backoff rl (count - _denial_threshold rl)) = true ->
  datetime_ok expiry = true ->
  snd (record_denial now now' rl user) = Py.Returned tt
  /\ ((asked < expiry)%Qc ->
      snd (check_rate_limit asked denied user)
      = (false, Some (py_max (Qc_of_Z 1 / Qc_of_Z 10) (expiry - asked))%Qc))
  /\ ((expiry <= asked)%Qc ->
      snd (check_rate_limit asked denied user)
      = snd (check_rate_limit asked (record_approval denied user) user))
  /\ (forall wait,
        snd (check_rate_limit asked (record_approval denied user) user)
        = (false, Some wait) ->
        (_requests_per_minute rl
         <= Z.of_nat (length (recent asked (state_of rl user))))).
Proof.
  intros denied count expiry Hth Hn Htd Hdt.
  assert (Hrun : record_denial now now' rl user
                 = (with_state rl user
                      {| request_times := request_times (state_of rl user);
                         denial_count := count; last_denial := Some now;
                         backoff_until := Some expiry |}, Py.Returned tt)).
  { unfold record_denial. cbv zeta. fold count.
    fold (backoff rl (count - _denial_threshold rl)). fold expiry.
    replace (_denial_threshold rl <=? count) with true
      by (symmetry; apply Z.leb_le; exact Hth).
    replace (1024 <=? count - _denial_threshold rl) with false
      by (symmetry; apply Z.leb_gt; exact Hn).
    now rewrite Htd, Hdt. }
  assert (Hst : state_of denied user
                = {| request_times := request_times (state_of rl user);
                     denial_count := count; last_denial := Some now;
                     backoff_until := Some expiry |}).
  { subst denied. rewrite Hrun. cbn [fst]. now rewrite state_of_with_state. }
  assert (Hrpm : _requests_per_minute denied = _requests_per_minute rl).
  { subst denied. now rewrite Hrun. }
  split; [now rewrite Hrun|]. split; [|split].
  - intros Hlt. unfold check_rate_limit. cbv zeta. rewrite Hst.
    cbn [backoff_until]. rewrite bool_decide_eq_true_2 by exact Hlt. reflexivity.
  - intros Hge. unfold check_rate_limit. cbv zeta.
    unfold record_approval. rewrite state_of_with_state, Hst.
    cbn [backoff_until request_times denial_count last_denial
         _requests_per_minute with_state].
    rewrite bool_decide_eq_false_2 by (now apply Qcle_not_lt).
    destruct (_requests_per_minute denied <=? _); reflexivity.
  - intros wait. unfold check_rate_limit. cbv zeta.
    unfold record_approval. rewrite state_of_with_state, Hst.
    cbn [backoff_until request_times denial_count last_denial
         _requests_per_minute with_state]. rewrite Hrpm.
    fold (recent asked (state_of rl user)). unfold recent.
    destruct (Z.leb_spec (_requests_per_minute rl)
                (Z.of_nat (length (List.filter
                   (fun t => bool_decide (asked - Qc_of_Z 60 < t)%Qc)
                   (request_times (state_of rl user)))))) as [H|H];
      [intros _; exact H | discriminate].
Qed.

Lemma backoff_blocks_until_expiry_witness :
  snd (record_denial (Qc_of_Z 4) (Qc_of_Z 4) (denied 3 0 defaults 7) 7)
  = Py.Returned tt
  /\ snd (check_rate_limit (Qc_of_Z 8) denied4 7)
     = (false, Some (py_max (Qc_of_Z 1 / Qc_of_Z 10)
                       (Qc_of_Z 4 + backoff defaults 1 - Qc_of_Z 8))%Qc).
Proof.
  pose proof (backoff_blocks_until_expiry (denied 3 0 defaults 7)
                7 (Qc_of_Z 4) (Qc_of_Z 4) (Qc_of_Z 8)) as H.
  cbv zeta in H.
  destruct H as (H0 & H & _);
    [vm_compute; discriminate | vm_compute; reflexivity
     | vm_compute; reflexivity | vm_compute; reflexivity |].
  split; [exact H0|]. apply H. vm_compute. reflexivity.
Defined.


(** *** The wait that a refusal advertises *)

Lemma filter_length_le {A} (f : A -> bool) l :
  (length (List.filter f l) <= length l)%nat.
Proof.
  induction l as [|x l IH]; [reflexivity|]. cbn [List.filter].
  destruct (f x); cbn [length]; lia.
Qed.

Lemma filter_narrow (c c' : Qc) l :
  (c <= c')%Qc ->
  List.filter (fun t => bool_decide (c' - Qc_of_Z 60 < t)%Qc)
    (List.filter (fun t => bool_decide (c - Qc_of_Z 60 < t)%Qc) l)
  = List.filter (fun t => bool_decide (c' - Qc_of_Z 60 < t)%Qc) l.
Proof.
  intros Hc. induction l as [|x l IH]; [reflexivity|]. cbn [List.filter].
  case_bool_decide as H1.
  - cbn [List.filter]. now rewrite IH.
  - rewrite IH. rewrite bool_decide_eq_false_2; [reflexivity|].
    intros H2. apply H1. qc_lra.
Qed.

(** The wait that comes with a refusal is long enough: once it has
    passed, the backoff no longer blocks; and a user who was refused for
    the rate alone, with the window exactly full, is allowed again. *)
Theorem advertised_wait_suffices (now later wait : Qc) (rl : RateLimiter)
    (user : Z) :
  snd (check_rate_limit now rl user) = (false, Some wait) ->
  (now + wait <= later)%Qc ->
  let rl1 := fst (check_rate_limit now rl user) in
  in_backoff (snd (get_user_stats later rl1 user)) = false
  /\ (in_backoff (snd (get_user_stats now rl user)) = false ->
      Z.of_nat (length (recent now (state_of rl user))) = _requests_per_minute rl ->
      1 <= _requests_per_minute rl ->
      snd (check_rate_limit later rl1 user) = (true, None)).
Proof.
  unfold check_rate_limit, get_user_stats, recent. cbv zeta.
  set (st := state_of rl user).
  set (L := List.filter (fun t => bool_decide (now - Qc_of_Z 60 < t)%Qc)
                        (request_times st)).
  set (tenth := (Qc_of_Z 1 / Qc_of_Z 10)%Qc).
  assert (Htenth : (0 < tenth)%Qc) by (vm_compute; reflexivity).
  intros Hres Hlater.
  assert (Hw : (now <= later)%Qc /\
               (forall t, backoff_until st = Some t -> (t <= later)%Qc)
               /\ (match backoff_until st with
                   | Some t => bool_decide (now < t)%Qc
                   | None => false
                   end = false ->
                   forall oldest rest, L = oldest :: rest ->
                     (oldest + Qc_of_Z 60 <= later)%Qc)).
  { clearbody tenth L.
    destruct (backoff_until st) as [t|] eqn:Eb.
    - case_bool_decide as Hb.
      + cbv beta iota in Hres. injection Hres as <-. pose proof (py_max_ge_r tenth (t - now)) as H1.
        pose proof (py_max_ge_l tenth (t - now)) as H2.
        set (m := py_max _ _) in *; clearbody m.
        split; [qc_lra|]. split; [intros ? [= <-]; qc_lra | discriminate].
      + destruct (_ <=? _) eqn:Er; [|discriminate]. cbn [with_state _requests_per_minute] in Er.
        destruct L as [|oldest rest] eqn:EL.
        * cbv beta iota in Hres. injection Hres as <-. pose proof (py_max_ge_l tenth 0%Qc) as H2.
          apply Qcnot_lt_le in Hb. set (m := py_max _ _) in *; clearbody m.
          split; [qc_lra|]. split; [intros ? [= <-]; qc_lra | discriminate].
        * cbv beta iota in Hres. injection Hres as <-.
          pose proof (py_max_ge_r tenth (Qc_of_Z 60 - (now - oldest))) as H1.
          pose proof (py_max_ge_l tenth (Qc_of_Z 60 - (now - oldest))) as H2.
          apply Qcnot_lt_le in Hb. set (m := py_max _ _) in *; clearbody m.
          split; [qc_lra|]. split; [intros ? [= <-]; qc_lra|].
          intros _ o r [= <- <-]. qc_lra.
    - destruct (_ <=? _) eqn:Er; [|discriminate].
      destruct L as [|oldest rest] eqn:EL.
      + cbv beta iota in Hres. injection Hres as <-. pose proof (py_max_ge_l tenth 0%Qc) as H2.
        set (m := py_max _ _) in *; clearbody m.
        split; [qc_lra|]. split; [discriminate | discriminate].
      + cbv beta iota in Hres. injection Hres as <-.
        pose proof (py_max_ge_r tenth (Qc_of_Z 60 - (now - oldest))) as H1.
        pose proof (py_max_ge_l tenth (Qc_of_Z 60 - (now - oldest))) as H2.
        set (m := py_max _ _) in *; clearbody m.
        split; [qc_lra|]. split; [discriminate|].
        intros _ o r [= <- <-]. qc_lra. }
  destruct Hw as (Hnl & Hexp & Hold).
  assert (Hst1 :
            state_of (with_state rl user
              {| request_times := L; denial_count := denial_count st;
                 last_denial := last_denial st;
                 backoff_until := backoff_until st |}) user
            = {| request_times := L; denial_count := denial_count st;
                 last_denial := last_denial st;
                 backoff_until := backoff_until st |})
    by apply state_of_with_state.
  assert (Hnb : match backoff_until st with
                | Some t => bool_decide (later < t)%Qc
                | None => false
                end = false).
  { destruct (backoff_until st) as [t|]; [|reflexivity].
    apply bool_decide_eq_false_2. apply Qcle_not_lt. now apply Hexp. }
  assert (Hfst : forall (b1 b2 : bool) (x y z : RateLimiter * (bool * option Qc)),
            fst x = fst y -> fst y = fst z ->
            fst (if b1 then x else if b2 then y else z) = fst x)
    by (intros [] [] ? ? ? ? ?; congruence).
  rewrite !Hfst by reflexivity. cbn [fst snd in_backoff].
  rewrite !Hst1 by auto. cbn [backoff_until request_times].
  split; [exact Hnb|].
  intros Hnow Hfull Hrpm. rewrite Hnb.
  cbn [with_state _requests_per_minute].
  destruct L as [|oldest rest] eqn:EL; [cbn in Hfull; lia|].
  specialize (Hold Hnow oldest rest eq_refl).
  cbn [List.filter]. rewrite bool_decide_eq_false_2 by (intros H; qc_lra).
  pose proof (filter_length_le (fun t => bool_decide (later - Qc_of_Z 60 < t)%Qc) rest) as Hle.
  cbn [length] in Hfull.
  replace (_requests_per_minute rl <=? _) with false
    by (symmetry; apply Z.leb_gt; lia).
  reflexivity.
Qed.


Lemma advertised_wait_suffices_witness :
  snd (check_rate_limit (Qc_of_Z 60)
         (fst (check_rate_limit (Qc_of_Z 10) busy 7)) 7) = (true, None).
Proof.
  destruct (advertised_wait_suffices (Qc_of_Z 10) (Qc_of_Z 60)
              (py_max (Qc_of_Z 1 / Qc_of_Z 10)
                      (Qc_of_Z 60 - (Qc_of_Z 10 - Qc_of_Z 0)))%Qc busy 7)
    as (_ & H).
  - vm_compute. reflexivity.
  - vm_compute. discriminate.
  - apply H; vm_compute; [reflexivity | reflexivity | discriminate].
Defined.

(** *** The sliding window *)

Lemma filter_keeps_tail {A} (f : A -> bool) (l : list A) : forall i,
  (forall j x, (i <= j)%nat -> l !! j = Some x -> f x = true) ->
  (length l - i <= length (List.filter f l))%nat.
Proof.
  induction l as [|y l IH]; intros i H; [cbn; lia|].
  destruct i as [|i].
  - cbn [List.filter]. rewrite (H 0%nat y) by (reflexivity || lia).
    cbn [length]. specialize (IH 0%nat).
    assert (length l - 0 <= length (List.filter f l))%nat
      by (apply IH; intros j x _ Hj; apply (H (S j) x); [lia | exact Hj]).
    lia.
  - assert (length l - i <= length (List.filter f l))%nat
      by (apply IH; intros j x Hij Hj; apply (H (S j) x); [lia | exact Hj]).
    cbn [List.filter length]. destruct (f y); cbn [length]; lia.
Qed.

Lemma step_spaced (n : nat) (adm : list Qc) (c r : Qc) :
  ascending adm -> spaced n adm ->
  (length (List.filter (fun t => bool_decide (c - Qc_of_Z 60 < t)%Qc) adm) < n)%nat ->
  (c <= r)%Qc ->
  spaced n (adm ++ [r]).
Proof.
  intros Ha Hs Hlen Hcr i a b Hi Hj.
  pose proof (lookup_lt_Some _ _ _ Hj) as Hb. rewrite length_app in Hb.
  cbn [length] in Hb.
  destruct (decide (i + n < length adm)%nat) as [Hlt|Hge].
  - rewrite lookup_app_l in Hi by lia. rewrite lookup_app_l in Hj by lia.
    exact (Hs i a b Hi Hj).
  - rewrite lookup_app_l in Hi by lia. rewrite lookup_app_r in Hj by lia.
    replace (i + n - length adm)%nat with 0%nat in Hj by lia.
    injection Hj as <-.
    destruct (Qclt_le_dec (c - Qc_of_Z 60) a) as [Hl|Hl]; [exfalso | qc_lra].
    pose proof (filter_keeps_tail
                  (fun t => bool_decide (c - Qc_of_Z 60 < t)%Qc) adm i) as Hk.
    assert (length adm - i
            <= length (List.filter (fun t => bool_decide (c - Qc_of_Z 60 < t)%Qc) adm))%nat.
    { apply Hk. intros j x Hij Hx. apply bool_decide_eq_true_2.
      pose proof (Ha i j a x Hij Hi Hx) as Hax.
      eapply Qclt_le_trans; eassumption. }
    lia.
Qed.

Lemma ascending_snoc (adm : list Qc) (from r : Qc) :
  ascending adm -> Forall (fun t => (t <= from)%Qc) adm -> (from <= r)%Qc ->
  ascending (adm ++ [r]).
Proof.
  intros Ha Hf Hr i j a b Hij Hi Hj.
  pose proof (lookup_lt_Some _ _ _ Hj) as Hb. rewrite length_app in Hb.
  cbn [length] in Hb.
  destruct (decide (j < length adm)%nat) as [Hlt|Hge].
  - rewrite lookup_app_l in Hi by lia. rewrite lookup_app_l in Hj by lia.
    exact (Ha i j a b Hij Hi Hj).
  - rewrite lookup_app_r in Hj by lia.
    replace (j - length adm)%nat with 0%nat in Hj by lia. injection Hj as <-.
    destruct (decide (i < length adm)%nat) as [Hi'|Hi'].
    + rewrite lookup_app_l in Hi by lia.
      rewrite Forall_forall in Hf.
      assert (a <= from)%Qc by (apply Hf; eapply list_elem_of_lookup_2; exact Hi).
      eapply Qcle_trans; eassumption.
    + rewrite lookup_app_r in Hi by lia.
      replace (i - length adm)%nat with 0%nat in Hi by lia. injection Hi as <-.
      apply Qcle_refl.
Qed.

Lemma check_shape (now : Qc) (rl : RateLimiter) (user : Z) :
  exists allowed wait,
    check_rate_limit now rl user
    = (with_state rl user
         {| request_times := recent now (state_of rl user);
            denial_count := denial_count (state_of rl user);
            last_denial := last_denial (state_of rl user);
            backoff_until := backoff_until (state_of rl user) |},
       (allowed, wait))
    /\ (allowed = true ->
        Z.of_nat (length (recent now (state_of rl user))) < _requests_per_minute rl).
Proof.
  unfold check_rate_limit, recent. cbv zeta.
  cbn [with_state _requests_per_minute].
  destruct (match backoff_until (state_of rl user) with
            | Some t => bool_decide (now < t)%Qc
            | None => false
            end).
  - eexists _, _. split; [reflexivity | discriminate].
  - destruct (Z.leb_spec (_requests_per_minute rl)
                (Z.of_nat (length (List.filter
                   (fun t => bool_decide (now - Qc_of_Z 60 < t)%Qc)
                   (request_times (state_of rl user)))))) as [H|H].
    + eexists _, _. split; [reflexivity | discriminate].
    + eexists _, _. split; [reflexivity | intros _; exact H].
Qed.

Lemma let_through_keeps_spacing (user : Z) (n : nat) (attempts : list (Qc * Qc)) :
  forall (rl : RateLimiter) (from : Qc) (adm : list Qc),
    (forall c, (from <= c)%Qc ->
       recent c (state_of rl user)
       = List.filter (fun t => bool_decide (c - Qc_of_Z 60 < t)%Qc) adm) ->
    ascending adm -> Forall (fun t => (t <= from)%Qc) adm -> spaced n adm ->
    Z.of_nat n = _requests_per_minute rl ->
    clock_ordered from attempts ->
    spaced n (adm ++ snd (let_through rl user attempts)).
Proof.
  induction attempts as [|[asked made] rest IH];
    intros rl from adm Hrec Hasc Hle Hsp Hn Hclock.
  - cbn [let_through snd]. now rewrite app_nil_r.
  - destruct Hclock as (H1 & H2 & Hclock). cbn [let_through].
    destruct (check_shape asked rl user) as (allowed & wait & -> & Hall).
    assert (Hle' : Forall (fun t => (t <= made)%Qc) adm).
    { eapply Forall_impl; [exact Hle|]. cbn. intros t Ht.
      eapply Qcle_trans; [exact Ht|]. eapply Qcle_trans; eassumption. }
    assert (Hfm : (from <= made)%Qc) by (eapply Qcle_trans; eassumption).
    destruct allowed.
    + specialize (Hall eq_refl).
      set (rl2 := record_request made _ user).
      destruct (let_through rl2 user rest) as [rl3 times] eqn:E. cbn [snd].
      replace (adm ++ made :: times) with ((adm ++ [made]) ++ times)
        by now rewrite <- app_assoc.
      replace times with (snd (let_through rl2 user rest)) by now rewrite E.
      apply (IH rl2 made).
      * intros c Hc. subst rl2. unfold record_request, recent.
        rewrite !state_of_with_state. cbn [request_times].
        rewrite !List.filter_app. f_equal.
        rewrite <- (Hrec c) by (eapply Qcle_trans; eassumption).
        unfold recent. apply filter_narrow. eapply Qcle_trans; eassumption.
      * apply (ascending_snoc adm from made); assumption.
      * apply Forall_app. split; [exact Hle'|].
        constructor; [apply Qcle_refl | constructor].
      * apply (step_spaced n adm asked made); try assumption.
        rewrite <- (Hrec asked) by assumption. lia.
      * subst rl2. unfold record_request. cbn [with_state _requests_per_minute].
        exact Hn.
      * exact Hclock.
    + apply (IH _ made); try assumption.
      * intros c Hc. unfold recent. rewrite state_of_with_state.
        cbn [request_times]. rewrite <- (Hrec c) by (eapply Qcle_trans; eassumption).
        unfold recent. apply filter_narrow. eapply Qcle_trans; eassumption.
Qed.

(** A caller that asks [check_rate_limit] before each request and
    records the requests that were allowed never gets more than the
    limit through in a minute: of the requests that went through, the
    one that comes [requests_per_minute] places after another was made
    at least 60 seconds after it. *)
Theorem window_never_exceeded (rl : RateLimiter) (user : Z) (from : Qc)
    (attempts : list (Qc * Qc)) :
  request_times (state_of rl user) = [] ->
  1 <= _requests_per_minute rl ->
  clock_ordered from attempts ->
  spaced (Z.to_nat (_requests_per_minute rl)) (snd (let_through rl user attempts)).
Proof.
  intros Hfresh Hrpm Hclock.
  apply (let_through_keeps_spacing user _ attempts rl from []).
  - intros c _. unfold recent. now rewrite Hfresh.
  - intros i j a b _ Hi. discriminate.
  - constructor.
  - intros i a b Hi. discriminate.
  - lia.
  - exact Hclock.
Qed.

Lemma window_never_exceeded_witness :
  snd (let_through (new_limiter 2 (Qc_of_Z 5) (Qc_of_Z 300) 3) 7 burst)
  = [Qc_of_Z 0; Qc_of_Z 10; Qc_of_Z 61]
  /\ spaced 2 (snd (let_through (new_limiter 2 (Qc_of_Z 5) (Qc_of_Z 300) 3) 7 burst)).
Proof.
  split; [vm_compute; reflexivity|].
  apply (window_never_exceeded (new_limiter 2 (Qc_of_Z 5) (Qc_of_Z 300) 3) 7
           (Qc_of_Z 0) burst).
  - reflexivity.
  - vm_compute. discriminate.
  - vm_compute. repeat split; discriminate.
Defined.

End RateMoreProps.

(** ** Offline queue: [flush], capacity and the offline flag *)

Module OfflineFlushProps.
Import QcTactics OfflineQueue OfflineQueueInv OfflineFlush OfflineFlushInv.

Lemma key_lt_precedes a b : key_lt a b = true -> precedes a b.
Proof.
  unfold key_lt, precedes. case_bool_decide as Hp.
  - intros Ht. apply bool_decide_eq_true_1 in Ht. split; [lia|].
    intros _. now apply Qclt_le_weak.
  - intros Hl. apply bool_decide_eq_true_1 in Hl. split; lia.
Qed.

Lemma key_not_lt_precedes a b : key_lt a b = false -> precedes b a.
Proof.
  unfold key_lt, precedes. case_bool_decide as Hp.
  - intros Ht. apply bool_decide_eq_false_1 in Ht. split; [lia|].
    intros _. now apply Qcnot_lt_le.
  - intros Hl. apply bool_decide_eq_false_1 in Hl. split; lia.
Qed.

Lemma precedes_trans a b c : precedes a b -> precedes b c -> precedes a c.
Proof.
  intros [H1 H2] [H3 H4]. split; [lia|]. intros E.
  assert (E1 : priority a = priority b) by lia.
  assert (E2 : priority b = priority c) by lia.
  eapply Qcle_trans; eauto.
Qed.

Lemma insert_perm e l : insert e l ≡ₚ e :: l.
Proof.
  induction l as [|x l IH]; [reflexivity|]. cbn [insert].
  destruct (key_lt x e); [|reflexivity].
  rewrite IH. apply Permutation_swap.
Qed.

Lemma sorted_perm l : sorted l ≡ₚ l.
Proof.
  induction l as [|x l IH]; [reflexivity|]. cbn [sorted foldr].
  fold (sorted l). now rewrite insert_perm, IH.
Qed.

Lemma insert_order e l : in_priority_order l -> in_priority_order (insert e l).
Proof.
  induction l as [|x l IH]; intros Hl; [cbn; auto|]. cbn [insert].
  destruct Hl as [Hx Hl]. destruct (key_lt x e) eqn:E.
  - cbn [in_priority_order]. split; [|now apply IH].
    rewrite insert_perm. constructor; [now apply key_lt_precedes | exact Hx].
  - apply key_not_lt_precedes in E. cbn [in_priority_order].
    split; [|split; assumption].
    constructor; [exact E|]. eapply Forall_impl; [exact Hx|].
    cbn. intros y Hy. eapply precedes_trans; eassumption.
Qed.

Lemma sorted_order l : in_priority_order (sorted l).
Proof.
  induction l as [|x l IH]; [exact I|]. cbn [sorted foldr]. now apply insert_order.
Qed.

Lemma order_app_one rem e :
  in_priority_order rem -> Forall (fun x => precedes x e) rem ->
  in_priority_order (rem ++ [e]).
Proof.
  induction rem as [|x rem IH]; intros Ho Hf; [cbn; auto|].
  destruct Ho as [Hx Ho]. apply Forall_cons in Hf as [Hxe Hf].
  cbn [app in_priority_order]. split; [|now apply IH].
  apply Forall_app. split; [exact Hx | now constructor].
Qed.

Section Loop.
Context {H : Type}.
Variable handler : H -> QueuedEvent -> H * Outcome.

Lemma flush_loop_returns events : forall h p rem h' p' rem',
  flush_loop handler events h p rem = (h', Some (p', rem')) ->
  exists done kept,
    rem' = rem ++ kept /\ p' = p + Z.of_nat (length done)
    /\ events ≡ₚ done ++ kept
    /\ (in_priority_order events -> in_priority_order kept).
Proof.
  induction events as [|e events IH]; intros h p rem h' p' rem' E.
  - cbn in E. injection E as <- <- <-. exists [], [].
    rewrite app_nil_r. cbn. split; [reflexivity|]. split; [lia|]. auto.
  - cbn [flush_loop] in E. destruct (handler h e) as [h1 [[|]| |]].
    + apply IH in E as (done & kept & -> & -> & Hp & Ho).
      exists (e :: done), kept. split; [reflexivity|]. split; [cbn [length]; lia|].
      split; [cbn; now rewrite Hp|]. intros [_ Hs]. now apply Ho.
    + apply IH in E as (done & kept & -> & -> & Hp & Ho).
      exists done, (e :: kept). split; [now rewrite <- app_assoc|].
      split; [reflexivity|]. split; [now rewrite Hp, Permutation_middle|].
      intros [Hf Hs]. cbn [in_priority_order]. split; [|now apply Ho].
      rewrite Hp in Hf. now apply Forall_app in Hf as [_ Hf].
    + apply IH in E as (done & kept & -> & -> & Hp & Ho).
      exists done, (e :: kept). split; [now rewrite <- app_assoc|].
      split; [reflexivity|]. split; [now rewrite Hp, Permutation_middle|].
      intros [Hf Hs]. cbn [in_priority_order]. split; [|now apply Ho].
      rewrite Hp in Hf. now apply Forall_app in Hf as [_ Hf].
    + discriminate.
Qed.

Lemma flush_spec (now : Qc) (q : OfflineQueue) (h : H) :
  let pruned := _queue (fst (_prune_old_events now q)) in
  let after := fst (fst (flush handler now q h)) in
  match snd (flush handler now q h) with
  | Some n =>
      (exists done, pruned ≡ₚ done ++ _queue after /\ n = Z.of_nat (length done))
      /\ in_priority_order (_queue after)
  | None => _queue after = pruned
  end.
Proof.
  cbv zeta. unfold flush. cbv zeta.
  set (q1 := fst (_prune_old_events now q)).
  destruct (_queue q1) as [|e0 l0] eqn:Eq.
  - cbn [fst snd]. rewrite Eq.
    split; [exists []; split; reflexivity | exact I].
  - rewrite <- Eq.
    destruct (flush_loop handler (sorted (_queue q1)) h 0 []) as [h1 [[p rem]|]] eqn:E.
    + cbn [fst snd with_queue _queue].
      apply flush_loop_returns in E as (done & kept & -> & -> & Hp & Ho).
      cbn [app]. rewrite sorted_perm in Hp.
      split; [exists done; split; [exact Hp | lia]|].
      apply Ho, sorted_order.
    + reflexivity.
Qed.


(** [flush] loses no event and makes none up: when it returns, the
    events that had not expired are those still queued together with as
    many others as the number it returns, and the events still queued
    stand in the order in which they were tried, highest priority
    first and oldest first at equal priority.  When an exception that
    [flush] does not catch leaves the handler, every unexpired event
    stays queued, also those that the handler had accepted. *)
Theorem flush_conserves_events (now : Qc) (q : OfflineQueue) (h : H) :
  let pruned := _queue (fst (_prune_old_events now q)) in
  let after := fst (fst (flush handler now q h)) in
  match snd (flush handler now q h) with
  | Some n =>
      (exists done, pruned ≡ₚ done ++ _queue after /\ n = Z.of_nat (length done))
      /\ n + queue_size after = Z.of_nat (length pruned)
      /\ in_priority_order (_queue after)
  | None => _queue after = pruned
  end.
Proof.
  cbv zeta. pose proof (flush_spec now q h) as Hs. cbv zeta in Hs.
  destruct (snd (flush handler now q h)) as [n|]; [|exact Hs].
  destruct Hs as ((done & Hp & Hn) & Ho).
  split; [exists done; split; assumption|]. split; [|exact Ho].
  unfold queue_size. rewrite Hp, length_app. lia.
Qed.

Lemma prune_unexpired (now : Qc) (q : OfflineQueue) :
  unexpired now q -> _queue (fst (_prune_old_events now q)) = _queue q.
Proof.
  unfold unexpired, _prune_old_events. intros Hu.
  assert (F : List.filter
                (fun e => bool_decide ((now - timestamp e)%Qc < Qc_of_Z (_max_age q))%Qc)
                (_queue q) = _queue q).
  { induction Hu as [|x r Hx Hr IH]; [reflexivity|].
    cbn [List.filter]. rewrite bool_decide_eq_true_2 by exact Hx. now rewrite IH. }
  destruct (_queue q) as [|e l] eqn:E; cbn [fst with_queue _queue];
    [exact E | exact F].
Qed.

Lemma prune_fields (now : Qc) (q : OfflineQueue) :
  let q' := fst (_prune_old_events now q) in
  _max_size q' = _max_size q /\ _max_age q' = _max_age q
  /\ _is_offline q' = _is_offline q /\ _offline_since q' = _offline_since q.
Proof. unfold _prune_old_events. now destruct (_queue q). Qed.

Lemma prune_shrinks (now : Qc) (q : OfflineQueue) :
  (length (_queue (fst (_prune_old_events now q))) <= length (_queue q))%nat.
Proof.
  unfold _prune_old_events.
  destruct (_queue q) as [|e l] eqn:E; [cbn [fst]; now rewrite E|].
  cbn [fst with_queue _queue]. generalize (e :: l). intros l'.
  induction l' as [|x r IH]; [reflexivity|]. cbn [List.filter].
  destruct (bool_decide _); cbn [length]; lia.
Qed.

Lemma flush_fields (now : Qc) (q : OfflineQueue) (h : H) :
  let q' := fst (fst (flush handler now q h)) in
  _max_size q' = _max_size q /\ _max_age q' = _max_age q
  /\ _is_offline q' = _is_offline q /\ _offline_since q' = _offline_since q.
Proof.
  cbv zeta. unfold flush. cbv zeta.
  pose proof (prune_fields now q) as Hp. cbv zeta in Hp.
  destruct (_queue (fst (_prune_old_events now q))); [exact Hp|].
  destruct (flush_loop handler _ h 0 []) as [h1 [[p rem]|]]; exact Hp.
Qed.

Lemma flush_shrinks (now : Qc) (q : OfflineQueue) (h : H) :
  (length (_queue (fst (fst (flush handler now q h)))) <= length (_queue q))%nat.
Proof.
  pose proof (flush_spec now q h) as Hs. cbv zeta in Hs.
  pose proof (prune_shrinks now q) as Hp.
  destruct (snd (flush handler now q h)) as [n|].
  - destruct Hs as ((done & Hperm & _) & _).
    rewrite Hperm, length_app in Hp. lia.
  - rewrite Hs. exact Hp.
Qed.

(** After a [flush] the events that stay queued stand by priority, not
    by arrival: when the queue is at capacity, the next [enqueue] drops
    the event of the highest priority (the oldest among those), not the
    oldest event. *)
Theorem enqueue_after_flush_drops_top (now now' : Qc) (q : OfflineQueue) (h : H)
    (n : Z) (event : QueuedEvent) :
  let after := fst (fst (flush handler now q h)) in
  snd (flush handler now q h) = Some n ->
  unexpired now' after ->
  1 <= _max_size q ->
  _max_size q <= queue_size after ->
  exists top rest,
    _queue after = top :: rest
    /\ Forall (precedes top) rest
    /\ enqueue now' after event = Py.Returned (with_queue after (rest ++ [event]), true).
Proof.
  intros after Hn Hu Hms Hfull.
  pose proof (flush_spec now q h) as Hs. cbv zeta in Hs. rewrite Hn in Hs.
  destruct Hs as (_ & Ho). fold after in Ho.
  pose proof (flush_fields now q h) as (Hsz & _). fold after in Hsz.
  unfold queue_size in Hfull.
  destruct (_queue after) as [|top rest] eqn:Eq; [cbn in Hfull; lia|].
  exists top, rest. split; [reflexivity|]. destruct Ho as [Hf _].
  split; [exact Hf|].
  unfold enqueue. cbv zeta.
  pose proof (prune_fields now' after) as (Hsz' & Hag & Hof & Hsi). 
  pose proof (prune_unexpired now' after Hu) as Hq.
  rewrite Hsz', Hsz, Hq, Eq.
  replace (_max_size q <=? Z.of_nat (length (top :: rest))) with true
    by (symmetry; apply Z.leb_le; exact Hfull).
  cbn [pop0]. unfold with_queue. rewrite Hsz', Hag, Hof, Hsi. reflexivity.
Qed.

End Loop.

Lemma enqueue_after_flush_drops_top_witness :
  let q := with_queue (new_queue 2 3600) [event_at 0 0; event_at 5 9] in
  let after := fst (fst (flush failing (Qc_of_Z 10) q 0%nat)) in
  _queue after = [event_at 5 9; event_at 0 0]
  /\ enqueue (Qc_of_Z 20) after (event_at 20 0)
     = Py.Returned (with_queue after [event_at 0 0; event_at 20 0], true).
Proof.
  cbv zeta.
  destruct (enqueue_after_flush_drops_top failing (Qc_of_Z 10) (Qc_of_Z 20)
              (with_queue (new_queue 2 3600) [event_at 0 0; event_at 5 9])
              0%nat 0 (event_at 20 0))
    as (top & rest & E & _ & Hq).
  - reflexivity.
  - unfold unexpired.
    replace (_queue _) with [event_at 5 9; event_at 0 0] by (vm_compute; reflexivity).
    repeat (constructor; [vm_compute; reflexivity|]). constructor.
  - vm_compute. discriminate.
  - vm_compute. discriminate.
  - assert (E' : top :: rest = [event_at 5 9; event_at 0 0])
      by (rewrite <- E; vm_compute; reflexivity).
    injection E' as -> ->. split; [exact E | exact Hq].
Defined.

(** *** Capacity and the offline flag *)

Lemma perform_fields {H : Type} (q : OfflineQueue) (op : Op H) :
  _max_size (perform q op) = _max_size q.
Proof.
  destruct op as [now e|now handler h|now|]; cbn [perform].
  - unfold enqueue. cbv zeta.
    pose proof (prune_fields now q) as (Hsz & _).
    destruct (if _ <=? _ then _ else _); [exact Hsz | exact Hsz].
  - apply flush_fields.
  - unfold set_offline. now destruct (_is_offline q).
  - unfold set_online. now destruct (_is_offline q).
Qed.

Lemma perform_bounded {H : Type} (q : OfflineQueue) (op : Op H) :
  1 <= _max_size q -> queue_size q <= _max_size q ->
  queue_size (perform q op) <= _max_size q.
Proof.
  unfold queue_size. intros Hms Hq.
  destruct op as [now e|now handler h|now|]; cbn [perform].
  - unfold enqueue. cbv zeta.
    pose proof (prune_fields now q) as (Hsz & _).
    pose proof (prune_shrinks now q) as Hp. rewrite Hsz.
    destruct (Z.leb_spec (_max_size q)
                (Z.of_nat (length (_queue (fst (_prune_old_events now q))))))
      as [Hle|Hlt].
    + destruct (_queue (fst (_prune_old_events now q))) as [|x r] eqn:E;
        cbn [length] in Hle, Hp; [lia|].
      cbn [pop0 with_queue _queue]. rewrite length_app. cbn [length]. lia.
    + cbn [with_queue _queue]. rewrite length_app. cbn [length]. lia.
  - pose proof (flush_shrinks handler now q h). lia.
  - unfold set_offline. destruct (_is_offline q); cbn [negb _queue]; lia.
  - unfold set_online. destruct (_is_offline q); cbn [_queue]; lia.
Qed.

(** Whatever is called on a queue made with a capacity of at least
    one, in whatever order, and whatever the handlers do, the queue
    never holds more events than its capacity. *)
Theorem queue_never_over_capacity {H : Type} (max_size max_age_seconds : Z)
    (ops : list (Op H)) :
  1 <= max_size ->
  queue_size (perform_all (new_queue max_size max_age_seconds) ops) <= max_size.
Proof.
  intros Hms. unfold perform_all.
  assert (G : forall q, _max_size q = max_size -> queue_size q <= max_size ->
                        queue_size (fold_left perform ops q) <= max_size).
  { induction ops as [|op ops IH]; intros q Hsz Hq; [exact Hq|].
    cbn [fold_left]. apply IH.
    - now rewrite perform_fields.
    - rewrite <- Hsz. apply perform_bounded; rewrite Hsz; assumption. }
  apply G; [reflexivity | unfold queue_size, new_queue; cbn [_queue length]; lia].
Qed.

Lemma queue_never_over_capacity_witness :
  queue_size (perform_all (new_queue 2 3600)
                [Enqueue (Qc_of_Z 0) (event_at 0 0); SetOffline (Qc_of_Z 1);
                 Enqueue (Qc_of_Z 1) (event_at 1 5);
                 Flush (Qc_of_Z 2) urgent_only 0%nat;
                 Enqueue (Qc_of_Z 3) (event_at 3 0);
                 Enqueue (Qc_of_Z 4) (event_at 4 0)]) <= 2.
Proof.
  apply (queue_never_over_capacity 2 3600). lia.
Defined.

Lemma perform_offline {H : Type} (q : OfflineQueue) (op : Op H) (since : Qc) :
  is_set_online op = false ->
  _is_offline q = true -> _offline_since q = Some since ->
  _is_offline (perform q op) = true /\ _offline_since (perform q op) = Some since.
Proof.
  intros Hop Hoff Hs.
  destruct op as [now e|now handler h|now|]; cbn [perform]; [| | |discriminate].
  - unfold enqueue. cbv zeta.
    pose proof (prune_fields now q) as (_ & _ & H1 & H2).
    destruct (if _ <=? _ then _ else _); cbn [with_queue _is_offline _offline_since];
      rewrite H1, H2; auto.
  - pose proof (flush_fields handler now q h) as (_ & _ & H1 & H2).
    rewrite H1, H2. auto.
  - unfold set_offline. rewrite Hoff. auto.
Qed.

(** The offline period is measured from the first [set_offline]: as
    long as no [set_online] is called, further calls of [set_offline],
    [enqueue] and [flush] leave its start where it is, and
    [set_online] ends it. *)
Theorem offline_period_starts_once {H : Type} (q : OfflineQueue) (since now : Qc)
    (ops : list (Op H)) :
  is_offline q = false ->
  forallb (fun op => negb (is_set_online op)) ops = true ->
  let q' := perform_all (set_offline since q) ops in
  is_offline q' = true
  /\ offline_duration now q' = Some (now - since)%Qc
  /\ offline_duration now (set_online q') = None.
Proof.
  unfold is_offline. intros Hon Hops. cbv zeta.
  assert (G : forall q0, _is_offline q0 = true -> _offline_since q0 = Some since ->
              _is_offline (perform_all q0 ops) = true
              /\ _offline_since (perform_all q0 ops) = Some since).
  { unfold perform_all. induction ops as [|op ops IH]; intros q0 H1 H2; [auto|].
    cbn [forallb] in Hops. apply andb_prop in Hops as [Hop Hops].
    apply negb_true_iff in Hop.
    cbn [fold_left]. destruct (perform_offline q0 op since Hop H1 H2) as [H3 H4].
    now apply IH. }
  destruct (G (set_offline since q)) as [H1 H2].
  - unfold set_offline. now rewrite Hon.
  - unfold set_offline. now rewrite Hon.
  - split; [exact H1|]. unfold offline_duration, set_online.
    rewrite H1, H2. cbn [negb _offline_since]. auto.
Qed.

Lemma offline_period_starts_once_witness :
  offline_duration (Qc_of_Z 30)
    (perform_all (set_offline (Qc_of_Z 10) (new_queue 2 3600))
       [Enqueue (Qc_of_Z 12) (event_at 12 0); SetOffline (Qc_of_Z 20);
        Flush (Qc_of_Z 25) failing 0%nat])
  = Some (Qc_of_Z 30 - Qc_of_Z 10)%Qc.
Proof.
  apply (offline_period_starts_once (new_queue 2 3600) (Qc_of_Z 10) (Qc_of_Z 30)
           [Enqueue (Qc_of_Z 12) (event_at 12 0); SetOffline (Qc_of_Z 20);
            Flush (Qc_of_Z 25) failing 0%nat]); reflexivity.
Defined.

End OfflineFlushProps.

(** ** Reconnection *)

Module ReconnectionProps.
Import QcTactics OfflineFlush Reconnection ReconnectionInv.

(** One failed turn of the loop. *)
Lemma loop_failed cb f r rest m :
  failed r ->
  ((0 <? _max_attempts m) && (_max_attempts m <? _attempt_count m + 1)) = false ->
  loop cb f (r :: rest) m
  = let m1 := set_attempt m (_attempt_count m + 1) (clock r) in
    let jitter_range := (_current_delay m * _jitter m)%Qc in
    let delay := RateLimiter.py_min
                   (_current_delay m + uniform (- jitter_range) jitter_range (sample r))
                   (_max_delay m) in
    let m2 := set_delay m1 (RateLimiter.py_min (_current_delay m * _backoff_factor m)
                                               (_max_delay m)) in
    let m3 := if cancel_called r then cancel m2 else m2 in
    let '(m4, later, res) := loop cb f rest m3 in
    (m4, Connect :: Sleep delay :: later, res).
Proof.
  intros [Hc Hs] Hex. cbn [loop]. cbv zeta.
  cbn [set_attempt _max_attempts _attempt_count]. rewrite Hex, Hs.
  destruct Hc as [-> | ->]; reflexivity.
Qed.

Lemma mult_factor_ge (x f : Qc) : (0 <= x)%Qc -> (1 <= f)%Qc -> (x <= x * f)%Qc.
Proof. intros Hx Hf. qc_nra. Qed.

Lemma mult_nonneg (x y : Qc) : (0 <= x)%Qc -> (0 <= y)%Qc -> (0 <= x * y)%Qc.
Proof. intros Hx Hy. qc_nra. Qed.

Lemma power_nonneg (f : Qc) (k : nat) : (1 <= f)%Qc -> (0 <= Qcpower f k)%Qc.
Proof.
  intros Hf. induction k as [|k IH]; cbn [Qcpower]; [discriminate|].
  apply mult_nonneg; [|exact IH].
  eapply Qcle_trans; [|exact Hf]. discriminate.
Qed.

Lemma py_min_l (a b : Qc) : ~ (b < a)%Qc -> RateLimiter.py_min a b = a.
Proof. intros H. unfold RateLimiter.py_min. now rewrite bool_decide_eq_false_2. Qed.

Lemma py_min_r (a b : Qc) : (b < a)%Qc -> RateLimiter.py_min a b = b.
Proof. intros H. unfold RateLimiter.py_min. now rewrite bool_decide_eq_true_2. Qed.

Lemma py_min_capped (a b : Qc) : (RateLimiter.py_min a b <= b)%Qc.
Proof.
  unfold RateLimiter.py_min. case_bool_decide as H;
    [apply Qcle_refl | now apply Qcnot_lt_le].
Qed.

Lemma cap_next (m : ReconnectionManager) (k : nat) :
  (0 <= _initial_delay m)%Qc -> (0 <= _max_delay m)%Qc ->
  (1 <= _backoff_factor m)%Qc ->
  RateLimiter.py_min (cap m k * _backoff_factor m) (_max_delay m) = cap m (S k).
Proof.
  intros Hi HM Hf. unfold cap. cbn [Qcpower].
  set (a := (_initial_delay m * Qcpower (_backoff_factor m) k)%Qc).
  replace (_initial_delay m * (_backoff_factor m * Qcpower (_backoff_factor m) k))%Qc
    with (a * _backoff_factor m)%Qc by (subst a; ring).
  assert (Ha : (0 <= a)%Qc)
    by (subst a; apply mult_nonneg; [exact Hi | now apply power_nonneg]).
  pose proof (mult_factor_ge a _ Ha Hf) as Haf.
  pose proof (mult_factor_ge _ _ HM Hf) as HMf.
  destruct (Qclt_le_dec (_max_delay m) a) as [H1|H1].
  - rewrite (py_min_r a) by exact H1.
    rewrite (py_min_r (a * _)) by (eapply Qclt_le_trans; eassumption).
    unfold RateLimiter.py_min. case_bool_decide as H2; [reflexivity|].
    apply Qcle_antisym; [now apply Qcnot_lt_le | exact HMf].
  - rewrite (py_min_l a) by (now apply Qcle_not_lt). reflexivity.
Qed.


(** *** Backoff without a limit of attempts *)

Lemma loop_schedule cb f (m0 : ReconnectionManager) (rounds : list Round) :
  (0 <= _initial_delay m0)%Qc -> (0 <= _max_delay m0)%Qc ->
  (1 <= _backoff_factor m0)%Qc -> _max_attempts m0 <= 0 ->
  Forall failed rounds ->
  forall m k,
    same_settings m m0 -> _current_delay m = cap m0 k ->
    exists m',
      loop cb f rounds m = (m', schedule m0 k rounds, Pending)
      /\ _attempt_count m' = _attempt_count m + Z.of_nat (length rounds)
      /\ _current_delay m' = cap m0 (k + length rounds).
Proof.
  intros Hi HM Hf Hn Hall. induction Hall as [|r rest Hr Hrest IH];
    intros m k Hset Hcur.
  - exists m. cbn [loop schedule length]. rewrite Nat.add_0_r.
    split; [reflexivity|]. split; [lia | exact Hcur].
  - destruct Hset as (S1 & S2 & S3 & S4 & S5).
    rewrite loop_failed; [|exact Hr|].
    2:{ rewrite S5. replace (0 <? _max_attempts m0) with false; [reflexivity|].
        symmetry. apply Z.ltb_ge. exact Hn. }
    cbv zeta.
    set (m3 := if cancel_called r then _ else _).
    destruct (IH m3 (S k)) as (m' & E & Hc & Hd).
    + subst m3. destruct (cancel_called r); repeat split; assumption.
    + subst m3. rewrite <- cap_next by assumption. rewrite <- Hcur, S2, S3.
      destruct (cancel_called r); reflexivity.
    + rewrite E. exists m'. split.
      * cbn [schedule]. unfold pause. rewrite <- Hcur, S2, S4. reflexivity.
      * split.
        -- rewrite Hc. subst m3. cbn [length].
           destruct (cancel_called r); cbn; lia.
        -- rewrite Hd. f_equal. cbn [length]. lia.
Qed.

Lemma schedule_bounded (m0 : ReconnectionManager) (rounds : list Round) :
  forall k, Forall (sleeps_at_most (_max_delay m0)) (schedule m0 k rounds).
Proof.
  induction rounds as [|r rest IH]; intros k; cbn [schedule]; [constructor|].
  constructor; [exact I|]. constructor; [|apply IH].
  cbn [sleeps_at_most]. unfold pause. apply py_min_capped.
Qed.

(** Without a limit of attempts the manager never gives up and backs
    off exponentially: as long as the connection fails, the call goes
    on, and the sleep after the failure number [k] is the initial delay
    times the factor to the power [k], capped at the maximum delay,
    with the jitter added and capped again, so that no sleep is longer
    than the maximum delay. *)
Theorem unlimited_backoff_schedule (on_success : bool) (on_failure : option Outcome)
    (initial_delay max_delay backoff_factor jitter : Qc) (rounds : list Round) :
  (0 <= initial_delay)%Qc -> (initial_delay <= max_delay)%Qc ->
  (1 <= backoff_factor)%Qc ->
  Forall failed rounds ->
  let m := new_manager initial_delay max_delay backoff_factor 0 jitter in
  let out := attempt_reconnect on_success on_failure rounds m in
  snd out = Pending
  /\ snd (fst out) = schedule m 0 rounds
  /\ Forall (sleeps_at_most max_delay) (snd (fst out))
  /\ _attempt_count (fst (fst out)) = Z.of_nat (length rounds)
  /\ _current_delay (fst (fst out)) = cap m (length rounds).
Proof.
  intros Hi Him Hf Hall m out.
  assert (HM : (0 <= max_delay)%Qc) by (eapply Qcle_trans; eassumption).
  destruct (loop_schedule on_success on_failure m rounds Hi HM Hf
              ltac:(cbn; lia) Hall (set_reconnecting m true) 0%nat)
    as (m' & E & Hc & Hd).
  - repeat split.
  - cbn [set_reconnecting _current_delay m new_manager]. unfold cap.
    cbn [Qcpower _initial_delay _max_delay new_manager].
    rewrite Qcmult_1_r. symmetry. apply py_min_l. now apply Qcle_not_lt.
  - subst out. unfold attempt_reconnect.
    cbn [m new_manager _is_reconnecting]. fold m. rewrite E. cbn [fst snd].
    split; [reflexivity|]. split; [reflexivity|].
    split; [apply (schedule_bounded m)|]. split; [exact Hc | exact Hd].
Qed.

Lemma unlimited_backoff_schedule_witness :
  snd (fst (attempt_reconnect false None [refused 0; refused 1; refused 3]
              (standard 0)))
  = [Connect; Sleep (Qc_of_Z 1); Connect; Sleep (Qc_of_Z 2);
     Connect; Sleep (Qc_of_Z 4)].
Proof.
  destruct (unlimited_backoff_schedule false None (Qc_of_Z 1) (Qc_of_Z 300)
              (Qc_of_Z 2) (Q2Qc (1 # 10)) [refused 0; refused 1; refused 3])
    as (_ & H & _).
  - discriminate.
  - discriminate.
  - discriminate.
  - repeat constructor.
  - unfold standard. rewrite H. cbn [schedule].
    assert (P : forall a b, (this a == this b)%Q -> Sleep a = Sleep b)
      by (intros a b E; f_equal; now apply Qc_is_canon).
    rewrite (P (pause _ 0 _) (Qc_of_Z 1)) by (vm_compute; reflexivity).
    rewrite (P (pause _ 1 _) (Qc_of_Z 2)) by (vm_compute; reflexivity).
    rewrite (P (pause _ 2 _) (Qc_of_Z 4)) by (vm_compute; reflexivity).
    reflexivity.
Defined.


(** *** A limit of attempts *)

Lemma loop_exhausted cb f r rest m :
  exhausted m ->
  loop cb f (r :: rest) m
  = (set_attempt m (_attempt_count m + 1) (clock r),
     match f with None => [] | Some _ => [OnFailure] end, given_up f).
Proof.
  intros [H1 H2]. cbn [loop]. cbv zeta.
  cbn [set_attempt _max_attempts _attempt_count].
  replace (0 <? _max_attempts m) with true by (symmetry; apply Z.ltb_lt; lia).
  replace (_max_attempts m <? _attempt_count m + 1) with true
    by (symmetry; apply Z.ltb_lt; lia).
  cbn [andb]. destruct f as [[b| |]|]; reflexivity.
Qed.

Lemma connects_on_failure (f : option Outcome) :
  connects (match f with None => [] | Some _ => [OnFailure] end) = 0%nat.
Proof. now destruct f. Qed.

Lemma loop_gives_up cb f (rounds : list Round) :
  Forall failed rounds ->
  forall m,
    0 < _max_attempts m -> 0 <= _attempt_count m <= _max_attempts m ->
    (Z.to_nat (_max_attempts m - _attempt_count m) < length rounds)%nat ->
    exists m' actions,
      loop cb f rounds m = (m', actions, given_up f)
      /\ connects actions = Z.to_nat (_max_attempts m - _attempt_count m)
      /\ exhausted m'.
Proof.
  intros Hall. induction Hall as [|r rest Hr Hrest IH]; intros m Hmax Hc Hlen;
    [cbn in Hlen; lia|].
  destruct (decide (_attempt_count m = _max_attempts m)) as [Heq|Hne].
  - rewrite loop_exhausted by (split; lia).
    eexists _, _. split; [reflexivity|]. split.
    + rewrite connects_on_failure. rewrite Heq, Z.sub_diag. reflexivity.
    + unfold exhausted. cbn [set_attempt _max_attempts _attempt_count]. lia.
  - rewrite loop_failed; [|exact Hr|].
    2:{ replace (_max_attempts m <? _attempt_count m + 1) with false
          by (symmetry; apply Z.ltb_ge; lia).
        apply andb_false_r. }
    cbv zeta. set (m3 := if cancel_called r then _ else _).
    assert (H3 : _max_attempts m3 = _max_attempts m
                 /\ _attempt_count m3 = _attempt_count m + 1)
      by (subst m3; destruct (cancel_called r); split; reflexivity).
    destruct H3 as [H3 H4].
    destruct (IH m3) as (m' & later & E & Hn & Hex).
    + lia.
    + lia.
    + rewrite H3, H4. cbn [length] in Hlen. lia.
    + rewrite E. eexists _, _. split; [reflexivity|]. split; [|exact Hex].
      unfold connects in *. cbn [List.filter is_connect length].
      rewrite Hn, H3, H4. lia.
Qed.

Lemma exhausted_call cb f r rounds m :
  exhausted m -> _is_reconnecting m = false ->
  let out := attempt_reconnect cb f (r :: rounds) m in
  snd out = given_up f
  /\ connects (snd (fst out)) = 0%nat
  /\ exhausted (fst (fst out))
  /\ _is_reconnecting (fst (fst out)) = false.
Proof.
  intros Hex Hfl. cbv zeta. unfold attempt_reconnect. rewrite Hfl.
  rewrite loop_exhausted by exact Hex.
  assert (G : forall res (m1 : ReconnectionManager) (acts : list Action),
            res <> Pending ->
            match res with
            | Pending => (m1, acts, Pending)
            | _ => (set_reconnecting m1 false, acts, res)
            end = (set_reconnecting m1 false, acts, res))
    by (intros [] ? ? ?; [reflexivity | reflexivity | congruence]).
  rewrite G by (destruct f as [[]|]; discriminate).
  cbn [fst snd]. split; [reflexivity|]. split; [apply connects_on_failure|].
  split; [|reflexivity]. destruct Hex as [H1 H2]. unfold exhausted.
  cbn [set_reconnecting set_attempt _max_attempts _attempt_count]. lia.
Qed.

(** With a limit of attempts and a connection that keeps failing, one
    call of [attempt_reconnect] calls [connect_fn] as often as the limit
    says and then gives up; nothing resets the count, so every later
    call gives up as well, without calling [connect_fn] at all. *)
Theorem limited_attempts_give_up (on_success : bool) (on_failure : option Outcome)
    (m : ReconnectionManager) (rounds : list Round) :
  0 < _max_attempts m -> _attempt_count m = 0 -> _is_reconnecting m = false ->
  Forall failed rounds ->
  (Z.to_nat (_max_attempts m) < length rounds)%nat ->
  let out := attempt_reconnect on_success on_failure rounds m in
  snd out = given_up on_failure
  /\ connects (snd (fst out)) = Z.to_nat (_max_attempts m)
  /\ exhausted (fst (fst out))
  /\ _is_reconnecting (fst (fst out)) = false
  /\ forall on_success' on_failure' r rounds',
       let later := attempt_reconnect on_success' on_failure' (r :: rounds')
                      (cancel (fst (fst out))) in
       snd later = given_up on_failure'
       /\ connects (snd (fst later)) = 0%nat
       /\ exhausted (fst (fst later)).
Proof.
  intros Hmax Hc Hfl Hall Hlen. cbv zeta.
  destruct (loop_gives_up on_success on_failure rounds Hall (set_reconnecting m true))
    as (m' & actions & E & Hn & Hex).
  - exact Hmax.
  - cbn [set_reconnecting _attempt_count _max_attempts]. lia.
  - cbn [set_reconnecting _attempt_count _max_attempts]. rewrite Hc, Z.sub_0_r.
    exact Hlen.
  - cbn [set_reconnecting _attempt_count _max_attempts] in Hn.
    rewrite Hc, Z.sub_0_r in Hn.
    assert (Out : attempt_reconnect on_success on_failure rounds m
                  = (set_reconnecting m' false, actions, given_up on_failure)).
    { unfold attempt_reconnect. rewrite Hfl, E.
      destruct on_failure as [[]|]; reflexivity. }
    rewrite Out. cbn [fst snd].
    split; [reflexivity|]. split; [exact Hn|]. split; [exact Hex|].
    split; [reflexivity|].
    intros cb' f' r rounds'.
    destruct (exhausted_call cb' f' r rounds' (cancel (set_reconnecting m' false)))
      as (H1 & H2 & H3 & _); [exact Hex | reflexivity |].
    auto.
Qed.

Lemma limited_attempts_give_up_witness :
  let out := attempt_reconnect false None [refused 0; refused 1; refused 3]
               (standard 2) in
  snd out = Returned false
  /\ connects (snd (fst out)) = 2%nat
  /\ snd (attempt_reconnect false None [accepted 60] (cancel (fst (fst out))))
     = Returned false.
Proof.
  cbv zeta.
  destruct (limited_attempts_give_up false None (standard 2)
              [refused 0; refused 1; refused 3]) as (H1 & H2 & _ & _ & H5).
  - reflexivity.
  - reflexivity.
  - reflexivity.
  - repeat constructor.
  - cbn. lia.
  - split; [exact H1|]. split; [exact H2|].
    destruct (H5 false None (accepted 60) []) as (H6 & _). exact H6.
Defined.


(** *** [cancel] *)

Lemma loop_ignores_cancel cb f (rounds : list Round) :
  forall m1 m2,
    cancel m1 = cancel m2 ->
    let o1 := loop cb f rounds m1 in
    let o2 := loop cb f (map undisturbed rounds) m2 in
    snd (fst o1) = snd (fst o2) /\ snd o1 = snd o2
    /\ cancel (fst (fst o1)) = cancel (fst (fst o2)).
Proof.
  induction rounds as [|r rest IH]; intros m1 m2 E; cbv zeta.
  - cbn [loop map fst snd]. auto.
  - destruct m1 as [i1 x1 b1 a1 j1 c1 n1 f1 l1 s1].
    destruct m2 as [i2 x2 b2 a2 j2 c2 n2 f2 l2 s2].
    unfold cancel, set_reconnecting in E. cbn in E.
    injection E as -> -> -> -> -> -> -> -> ->.
    cbn [map loop]. cbv zeta.
    cbn [undisturbed set_attempt set_delay set_successes _reset cancel
         set_reconnecting clock connect success_cb sample slept cancel_called
         _initial_delay _max_delay _backoff_factor _max_attempts _jitter
         _current_delay _attempt_count _is_reconnecting _last_attempt
         _successful_connections].
    destruct ((0 <? a2) && (a2 <? n2 + 1)).
    { destruct f as [[| |]|]; cbn [fst snd]; auto. }
    assert (W : forall c (done : list Action) fa fb d,
              let o1 := let '(m, later, res) :=
                          loop cb f rest
                            (if cancel_called r
                             then {| _initial_delay := i2; _max_delay := x2;
                                     _backoff_factor := b2; _max_attempts := a2;
                                     _jitter := j2; _current_delay := c;
                                     _attempt_count := d; _is_reconnecting := false;
                                     _last_attempt := Some (clock r);
                                     _successful_connections := fa |}
                             else {| _initial_delay := i2; _max_delay := x2;
                                     _backoff_factor := b2; _max_attempts := a2;
                                     _jitter := j2; _current_delay := c;
                                     _attempt_count := d; _is_reconnecting := f1;
                                     _last_attempt := Some (clock r);
                                     _successful_connections := fa |}) in
                        (m, done ++ Sleep fb :: later, res) in
              let o2 := let '(m, later, res) :=
                          loop cb f (map undisturbed rest)
                            {| _initial_delay := i2; _max_delay := x2;
                               _backoff_factor := b2; _max_attempts := a2;
                               _jitter := j2; _current_delay := c;
                               _attempt_count := d; _is_reconnecting := f2;
                               _last_attempt := Some (clock r);
                               _successful_connections := fa |} in
                        (m, done ++ Sleep fb :: later, res) in
              snd (fst o1) = snd (fst o2) /\ snd o1 = snd o2
              /\ cancel (fst (fst o1)) = cancel (fst (fst o2))).
    { intros c done fa fb d. cbv zeta.
      match goal with
      | |- context [loop cb f rest ?ma] =>
          match goal with
          | |- context [loop cb f (map undisturbed rest) ?mb] =>
              pose proof (IH ma mb) as IH'
          end
      end.
      cbv zeta in IH'. 
      destruct IH' as (I1 & I2 & I3); [destruct (cancel_called r); reflexivity|].
      destruct (loop cb f rest _) as [[ma la] ra].
      destruct (loop cb f (map undisturbed rest) _) as [[mb lb] rb].
      cbn [fst snd] in *. subst. auto. }
    destruct (connect r) as [[|]| |].
    + destruct cb.
      * destruct (success_cb r) as [b| |]; cbn [fst snd]; auto.
        destruct (slept r); [apply W | cbn [fst snd]; auto].
      * cbn [fst snd]. auto.
    + destruct (slept r); [apply W | cbn [fst snd]; auto].
    + destruct (slept r); [apply W | cbn [fst snd]; auto].
    + cbn [fst snd]. auto.
Qed.

(** A call of [cancel] from another task does not stop a running
    [attempt_reconnect]: with or without it the call does the same
    things, sleeps as long, ends the same way and leaves the manager
    in the same state; only the flag [is_reconnecting] differs while
    the call is still running. *)
Theorem cancel_does_not_stop (on_success : bool) (on_failure : option Outcome)
    (rounds : list Round) (m : ReconnectionManager) :
  let disturbed := attempt_reconnect on_success on_failure rounds m in
  let quiet := attempt_reconnect on_success on_failure (map undisturbed rounds) m in
  snd (fst disturbed) = snd (fst quiet)
  /\ snd disturbed = snd quiet
  /\ cancel (fst (fst disturbed)) = cancel (fst (fst quiet))
  /\ (snd disturbed <> Pending -> fst (fst disturbed) = fst (fst quiet)).
Proof.
  cbv zeta. unfold attempt_reconnect.
  destruct (_is_reconnecting m); [cbn [fst snd]; auto|].
  pose proof (loop_ignores_cancel on_success on_failure rounds
                (set_reconnecting m true) (set_reconnecting m true) eq_refl) as H.
  cbv zeta in H. destruct H as (H1 & H2 & H3).
  destruct (loop on_success on_failure rounds _) as [[ma la] ra].
  destruct (loop on_success on_failure (map undisturbed rounds) _) as [[mb lb] rb].
  cbn [fst snd] in *. subst.
  destruct rb; cbn [fst snd]; (split; [reflexivity|]); (split; [reflexivity|]);
    unfold cancel in *; cbn [set_reconnecting] in *;
    (split; [exact H3 || (cbn; exact H3) | intros Hp; try congruence; exact H3]).
Qed.

End ReconnectionProps.

(** ** Policy engine: approvals and runtime changes *)

Module PolicyRuntimeProps.
Import PolicyEngine PolicyInv PolicyRuntime.

Lemma risk_index (r : RiskLevel) :
  list_index (lower (risk_value r)) RISK_ORDER = Some (rank r).
Proof. destruct r; reflexivity. Qed.

Lemma index_level (s : string) (i : Z) :
  list_index s RISK_ORDER = Some i ->
  exists lvl, s = risk_value lvl /\ rank lvl = i.
Proof.
  unfold RISK_ORDER. cbn [list_index].
  destruct (String.eqb_spec "low" s) as [<-|_];
    [intros [= <-]; now exists LOW|].
  destruct (String.eqb_spec "medium" s) as [<-|_];
    [intros [= <-]; now exists MEDIUM|].
  destruct (String.eqb_spec "high" s) as [<-|_];
    [intros [= <-]; now exists HIGH|].
  destruct (String.eqb_spec "critical" s) as [<-|_];
    [intros [= <-]; now exists CRITICAL|].
  discriminate.
Qed.

Lemma acceptable_level (max_risk : string) (risk : RiskLevel) :
  _risk_acceptable max_risk (risk_value risk) = true ->
  exists lvl, lower max_risk = risk_value lvl /\ rank risk <= rank lvl.
Proof.
  unfold _risk_acceptable. rewrite risk_index.
  destruct (list_index (lower max_risk) RISK_ORDER) as [i|] eqn:E; [|discriminate].
  intros H. apply Z.leb_le in H.
  destruct (index_level _ _ E) as (lvl & Hl & <-). now exists lvl.
Qed.

Lemma acceptable_down (max_risk : string) (risk lower_risk : RiskLevel) :
  rank lower_risk <= rank risk ->
  _risk_acceptable max_risk (risk_value risk) = true ->
  _risk_acceptable max_risk (risk_value lower_risk) = true.
Proof.
  unfold _risk_acceptable. rewrite !risk_index.
  destruct (list_index (lower max_risk) RISK_ORDER) as [i|]; [|discriminate].
  intros H1 H2. apply Z.leb_le in H2. apply Z.leb_le. lia.
Qed.

Lemma find_match_cases policies act target risk :
  let m := find_match policies (action_value act) target (risk_value risk) in
  m = no_match
  \/ (exists p, In p policies
        /\ action p = action_value act
        /\ _pattern_matches (pattern p) target = true
        /\ ((_risk_acceptable (max_risk p) (risk_value risk) = false
             /\ m = risk_exceeded p ("Risk " ++ risk_value risk
                                     ++ " exceeds policy max " ++ max_risk p))
            \/ (_risk_acceptable (max_risk p) (risk_value risk) = true
                /\ m = auto_approved p ("Matched policy: " ++ name p)
                /\ forall lower_risk, rank lower_risk <= rank risk ->
                     find_match policies (action_value act) target
                       (risk_value lower_risk) = m))).
Proof.
  induction policies as [|p rest IH]; cbv zeta in *; [now left|].
  cbn [find_match].
  destruct (String.eqb_spec (action p) (action_value act)) as [Ha|Ha]; cbn [negb].
  2:{ destruct IH as [IH|(q & Hin & IH)]; [now left|].
      right. exists q. split; [now right|]. exact IH. }
  destruct (_pattern_matches (pattern p) target) eqn:Hp; cbn [negb].
  2:{ destruct IH as [IH|(q & Hin & IH)]; [now left|].
      right. exists q. split; [now right|]. exact IH. }
  right. exists p. split; [now left|]. split; [exact Ha|]. split; [exact Hp|].
  destruct (_risk_acceptable (max_risk p) (risk_value risk)) eqn:Hr; cbn [negb].
  - right. split; [reflexivity|]. split; [reflexivity|].
    intros lower_risk Hl. now rewrite (acceptable_down _ _ _ Hl Hr).
  - left. split; reflexivity.
Qed.

(** The engine approves only on the strength of a rule: an approval
    names a rule of the engine with the action of the request, a
    pattern that matches the target and a known risk level that is not
    below the risk of the request; the same request at a lower risk is
    approved by the same rule.  The engine never denies: whatever it
    does not approve is left to the operator. *)
Theorem approval_is_backed_by_a_rule (eng : PolicyEngine) (act : ActionType)
    (target : string) (risk : RiskLevel) :
  let m := match_ (snd (evaluate eng act target risk)) in
  decision m <> AUTO_DENY
  /\ (matched m = true <-> decision m = AUTO_APPROVE)
  /\ (decision m = AUTO_APPROVE ->
      (exists p lvl,
         policy m = Some p /\ In p (list_policies eng)
         /\ action p = action_value act
         /\ _pattern_matches (pattern p) target = true
         /\ lower (max_risk p) = risk_value lvl /\ rank risk <= rank lvl)
      /\ forall lower_risk, rank lower_risk <= rank risk ->
           match_ (snd (evaluate eng act target lower_risk)) = m).
Proof.
  unfold evaluate, list_policies. cbn [snd match_]. cbv zeta.
  destruct (find_match_cases (_policies eng) act target risk)
    as [-> | (p & Hin & Ha & Hp & [(Hr & ->) | (Hr & -> & Hlow)])].
  - cbn. split; [discriminate|]. split; [split; discriminate | discriminate].
  - cbn. split; [discriminate|]. split; [split; discriminate | discriminate].
  - cbn [decision matched policy auto_approved].
    split; [discriminate|]. split; [split; reflexivity|]. intros _.
    destruct (acceptable_level _ _ Hr) as (lvl & Hl & Hk).
    split; [exists p, lvl; repeat split; assumption|].
    intros lower_risk Hle. rewrite (Hlow lower_risk Hle). reflexivity.
Qed.

Lemma approval_is_backed_by_a_rule_witness :
  let m := match_ (snd (evaluate (new_engine [strict_rule; lax_rule]) FILE_EDIT
                          "README.md" HIGH)) in
  policy m = Some lax_rule
  /\ match_ (snd (evaluate (new_engine [strict_rule; lax_rule]) FILE_EDIT
                    "README.md" LOW)) = m.
Proof.
  cbv zeta.
  destruct (approval_is_backed_by_a_rule (new_engine [strict_rule; lax_rule])
              FILE_EDIT "README.md" HIGH) as (_ & _ & H).
  destruct H as (_ & H); [vm_compute; reflexivity|].
  split; [vm_compute; reflexivity|]. apply H. vm_compute. discriminate.
Defined.

(** *** Rules added and removed at runtime *)

Lemma find_match_app policies p act_str target risk_str :
  policy (find_match policies act_str target risk_str) <> None ->
  find_match (policies ++ [p]) act_str target risk_str
  = find_match policies act_str target risk_str.
Proof.
  induction policies as [|q rest IH]; intros H; [now cbn in H|].
  cbn [app find_match] in *.
  destruct (negb (String.eqb (action q) act_str)); [now apply IH|].
  destruct (negb (_pattern_matches (pattern q) target)); [now apply IH|].
  reflexivity.
Qed.

Lemma remove_first_spec nm policies :
  match remove_first nm policies with
  | Some l =>
      exists before q after,
        policies = before ++ q :: after /\ l = before ++ after /\ name q = nm
        /\ Forall (fun x => name x <> nm) before
        /\ List.find (fun p => String.eqb (name p) nm) policies = Some q
  | None =>
      Forall (fun x => name x <> nm) policies
      /\ List.find (fun p => String.eqb (name p) nm) policies = None
  end.
Proof.
  induction policies as [|p rest IH]; cbn [remove_first List.find]; [auto|].
  destruct (String.eqb_spec (name p) nm) as [E|E].
  - exists [], p, rest. repeat split; auto.
  - destruct (remove_first nm rest) as [l|]; cbn [fmap option_fmap option_map].
    + destruct IH as (before & q & after & -> & -> & Hq & Hb & Hf).
      exists (p :: before), q, after. repeat split; auto.
    + destruct IH as [Hb Hf]. split; [constructor; assumption | exact Hf].
Qed.

Lemma find_other_name nm other before (q : Policy) after :
  name q = nm -> other <> nm ->
  List.find (fun p => String.eqb (name p) other) (before ++ q :: after)
  = List.find (fun p => String.eqb (name p) other) (before ++ after).
Proof.
  intros Hq Ho. induction before as [|x before IH]; cbn [app List.find].
  - rewrite Hq. destruct (String.eqb_spec nm other); [congruence | reflexivity].
  - destruct (String.eqb (name x) other); [reflexivity | exact IH].
Qed.

(** Changes of the rule list at runtime keep its order.  [add_policy]
    puts the rule last, so it never changes the outcome of a request
    that a rule already in the engine decides.  [remove_policy] takes
    out the first rule of the name and no other, and returns [True]
    exactly when [get_policy] finds a rule of that name; the rules of
    other names are found as before, and removing a rule just added
    under a new name gives the engine back. *)
Theorem runtime_changes_keep_order (eng : PolicyEngine) (p : Policy)
    (rule_name : string) (act : ActionType) (target : string) (risk : RiskLevel) :
  (policy (match_ (snd (evaluate eng act target risk))) <> None ->
   match_ (snd (evaluate (add_policy eng p) act target risk))
   = match_ (snd (evaluate eng act target risk)))
  /\ (snd (remove_policy eng rule_name) = true <-> get_policy eng rule_name <> None)
  /\ (forall before q after,
        list_policies eng = before ++ q :: after ->
        name q = rule_name -> Forall (fun x => name x <> rule_name) before ->
        get_policy eng rule_name = Some q
        /\ list_policies (fst (remove_policy eng rule_name)) = before ++ after)
  /\ (forall other, other <> rule_name ->
        get_policy (fst (remove_policy eng rule_name)) other = get_policy eng other)
  /\ (enabled p = true -> get_policy eng (name p) = None ->
      remove_policy (add_policy eng p) (name p) = (eng, true)).
Proof.
  split; [|split; [|split; [|split]]].
  - unfold evaluate, add_policy. cbn [snd match_]. intros H.
    destruct (enabled p); [|reflexivity]. cbn [_policies].
    now apply find_match_app.
  - unfold remove_policy, get_policy.
    pose proof (remove_first_spec rule_name (_policies eng)) as H.
    destruct (remove_first rule_name (_policies eng)) as [l|].
    + destruct H as (before & q & after & _ & _ & _ & _ & ->). cbn [snd].
      split; [discriminate | reflexivity].
    + destruct H as [_ ->]. cbn [snd]. split; [discriminate | congruence].
  - unfold list_policies, remove_policy, get_policy. intros before q after E Hq Hb.
    pose proof (remove_first_spec rule_name (_policies eng)) as H.
    assert (Hf : List.find (fun x => String.eqb (name x) rule_name) (_policies eng)
                 = Some q).
    { rewrite E. clear E H. induction Hb as [|x before Hx _ IH]; cbn [app List.find].
      - rewrite Hq, String.eqb_refl. reflexivity.
      - destruct (String.eqb_spec (name x) rule_name); [contradiction | exact IH]. }
    split; [exact Hf|].
    destruct (remove_first rule_name (_policies eng)) as [l|].
    + destruct H as (b' & q' & a' & E' & -> & Hq' & Hb' & _). cbn [fst _policies].
      rewrite E in E'. clear E Hf.
      revert b' E' Hb'. induction Hb as [|x before Hx _ IH]; intros b' E' Hb'.
      * destruct b' as [|y b']; cbn [app] in *.
        -- now injection E' as _ ->.
        -- injection E' as <- _. apply Forall_cons in Hb' as [Hy _]. contradiction.
      * destruct b' as [|y b']; cbn [app] in *.
        -- injection E' as -> _. contradiction.
        -- injection E' as <- E'. apply Forall_cons in Hb' as [_ Hb'].
           f_equal. now apply IH.
    + destruct H as [_ H]. congruence.
  - intros other Ho. unfold remove_policy, get_policy.
    pose proof (remove_first_spec rule_name (_policies eng)) as H.
    destruct (remove_first rule_name (_policies eng)) as [l|]; [|reflexivity].
    destruct H as (before & q & after & -> & -> & Hq & _). cbn [fst _policies].
    symmetry. now apply find_other_name with (nm := rule_name).
  - intros He Hnone. unfold add_policy, remove_policy, get_policy in *.
    rewrite He. cbn [_policies _evaluation_count].
    assert (R : forall l, List.find (fun x => String.eqb (name x) (name p)) l = None ->
                          remove_first (name p) (l ++ [p]) = Some l).
    { induction l as [|x l IH]; cbn [app remove_first List.find].
      - intros _. now rewrite String.eqb_refl.
      - destruct (String.eqb (name x) (name p)); [discriminate|].
        intros H. now rewrite IH. }
    rewrite (R _ Hnone). now destruct eng.
Qed.

Lemma runtime_changes_keep_order_witness :
  match_ (snd (evaluate (add_policy (new_engine [strict_rule]) lax_rule)
                 FILE_EDIT "src/a/b.ts" HIGH))
  = match_ (snd (evaluate (new_engine [strict_rule]) FILE_EDIT "src/a/b.ts" HIGH))
  /\ remove_policy (add_policy (new_engine [strict_rule]) lax_rule) "lax"
     = (new_engine [strict_rule], true).
Proof.
  destruct (runtime_changes_keep_order (new_engine [strict_rule]) lax_rule "lax"
              FILE_EDIT "src/a/b.ts" HIGH) as (H1 & _ & _ & _ & H5).
  split.
  - apply H1. vm_compute. discriminate.
  - apply H5; reflexivity.
Defined.

End PolicyRuntimeProps.
